(** * DEMONS-SLAYER: the task scheduler of [server.js]

    A shallow embedding of the first program of [src/server.js] (the
    variant with the admission queue, [MAX_CONCURRENT_TASKS] and the
    [isStopped] flag): its string helpers, [enhanceMessage],
    [parseCookies], the HTTP handlers that create, query and stop tasks,
    [processTask] and [processTaskQueue].

    Conventions.
    - A JavaScript string is the list of its UTF-16 code units, so that
      [length] is the [.length] of the source.
    - JavaScript numbers that hold counters are integers of [Z]; the
      rounding of doubles is not modelled.
    - [Math.random()] is a deterministic generator with hidden state: here
      a stream of rationals together with the number of draws made so far.
    - Task objects live in a heap and the registry [tasks] maps an
      identifier to a reference: a running [processTask] keeps its own
      reference to the object it was started on.
    - The program is single-threaded: a state of the model is a state
      between two turns of the event loop, and an event is an HTTP
      request, the cleanup timer, or what wakes a [processTask] suspended
      at an [await]: the result of [sendFacebookMessage], a timer, or an
      exception.
    - [sendFacebookMessage] drives a browser; of a call the model keeps
      its arguments, its boolean result and the lines it logs.

    Left out: the pages and static files the server sends, the upload
    endpoint, the rate limiter (an event is a request that reaches its
    handler), and the [catch] of the handlers that answers 500, but for
    the one of [/api/start-task], which [start_task_request] has. The second program of [server.js] and the variants under
    [unnamed/] and [index.js] are referred to where their code differs
    on a property stated here; of [unnamed/part_002] the module
    [Part002] embeds [enhanceMessage], and of [index.js] the module
    [IndexJs] the arithmetic of its loop. *)

From Stdlib Require Import ZArith QArith Qround Lia Lqa Ascii.
From stdpp Require Import gmap list strings pretty.

Close Scope Q_scope.
Open Scope Z_scope.

(** ** JavaScript strings *)

Abbreviation jsstring := (list N).

(** A literal of the source, all of whose characters are ASCII. *)
Definition js (s : string) : jsstring :=
  (fun a => N_of_ascii a) <$> String.list_ascii_of_string s.

(** [`${n}`] for an integer-valued number. *)
Definition decimal (n : Z) : jsstring := js (pretty n).

(** The characters matched by [\s], which are also those [trim] strips. *)
Definition isWhiteSpace (c : N) : bool :=
  ((9 <=? c) && (c <=? 13) || (c =? 32) || (c =? 160) || (c =? 5760)
   || (8192 <=? c) && (c <=? 8202) || (c =? 8232) || (c =? 8233)
   || (c =? 8239) || (c =? 8287) || (c =? 12288) || (c =? 65279))%N.

Fixpoint trimStart (s : jsstring) : jsstring :=
  match s with
  | c :: s' => if isWhiteSpace c then trimStart s' else s
  | [] => []
  end.

Definition trimEnd (s : jsstring) : jsstring := rev (trimStart (rev s)).

Definition trim (s : jsstring) : jsstring := trimEnd (trimStart s).

(** Truthiness of a string: only the empty string is falsy. *)
Definition truthy (s : jsstring) : bool :=
  match s with [] => false | _ => true end.

(** [s.split(/\s+/)]: [skip] holds while a run of white space is being
    consumed. A leading or trailing run leaves an empty first or last
    element, as in JavaScript. *)
Fixpoint split_ws (skip : bool) (s : jsstring) : list jsstring :=
  match s with
  | [] => [[]]
  | c :: s' =>
      if isWhiteSpace c then
        if skip then split_ws true s' else [] :: split_ws true s'
      else
        match split_ws false s' with
        | w :: ws => (c :: w) :: ws
        | [] => [[c]]
        end
  end.

(** [s.split(sep)] for a separator of one code unit. *)
Fixpoint split_on (sep : N) (s : jsstring) : list jsstring :=
  match s with
  | [] => [[]]
  | c :: s' =>
      if (c =? sep)%N then [] :: split_on sep s'
      else
        match split_on sep s' with
        | w :: ws => (c :: w) :: ws
        | [] => [[c]]
        end
  end.

(** [parts.join(sep)]. *)
Fixpoint join (sep : jsstring) (parts : list jsstring) : jsstring :=
  match parts with
  | [] => []
  | [w] => w
  | w :: ws => w ++ sep ++ join sep ws
  end.

Fixpoint startsWith (s p : jsstring) : bool :=
  match p, s with
  | [], _ => true
  | a :: p', b :: s' => (a =? b)%N && startsWith s' p'
  | _ :: _, [] => false
  end.

(** [s.includes(c)] for one code unit. *)
Definition includes (s : jsstring) (c : N) : bool :=
  existsb (fun d => (d =? c)%N) s.

Definition eqb_js (a b : jsstring) : bool := bool_decide (a = b).

(** [type.toUpperCase()] on the ASCII letters. *)
Definition toUpperCase (s : jsstring) : jsstring :=
  (fun c => if ((97 <=? c) && (c <=? 122))%N then (c - 32)%N else c) <$> s.

(** ** Math.random *)

Record RNG := mkRNG { stream : nat -> Q; drawn : nat }.

Definition Rand (A : Type) : Type := RNG -> A * RNG.

Definition retR {A} (a : A) : Rand A := fun g => (a, g).

Definition bindR {A B} (m : Rand A) (k : A -> Rand B) : Rand B :=
  fun g => let (a, g') := m g in k a g'.

Notation "'let*' x ':=' m 'in' k" := (bindR m (fun x => k))
  (at level 10, x name, m at level 100, k at level 200).

Definition Math_random : Rand Q :=
  fun g => (stream g (drawn g), mkRNG (stream g) (S (drawn g))).

Definition Qltb (x y : Q) : bool := negb (Qle_bool y x).

(** ** Emoji *)

Definition EMOJI_RANGES : list (Z * Z) :=
  [ (0x1F600, 0x1F64F); (0x1F300, 0x1F5FF); (0x1F680, 0x1F6FF);
    (0x1F1E6, 0x1F1FF); (0x2600, 0x26FF); (0x2700, 0x27BF);
    (0x1F900, 0x1F9FF); (0x1FA70, 0x1FAFF); (0x1F400, 0x1F4FF);
    (0x1F500, 0x1F5FF) ].

(** [String.fromCodePoint]: one code unit in the basic plane, a surrogate
    pair above it. *)
Definition fromCodePoint (cp : Z) : jsstring :=
  if cp <? 0x10000 then [Z.to_N cp]
  else [Z.to_N (0xD800 + (cp - 0x10000) / 0x400);
        Z.to_N (0xDC00 + (cp - 0x10000) mod 0x400)].

Definition getRandomEmoji : Rand jsstring :=
  let* r1 := Math_random in
  let range :=
    nth (Z.to_nat (Qfloor (r1 * inject_Z (Z.of_nat (length EMOJI_RANGES)))))
        EMOJI_RANGES (0, 0) in
  let* r2 := Math_random in
  let codePoint :=
    Qfloor (r2 * inject_Z (snd range - fst range + 1)) + fst range in
  retR (fromCodePoint codePoint).

(** ** enhanceMessage *)

(** The loop over [words]: every word is pushed, and an emoji after it
    with one chance in four unless the word is the last one. The draw
    comes first in the source's conjunction, so it is made for the last
    word too. *)
Fixpoint enhance_words (words : list jsstring) : Rand (list jsstring) :=
  match words with
  | [] => retR []
  | w :: rest =>
      let* r := Math_random in
      let* e := (if Qltb r (1 # 4) && negb (bool_decide (rest = []))
                 then let* e := getRandomEmoji in retR [e]
                 else retR []) in
      let* tl := enhance_words rest in
      retR (w :: e ++ tl)
  end.

Definition maybe_emoji (threshold : Q) : Rand (list jsstring) :=
  let* r := Math_random in
  if Qltb r threshold then let* e := getRandomEmoji in retR [e]
  else retR [].

Definition enhanceMessage (message : jsstring) : Rand jsstring :=
  if negb (truthy message) || negb (truthy (trim message)) then retR message
  else
    let words := split_ws false (trim message) in
    let* first := maybe_emoji (4 # 10) in
    let* middle := enhance_words words in
    let* last := maybe_emoji (4 # 10) in
    retR (join (js " ") (first ++ middle ++ last)).

(** ** enhanceMessage, as the program with the socket server has it

    That program ([src/unnamed/part_002]) splits the message at single
    spaces and does not trim it. An index outside the table gives
    [undefined], which [join] prints as the empty string and a template
    as [undefined]. *)

Module Part002.

Definition emojis : list jsstring :=
  fromCodePoint <$>
  [0x1F60A; 0x1F44D; 0x1F680; 0x1F4AC; 0x2728; 0x1F525; 0x2B50; 0x1F3AF;
   0x1F4A5; 0x1F31F].

(** [emojis[Math.floor(Math.random() * emojis.length)]] *)
Definition pick : Rand (option jsstring) :=
  let* x := Math_random in
  let i := Qfloor (x * inject_Z (Z.of_nat (length emojis))) in
  retR (if i <? 0 then None else emojis !! Z.to_nat i).

(** One element of an array, as [join] prints it. *)
Definition joined (e : option jsstring) : jsstring := default [] e.

(** An interpolation of a template. *)
Definition interpolated (e : option jsstring) : jsstring :=
  default (js "undefined") e.

Fixpoint enhance_words (words : list jsstring) : Rand (list jsstring) :=
  match words with
  | [] => retR []
  | w :: rest =>
      let* x := Math_random in
      let* e := (if Qltb x (3 # 10) && negb (bool_decide (rest = []))
                 then let* e := pick in retR [joined e]
                 else retR []) in
      let* tl := enhance_words rest in
      retR (w :: e ++ tl)
  end.

Definition maybe (threshold : Q) : Rand (list jsstring) :=
  let* x := Math_random in
  if Qltb x threshold then let* e := pick in retR [joined e]
  else retR [].

Definition enhanceMessage (message : jsstring) : Rand jsstring :=
  if negb (truthy message) || negb (truthy (trim message)) then retR message
  else
    let words := split_on 32%N message in
    if (length words <=? 1)%nat then
      let* randomEmoji := pick in
      retR (interpolated randomEmoji ++ js " " ++ message ++ js " "
            ++ interpolated randomEmoji)
    else
      let* enhancedWords := enhance_words words in
      let* first := maybe (4 # 10) in
      let* last := maybe (4 # 10) in
      retR (join (js " ") (first ++ enhancedWords ++ last)).

End Part002.

(** ** Cookies *)

Record Cookie := mkCookie {
  name : jsstring; value : jsstring; domain : jsstring; path : jsstring;
  secure : bool; httpOnly : bool }.

(** One line of the cookie text, after [trim]: comments and lines without
    [=] give nothing. *)
Definition parseCookieLine (line : jsstring) : list Cookie :=
  let trimmed := trim line in
  if negb (truthy trimmed) || startsWith trimmed (js "#")
     || startsWith trimmed (js "//") then []
  else if includes trimmed 61%N then
    match split_on 61%N trimmed with
    | name :: valueParts =>
        let value := join (js "=") valueParts in
        if truthy (trim name) && truthy (trim value) then
          let cookieValue := trim (hd [] (split_on 59%N value)) in
          [ {| name := trim name; value := cookieValue;
               domain := js ".facebook.com"; path := js "/"; secure := true;
               httpOnly := bool_decide
                 (trim name ∈ [js "c_user"; js "xs"; js "fr"; js "datr"]) |} ]
        else []
    | [] => []
    end
  else [].

(** The first cookie of every name is kept. *)
Fixpoint removeDuplicates (seen : list jsstring) (cookies : list Cookie)
  : list Cookie :=
  match cookies with
  | [] => []
  | cookie :: rest =>
      if bool_decide (name cookie ∈ seen) then removeDuplicates seen rest
      else cookie :: removeDuplicates (name cookie :: seen) rest
  end.

Definition parseCookies (cookieString : jsstring) : list Cookie :=
  if negb (truthy cookieString) || negb (truthy (trim cookieString)) then []
  else
    removeDuplicates [] (concat (parseCookieLine <$> split_on 10%N cookieString)).

(** [text.split('\n').map(x => x.trim()).filter(x => x.length > 0)] *)
Definition nonEmptyLines (text : jsstring) : list jsstring :=
  filter (fun l => l ≠ []) (trim <$> split_on 10%N text).

(** ** Tasks *)

Module Task.

Record t := mk {
  id : jsstring;
  status : jsstring;
  progress : Z;
  total : Z;
  completed : Z;
  success : Z;
  failed : Z;
  startTime : Z;
  cookies : list Cookie;
  messages : list jsstring;
  conversations : list jsstring;
  batch_count : Z;
  batch_delay : Z;
  time_delay : Z;
  isStopped : bool;
  user_id : jsstring }.

Definition set_status (v : jsstring) (x : t) : t :=
  mk (id x) v (progress x) (total x) (completed x) (success x) (failed x)
     (startTime x) (cookies x) (messages x) (conversations x)
     (batch_count x) (batch_delay x) (time_delay x) (isStopped x) (user_id x).

Definition set_isStopped (v : bool) (x : t) : t :=
  mk (id x) (status x) (progress x) (total x) (completed x) (success x)
     (failed x) (startTime x) (cookies x) (messages x) (conversations x)
     (batch_count x) (batch_delay x) (time_delay x) v (user_id x).

(** [Math.round((completed / total) * 100)], on exact rationals. *)
Definition percent (completed total : Z) : Z :=
  if total =? 0 then 0 else (200 * completed + total) / (2 * total).

(** The update that follows a delivery: [task.completed++], the new
    [progress], then [task.success++] or [task.failed++]. *)
Definition count (ok : bool) (x : t) : t :=
  mk (id x) (status x) (percent (completed x + 1) (total x)) (total x)
     (completed x + 1)
     (if ok then success x + 1 else success x)
     (if ok then failed x else failed x + 1)
     (startTime x) (cookies x) (messages x) (conversations x)
     (batch_count x) (batch_delay x) (time_delay x) (isStopped x) (user_id x).

End Task.

(** The status strings of the source. *)
Definition queued : jsstring := js "queued".
Definition running : jsstring := js "running".
Definition completed : jsstring := js "completed".
Definition stopped : jsstring := js "stopped".
Definition error : jsstring := js "error".

(** ** Global state *)

Definition MAX_CONCURRENT_TASKS : Z := 40.
Definition MAX_TASKS_PER_USER : Z := 10.

(** Where a suspended [processTask] waits. *)
Inductive Await :=
  | AwaitSend    (* await sendFacebookMessage(...) *)
  | AwaitDelay   (* await wait(task.time_delay * 1000) *)
  | AwaitBatch.  (* await wait(task.batch_delay * 1000) *)

(** A suspended call of [processTask]: its argument, the object [task]
    refers to, and the position of the three loops. [p_convs] and [p_msgs]
    are the elements the iterators have not yet produced. *)
Record Proc := mkProc {
  p_taskId : jsstring;
  p_task : nat;
  p_batch : Z;
  p_conversation : jsstring;
  p_convs : list jsstring;
  p_msgs : list jsstring;
  p_await : Await }.

(** One call of [sendFacebookMessage]: the task object it was made for,
    the conversation and the enhanced message. *)
Record Call := mkCall {
  c_task : nat; c_conversation : jsstring; c_message : jsstring }.

Record State := mkState {
  heap : list Task.t;                   (* the task objects ever created *)
  tasks : gmap (list N) nat;            (* const tasks = new Map() *)
  logs : gmap (list N) (list jsstring); (* const logs = new Map() *)
  taskQueue : list jsstring;
  activeTasks : Z;
  procs : list (option Proc);           (* calls of processTask; None: returned *)
  calls : list Call;                    (* calls of sendFacebookMessage so far *)
  random : RNG }.

Definition set_heap (v : list Task.t) (s : State) : State :=
  mkState v (tasks s) (logs s) (taskQueue s) (activeTasks s) (procs s)
          (calls s) (random s).
Definition set_tasks (v : gmap (list N) nat) (s : State) : State :=
  mkState (heap s) v (logs s) (taskQueue s) (activeTasks s) (procs s)
          (calls s) (random s).
Definition set_logs (v : gmap (list N) (list jsstring)) (s : State) : State :=
  mkState (heap s) (tasks s) v (taskQueue s) (activeTasks s) (procs s)
          (calls s) (random s).
Definition set_taskQueue (v : list jsstring) (s : State) : State :=
  mkState (heap s) (tasks s) (logs s) v (activeTasks s) (procs s)
          (calls s) (random s).
Definition set_activeTasks (v : Z) (s : State) : State :=
  mkState (heap s) (tasks s) (logs s) (taskQueue s) v (procs s)
          (calls s) (random s).
Definition set_procs (v : list (option Proc)) (s : State) : State :=
  mkState (heap s) (tasks s) (logs s) (taskQueue s) (activeTasks s) v
          (calls s) (random s).
Definition set_calls (v : list Call) (s : State) : State :=
  mkState (heap s) (tasks s) (logs s) (taskQueue s) (activeTasks s) (procs s)
          v (random s).
Definition set_random (v : RNG) (s : State) : State :=
  mkState (heap s) (tasks s) (logs s) (taskQueue s) (activeTasks s) (procs s)
          (calls s) v.

Definition initial (g : RNG) : State :=
  mkState [] ∅ ∅ [] 0 [] [] g.

(** A mutation of the task object behind reference [r]. *)
Definition update (r : nat) (f : Task.t -> Task.t) (s : State) : State :=
  set_heap (alter f r (heap s)) s.

(** [tasks.set(taskId, task)] *)
Definition tasks_set (taskId : jsstring) (r : nat) (s : State) : State :=
  set_tasks (<[taskId := r]> (tasks s)) s.

(** [tasks.get(taskId)]: the object, when the key is present. *)
Definition tasks_get (taskId : jsstring) (s : State) : option (nat * Task.t) :=
  match tasks s !! taskId with
  | Some r => match heap s !! r with Some x => Some (r, x) | None => None end
  | None => None
  end.

(** What a handler reads of the clock: the time in milliseconds and the
    text [toLocaleTimeString] gives for it. *)
Record Clock := mkClock { now : Z; timeString : jsstring }.

Definition addLog (clk : Clock) (taskId message type : jsstring) (s : State)
  : State :=
  let logEntry := js "[" ++ timeString clk ++ js "] " ++ message in
  let taskLogs :=
    default [] (logs s !! taskId)
    ++ [js "[" ++ toUpperCase type ++ js "] " ++ logEntry] in
  let taskLogs := if 500 <? Z.of_nat (length taskLogs) then tail taskLogs
                  else taskLogs in
  set_logs (<[taskId := taskLogs]> (logs s)) s.

(** ** processTask *)

(** A stretch of [processTask] between two suspensions ends either at the
    next [await] or with the return of the call. *)
Inductive Next :=
  | Suspend (p : Proc)
  | Return.

Definition isStopped_at (r : nat) (s : State) : bool :=
  match heap s !! r with Some x => Task.isStopped x | None => false end.

Definition field {A} (f : Task.t -> A) (d : A) (r : nat) (s : State) : A :=
  match heap s !! r with Some x => f x | None => d end.

Section processTask.

Variable clk : Clock.
(** The call [processTaskQueue()] of the [finally] block. *)
Variable processTaskQueue : State -> State.
Variable taskId : jsstring.
Variable r : nat.

(** [finally { activeTasks--; tasks.set(taskId, task); processTaskQueue(); }] *)
Definition finally (s : State) : State * Next :=
  (processTaskQueue
     (tasks_set taskId r (set_activeTasks (activeTasks s - 1) s)), Return).

(** The statements after the loops. *)
Definition finalize (s : State) : State * Next :=
  if negb (isStopped_at r s) then
    let s := update r (Task.set_status completed) s in
    finally
      (addLog clk taskId
         ([226; 339; 8230]%N ++ js " Task completed! Success: "
          ++ decimal (field Task.success 0 r s) ++ js ", Failed: "
          ++ decimal (field Task.failed 0 r s))
         (js "success") s)
  else
    let s := update r (Task.set_status stopped) s in
    finally
      (addLog clk taskId ([226; 185; 239; 184]%N ++ js " Task stopped")
         (js "warning") s).

(** [catch (error) { task.status = 'error'; addLog(...) }] and [finally]. *)
Definition catch (message : jsstring) (s : State) : State * Next :=
  let s := update r (Task.set_status error) s in
  finally
    (addLog clk taskId ([226; 338]%N ++ js " Task error: " ++ message)
       (js "error") s).

(** The body of the innermost loop up to its [await]: the message is
    enhanced and [sendFacebookMessage] is called, which writes its first
    log line before it suspends. *)
Definition send (batch : Z) (conversation : jsstring) (convs : list jsstring)
    (message : jsstring) (msgs : list jsstring) (s : State) : State * Next :=
  let (enhancedMessage, g) := enhanceMessage message (random s) in
  let s := set_random g s in
  let s := set_calls (calls s ++ [mkCall r conversation enhancedMessage]) s in
  let s := addLog clk taskId (js "Launching browser for " ++ conversation)
             (js "info") s in
  (s, Suspend (mkProc taskId r batch conversation convs msgs AwaitSend)).

(** [for (const conversation of task.conversations)], from the
    conversations the iterator has still to give; [after] is what
    follows the loop. An inner [break] leads to the next conversation,
    where the flag is read again. *)
Fixpoint for_conversations (batch : Z) (after : State -> State * Next)
    (convs : list jsstring) (s : State) : State * Next :=
  match convs with
  | [] => after s
  | conversation :: convs' =>
      if isStopped_at r s then after s
      else
        match field Task.messages [] r s with
        | [] => for_conversations batch after convs' s
        | message :: msgs =>
            if isStopped_at r s then for_conversations batch after convs' s
            else send batch conversation convs' message msgs s
        end
  end.

(** [for (const message of task.messages)], resumed inside conversation
    [conversation] with the messages still to come. *)
Definition for_messages (batch : Z) (after : State -> State * Next)
    (conversation : jsstring) (convs msgs : list jsstring) (s : State)
  : State * Next :=
  match msgs with
  | [] => for_conversations batch after convs s
  | message :: msgs' =>
      if isStopped_at r s then for_conversations batch after convs s
      else send batch conversation convs message msgs' s
  end.

(** The end of a batch: the delay between batches, or the next turn of
    the outer loop. *)
Definition batch_end (batch : Z) (next : State -> State * Next) (s : State)
  : State * Next :=
  if (batch <? field Task.batch_count 0 r s - 1) && negb (isStopped_at r s)
  then
    (addLog clk taskId
       (js "Waiting " ++ decimal (field Task.batch_delay 0 r s)
        ++ js "s for next batch") (js "info") s,
     Suspend (mkProc taskId r batch [] [] [] AwaitBatch))
  else next s.

(** [for (let batch = ...; batch < task.batch_count; batch++)] entered
    with [n] turns left, that is [n = batch_count - batch]. *)
Fixpoint for_batches (n : nat) (batch : Z) (s : State) : State * Next :=
  match n with
  | O => finalize s
  | S n' =>
      if isStopped_at r s then finalize s
      else
        let s := addLog clk taskId
                   (js "Batch " ++ decimal (batch + 1) ++ js "/"
                    ++ decimal (field Task.batch_count 0 r s))
                   (js "info") s in
        for_conversations batch
          (batch_end batch (for_batches n' (batch + 1)))
          (field Task.conversations [] r s) s
  end.

Definition turns_left (batch : Z) (s : State) : nat :=
  Z.to_nat (field Task.batch_count 0 r s - batch).

Definition batches_from (batch : Z) (s : State) : State * Next :=
  for_batches (turns_left batch s) batch s.

(** The entry of [processTask], after [tasks.get] found the object. *)
Definition processTask_enter (s : State) : State * Next :=
  let s := update r (Task.set_status running) s in
  let s := set_activeTasks (activeTasks s + 1) s in
  let s := tasks_set taskId r s in
  let s := addLog clk taskId (js "Task started processing") (js "info") s in
  batches_from 0 s.

End processTask.

(** What wakes a suspended [processTask]. *)
Inductive Signal :=
  | Settled (success : bool) (agentLog : list (jsstring * jsstring))
      (* sendFacebookMessage resolved; the lines it logged meanwhile *)
  | Elapsed
      (* the timer of wait(...) fired *)
  | Thrown (message : jsstring).
      (* an exception reaches the catch block of processTask *)

Section resume.

Variable clk : Clock.
Variable processTaskQueue : State -> State.

Definition after_batch (taskId : jsstring) (r : nat) (batch : Z)
  : State -> State * Next :=
  batch_end clk taskId r batch
    (batches_from clk processTaskQueue taskId r (batch + 1)).

(** The statements between the return of [sendFacebookMessage] and the
    test that follows: the counters, then [tasks.set(taskId, task)]. The
    lines the agent logged while it worked are entered first. *)
Definition settled (taskId : jsstring) (r : nat) (success : bool)
    (agentLog : list (jsstring * jsstring)) (s : State) : State :=
  let s := foldl (fun s l => addLog clk taskId l.1 l.2 s) s agentLog in
  let s := update r (Task.count success) s in
  tasks_set taskId r s.

Definition resume (p : Proc) (sig : Signal) (s : State)
  : option (State * Next) :=
  let taskId := p_taskId p in
  let r := p_task p in
  match sig, p_await p with
  | Settled success agentLog, AwaitSend =>
      let s := settled taskId r success agentLog s in
      if (field Task.completed 0 r s <? field Task.total 0 r s)
         && negb (isStopped_at r s)
      then Some (s, Suspend (mkProc taskId r (p_batch p) (p_conversation p)
                               (p_convs p) (p_msgs p) AwaitDelay))
      else Some (for_messages clk taskId r (p_batch p)
                   (after_batch taskId r (p_batch p))
                   (p_conversation p) (p_convs p) (p_msgs p) s)
  | Elapsed, AwaitDelay =>
      Some (for_messages clk taskId r (p_batch p)
              (after_batch taskId r (p_batch p))
              (p_conversation p) (p_convs p) (p_msgs p) s)
  | Elapsed, AwaitBatch =>
      Some (batches_from clk processTaskQueue taskId r (p_batch p + 1) s)
  | Thrown message, _ =>
      Some (catch clk processTaskQueue taskId r message s)
  | _, _ => None
  end.

End resume.

(** ** processTaskQueue *)

(** [processTask(taskId)] as [processTaskQueue] calls it: it runs up to
    its first [await], and the suspended call joins [procs]. *)
Definition processTask (clk : Clock) (processTaskQueue : State -> State)
    (taskId : jsstring) (s : State) : State :=
  match tasks_get taskId s with
  | None => s
  | Some (r, _) =>
      match processTask_enter clk processTaskQueue taskId r s with
      | (s, Suspend p) => set_procs (procs s ++ [Some p]) s
      | (s, Return) => s
      end
  end.

(** The loop of [processTaskQueue]. Every turn shifts the queue, so [n],
    the length of the queue on entry, bounds the number of turns; the
    nested call made by a [processTask] that returns at once runs on the
    shorter queue. *)
Fixpoint processTaskQueue_loop (clk : Clock) (n : nat) (s : State) : State :=
  match n with
  | O => s
  | S n' =>
      if activeTasks s <? MAX_CONCURRENT_TASKS then
        match taskQueue s with
        | [] => s
        | taskId :: rest =>
            let s := set_taskQueue rest s in
            let s :=
              match tasks_get taskId s with
              | Some (_, task) =>
                  if bool_decide (Task.status task = queued)
                     && negb (Task.isStopped task)
                  then processTask clk (processTaskQueue_loop clk n') taskId s
                  else s
              | None => s
              end in
            processTaskQueue_loop clk n' s
        end
      else s
  end.

Definition processTaskQueue (clk : Clock) (s : State) : State :=
  processTaskQueue_loop clk (length (taskQueue s)) s.

(** ** The HTTP handlers *)

(** [req.body] of [/api/start-task]. The three numeric fields hold what
    [parseInt] makes of them, [None] for [NaN]. *)
Module Body.
Record t := mk {
  cookies : jsstring;
  messages : jsstring;
  conversation_id : jsstring;
  batch_count : option Z;
  batch_delay : option Z;
  time_delay : option Z;
  user_id : jsstring }.
End Body.

(** The public fields of a task, as [/api/task/:taskId] sends them. *)
Record TaskView := mkTaskView {
  v_id : jsstring; v_status : jsstring; v_progress : Z; v_total : Z;
  v_completed : Z; v_success : Z; v_failed : Z; v_startTime : Z;
  v_isStopped : bool; v_user_id : jsstring }.

Inductive Reply :=
  | Failure (httpStatus : Z) (error : jsstring)
  | TaskQueued (taskId : jsstring)
      (totalOperations batchCount batchDelay timeDelay positionInQueue : Z)
  | TaskInfo (task : TaskView)
  | LogLines (logs : list jsstring)
  | TaskStopped (message : jsstring)
  | AllStopped (stoppedCount : Z).

(** The [success] field of the JSON answer. *)
Definition success (rep : Reply) : bool :=
  match rep with Failure _ _ => false | _ => true end.

Definition generateTaskId : Rand jsstring :=
  let* x := Math_random in
  let randomNum := Qfloor (inject_Z 1000 + x * inject_Z 9000) in
  retR (js "h4rsh_" ++ decimal randomNum).

(** [Math.min(Math.max(1, parseInt(x) || fallback), hi)] *)
Definition clamp (parsed : option Z) (fallback hi : Z) : Z :=
  let v := match parsed with
           | Some n => if n =? 0 then fallback else n
           | None => fallback
           end in
  Z.min (Z.max 1 v) hi.

(** The task objects the registry holds. *)
Definition registered (s : State) : list Task.t :=
  omap (fun e => heap s !! e.2) (map_to_list (tasks s)).

(** The object [/api/start-task] creates once the body has passed the
    checks. *)
Definition new_task (clk : Clock) (body : Body.t) (taskId : jsstring)
  : Task.t :=
  let parsedCookies := parseCookies (Body.cookies body) in
  let messageList := nonEmptyLines (Body.messages body) in
  let conversationList := nonEmptyLines (Body.conversation_id body) in
  let batchCount := clamp (Body.batch_count body) 1 100 in
  let batchDelay := clamp (Body.batch_delay body) 5 300 in
  let timeDelay := clamp (Body.time_delay body) 10 600 in
  let totalOperations :=
    batchCount * Z.of_nat (length messageList)
    * Z.of_nat (length conversationList) in
  Task.mk taskId queued 0 totalOperations 0 0 0 (now clk)
    parsedCookies messageList conversationList
    batchCount batchDelay timeDelay false (Body.user_id body).

(** The second half of [/api/start-task]: the new object enters the
    registry, its log is opened, the identifier joins the queue and
    [processTaskQueue] is called. *)
Definition enqueue_task (clk : Clock) (task : Task.t) (s : State) : State :=
  let taskId := Task.id task in
  let r := length (heap s) in
  let s := set_heap (heap s ++ [task]) s in
  let s := tasks_set taskId r s in
  let s := set_logs (<[taskId := []]> (logs s)) s in
  let s := addLog clk taskId (js "Task created and queued") (js "info") s in
  let s := addLog clk taskId
             (js "Cookies: " ++ decimal (Z.of_nat (length (Task.cookies task))))
             (js "info") s in
  let s := addLog clk taskId
             (js "Messages: " ++ decimal (Z.of_nat (length (Task.messages task))))
             (js "info") s in
  let s := addLog clk taskId
             (js "Conversations: "
              ++ decimal (Z.of_nat (length (Task.conversations task))))
             (js "info") s in
  let s := addLog clk taskId
             (js "Total operations: " ++ decimal (Task.total task))
             (js "info") s in
  let s := set_taskQueue (taskQueue s ++ [taskId]) s in
  processTaskQueue clk s.

(** [POST /api/start-task] *)
Definition start_task (clk : Clock) (body : Body.t) (s : State)
  : State * Reply :=
  if negb (truthy (Body.cookies body))
     || negb (truthy (trim (Body.cookies body))) then
    (s, Failure 400 (js "Cookies are required"))
  else if negb (truthy (Body.messages body))
          || negb (truthy (trim (Body.messages body))) then
    (s, Failure 400 (js "Messages are required"))
  else if negb (truthy (Body.conversation_id body))
          || negb (truthy (trim (Body.conversation_id body))) then
    (s, Failure 400 (js "Conversation ID is required"))
  else
    let userTaskCount :=
      length (filter (fun x => Task.user_id x = Body.user_id body
                               /\ Task.status x = running) (registered s)) in
    if MAX_TASKS_PER_USER <=? Z.of_nat userTaskCount then
      (s, Failure 429 (js "Maximum 10 tasks per user allowed"))
    else
      let (taskId, g) := generateTaskId (random s) in
      let s := set_random g s in
      let parsedCookies := parseCookies (Body.cookies body) in
      let messageList := nonEmptyLines (Body.messages body) in
      let conversationList := nonEmptyLines (Body.conversation_id body) in
      if bool_decide (parsedCookies = []) then
        (s, Failure 400 (js "No valid cookies found. Format: name=value"))
      else if bool_decide (messageList = []) then
        (s, Failure 400 (js "No valid messages found"))
      else if bool_decide (conversationList = []) then
        (s, Failure 400 (js "No valid conversation IDs found"))
      else
        let task := new_task clk body taskId in
        let s := enqueue_task clk task s in
        (s, TaskQueued taskId (Task.total task) (Task.batch_count task)
              (Task.batch_delay task) (Task.time_delay task)
              (Z.of_nat (length (taskQueue s)))).

Definition view (x : Task.t) : TaskView :=
  mkTaskView (Task.id x) (Task.status x) (Task.progress x) (Task.total x)
    (Task.completed x) (Task.success x) (Task.failed x) (Task.startTime x)
    (Task.isStopped x) (Task.user_id x).

(** [GET /api/task/:taskId] *)
Definition get_task (taskId : jsstring) (s : State) : Reply :=
  match tasks_get taskId s with
  | None => Failure 404 (js "Task not found")
  | Some (_, task) => TaskInfo (view task)
  end.

(** [GET /api/logs/:taskId]: [(logs.get(taskId) || []).slice(-100)] *)
Definition get_logs (taskId : jsstring) (s : State) : Reply :=
  let taskLogs := default [] (logs s !! taskId) in
  LogLines (drop (length taskLogs - 100)%nat taskLogs).

(** [taskQueue.splice(taskQueue.indexOf(taskId), 1)] when the index is
    not [-1]. *)
Fixpoint remove_first (taskId : jsstring) (q : list jsstring) : list jsstring :=
  match q with
  | [] => []
  | x :: q' => if bool_decide (x = taskId) then q' else x :: remove_first taskId q'
  end.

Definition stop (x : Task.t) : Task.t :=
  Task.set_status stopped (Task.set_isStopped true x).

(** [POST /api/stop-task/:taskId] *)
Definition stop_task (clk : Clock) (taskId : jsstring) (s : State)
  : State * Reply :=
  match tasks_get taskId s with
  | None => (s, Failure 404 (js "Task not found"))
  | Some (r, _) =>
      let s := update r stop s in
      let s := tasks_set taskId r s in
      let s := set_taskQueue (remove_first taskId (taskQueue s)) s in
      let s := addLog clk taskId (js "Task stopped by user") (js "warning") s in
      (s, TaskStopped (js "Task " ++ taskId ++ js " stopped successfully"))
  end.

(** One turn of the loop of [/api/stop-all-tasks]. *)
Definition stop_all_entry (clk : Clock) (acc : State * Z) (e : list N * nat)
  : State * Z :=
  let (s, stoppedCount) := acc in
  match heap s !! e.2 with
  | Some task =>
      if bool_decide (Task.status task = running)
         || bool_decide (Task.status task = queued)
      then
        let s := update e.2 stop s in
        let s := tasks_set e.1 e.2 s in
        (addLog clk e.1 (js "Task stopped via stop-all") (js "warning") s,
         stoppedCount + 1)
      else acc
  | None => acc
  end.

(** [POST /api/stop-all-tasks] *)
Definition stop_all_tasks (clk : Clock) (s : State) : State * Reply :=
  let (s', stoppedCount) :=
    foldl (stop_all_entry clk) (s, 0) (map_to_list (tasks s)) in
  (set_activeTasks 0 (set_taskQueue [] s'), AllStopped stoppedCount).

(** One turn of the loop of the cleanup timer. *)
Definition cleanup_entry (clk : Clock) (s : State) (e : list N * nat) : State :=
  match heap s !! e.2 with
  | Some task =>
      if (Task.startTime task <? now clk - 24 * 60 * 60 * 1000)
         && negb (bool_decide (Task.status task = running))
      then set_logs (delete e.1 (logs s)) (set_tasks (delete e.1 (tasks s)) s)
      else s
  | None => s
  end.

Definition cleanup (clk : Clock) (s : State) : State :=
  foldl (cleanup_entry clk) s (map_to_list (tasks s)).

(** ** The event loop *)

Inductive Event :=
  | StartTask (body : Body.t)
  | GetTask (taskId : jsstring)
  | GetLogs (taskId : jsstring)
  | StopTask (taskId : jsstring)
  | StopAllTasks
  | Wake (pid : nat) (sig : Signal)
  | CleanupTimer.

(** A suspended [processTask] is woken: it leaves the suspended calls,
    runs to its next [await] or to its return, and in the first case takes
    its place again. *)
Definition wake (clk : Clock) (pid : nat) (sig : Signal) (s : State)
  : option State :=
  match procs s !! pid with
  | Some (Some p) =>
      match resume clk (processTaskQueue clk) p sig
              (set_procs (<[pid := None]> (procs s)) s) with
      | Some (s, Suspend p') => Some (set_procs (<[pid := Some p']> (procs s)) s)
      | Some (s, Return) => Some s
      | None => None
      end
  | _ => None
  end.

(** One turn of the event loop; [None] when the event cannot occur. *)
Definition step (clk : Clock) (e : Event) (s : State) : option State :=
  match e with
  | StartTask body => Some (start_task clk body s).1
  | GetTask _ | GetLogs _ => Some s
  | StopTask taskId => Some (stop_task clk taskId s).1
  | StopAllTasks => Some (stop_all_tasks clk s).1
  | Wake pid sig => wake clk pid sig s
  | CleanupTimer => Some (cleanup clk s)
  end.

(** A run of the server: every event comes with the clock it finds. *)
Fixpoint run (evs : list (Clock * Event)) (s : State) : option State :=
  match evs with
  | [] => Some s
  | (clk, e) :: evs' =>
      match step clk e s with
      | Some s' => run evs' s'
      | None => None
      end
  end.

Definition reachable (s : State) : Prop :=
  exists g evs, run evs (initial g) = Some s.

(** * Vocabulary of the properties *)

(** ** Strings *)

Definition total_length (parts : list jsstring) : nat :=
  foldr (fun w n => (length w + n)%nat) 0%nat parts.

(** No two white-space characters side by side. *)
Fixpoint single_spaced (s : jsstring) : bool :=
  match s with
  | a :: (b :: _) as s' =>
      negb (isWhiteSpace a && isWhiteSpace b) && single_spaced s'
  | _ => true
  end.

(** ** Task objects *)

(** The four statuses [processTask] writes. *)
Definition written : list jsstring := [running; completed; stopped; error].

(** What [processTask] and [processTaskQueue] may do to a task object,
    deliveries apart: leave it, or write one of the four statuses. *)
Definition restatus (x x' : Task.t) : Prop :=
  x' = x \/ exists v, v ∈ written /\ x' = Task.set_status v x.

(** What any turn of the event loop may do to a task object: the fields
    set at creation stay, the counters and the stop flag only grow. *)
Record evolves (x x' : Task.t) : Prop := {
  ev_id : Task.id x' = Task.id x;
  ev_total : Task.total x' = Task.total x;
  ev_startTime : Task.startTime x' = Task.startTime x;
  ev_cookies : Task.cookies x' = Task.cookies x;
  ev_messages : Task.messages x' = Task.messages x;
  ev_conversations : Task.conversations x' = Task.conversations x;
  ev_batch_count : Task.batch_count x' = Task.batch_count x;
  ev_batch_delay : Task.batch_delay x' = Task.batch_delay x;
  ev_time_delay : Task.time_delay x' = Task.time_delay x;
  ev_user_id : Task.user_id x' = Task.user_id x;
  ev_completed : Task.completed x <= Task.completed x';
  ev_success : Task.success x <= Task.success x';
  ev_failed : Task.failed x <= Task.failed x';
  ev_isStopped : Task.isStopped x = true -> Task.isStopped x' = true;
  ev_started : Task.status x <> queued -> Task.status x' <> queued }.

(** ** Frames *)

(** No suspended [processTask] works on the object behind [r]. *)
Definition quiet (r : nat) (s : State) : Prop :=
  forall pid p, procs s !! pid = Some (Some p) -> p_task p <> r.

Definition queued_at (r : nat) (s : State) : Prop :=
  exists x, heap s !! r = Some x /\ Task.status x = queued.

(** The footprint of a stretch of [processTask(taskId)] on the object
    behind [r] ([a = Some (taskId, r)]), or of [processTaskQueue]
    ([a = None]): no object is created; deliveries apart, objects change
    by their status only; an object that had left the queue and is not
    the one worked on is not touched; new suspended calls and new
    deliveries belong to objects that were queued; only the key [taskId]
    of the registry can change, to [r]. *)
Record footprint (a : option (list N * nat)) (s s' : State) : Prop := {
  fp_length : length (heap s') = length (heap s);
  fp_heap : forall r x, heap s !! r = Some x ->
      exists x', heap s' !! r = Some x' /\ restatus x x';
  fp_frame : forall r x, heap s !! r = Some x -> Task.status x <> queued ->
      (forall taskId, a <> Some (taskId, r)) -> heap s' !! r = Some x;
  fp_procs : exists k, procs s' = procs s ++ k
      /\ forall p, Some p ∈ k -> queued_at (p_task p) s;
  fp_calls : forall c, c ∈ calls s' ->
      c ∈ calls s \/ (exists taskId, a = Some (taskId, c_task c))
      \/ queued_at (c_task c) s;
  fp_tasks : forall taskId,
      tasks s' !! taskId = tasks s !! taskId
      \/ exists r, a = Some (taskId, r) /\ tasks s' !! taskId = Some r }.

(** The footprint of a stretch, with the owner of the call it may leave
    suspended. *)
Definition stretch (taskId : jsstring) (r : nat) (s : State)
    (res : State * Next) : Prop :=
  footprint (Some (taskId, r)) s res.1
  /\ match res.2 with
     | Suspend p => p_taskId p = taskId /\ p_task p = r
     | Return => True
     end.

(** The state a woken call starts from: after a delivery, the one in
    which the delivery has been counted. *)
Definition arrival (clk : Clock) (p : Proc) (sig : Signal) (s : State) : State :=
  match sig, p_await p with
  | Settled success agentLog, AwaitSend =>
      settled clk (p_taskId p) (p_task p) success agentLog s
  | _, _ => s
  end.

(** ** The invariant *)

Definition statuses : list jsstring :=
  [queued; running; completed; stopped; error].

(** The deliveries of one turn of the outer loop. *)
Definition per_batch (x : Task.t) : Z :=
  Z.of_nat (length (Task.conversations x))
  * Z.of_nat (length (Task.messages x)).

Record obj_ok (x : Task.t) : Prop := {
  ok_sum : Task.completed x = Task.success x + Task.failed x;
  ok_success : 0 <= Task.success x;
  ok_failed : 0 <= Task.failed x;
  ok_bound : Task.completed x <= Task.total x;
  ok_total : Task.total x = Task.batch_count x * per_batch x;
  ok_batches : 1 <= Task.batch_count x;
  ok_messages : Task.messages x <> [];
  ok_conversations : Task.conversations x <> [];
  ok_status : Task.status x ∈ statuses;
  ok_queued : Task.status x = queued -> Task.completed x = 0 }.

(** The deliveries of the batches after [batch]. *)
Definition later (x : Task.t) (batch : Z) : Z :=
  (Task.batch_count x - 1 - batch) * per_batch x.

(** The deliveries of the current batch that a call at [convs], [msgs]
    has still to start. *)
Definition ahead (x : Task.t) (convs msgs : list jsstring) : Z :=
  Z.of_nat (length msgs)
  + Z.of_nat (length convs) * Z.of_nat (length (Task.messages x)).

(** The deliveries a suspended call has still to count if the task is
    not stopped. *)
Definition pending (p : Proc) (x : Task.t) : Z :=
  match p_await p with
  | AwaitSend => 1 + ahead x (p_convs p) (p_msgs p) + later x (p_batch p)
  | AwaitDelay => ahead x (p_convs p) (p_msgs p) + later x (p_batch p)
  | AwaitBatch => later x (p_batch p)
  end.

Record proc_ok (p : Proc) (x : Task.t) : Prop := {
  po_batch : 0 <= p_batch p < Task.batch_count x;
  po_pending : Task.completed x + pending p x = Task.total x;
  po_more : p_await p = AwaitBatch -> p_batch p < Task.batch_count x - 1 }.

Record Inv (s : State) : Prop := {
  inv_obj : forall r x, heap s !! r = Some x -> obj_ok x;
  inv_proc : forall pid p, procs s !! pid = Some (Some p) ->
      exists x, heap s !! p_task p = Some x
                /\ Task.status x <> queued /\ proc_ok p x;
  inv_uniq : forall pid1 pid2 p1 p2,
      procs s !! pid1 = Some (Some p1) -> procs s !! pid2 = Some (Some p2) ->
      p_task p1 = p_task p2 -> pid1 = pid2;
  inv_calls : forall c, c ∈ calls s ->
      exists x, heap s !! c_task c = Some x /\ Task.status x <> queued }.

(** A stretch of [processTask] is at work on the object behind [r]: the
    call itself is not among the suspended ones, and since it started the
    object [x0] has changed by its status only. *)
Definition working (r : nat) (x0 : Task.t) (s : State) : Prop :=
  Inv s /\ quiet r s
  /\ exists v, v <> queued /\ heap s !! r = Some (Task.set_status v x0).

(** At a point of the loops where [k] deliveries of batch [batch] are
    still to be made, either the task is stopped or the count is right. *)
Definition due (x0 : Task.t) (batch k : Z) : Prop :=
  Task.isStopped x0 = true
  \/ (0 <= batch < Task.batch_count x0
      /\ Task.completed x0 + k + later x0 batch = Task.total x0).

(** The same at the head of the outer loop, with [n] turns left. *)
Definition due_batches (x0 : Task.t) (n : nat) (batch : Z) : Prop :=
  Task.isStopped x0 = true
  \/ (n = Z.to_nat (Task.batch_count x0 - batch)
      /\ 0 <= batch <= Task.batch_count x0
      /\ Task.completed x0 + later x0 (batch - 1) = Task.total x0).

(** How a stretch leaves the state: the invariant holds; the call it
    suspends is in order; and a call that returns without an exception
    leaves a task that is stopped, or completed with all its deliveries
    counted. *)
Definition settled_ok (normal : bool) (r : nat) (x0 : Task.t)
    (res : State * Next) : Prop :=
  Inv res.1 /\ quiet r res.1
  /\ exists v, v <> queued /\ heap res.1 !! r = Some (Task.set_status v x0)
     /\ match res.2 with
        | Suspend p => p_task p = r /\ proc_ok p x0
        | Return =>
            normal = true ->
            Task.isStopped x0 = true
            \/ (v = completed /\ Task.completed x0 = Task.total x0)
        end.

(** A signal other than an exception. *)
Definition normal (sig : Signal) : bool :=
  match sig with Thrown _ => false | _ => true end.

(** The object a woken call starts from: after a delivery, the one in
    which the delivery has been counted. *)
Definition counted (p : Proc) (sig : Signal) (x : Task.t) : Task.t :=
  match sig, p_await p with
  | Settled success _, AwaitSend => Task.count success x
  | _, _ => x
  end.

(** ** Turns of the event loop *)

Definition started_at (r : nat) (s : State) : Prop :=
  exists x, heap s !! r = Some x /\ Task.status x <> queued.

(** The footprint of a handler: an object that had left the queue is
    left as it is or stopped; the calls that suspend and the deliveries
    that begin belong to objects that had not left the queue. *)
Record handled (s s' : State) : Prop := {
  hd_heap : forall r x, heap s !! r = Some x ->
      exists x', heap s' !! r = Some x' /\ evolves x x'
                 /\ (Task.status x <> queued -> x' = x \/ x' = stop x);
  hd_procs : exists k, procs s' = procs s ++ k
      /\ forall p, Some p ∈ k -> ~ started_at (p_task p) s;
  hd_calls : forall c, c ∈ calls s' -> c ∈ calls s \/ ~ started_at (c_task c) s }.

(** What every turn of the event loop guarantees: objects evolve, and an
    object that has left the queue and on which no call is suspended is
    left as it is or stopped, stays without a suspended call and sees no
    new delivery. *)
Record drift (s s' : State) : Prop := {
  dr_heap : forall r x, heap s !! r = Some x ->
      exists x', heap s' !! r = Some x' /\ evolves x x';
  dr_idle : forall r x, heap s !! r = Some x -> Task.status x <> queued ->
      quiet r s ->
      exists x', heap s' !! r = Some x' /\ (x' = x \/ x' = stop x)
                 /\ quiet r s'
                 /\ forall c, c ∈ calls s' -> c_task c = r -> c ∈ calls s }.

(** ** Scenarios *)

(** A generator whose draws spread the identifiers: the [n]-th draw
    gives the number [1000 + n]. *)
Definition spread : RNG := mkRNG (fun n => (Z.of_nat n # 9000)%Q) 0.

(** A generator that always draws one half. *)
Definition stuck : RNG := mkRNG (fun _ => (1 # 2)%Q) 0.

Definition noon : Clock := mkClock 43200000 (js "12:00:00").

(** A job of one message for one conversation, submitted by [user]. *)
Definition job (user : Z) : Body.t :=
  Body.mk (js "c_user=1") (js "hi") (js "123") None None None (decimal user).

(** A job with two cookies. *)
Definition two_cookies : Body.t :=
  Body.mk ([99; 95; 117; 115; 101; 114; 61; 49; 10; 120; 115; 61; 50]%N)
    (js "hi") (js "123") None None None (js "anonymous").

(** One task is started, everything is stopped, the delivery of the task
    comes back, and forty-one jobs are submitted. *)
Definition overload : list (Clock * Event) :=
  [(noon, StartTask (job 0)); (noon, StopAllTasks);
   (noon, Wake 0 (Settled true []))]
  ++ ((fun i => (noon, StartTask (job (Z.of_nat i)))) <$> seq 1 41).

(** The number [/api/status] reports as [runningTasks]. *)
Definition runningTasks (s : State) : nat :=
  length (filter (fun x => Task.status x = running) (registered s)).

(** A task runs to its end. *)
Definition finished : list (Clock * Event) :=
  [(noon, StartTask (job 0)); (noon, Wake 0 (Settled true []))].

(** The first delivery of a task ends in an exception. *)
Definition crashed : list (Clock * Event) :=
  [(noon, StartTask (job 0)); (noon, Wake 0 (Thrown (js "boom")))].

Definition status_of (taskId : jsstring) (s : State) : option jsstring :=
  match get_task taskId s with
  | TaskInfo v => Some (v_status v)
  | _ => None
  end.

(** ** A task all of whose deliveries fail *)

(** The signal that wakes a suspended call when its delivery fails, or
    its timer fires. *)
Definition failure (p : Proc) : Signal :=
  match p_await p with
  | AwaitSend => Settled false []
  | _ => Elapsed
  end.

(** Whenever the call [pid] is woken in [evs], it is by a timer or by a
    delivery that failed: never by a success, never by an exception. *)
Definition fails_only (pid : nat) (evs : list (Clock * Event)) : Prop :=
  forall clk sig, (clk, Wake pid sig) ∈ evs ->
    sig = Elapsed \/ exists agentLog, sig = Settled false agentLog.

(** The task behind [r], worked on by the call [pid], is on its way to
    [completed] without a success: it is stopped, or it has no success
    and either the call is suspended or it has returned and left the
    task completed with all its operations counted. *)
Definition on_course (pid r : nat) (s : State) : Prop :=
  exists x, heap s !! r = Some x
    /\ (Task.isStopped x = true
        \/ (Task.success x = 0
            /\ ((exists p, procs s !! pid = Some (Some p) /\ p_task p = r)
                \/ (procs s !! pid = Some None /\ quiet r s
                    /\ Task.status x = completed
                    /\ Task.completed x = Task.total x)))).

Definition rank (a : Await) : nat :=
  match a with AwaitSend => 0 | AwaitBatch => 1 | AwaitDelay => 2 end.

(** A bound on the number of times a suspended call is still woken. *)
Definition effort (p : Proc) (x : Task.t) : nat :=
  (3 * Z.to_nat (pending p x) + rank (p_await p))%nat.

(** Every event of [evs] wakes the call [pid], at clock [clk], with the
    failure of its delivery or with its timer. *)
Definition wakes_only (clk : Clock) (pid : nat) (evs : list (Clock * Event))
  : Prop :=
  forall ce, ce ∈ evs ->
    exists sig, ce = (clk, Wake pid sig)
                /\ (sig = Elapsed \/ sig = Settled false []).

(** The state after one job has been accepted and started. *)
Definition underway : State := (start_task noon (job 0) (initial spread)).1.

(** Forty-one jobs of forty-one users: the last one stays in the queue. *)
Definition crowd : list (Clock * Event) :=
  (fun i => (noon, StartTask (job (Z.of_nat i)))) <$> seq 0 41.

Definition crowded : State :=
  default (initial spread) (run crowd (initial spread)).

(** ** The admission bound *)

(** The objects the suspended calls of [processTask] work on. *)
Definition workers (l : list (option Proc)) : list nat :=
  p_task <$> omap id l.

(** What the registry and the suspended calls know of the objects. *)
Record known (s : State) : Prop := {
  kn_registry : forall taskId r, tasks s !! taskId = Some r ->
      exists x, heap s !! r = Some x /\ Task.id x = taskId;
  kn_procs : forall pid p, procs s !! pid = Some (Some p) ->
      exists x, heap s !! p_task p = Some x /\ Task.id x = p_taskId p }.

(** The accounting of [activeTasks] between two turns of the event loop:
    the counter is the number of suspended calls, it is within the
    ceiling, and every running task has a suspended call. *)
Record counted_in (s : State) : Prop := {
  ci_known : known s;
  ci_active : activeTasks s = Z.of_nat (length (workers (procs s)));
  ci_ceiling : activeTasks s <= MAX_CONCURRENT_TASKS;
  ci_running : forall r x, heap s !! r = Some x -> Task.status x = running ->
      r ∈ workers (procs s) }.

(** The same while a call of [processTask(taskId)] is at work on the
    object behind [r]: the counter counts it too. *)
Record counted_with (taskId : jsstring) (r : nat) (s : State) : Prop := {
  cw_known : known s;
  cw_own : exists x, heap s !! r = Some x /\ Task.id x = taskId;
  cw_active : activeTasks s = Z.of_nat (length (workers (procs s))) + 1;
  cw_ceiling : activeTasks s <= MAX_CONCURRENT_TASKS;
  cw_running : forall r' x, heap s !! r' = Some x -> Task.status x = running ->
      r' ∈ workers (procs s) \/ r' = r }.

(** How a stretch leaves the accounting. *)
Definition counted_after (taskId : jsstring) (r : nat) (res : State * Next)
  : Prop :=
  match res.2 with
  | Suspend p => counted_with taskId r res.1
                 /\ p_taskId p = taskId /\ p_task p = r
  | Return => counted_in res.1
  end.

Definition is_stop_all (e : Event) : bool :=
  match e with StopAllTasks => true | _ => false end.

(** The status behind a reference is [running]. *)
Definition running_at (s : State) (r : nat) : Prop :=
  exists x, heap s !! r = Some x /\ Task.status x = running.

Definition running_atb (s : State) (r : nat) : bool :=
  match heap s !! r with
  | Some x => bool_decide (Task.status x = running)
  | None => false
  end.
(** * Vocabulary of the further properties *)

(** ** Cookies *)

(** The cookies of the lines of a text, before duplicates are removed. *)
Definition collected (cookieString : jsstring) : list Cookie :=
  concat (parseCookieLine <$> split_on 10%N cookieString).

(** [c] is the first cookie of [l] that bears its name. *)
Definition first_of_name (l : list Cookie) (c : Cookie) : Prop :=
  exists l1 l2, l = l1 ++ c :: l2 /\ name c ∉ name <$> l1.

(** The cookie [parseCookies] makes of a name and a value. *)
Definition cookie_of (n v : jsstring) : Cookie :=
  {| name := n; value := v; domain := js ".facebook.com"; path := js "/";
     secure := true;
     httpOnly := bool_decide (n ∈ [js "c_user"; js "xs"; js "fr"; js "datr"]) |}.

(** ** Handlers *)

(** The states agree on all but the generator of [Math.random]. *)
Definition same_store (s s' : State) : Prop :=
  heap s' = heap s /\ tasks s' = tasks s /\ logs s' = logs s
  /\ taskQueue s' = taskQueue s /\ activeTasks s' = activeTasks s
  /\ procs s' = procs s /\ calls s' = calls s.

(** The answers by which [/api/start-task] turns a job down. *)
Definition rejections : list (Z * jsstring) :=
  [ (400, js "Cookies are required");
    (400, js "Messages are required");
    (400, js "Conversation ID is required");
    (429, js "Maximum 10 tasks per user allowed");
    (400, js "No valid cookies found. Format: name=value") ].

(** Forty jobs of forty users, all of them started. *)
Definition full : State :=
  default (initial spread)
    (run ((fun i => (noon, StartTask (job (Z.of_nat i)))) <$> seq 0 40)
       (initial spread)).

(** The references the registry holds. *)
Definition refs (s : State) : list nat := (map_to_list (tasks s)).*2.

(** A task [/api/stop-all-tasks] stops: it is running or queued. *)
Definition live (x : Task.t) : bool :=
  bool_decide (Task.status x = running) || bool_decide (Task.status x = queued).

(** The task behind [r] is older than a day at [clk] and is not running:
    the cleanup timer drops it. *)
Definition expired (clk : Clock) (s : State) (r : nat) : bool :=
  match heap s !! r with
  | Some task =>
      (Task.startTime task <? now clk - 24 * 60 * 60 * 1000)
      && negb (bool_decide (Task.status task = running))
  | None => false
  end.

Definition live_at (s : State) (r : nat) : bool :=
  match heap s !! r with Some x => live x | None => false end.

(** What [/api/stop-all-tasks] makes of the object behind [r]. *)
Definition stopped_by_all (s : State) (r : nat) (x : Task.t) : Task.t :=
  if bool_decide (r ∈ refs s) && live x then stop x else x.

(** ** The scheduler, one change at a time

    What the properties of the scheduler depend on is the state without
    the logs and the generator of [Math.random]. *)
Record Core := mkCore {
  k_heap : list Task.t;
  k_tasks : gmap (list N) nat;
  k_queue : list jsstring;
  k_active : Z;
  k_procs : list (option Proc);
  k_calls : list Call }.

Definition core (s : State) : Core :=
  mkCore (heap s) (tasks s) (taskQueue s) (activeTasks s) (procs s) (calls s).

Definition k_stopped (r : nat) (k : Core) : bool :=
  match k_heap k !! r with Some x => Task.isStopped x | None => false end.

(** The state in which a delivery that has come back is counted. *)
Definition count_in (taskId : jsstring) (r : nat) (ok : bool) (k : Core) : Core :=
  mkCore (alter (Task.count ok) r (k_heap k)) (<[taskId := r]> (k_tasks k))
    (k_queue k) (k_active k) (k_procs k) (k_calls k).

(** The state a woken call starts from. *)
Definition arrived (p : Proc) (sig : Signal) (k : Core) : Core :=
  match sig, p_await p with
  | Settled ok _, AwaitSend => count_in (p_taskId p) (p_task p) ok k
  | _, _ => k
  end.

(** The state a call leaves when it returns, before [processTaskQueue]
    is called. *)
Definition returned (taskId : jsstring) (r : nat) (v : jsstring) (k : Core)
  : Core :=
  mkCore (alter (Task.set_status v) r (k_heap k)) (<[taskId := r]> (k_tasks k))
    (k_queue k) (k_active k - 1) (k_procs k) (k_calls k).

Definition with_call (c : Call) (k : Core) : Core :=
  mkCore (k_heap k) (k_tasks k) (k_queue k) (k_active k) (k_procs k)
    (k_calls k ++ [c]).

Definition with_procs (l : list (option Proc)) (k : Core) : Core :=
  mkCore (k_heap k) (k_tasks k) (k_queue k) (k_active k) l (k_calls k).

(** How a stretch of [processTask(taskId)] on the object behind [r]
    that starts from the state [k] ends: suspended, with one more
    delivery under way if it waits for one; or returned, with the last
    status written to the task, the counter lowered and
    [processTaskQueue] called. A suspended call has found the task not
    stopped; the status [error] is written after an exception ([exc])
    only. *)
Definition outcome (exc : bool) (ptq : State -> State) (taskId : jsstring)
    (r : nat) (k : Core) (res : State * Next) : Prop :=
  match res.2 with
  | Suspend p =>
      p_taskId p = taskId /\ p_task p = r /\ k_stopped r k = false
      /\ match p_await p with
         | AwaitSend =>
             exists text,
               core res.1 = with_call (mkCall r (p_conversation p) text) k
         | _ => core res.1 = k
         end
  | Return =>
      exists s1 v,
        res.1 = ptq s1 /\ core s1 = returned taskId r v k
        /\ ((exc = true /\ v = error)
            \/ v = if k_stopped r k then stopped else completed)
  end.

(** A task [processTask] can work on: it has a conversation, a message
    and a batch. *)
Definition sendable (x : Task.t) : Prop :=
  Task.conversations x <> [] /\ Task.messages x <> []
  /\ 1 <= Task.batch_count x.

(** [processTaskQueue] starts the task it finds under [taskId]. *)
Definition startable (k : Core) (taskId : jsstring) (r : nat) (x : Task.t)
  : Prop :=
  k_tasks k !! taskId = Some r /\ k_heap k !! r = Some x
  /\ Task.status x = queued /\ Task.isStopped x = false.

Definition is_thrown (sig : Signal) : bool :=
  match sig with Thrown _ => true | _ => false end.

Definition throws (e : Event) : bool :=
  match e with Wake _ sig => is_thrown sig | _ => false end.

(** One change of the state. [exc] tells whether exceptions are taken
    into account. *)
Inductive tick (exc : bool) : Core -> Core -> Prop :=
  | tick_submit k task :
      Task.status task = queued -> Task.isStopped task = false ->
      Task.completed task = 0 -> sendable task ->
      tick exc k
        (mkCore (k_heap k ++ [task])
           (<[Task.id task := length (k_heap k)]> (k_tasks k))
           (k_queue k ++ [Task.id task]) (k_active k) (k_procs k) (k_calls k))
  | tick_admit k taskId rest r x c cs m ms text :
      k_queue k = taskId :: rest -> k_active k < MAX_CONCURRENT_TASKS ->
      startable k taskId r x ->
      Task.conversations x = c :: cs -> Task.messages x = m :: ms ->
      tick exc k
        (mkCore (alter (Task.set_status running) r (k_heap k))
           (<[taskId := r]> (k_tasks k)) rest (k_active k + 1)
           (k_procs k ++ [Some (mkProc taskId r 0 c cs ms AwaitSend)])
           (k_calls k ++ [mkCall r c text]))
  | tick_skip k taskId rest :
      k_queue k = taskId :: rest -> k_active k < MAX_CONCURRENT_TASKS ->
      (forall r x, ~ startable k taskId r x) ->
      tick exc k
        (mkCore (k_heap k) (k_tasks k) rest (k_active k) (k_procs k)
           (k_calls k))
  | tick_stop k taskId r x :
      k_tasks k !! taskId = Some r -> k_heap k !! r = Some x ->
      tick exc k
        (mkCore (alter stop r (k_heap k)) (k_tasks k)
           (remove_first taskId (k_queue k)) (k_active k) (k_procs k)
           (k_calls k))
  | tick_stop_all k h' :
      (forall r, h' !! r
                 = (fun x => if bool_decide (r ∈ (map_to_list (k_tasks k)).*2)
                                && live x
                             then stop x else x) <$> k_heap k !! r) ->
      tick exc k (mkCore h' (k_tasks k) [] 0 (k_procs k) (k_calls k))
  | tick_cleanup k t' :
      t' ⊆ k_tasks k ->
      tick exc k
        (mkCore (k_heap k) t' (k_queue k) (k_active k) (k_procs k) (k_calls k))
  | tick_park k pid p sig p' :
      k_procs k !! pid = Some (Some p) ->
      (p_await p = AwaitSend <-> exists ok agentLog, sig = Settled ok agentLog) ->
      p_taskId p' = p_taskId p -> p_task p' = p_task p ->
      k_stopped (p_task p) k = false ->
      p_await p' <> AwaitSend ->
      tick exc k
        (with_procs (<[pid := Some p']> (k_procs k)) (arrived p sig k))
  | tick_send k pid p sig p' text :
      k_procs k !! pid = Some (Some p) ->
      (p_await p = AwaitSend <-> exists ok agentLog, sig = Settled ok agentLog) ->
      p_taskId p' = p_taskId p -> p_task p' = p_task p ->
      k_stopped (p_task p) k = false ->
      p_await p' = AwaitSend ->
      tick exc k
        (with_procs (<[pid := Some p']> (k_procs k))
           (with_call (mkCall (p_task p) (p_conversation p') text)
              (arrived p sig k)))
  | tick_finish k pid p sig :
      k_procs k !! pid = Some (Some p) ->
      (p_await p = AwaitSend <-> exists ok agentLog, sig = Settled ok agentLog) ->
      (k_stopped (p_task p) k = false ->
       forall x, k_heap (arrived p sig k) !! p_task p = Some x ->
                 Task.completed x = Task.total x) ->
      (forall pid' p', k_procs k !! pid' = Some (Some p') ->
                       p_task p' = p_task p -> pid' = pid) ->
      tick exc k
        (with_procs (<[pid := None]> (k_procs k))
           (returned (p_taskId p) (p_task p)
              (if k_stopped (p_task p) k then stopped else completed)
              (arrived p sig k)))
  | tick_catch k pid p :
      exc = true -> k_procs k !! pid = Some (Some p) ->
      tick exc k
        (with_procs (<[pid := None]> (k_procs k))
           (returned (p_taskId p) (p_task p) error k)).

(** ** Properties of the changes *)

(** The registry and the suspended calls name the tasks by their
    identifiers. *)
Record k_known (k : Core) : Prop := {
  kk_registry : forall taskId r, k_tasks k !! taskId = Some r ->
      exists x, k_heap k !! r = Some x /\ Task.id x = taskId;
  kk_procs : forall pid p, k_procs k !! pid = Some (Some p) ->
      exists x, k_heap k !! p_task p = Some x /\ Task.id x = p_taskId p }.

(** The calls of [sendFacebookMessage] made for the task behind [r]. *)
Definition sent_to (r : nat) (l : list Call) : list Call :=
  filter (fun c => c_task c = r) l.

Definition is_send (a : Await) : bool :=
  match a with AwaitSend => true | _ => false end.

(** Whether a slot holds a call of [processTask] on the task behind [r]
    that waits for a delivery. *)
Definition awaits (r : nat) (o : option Proc) : nat :=
  match o with
  | Some p =>
      if bool_decide (p_task p = r) && is_send (p_await p)
      then 1%nat else 0%nat
  | None => 0%nat
  end.

(** The deliveries under way for the task behind [r]. *)
Definition under_way (r : nat) (l : list (option Proc)) : nat :=
  sum_list_with (awaits r) l.

(** The accounting of deliveries: every call and every suspended
    [processTask] belongs to a task; a task has counted no more
    operations than calls were made for it and have come back; and as
    many, when no exception is taken into account. *)
Record k_account (exc : bool) (k : Core) : Prop := {
  ka_calls : forall c, c ∈ k_calls k -> (c_task c < length (k_heap k))%nat;
  ka_procs : forall pid p, k_procs k !! pid = Some (Some p) ->
      (p_task p < length (k_heap k))%nat;
  ka_le : forall r x, k_heap k !! r = Some x ->
      Task.completed x + Z.of_nat (under_way r (k_procs k))
      <= Z.of_nat (length (sent_to r (k_calls k)));
  ka_eq : exc = false -> forall r x, k_heap k !! r = Some x ->
      Z.of_nat (length (sent_to r (k_calls k)))
      = Task.completed x + Z.of_nat (under_way r (k_procs k)) }.

(** The tasks that wait: a task that is stopped has left the queue; a
    task a call works on has left it too; a task of the registry that is
    queued has its identifier in [taskQueue]. *)
Record k_waiting (k : Core) : Prop := {
  kw_stopped : forall r x, k_heap k !! r = Some x ->
      Task.isStopped x = true -> Task.status x <> queued;
  kw_procs : forall pid p, k_procs k !! pid = Some (Some p) ->
      exists x, k_heap k !! p_task p = Some x /\ Task.status x <> queued;
  kw_queue : forall taskId r x, k_tasks k !! taskId = Some r ->
      k_heap k !! r = Some x -> Task.status x = queued ->
      taskId ∈ k_queue k }.

Definition initial_core : Core := mkCore [] ∅ [] 0 [] [].

(** ** The endpoints that report on all tasks

    [tasks.values()] and [tasks.entries()] are taken in the order of the
    keys, not in the order of insertion of the JavaScript [Map]; what is
    stated of the two endpoints does not depend on the order. *)

(** The answer of [GET /api/status]. *)
Record StatusView := mkStatusView {
  sv_status : jsstring; sv_version : jsstring; sv_activeTasks : Z;
  sv_runningTasks : Z; sv_queuedTasks : Z; sv_totalTasks : Z;
  sv_maxConcurrent : Z; sv_timestamp : Z }.

Definition get_status (clk : Clock) (s : State) : StatusView :=
  mkStatusView (js "running") (js "2.0.0") (activeTasks s)
    (Z.of_nat (length (filter (fun t => Task.status t = running)
                         (registered s))))
    (Z.of_nat (length (taskQueue s)))
    (Z.of_nat (size (tasks s)))
    MAX_CONCURRENT_TASKS (now clk).

(** The answer of [GET /api/all-tasks]. *)
Record TaskList := mkTaskList {
  tl_tasks : list TaskView; tl_total : Z; tl_running : Z; tl_queued : Z;
  tl_active : Z; tl_maxConcurrent : Z }.

Definition all_tasks (s : State) : TaskList :=
  let taskList := view <$> registered s in
  mkTaskList taskList (Z.of_nat (length taskList))
    (Z.of_nat (length (filter (fun t => v_status t = running) taskList)))
    (Z.of_nat (length (taskQueue s))) (activeTasks s) MAX_CONCURRENT_TASKS.

(** The calls made for the task behind [r] that have neither been
    counted nor are under way. *)
Definition slack (r : nat) (k : Core) (x : Task.t) : Z :=
  Z.of_nat (length (sent_to r (k_calls k))) - Task.completed x
  - Z.of_nat (under_way r (k_procs k)).

(** Every call and every suspended [processTask] belongs to a task. *)
Definition k_valid (k : Core) : Prop :=
  (forall c, c ∈ k_calls k -> (c_task c < length (k_heap k))%nat)
  /\ (forall pid p, k_procs k !! pid = Some (Some p) ->
        (p_task p < length (k_heap k))%nat).

(** No task waits for want of a turn: the queue is empty or the counter
    of the running calls is at the ceiling. *)
Definition idle (s : State) : Prop :=
  taskQueue s = [] \/ MAX_CONCURRENT_TASKS <= activeTasks s.

(** A task is started and stopped while its first delivery is under
    way; then the delivery comes back. *)
Definition stopping : list (Clock * Event) :=
  [(noon, StartTask (job 0)); (noon, StopTask (js "h4rsh_1000"))].

Definition comes_back : list (Clock * Event) :=
  [(noon, Wake 0 (Settled true []))].

Definition stopped_early : State :=
  default (initial spread) (run stopping (initial spread)).

Definition stopped_late : State :=
  default stopped_early (run comes_back stopped_early).

(** No task has more than 500 lines of log. *)
Definition logs_bounded (s : State) : Prop :=
  forall taskId l, logs s !! taskId = Some l -> (length l <= 500)%nat.

(** What the loops keep: the bound, and that the tasks can be worked
    on. *)
Definition kept (s : State) : Prop :=
  logs_bounded s /\ Forall sendable (heap s).

(** A task marked [completed] has counted all its operations, and no
    call of [processTask] works on it any more. *)
Definition k_done (k : Core) : Prop :=
  forall r x, k_heap k !! r = Some x -> Task.status x = completed ->
    Task.completed x = Task.total x
    /\ forall pid p, k_procs k !! pid = Some (Some p) -> p_task p <> r.

(** ** The loop of index.js

    [index.js] keeps one counter, [task.index], from which every turn
    of its loop takes the message, the conversation and the cookie
    line:

      msgIdx    = task.index % messagesList.length
      convIdx   = Math.floor(task.index / messagesList.length)
                  % convList.length
      cookieIdx = Math.floor(task.index
                             / (messagesList.length * convList.length))
                  % cookiesList.length

    The numbers are integers far below 2^53, on which the arithmetic of
    JavaScript is exact; [%] is the remainder of the truncated division
    and [Math.floor(a / b)] the quotient rounded down. *)
Module IndexJs.

Definition msgIdx (index messages : Z) : Z := Z.rem index messages.

Definition convIdx (index messages convs : Z) : Z :=
  Z.rem (index / messages) convs.

Definition cookieIdx (index messages convs cookies : Z) : Z :=
  Z.rem (index / (messages * convs)) cookies.

(** [total: messagesList.length * convList.length * cookiesList.length] *)
Definition total (messages convs cookies : Z) : Z :=
  messages * convs * cookies.

End IndexJs.

(** Forty-two jobs draw the same identifier: forty are started and two
    wait. *)
Definition same_draws : list (Clock * Event) :=
  (fun _ => (noon, StartTask (job 0))) <$> seq 0 42.

Definition twice_queued : State :=
  default (initial stuck) (run same_draws (initial stuck)).

(** A job of two messages for one conversation. *)
Definition two_messages : Body.t :=
  Body.mk (js "c_user=1") ([104; 105; 10; 104; 111]%N) (js "123")
    None None None (js "anonymous").

(** The job is started and its first delivery ends in an exception that
    leaves [sendFacebookMessage]. *)
Definition aborted : list (Clock * Event) :=
  [(noon, StartTask two_messages);
   (noon, Wake 0 (Thrown (js "Cannot read properties of null")))].

Definition after_exception : State :=
  default (initial spread) (run aborted (initial spread)).

(** ** The body of a request to /api/start-task

    [express.json()] hands the handler the body it has parsed, and the
    handler takes the fields of it as JSON values: a number is the value
    of the double the parser has made, and a field the body does not have
    is [undefined], here [None].
    Of an array or an object the handler uses nothing but that it is
    truthy and no string, so the model keeps no more of it.
    [start_task] above is the handler on a body whose three texts are
    strings; [start_task_request] is the handler on any body, with the
    [catch] that answers 500 when a statement of the [try] block
    throws. *)
Inductive JSON : Type :=
  | JNull
  | JBool (b : bool)
  | JNumber (n : Q)
  | JString (s : jsstring)
  | JArray
  | JObject.

(** Truthiness of a field: [undefined], [null], [false], [0] and the
    empty string are falsy. *)
Definition truthy_value (v : option JSON) : bool :=
  match v with
  | None | Some JNull => false
  | Some (JBool b) => b
  | Some (JNumber n) => negb (Qeq_bool n 0)
  | Some (JString s) => truthy s
  | Some JArray | Some JObject => true
  end.

(** What the test [!v || !v.trim()] comes to: it holds; or [v] is truthy
    and no string, so that [v.trim] is no function and the call throws;
    or it fails, [v] being the string [s]. *)
Inductive Checked :=
  | Required
  | NoTrim
  | Text (s : jsstring).

Definition checked (v : option JSON) : Checked :=
  match v with
  | Some (JString s) =>
      if truthy s && truthy (trim s) then Text s else Required
  | _ => if truthy_value v then NoTrim else Required
  end.

Record Request := mkRequest {
  q_cookies : option JSON;
  q_messages : option JSON;
  q_conversation_id : option JSON;
  q_batch_count : option Z;
  q_batch_delay : option Z;
  q_time_delay : option Z;
  q_user_id : jsstring }.

(** [error.message] of the [TypeError] of a call of [field.trim], which
    the [catch] sends with the status 500. *)
Definition trim_message (field : jsstring) : jsstring :=
  field ++ js ".trim is not a function".

Definition trim_errors : list (Z * jsstring) :=
  [ (500, trim_message (js "cookies")); (500, trim_message (js "messages"));
    (500, trim_message (js "conversation_id")) ].

(** [POST /api/start-task]: the three tests of the validation in their
    order, then the rest of the handler. *)
Definition start_task_request (clk : Clock) (q : Request) (s : State)
  : State * Reply :=
  match checked (q_cookies q) with
  | Required => (s, Failure 400 (js "Cookies are required"))
  | NoTrim => (s, Failure 500 (trim_message (js "cookies")))
  | Text cookies =>
      match checked (q_messages q) with
      | Required => (s, Failure 400 (js "Messages are required"))
      | NoTrim => (s, Failure 500 (trim_message (js "messages")))
      | Text messages =>
          match checked (q_conversation_id q) with
          | Required => (s, Failure 400 (js "Conversation ID is required"))
          | NoTrim => (s, Failure 500 (trim_message (js "conversation_id")))
          | Text conversation_id =>
              start_task clk
                (Body.mk cookies messages conversation_id (q_batch_count q)
                   (q_batch_delay q) (q_time_delay q) (q_user_id q))
                s
          end
      end
  end.
(** * Properties *)

(** ** Strings *)

Lemma join_length sep parts :
  length (join sep parts)
  = (total_length parts + length sep * (length parts - 1))%nat.
Proof.
  induction parts as [|w ws IH]; [simpl; lia|].
  destruct ws as [|w' ws]; [simpl; lia|].
  change (join sep (w :: w' :: ws)) with (w ++ sep ++ join sep (w' :: ws)).
  rewrite !length_app, IH. simpl. lia.
Qed.

Lemma total_length_app l1 l2 :
  total_length (l1 ++ l2) = (total_length l1 + total_length l2)%nat.
Proof. induction l1; simpl; lia. Qed.

Lemma split_ws_nonempty skip s : split_ws skip s <> [].
Proof.
  revert skip; induction s as [|c s IH]; intros skip; simpl; [done|].
  destruct (isWhiteSpace c); [destruct skip; [apply IH | done]|].
  destruct (split_ws false s); done.
Qed.

Lemma split_ws_skip s :
  match s with c :: _ => isWhiteSpace c = false | [] => True end ->
  split_ws true s = split_ws false s.
Proof. destruct s as [|c s]; simpl; [done|]. by intros ->. Qed.

Lemma join_split_ws_length s :
  single_spaced s = true ->
  length (join (js " ") (split_ws false s)) = length s.
Proof.
  induction s as [|c s IH]; [done|].
  intros Hs.
  assert (Htail : single_spaced s = true).
  { destruct s; [done|]. simpl in Hs. by apply andb_true_iff in Hs as [_ ?]. }
  specialize (IH Htail).
  cbn [split_ws]. destruct (isWhiteSpace c) eqn:Hc.
  - rewrite split_ws_skip.
    + pose proof (split_ws_nonempty false s).
      destruct (split_ws false s) as [|w ws] eqn:E; [done|].
      cbn [join]. cbn [join] in IH. simpl. simpl in IH. by rewrite IH.
    + destruct s as [|d s]; [done|]. simpl in Hs. rewrite Hc in Hs.
      simpl in Hs. apply andb_true_iff in Hs as [Hd _].
      by apply negb_true_iff in Hd.
  - pose proof (split_ws_nonempty false s).
    destruct (split_ws false s) as [|w ws] eqn:E; [done|].
    rewrite join_length in *. simpl in *. lia.
Qed.

(** ** enhanceMessage *)

Lemma enhance_words_grows words g l g' :
  enhance_words words g = (l, g') ->
  (total_length words <= total_length l /\ length words <= length l)%nat.
Proof.
  revert g l g'; induction words as [|w rest IH]; intros g l g' H.
  { injection H as <- _. simpl; lia. }
  cbn [enhance_words] in H. unfold bindR at 1 in H.
  destruct (Math_random g) as [x g1].
  unfold bindR at 1 in H.
  destruct (if Qltb x (1 # 4) && negb (bool_decide (rest = []))
            then let* e := getRandomEmoji in retR [e] else retR [])
    as [e g2].
  unfold bindR, retR in H.
  destruct (enhance_words rest g2) as [tl g3] eqn:E.
  apply IH in E. injection H as <- _.
  change (total_length (w :: e ++ tl))
    with (length w + total_length (e ++ tl))%nat.
  change (total_length (w :: rest)) with (length w + total_length rest)%nat.
  rewrite total_length_app. cbn [length]. rewrite length_app. lia.
Qed.

Lemma enhanceMessage_blank message g :
  truthy message = false \/ truthy (trim message) = false ->
  (enhanceMessage message g).1 = message.
Proof.
  intros H. unfold enhanceMessage.
  destruct H as [-> | ->]; simpl; [done|]. by rewrite orb_true_r.
Qed.

(** Whatever is drawn, the result is at least as long as the words of the
    trimmed message joined by single spaces. *)
Lemma enhanceMessage_lower_bound message g :
  truthy message = true -> truthy (trim message) = true ->
  (length (join (js " ") (split_ws false (trim message)))
   <= length (enhanceMessage message g).1)%nat.
Proof.
  intros H1 H2. unfold enhanceMessage. rewrite H1, H2. cbn [negb orb].
  unfold bindR at 1. destruct (maybe_emoji (4 # 10) g) as [first g1].
  unfold bindR at 1.
  destruct (enhance_words (split_ws false (trim message)) g1)
    as [middle g2] eqn:E.
  apply enhance_words_grows in E as [Ht Hl].
  unfold bindR at 1. destruct (maybe_emoji (4 # 10) g2) as [last g3].
  unfold retR. cbn [fst].
  rewrite !join_length, !total_length_app, !length_app.
  pose proof (split_ws_nonempty false (trim message)) as Hne.
  destruct (split_ws false (trim message)) as [|w0 ws0]; [done|].
  cbn [length] in *. nia.
Qed.

Lemma join_split_on sep s : join [sep] (split_on sep s) = s.
Proof.
  induction s as [|c s IH]; [done|]. cbn [split_on].
  destruct (c =? sep)%N eqn:E.
  - apply N.eqb_eq in E as ->.
    destruct (split_on sep s) as [|w ws] eqn:Es; [by destruct s|].
    cbn [join] in *. by rewrite IH.
  - destruct (split_on sep s) as [|w ws] eqn:Es.
    + destruct s as [|d s]; [done|]. simpl in Es.
      by destruct (d =? sep)%N, (split_on sep s).
    + destruct ws as [|w' ws]; cbn [join] in *; by rewrite <- IH.
Qed.

Lemma Part002_enhance_words_grows words g l g' :
  Part002.enhance_words words g = (l, g') ->
  (total_length words <= total_length l /\ length words <= length l)%nat.
Proof.
  revert g l g'; induction words as [|w rest IH]; intros g l g' H.
  { injection H as <- _. simpl; lia. }
  cbn [Part002.enhance_words] in H. unfold bindR at 1 in H.
  destruct (Math_random g) as [x g1].
  unfold bindR at 1 in H.
  destruct (if Qltb x (3 # 10) && negb (bool_decide (rest = []))
            then let* e := Part002.pick in retR [Part002.joined e]
            else retR [])
    as [e g2].
  unfold bindR, retR in H.
  destruct (Part002.enhance_words rest g2) as [tl g3] eqn:E.
  apply IH in E. injection H as <- _.
  change (total_length (w :: e ++ tl))
    with (length w + total_length (e ++ tl))%nat.
  change (total_length (w :: rest)) with (length w + total_length rest)%nat.
  rewrite total_length_app. cbn [length]. rewrite length_app. lia.
Qed.

(** X24: the [enhanceMessage] of [unnamed/part_002], which splits the
    message at single spaces, never returns a text shorter than the
    message, whatever the generator draws. *)
Theorem Part002_enhanceMessage_length message g :
  (length message <= length (Part002.enhanceMessage message g).1)%nat.
Proof.
  unfold Part002.enhanceMessage.
  destruct (negb (truthy message) || negb (truthy (trim message))); [done|].
  destruct (length (split_on 32%N message) <=? 1)%nat eqn:Hone.
  - unfold bindR, retR. destruct (Part002.pick g) as [e g1]. cbn [fst].
    rewrite !length_app. lia.
  - apply Nat.leb_gt in Hone.
    unfold bindR at 1.
    destruct (Part002.enhance_words (split_on 32%N message) g)
      as [middle g1] eqn:E.
    apply Part002_enhance_words_grows in E as [Ht Hl].
    unfold bindR at 1. destruct (Part002.maybe (4 # 10) g1) as [first g2].
    unfold bindR at 1. destruct (Part002.maybe (4 # 10) g2) as [last g3].
    unfold retR. cbn [fst].
    rewrite <- (join_split_on 32%N message) at 1.
    change [32%N] with (js " ").
    rewrite !join_length, !total_length_app, !length_app. nia.
Qed.

(** C8, as stated, fails: with no emoji drawn, a message with two spaces
    between its words comes back with one. *)
Lemma enhanceMessage_shrinks :
  (length (enhanceMessage (js "a  b") (mkRNG (fun _ => 9 # 10)%Q 0)).1
   < length (js "a  b"))%nat.
Proof. vm_compute. lia. Qed.

(** C8 (amended): for a message without leading or trailing white space
    and without two white-space characters in a row, [enhanceMessage]
    returns a string at least as long as the message, whatever
    [Math.random] draws. *)
Theorem enhanceMessage_length message g :
  trim message = message ->
  single_spaced message = true ->
  (length message <= length (enhanceMessage message g).1)%nat.
Proof.
  intros Htrim Hsp.
  destruct (truthy message) eqn:Ht.
  - pose proof (enhanceMessage_lower_bound message g Ht) as H.
    rewrite Htrim in H. specialize (H Ht).
    by rewrite join_split_ws_length in H.
  - rewrite enhanceMessage_blank; [done | by left].
Qed.

Lemma enhanceMessage_length_witness :
  trim (js "hello world") = js "hello world"
  /\ single_spaced (js "hello world") = true
  /\ (length (js "hello world")
      <= length (enhanceMessage (js "hello world")
                   (mkRNG (fun n => Z.of_nat n # 7)%Q 0)).1)%nat.
Proof.
  split; [reflexivity|]. split; [reflexivity|].
  apply enhanceMessage_length; reflexivity.
Defined.

(** ** Queries *)

(** C10: for an identifier that neither store knows, the log query
    answers with success and no lines, the task query with 404. *)
Theorem logs_of_unknown_task taskId s :
  logs s !! taskId = None ->
  tasks s !! taskId = None ->
  get_logs taskId s = LogLines []
  /\ success (get_logs taskId s) = true
  /\ get_task taskId s = Failure 404 (js "Task not found")
  /\ success (get_task taskId s) = false.
Proof.
  intros Hl Ht. unfold get_logs, get_task, tasks_get. by rewrite Hl, Ht.
Qed.

Lemma logs_of_unknown_task_witness :
  let s := initial (mkRNG (fun _ => 0%Q) 0) in
  let taskId := js "h4rsh_1234" in
  get_logs taskId s = LogLines []
  /\ success (get_logs taskId s) = true
  /\ get_task taskId s = Failure 404 (js "Task not found")
  /\ success (get_task taskId s) = false.
Proof.
  apply (logs_of_unknown_task (js "h4rsh_1234")
           (initial (mkRNG (fun _ => 0%Q) 0))); reflexivity.
Defined.

(** ** Footprints *)

(** Membership in a list that is written out. *)
Ltac listed :=
  unfold written, statuses;
  repeat first [apply list_elem_of_here | apply list_elem_of_further].

Lemma written_not_queued v : v ∈ written -> v <> queued.
Proof.
  unfold written. rewrite !elem_of_cons, elem_of_nil.
  intros [-> | [-> | [-> | [-> | []]]]]; by vm_compute.
Qed.

Lemma restatus_refl x : restatus x x.
Proof. by left. Qed.

Lemma restatus_trans x y z : restatus x y -> restatus y z -> restatus x z.
Proof.
  intros [-> | (v & Hv & ->)] [-> | (w & Hw & ->)];
    [by left | right; eauto | right; eauto | right; eauto].
Qed.

Lemma restatus_started x y :
  restatus x y -> Task.status x <> queued -> Task.status y <> queued.
Proof.
  intros [-> | (v & Hv & ->)] H; [done|]. simpl. by apply written_not_queued.
Qed.

Lemma restatus_evolves x y : restatus x y -> evolves x y.
Proof.
  intros H. pose proof (restatus_started _ _ H).
  destruct H as [-> | (v & Hv & ->)]; split; simpl; auto; lia.
Qed.

Lemma evolves_refl x : evolves x x.
Proof. split; auto; lia. Qed.

Lemma evolves_trans x y z : evolves x y -> evolves y z -> evolves x z.
Proof.
  intros [] []; split; try congruence; try lia; auto.
Qed.

Lemma evolves_stop x : evolves x (stop x).
Proof. split; simpl; auto; try lia; try (intros _; by vm_compute). Qed.

Lemma evolves_count ok x : evolves x (Task.count ok x).
Proof. split; simpl; auto; try lia; destruct ok; lia. Qed.

Lemma queued_at_back a s s' r :
  footprint a s s' -> queued_at r s' -> queued_at r s.
Proof.
  intros F (x' & Hx' & Hq).
  assert (is_Some (heap s !! r)) as [x Hx].
  { apply lookup_lt_is_Some. rewrite <- (fp_length _ _ _ F).
    by eapply lookup_lt_Some. }
  exists x. split; [done|].
  destruct (fp_heap _ _ _ F r x Hx) as (y & Hy & Hr).
  assert (y = x') as -> by congruence.
  destruct (decide (Task.status x = queued)) as [|Hn]; [done|].
  by apply (restatus_started _ _ Hr) in Hn.
Qed.

Lemma footprint_refl a s : footprint a s s.
Proof.
  split; auto.
  - intros r x Hx. exists x. split; [done | apply restatus_refl].
  - exists []. split; [by rewrite app_nil_r | by intros p ?%elem_of_nil].
Qed.

Lemma footprint_trans a s1 s2 s3 :
  footprint a s1 s2 -> footprint a s2 s3 -> footprint a s1 s3.
Proof.
  intros F G. split.
  - rewrite (fp_length _ _ _ G). apply (fp_length _ _ _ F).
  - intros r x Hx.
    destruct (fp_heap _ _ _ F r x Hx) as (y & Hy & Hxy).
    destruct (fp_heap _ _ _ G r y Hy) as (z & Hz & Hyz).
    exists z. split; [done | by eapply restatus_trans].
  - intros r x Hx Hs Ha.
    pose proof (fp_frame _ _ _ F r x Hx Hs Ha) as Hy.
    apply (fp_frame _ _ _ G r x Hy Hs Ha).
  - destruct (fp_procs _ _ _ F) as (k1 & E1 & H1).
    destruct (fp_procs _ _ _ G) as (k2 & E2 & H2).
    exists (k1 ++ k2). split; [by rewrite E2, E1, app_assoc|].
    intros p [Hp | Hp]%elem_of_app; [by apply H1|].
    eapply queued_at_back; [exact F | by apply H2].
  - intros c Hc.
    destruct (fp_calls _ _ _ G c Hc) as [Hc' | [Hc' | Hc']].
    + apply (fp_calls _ _ _ F c Hc').
    + right; by left.
    + right; right. by eapply queued_at_back.
  - intros taskId.
    destruct (fp_tasks _ _ _ G taskId) as [E | (r & Ha & E)].
    + rewrite E. apply (fp_tasks _ _ _ F).
    + right. eauto.
Qed.

Lemma footprint_weaken a s s' : footprint None s s' -> footprint a s s'.
Proof.
  intros F. split.
  - apply (fp_length _ _ _ F).
  - apply (fp_heap _ _ _ F).
  - intros r x Hx Hs _. by apply (fp_frame _ _ _ F r x Hx Hs).
  - apply (fp_procs _ _ _ F).
  - intros c Hc. destruct (fp_calls _ _ _ F c Hc) as [? | [(? & ?) | ?]]; auto.
    done.
  - intros taskId.
    destruct (fp_tasks _ _ _ F taskId) as [? | (? & ? & ?)]; [by left | done].
Qed.

(** A stretch on an object that was queued, under its own key, has the
    footprint of [processTaskQueue]. *)
Lemma footprint_close taskId r s s' :
  footprint (Some (taskId, r)) s s' ->
  queued_at r s -> tasks s !! taskId = Some r ->
  footprint None s s'.
Proof.
  intros F (x0 & Hx0 & Hq) Ht. split.
  - apply (fp_length _ _ _ F).
  - apply (fp_heap _ _ _ F).
  - intros r0 x Hx Hs _. apply (fp_frame _ _ _ F r0 x Hx Hs).
    intros tid [= -> ->]. congruence.
  - apply (fp_procs _ _ _ F).
  - intros c Hc.
    destruct (fp_calls _ _ _ F c Hc) as [? | [(tid & [= -> <-]) | ?]]; auto.
    right; right. by exists x0.
  - intros tid.
    destruct (fp_tasks _ _ _ F tid) as [? | (r' & [= -> ->] & E)];
      [by left|]. left. congruence.
Qed.

Lemma footprint_same a s s' :
  heap s' = heap s -> procs s' = procs s -> calls s' = calls s ->
  tasks s' = tasks s -> footprint a s s'.
Proof.
  intros Hh Hp Hc Ht. split.
  - by rewrite Hh.
  - intros r x Hx. exists x. rewrite Hh. split; [done | apply restatus_refl].
  - intros r x Hx _ _. by rewrite Hh.
  - exists []. rewrite Hp, app_nil_r. split; [done | by intros p ?%elem_of_nil].
  - intros c. rewrite Hc. auto.
  - intros taskId. rewrite Ht. auto.
Qed.

Lemma footprint_addLog a clk taskId message type s :
  footprint a s (addLog clk taskId message type s).
Proof. by apply footprint_same. Qed.

Lemma footprint_update taskId r v s :
  v ∈ written ->
  footprint (Some (taskId, r)) s (update r (Task.set_status v) s).
Proof.
  intros Hv. split; simpl.
  - apply length_alter.
  - intros r0 x Hx. destruct (decide (r = r0)) as [-> | Hne].
    + rewrite list_lookup_alter_eq, Hx. eexists. split; [done|].
      right. eauto.
    + rewrite list_lookup_alter_ne by done. exists x.
      split; [done | apply restatus_refl].
  - intros r0 x Hx _ Ha. rewrite list_lookup_alter_ne; [done|].
    intros ->. by apply (Ha taskId).
  - exists []. rewrite app_nil_r. split; [done | by intros p ?%elem_of_nil].
  - auto.
  - auto.
Qed.

Lemma footprint_tasks_set taskId r s :
  footprint (Some (taskId, r)) s (tasks_set taskId r s).
Proof.
  split; simpl; auto.
  - intros r0 x Hx. exists x. split; [done | apply restatus_refl].
  - exists []. rewrite app_nil_r. split; [done | by intros p ?%elem_of_nil].
  - intros tid. destruct (decide (taskId = tid)) as [<- | Hne].
    + right. exists r. by rewrite lookup_insert_eq.
    + left. by rewrite lookup_insert_ne.
Qed.

Lemma footprint_call taskId r c s :
  c_task c = r ->
  footprint (Some (taskId, r)) s (set_calls (calls s ++ [c]) s).
Proof.
  intros Hc. split; simpl; auto.
  - intros r0 x Hx. exists x. split; [done | apply restatus_refl].
  - exists []. rewrite app_nil_r. split; [done | by intros p ?%elem_of_nil].
  - intros c' [? | ->%list_elem_of_singleton]%elem_of_app; [by left|].
    right; left. exists taskId. by rewrite Hc.
Qed.

Lemma stretch_from taskId r s s' res :
  stretch taskId r s' res -> footprint (Some (taskId, r)) s s' ->
  stretch taskId r s res.
Proof. intros [G H] F. split; [by eapply footprint_trans | done]. Qed.

Lemma footprint_then a s1 s2 s3 :
  footprint a s2 s3 -> footprint a s1 s2 -> footprint a s1 s3.
Proof. intros G F. by eapply footprint_trans. Qed.

(** The footprint of a composition of elementary updates. *)
Ltac footprint_steps :=
  lazymatch goal with
  | |- footprint _ ?s ?s => apply footprint_refl
  | |- footprint _ _ (addLog _ _ _ _ ?e) =>
      apply (footprint_then _ _ e); [apply footprint_addLog | footprint_steps]
  | |- footprint _ _ (tasks_set _ _ ?e) =>
      apply (footprint_then _ _ e); [apply footprint_tasks_set | footprint_steps]
  | |- footprint _ _ (update _ (Task.set_status _) ?e) =>
      apply (footprint_then _ _ e);
        [apply footprint_update; listed | footprint_steps]
  | |- footprint _ _ (set_calls (calls _ ++ [_]) ?e) =>
      apply (footprint_then _ _ e); [by apply footprint_call | footprint_steps]
  | |- footprint _ _ (set_activeTasks _ ?e) =>
      apply (footprint_then _ _ e); [by apply footprint_same | footprint_steps]
  | |- footprint _ _ (set_random _ ?e) =>
      apply (footprint_then _ _ e); [by apply footprint_same | footprint_steps]
  | |- footprint _ _ (set_taskQueue _ ?e) =>
      apply (footprint_then _ _ e); [by apply footprint_same | footprint_steps]
  end.

Section stretches.

Variable clk : Clock.
Variable ptq : State -> State.
Hypothesis Hptq : forall s, footprint None s (ptq s).
Variable taskId : jsstring.
Variable r : nat.

Lemma finally_stretch s : stretch taskId r s (finally ptq taskId r s).
Proof.
  split; [|done]. cbn [finally fst].
  eapply footprint_trans; [|apply footprint_weaken, Hptq].
  footprint_steps.
Qed.

Lemma finalize_stretch s : stretch taskId r s (finalize clk ptq taskId r s).
Proof.
  unfold finalize. destruct (negb (isStopped_at r s)); cbv zeta;
    (eapply stretch_from; [apply finally_stretch | footprint_steps]).
Qed.

Lemma catch_stretch message s :
  stretch taskId r s (catch clk ptq taskId r message s).
Proof.
  unfold catch. cbv zeta.
  eapply stretch_from; [apply finally_stretch | footprint_steps].
Qed.

Lemma send_stretch batch conversation convs message msgs s :
  stretch taskId r s (send clk taskId r batch conversation convs message msgs s).
Proof.
  unfold send. destruct (enhanceMessage message (random s)) as [e g].
  cbv zeta. split; [|done]. cbn [fst]. footprint_steps.
Qed.

Lemma for_conversations_stretch batch after convs :
  (forall s, stretch taskId r s (after s)) ->
  forall s, stretch taskId r s (for_conversations clk taskId r batch after convs s).
Proof.
  intros Hafter. induction convs as [|c convs IH]; intros s;
    cbn [for_conversations]; [done|].
  destruct (isStopped_at r s); [done|].
  destruct (field Task.messages [] r s); [done|]. apply send_stretch.
Qed.

Lemma for_messages_stretch batch after conversation convs msgs :
  (forall s, stretch taskId r s (after s)) ->
  forall s, stretch taskId r s
              (for_messages clk taskId r batch after conversation convs msgs s).
Proof.
  intros Hafter s. unfold for_messages. destruct msgs.
  - by apply for_conversations_stretch.
  - destruct (isStopped_at r s);
      [by apply for_conversations_stretch | apply send_stretch].
Qed.

Lemma batch_end_stretch batch next :
  (forall s, stretch taskId r s (next s)) ->
  forall s, stretch taskId r s (batch_end clk taskId r batch next s).
Proof.
  intros Hnext s. unfold batch_end.
  destruct ((batch <? field Task.batch_count 0 r s - 1)
            && negb (isStopped_at r s)); [|done].
  split; [apply footprint_addLog | done].
Qed.

Lemma for_batches_stretch n :
  forall batch s, stretch taskId r s (for_batches clk ptq taskId r n batch s).
Proof.
  induction n as [|n IH]; intros batch s; cbn [for_batches].
  - apply finalize_stretch.
  - destruct (isStopped_at r s); [apply finalize_stretch|]. cbv zeta.
    eapply stretch_from;
      [apply for_conversations_stretch; intros s';
       apply batch_end_stretch; intros s''; apply IH
      | footprint_steps].
Qed.

Lemma batches_from_stretch batch s :
  stretch taskId r s (batches_from clk ptq taskId r batch s).
Proof. apply for_batches_stretch. Qed.

Lemma after_batch_stretch batch s :
  stretch taskId r s (after_batch clk ptq taskId r batch s).
Proof.
  unfold after_batch. apply batch_end_stretch. intros s'.
  apply batches_from_stretch.
Qed.

Lemma processTask_enter_stretch s :
  stretch taskId r s (processTask_enter clk ptq taskId r s).
Proof.
  unfold processTask_enter. cbv zeta.
  eapply stretch_from; [apply batches_from_stretch | footprint_steps].
Qed.

End stretches.

Lemma resume_stretch clk ptq p sig s res :
  (forall s, footprint None s (ptq s)) ->
  resume clk ptq p sig s = Some res ->
  stretch (p_taskId p) (p_task p) (arrival clk p sig s) res.
Proof.
  intros Hptq. unfold resume, arrival.
  destruct sig as [ok agentLog | | message], (p_await p);
    try discriminate; cbv zeta;
    try (intros [= <-];
         first [ by apply catch_stretch
               | by apply batches_from_stretch
               | apply for_messages_stretch; intros s';
                 by apply after_batch_stretch ]).
  set (s1 := settled _ _ _ _ _ _).
  destruct ((field Task.completed 0 (p_task p) s1
             <? field Task.total 0 (p_task p) s1)
            && negb (isStopped_at (p_task p) s1)); intros [= <-].
  - split; [apply footprint_refl | done].
  - apply for_messages_stretch; intros s'. by apply after_batch_stretch.
Qed.

Lemma footprint_spawn s s1 p :
  footprint None s s1 -> queued_at (p_task p) s ->
  footprint None s (set_procs (procs s1 ++ [Some p]) s1).
Proof.
  intros F Hq. split; simpl.
  - apply (fp_length _ _ _ F).
  - apply (fp_heap _ _ _ F).
  - apply (fp_frame _ _ _ F).
  - destruct (fp_procs _ _ _ F) as (k & E & Hk).
    exists (k ++ [Some p]). split; [by rewrite E, app_assoc|].
    intros p' [Hp | [= ->]%list_elem_of_singleton]%elem_of_app; auto.
  - apply (fp_calls _ _ _ F).
  - apply (fp_tasks _ _ _ F).
Qed.

Lemma tasks_get_Some taskId s r x :
  tasks_get taskId s = Some (r, x) <->
  tasks s !! taskId = Some r /\ heap s !! r = Some x.
Proof.
  unfold tasks_get. destruct (tasks s !! taskId) as [r'|]; [|by split; [|intros []]].
  destruct (heap s !! r') as [x'|] eqn:E; split; try done.
  - by intros [= <- <-].
  - intros [[= <-] H]. congruence.
  - intros [[= <-] H]. congruence.
Qed.

Lemma processTask_footprint clk ptq taskId s r x :
  (forall s, footprint None s (ptq s)) ->
  tasks_get taskId s = Some (r, x) -> Task.status x = queued ->
  footprint None s (processTask clk ptq taskId s).
Proof.
  intros Hptq Hget Hq. unfold processTask. rewrite Hget.
  apply tasks_get_Some in Hget as [Ht Hx].
  assert (queued_at r s) as Hqa by (by exists x).
  destruct (processTask_enter_stretch clk ptq Hptq taskId r s) as [F Ho].
  apply footprint_close in F; [|done..].
  destruct (processTask_enter clk ptq taskId r s) as [s1 [p|]]; [|done].
  simpl in *. destruct Ho as [_ Ho]. apply footprint_spawn; [done|].
  by rewrite Ho.
Qed.

Lemma processTaskQueue_loop_footprint clk n s :
  footprint None s (processTaskQueue_loop clk n s).
Proof.
  revert s; induction n as [|n IH]; intros s; [apply footprint_refl|].
  cbn [processTaskQueue_loop].
  destruct (activeTasks s <? MAX_CONCURRENT_TASKS); [|apply footprint_refl].
  destruct (taskQueue s) as [|taskId rest]; [apply footprint_refl|].
  set (s1 := set_taskQueue rest s).
  assert (footprint None s s1) as F1 by (by apply footprint_same).
  eapply footprint_trans; [|apply IH].
  eapply footprint_trans; [exact F1|].
  destruct (tasks_get taskId s1) as [[r x]|] eqn:Hget; [|apply footprint_refl].
  destruct (bool_decide (Task.status x = queued)) eqn:Hq;
    [|apply footprint_refl].
  destruct (negb (Task.isStopped x)); [|apply footprint_refl].
  apply bool_decide_eq_true in Hq. cbn [andb].
  by eapply processTask_footprint.
Qed.

Lemma processTaskQueue_footprint clk s :
  footprint None s (processTaskQueue clk s).
Proof. apply processTaskQueue_loop_footprint. Qed.

(** ** The invariant along a stretch of processTask *)

Lemma statuses_written v : v ∈ written -> v ∈ statuses.
Proof.
  unfold written, statuses. rewrite !elem_of_cons. tauto.
Qed.

Lemma obj_ok_restatus x v : obj_ok x -> v ∈ written -> obj_ok (Task.set_status v x).
Proof.
  intros [] Hv. split; simpl; auto using statuses_written.
  intros ->. by apply written_not_queued in Hv.
Qed.

Lemma obj_ok_stop x : obj_ok x -> obj_ok (stop x).
Proof.
  intros []. split; simpl; auto.
  - listed.
  - intros H. by vm_compute in H.
Qed.

Lemma proc_ok_restatus p x v : proc_ok p x -> proc_ok p (Task.set_status v x).
Proof. intros []. by split. Qed.

Lemma Inv_same s s' :
  heap s' = heap s -> procs s' = procs s -> calls s' = calls s ->
  Inv s -> Inv s'.
Proof.
  intros Hh Hp Hc []. split; rewrite ?Hh, ?Hp, ?Hc; auto.
Qed.

Lemma quiet_same r s s' : procs s' = procs s -> quiet r s -> quiet r s'.
Proof. unfold quiet. by intros ->. Qed.

Lemma working_same r x0 s s' :
  heap s' = heap s -> procs s' = procs s -> calls s' = calls s ->
  working r x0 s -> working r x0 s'.
Proof.
  intros Hh Hp Hc (HI & Hq & Hx). split; [by eapply Inv_same|].
  split; [by eapply quiet_same|]. by rewrite Hh.
Qed.

(** A status written to an object no suspended call works on. *)
Lemma Inv_restatus r x v s :
  Inv s -> quiet r s -> heap s !! r = Some x -> v ∈ written ->
  Inv (update r (Task.set_status v) s).
Proof.
  intros [Ho Hp Hu Hc] Hq Hx Hv. split; simpl.
  - intros r' x'. destruct (decide (r = r')) as [<- | Hne].
    + rewrite list_lookup_alter_eq, Hx. intros [= <-].
      apply obj_ok_restatus; eauto.
    + rewrite list_lookup_alter_ne by done. apply Ho.
  - intros pid p Hpid. destruct (Hp pid p Hpid) as (y & Hy & Hs & Hok).
    exists y. rewrite list_lookup_alter_ne; [done|].
    intros E. by apply (Hq pid p).
  - apply Hu.
  - intros c Hin. destruct (Hc c Hin) as (y & Hy & Hs).
    destruct (decide (r = c_task c)) as [<- | Hne].
    + rewrite list_lookup_alter_eq, Hx. eexists; split; [done|]. simpl.
      by apply written_not_queued.
    + rewrite list_lookup_alter_ne by done. eauto.
Qed.

Lemma working_restatus r x0 w s :
  working r x0 s -> w ∈ written ->
  working r x0 (update r (Task.set_status w) s)
  /\ heap (update r (Task.set_status w) s) !! r = Some (Task.set_status w x0).
Proof.
  intros (HI & Hq & v & Hv & Hx) Hw.
  assert (heap (update r (Task.set_status w) s) !! r
          = Some (Task.set_status w x0)) as E.
  { simpl. by rewrite list_lookup_alter_eq, Hx. }
  split; [|done]. split; [by eapply Inv_restatus|]. split; [done|].
  exists w. split; [by apply written_not_queued | done].
Qed.

Lemma working_call r x0 c s :
  working r x0 s -> c_task c = r ->
  working r x0 (set_calls (calls s ++ [c]) s).
Proof.
  intros ([Ho Hp Hu Hc] & Hq & v & Hv & Hx) Hr.
  split; [|split; [done | by exists v]]. split; simpl; auto.
  intros c' [Hin | ->%list_elem_of_singleton]%elem_of_app; [by apply Hc|].
  rewrite Hr. eexists. split; [done|]. done.
Qed.

Lemma footprint_quiet a r x s s' :
  footprint a s s' -> heap s !! r = Some x -> Task.status x <> queued ->
  quiet r s -> quiet r s'.
Proof.
  intros F Hx Hs Hq pid p Hpid Hr.
  destruct (fp_procs _ _ _ F) as (k & E & Hk). rewrite E in Hpid.
  apply lookup_app_Some in Hpid as [Hpid | [_ Hpid]].
  - by apply (Hq pid p).
  - destruct (Hk p) as (y & Hy & Hqd).
    { apply list_elem_of_lookup. eauto. }
    rewrite Hr in Hy. congruence.
Qed.

Lemma isStopped_at_working r x0 s :
  working r x0 s -> isStopped_at r s = Task.isStopped x0.
Proof. intros (_ & _ & v & _ & Hx). unfold isStopped_at. by rewrite Hx. Qed.

Lemma working_obj_ok r x0 s : working r x0 s -> obj_ok (Task.set_status completed x0).
Proof.
  intros (HI & _ & v & _ & Hx).
  apply (obj_ok_restatus (Task.set_status v x0) completed);
    [by eapply inv_obj | listed].
Qed.

(** The composition of elementary updates keeps a stretch at work. *)
Ltac working_steps :=
  lazymatch goal with
  | H : working ?r ?x0 ?s |- working ?r ?x0 ?s => exact H
  | |- working _ _ (addLog _ _ _ _ ?e) =>
      apply (working_same _ _ e); [done | done | done | working_steps]
  | |- working _ _ (tasks_set _ _ ?e) =>
      apply (working_same _ _ e); [done | done | done | working_steps]
  | |- working _ _ (set_activeTasks _ ?e) =>
      apply (working_same _ _ e); [done | done | done | working_steps]
  | |- working _ _ (set_random _ ?e) =>
      apply (working_same _ _ e); [done | done | done | working_steps]
  | |- working _ _ (set_calls (calls ?e ++ [_]) ?e) =>
      apply working_call; [working_steps | done]
  | |- working _ _ (update _ (Task.set_status _) ?e) =>
      apply working_restatus; [working_steps | listed]
  end.

Section invariant.

Variable clk : Clock.
Variable ptq : State -> State.
Hypothesis Hfp : forall s, footprint None s (ptq s).
Hypothesis Hinv : forall s, Inv s -> Inv (ptq s).
Variable taskId : jsstring.
Variable r : nat.
Variable x0 : Task.t.

Lemma working_ptq s : working r x0 s -> working r x0 (ptq s).
Proof.
  intros (HI & Hq & v & Hv & Hx).
  split; [by apply Hinv|]. split.
  - eapply footprint_quiet; [apply Hfp | exact Hx | done | done].
  - exists v. split; [done|]. by apply (fp_frame _ _ _ (Hfp s)).
Qed.

Lemma finally_ok normal v s :
  working r x0 s -> heap s !! r = Some (Task.set_status v x0) ->
  (normal = true ->
   Task.isStopped x0 = true
   \/ (v = completed /\ Task.completed x0 = Task.total x0)) ->
  settled_ok normal r x0 (finally ptq taskId r s).
Proof.
  intros W Hx Hn. unfold finally, settled_ok. cbn [fst snd].
  set (s1 := tasks_set _ _ _).
  assert (working r x0 s1) as W1 by (subst s1; working_steps).
  assert (heap s1 !! r = Some (Task.set_status v x0)) as Hx1 by done.
  destruct (working_ptq _ W1) as (HI & Hq & w & Hw & Hy).
  split; [done|]. split; [done|]. exists v.
  assert (v <> queued) as Hv.
  { destruct W1 as (_ & _ & v' & Hv' & E). rewrite Hx1 in E.
    by injection E as ->. }
  split; [done|]. split; [|done].
  by apply (fp_frame _ _ _ (Hfp s1)).
Qed.

Lemma finalize_ok s :
  working r x0 s ->
  Task.isStopped x0 = true \/ Task.completed x0 = Task.total x0 ->
  settled_ok true r x0 (finalize clk ptq taskId r s).
Proof.
  intros W Hd. unfold finalize. rewrite (isStopped_at_working _ _ _ W).
  destruct (Task.isStopped x0) eqn:Hs; cbn [negb]; cbv zeta.
  - apply (finally_ok true stopped); [working_steps | | by left].
    apply working_restatus; [done | listed].
  - apply (finally_ok true completed); [working_steps | |].
    + apply working_restatus; [done | listed].
    + intros _. right. destruct Hd; [done | by split].
Qed.

Lemma catch_ok message s :
  working r x0 s -> settled_ok false r x0 (catch clk ptq taskId r message s).
Proof.
  intros W. unfold catch. cbv zeta.
  apply (finally_ok false error); [working_steps | | done].
  apply working_restatus; [done | listed].
Qed.

Lemma send_ok normal batch conversation convs message msgs s :
  working r x0 s ->
  0 <= batch < Task.batch_count x0 ->
  Task.completed x0 + (1 + ahead x0 convs msgs) + later x0 batch
  = Task.total x0 ->
  settled_ok normal r x0
    (send clk taskId r batch conversation convs message msgs s).
Proof.
  intros W Hb Hd. unfold send.
  destruct (enhanceMessage message (random s)) as [e g]. cbv zeta.
  set (s1 := addLog _ _ _ _ _).
  assert (working r x0 s1) as (HI & Hq & v & Hv & Hx)
    by (subst s1; working_steps).
  split; [done|]. split; [done|]. exists v. split; [done|].
  split; [done|]. cbn [snd]. split; [done|].
  split; cbn [p_batch p_await p_msgs p_convs pending]; [done | lia | done].
Qed.

Lemma for_conversations_ok normal batch after convs :
  (forall s, working r x0 s -> due x0 batch 0 ->
             settled_ok normal r x0 (after s)) ->
  forall s, working r x0 s -> due x0 batch (ahead x0 convs []) ->
            settled_ok normal r x0
              (for_conversations clk taskId r batch after convs s).
Proof.
  intros Hafter. induction convs as [|c convs IH]; intros s W Hd;
    cbn [for_conversations].
  { apply Hafter; [done|]. by unfold ahead in Hd. }
  rewrite (isStopped_at_working _ _ _ W).
  destruct (Task.isStopped x0) eqn:Hs; [apply Hafter; [done | by left]|].
  destruct W as (HI & Hq & v & Hv & Hx).
  unfold field. rewrite Hx. cbn [Task.messages Task.set_status].
  destruct Hd as [? | [Hb Hd]]; [congruence|].
  assert (working r x0 s) as W by (split; [done|]; split; [done|]; eauto).
  unfold ahead in Hd. cbn [length] in Hd.
  destruct (Task.messages x0) as [|message msgs] eqn:Hm.
  - apply IH; [done|]. right. split; [done|].
    unfold ahead. rewrite Hm. cbn [length] in *. lia.
  - apply send_ok; [done | done |].
    unfold ahead. rewrite Hm. cbn [length] in *. lia.
Qed.

Lemma for_messages_ok normal batch after conversation convs msgs :
  (forall s, working r x0 s -> due x0 batch 0 ->
             settled_ok normal r x0 (after s)) ->
  forall s, working r x0 s -> due x0 batch (ahead x0 convs msgs) ->
            settled_ok normal r x0
              (for_messages clk taskId r batch after conversation convs msgs s).
Proof.
  intros Hafter s W Hd. unfold for_messages.
  destruct msgs as [|message msgs].
  { by apply for_conversations_ok. }
  rewrite (isStopped_at_working _ _ _ W).
  destruct (Task.isStopped x0) eqn:Hs.
  - apply for_conversations_ok; [done | done | by left].
  - destruct Hd as [? | [Hb Hd]]; [congruence|].
    apply send_ok; [done | done |].
    unfold ahead in *. cbn [length] in *. lia.
Qed.

Lemma batch_end_ok normal batch next :
  (forall s n, working r x0 s -> due_batches x0 n (batch + 1) ->
               n = Z.to_nat (Task.batch_count x0 - (batch + 1)) ->
               settled_ok normal r x0 (next s)) ->
  forall s, working r x0 s -> due x0 batch 0 ->
            settled_ok normal r x0 (batch_end clk taskId r batch next s).
Proof.
  intros Hnext s W Hd. unfold batch_end.
  rewrite (isStopped_at_working _ _ _ W).
  pose proof W as (HI & Hq & v & Hv & Hx).
  unfold field at 1. rewrite Hx. cbn [Task.batch_count Task.set_status].
  destruct (batch <? Task.batch_count x0 - 1) eqn:Hlt;
    destruct (Task.isStopped x0) eqn:Hs; cbn [andb negb].
  - eapply Hnext; [done | by left | done].
  - destruct Hd as [? | [Hb Hd]]; [congruence|].
    set (s1 := addLog _ _ _ _ _).
    assert (working r x0 s1) as (HI1 & Hq1 & v1 & Hv1 & Hx1)
      by (subst s1; working_steps).
    split; [done|]. split; [done|]. exists v1. split; [done|].
    split; [done|]. cbn [snd]. split; [done|].
    split; cbn [p_batch p_await pending]; [done | lia | lia].
  - eapply Hnext; [done | by left | done].
  - destruct Hd as [? | [Hb Hd]]; [congruence|].
    eapply Hnext; [done | | done]. right.
    split; [done|]. split; [lia|].
    replace (batch + 1 - 1) with batch by lia. lia.
Qed.

Lemma for_batches_ok n :
  forall batch s, working r x0 s -> due_batches x0 n batch ->
                  settled_ok true r x0 (for_batches clk ptq taskId r n batch s).
Proof.
  induction n as [|n IH]; intros batch s W Hd; cbn [for_batches].
  - apply finalize_ok; [done|].
    destruct Hd as [? | (Hn & Hb & Hd)]; [by left | right].
    unfold later in Hd.
    assert (Task.batch_count x0 - batch = 0) as E by lia.
    replace (Task.batch_count x0 - 1 - (batch - 1)) with 0 in Hd by lia.
    lia.
  - rewrite (isStopped_at_working _ _ _ W).
    destruct (Task.isStopped x0) eqn:Hs;
      [apply finalize_ok; [done | by left]|].
    destruct Hd as [? | (Hn & Hb & Hd)]; [congruence|]. cbv zeta.
    set (s1 := addLog _ _ _ _ _).
    assert (working r x0 s1) as W1 by (subst s1; working_steps).
    pose proof W1 as (HI & Hq & v & Hv & Hx).
    unfold field. rewrite Hx. cbn [Task.conversations Task.set_status].
    apply for_conversations_ok; [|done|].
    + apply batch_end_ok. intros s' n' W' Hd' Hn'. apply IH; [done|].
      destruct Hd' as [? | (_ & Hb' & Hd')]; [by left | right].
      split; [lia | by split].
    + right. split; [lia|]. unfold ahead, later, per_batch in *.
      cbn [length]. nia.
Qed.

Lemma batches_from_ok batch s :
  working r x0 s ->
  due_batches x0 (Z.to_nat (Task.batch_count x0 - batch)) batch ->
  settled_ok true r x0 (batches_from clk ptq taskId r batch s).
Proof.
  intros W Hd. unfold batches_from, turns_left.
  pose proof W as (HI & Hq & v & Hv & Hx).
  unfold field. rewrite Hx. cbn [Task.batch_count Task.set_status].
  by apply for_batches_ok.
Qed.

Lemma after_batch_ok batch s :
  working r x0 s -> due x0 batch 0 ->
  settled_ok true r x0 (after_batch clk ptq taskId r batch s).
Proof.
  intros W Hd. unfold after_batch. apply batch_end_ok; [|done..].
  intros s' n W' Hd' Hn. apply batches_from_ok; [done|].
  destruct Hd' as [? | (_ & Hb' & Hd')]; [by left | right]. by split.
Qed.

End invariant.

(** ** The invariant along processTaskQueue *)

Lemma set_status_same x : Task.set_status (Task.status x) x = x.
Proof. by destruct x. Qed.

Lemma Inv_quiet_queued s r x :
  Inv s -> heap s !! r = Some x -> Task.status x = queued -> quiet r s.
Proof.
  intros HI Hx Hq pid p Hpid Hr.
  destruct (inv_proc _ HI pid p Hpid) as (y & Hy & Hs & _).
  rewrite Hr in Hy. congruence.
Qed.

(** A call suspends: it takes a new place among the suspended calls. *)
Lemma Inv_spawn s r x p :
  Inv s -> quiet r s -> heap s !! r = Some x -> Task.status x <> queued ->
  proc_ok p x -> p_task p = r ->
  Inv (set_procs (procs s ++ [Some p]) s).
Proof.
  intros [Ho Hp Hu Hc] Hq Hx Hs Hok Hr. split; simpl; auto.
  - intros pid p' [Hpid | [_ Hpid]]%lookup_app_Some; [by apply (Hp pid)|].
    apply list_lookup_singleton_Some in Hpid as [_ [= <-]].
    rewrite Hr. eauto.
  - intros pid1 pid2 p1 p2 H1 H2 E.
    apply lookup_app_Some in H1 as [H1 | [G1 H1]];
      apply lookup_app_Some in H2 as [H2 | [G2 H2]].
    + by apply (Hu pid1 pid2 p1 p2).
    + apply list_lookup_singleton_Some in H2 as [_ [= <-]].
      exfalso. apply (Hq pid1 p1 H1). congruence.
    + apply list_lookup_singleton_Some in H1 as [_ [= <-]].
      exfalso. apply (Hq pid2 p2 H2). congruence.
    + apply list_lookup_singleton_Some in H1 as [E1 _].
      apply list_lookup_singleton_Some in H2 as [E2 _]. lia.
Qed.

(** A woken call leaves the suspended calls. *)
Lemma Inv_unpark s pid p :
  Inv s -> procs s !! pid = Some (Some p) ->
  Inv (set_procs (<[pid := None]> (procs s)) s)
  /\ quiet (p_task p) (set_procs (<[pid := None]> (procs s)) s).
Proof.
  intros [Ho Hp Hu Hc] Hpid.
  assert (forall pid' p', <[pid := None]> (procs s) !! pid' = Some (Some p') ->
                          pid' <> pid /\ procs s !! pid' = Some (Some p')) as Hold.
  { intros pid' p' H. destruct (decide (pid = pid')) as [<- | Hne].
    - rewrite list_lookup_insert_eq in H by (by eapply lookup_lt_Some). done.
    - by rewrite list_lookup_insert_ne in H. }
  split; [split; simpl; auto|].
  - intros pid' p' [_ H]%Hold. by apply (Hp pid').
  - intros pid1 pid2 p1 p2 [_ H1]%Hold [_ H2]%Hold. by apply Hu.
  - intros pid' p' [Hne H]%Hold E. apply Hne. by apply (Hu pid' pid p' p).
Qed.

(** A call suspends again: it takes its place back. *)
Lemma Inv_park s r x pid p :
  Inv s -> quiet r s -> heap s !! r = Some x -> Task.status x <> queued ->
  proc_ok p x -> p_task p = r ->
  Inv (set_procs (<[pid := Some p]> (procs s)) s).
Proof.
  intros [Ho Hp Hu Hc] Hq Hx Hs Hok Hr.
  assert (forall pid' p', <[pid := Some p]> (procs s) !! pid' = Some (Some p') ->
            (pid' = pid /\ p' = p)
            \/ (pid' <> pid /\ procs s !! pid' = Some (Some p'))) as Hold.
  { intros pid' p' H. destruct (decide (pid = pid')) as [<- | Hne].
    - left. split; [done|].
      destruct (decide (pid < length (procs s))%nat).
      + rewrite list_lookup_insert_eq in H by done. congruence.
      + rewrite list_insert_ge in H by lia.
        apply lookup_lt_Some in H. lia.
    - right. by rewrite list_lookup_insert_ne in H. }
  split; simpl; auto.
  - intros pid' p' [[-> ->] | [_ H]]%Hold; [|by apply (Hp pid')].
    rewrite Hr. eauto.
  - intros pid1 pid2 p1 p2 [[-> ->] | [N1 H1]]%Hold [[-> ->] | [N2 H2]]%Hold E;
      [done | | | by apply (Hu pid1 pid2 p1 p2)].
    + exfalso. apply (Hq pid2 p2 H2). congruence.
    + exfalso. apply (Hq pid1 p1 H1). congruence.
Qed.

Lemma Inv_count s r x ok :
  Inv s -> quiet r s -> heap s !! r = Some x -> Task.status x <> queued ->
  Task.completed x < Task.total x ->
  Inv (update r (Task.count ok) s).
Proof.
  intros [Ho Hp Hu Hc] Hq Hx Hs Hlt. split; simpl; auto.
  - intros r' x'. destruct (decide (r = r')) as [<- | Hne].
    + rewrite list_lookup_alter_eq, Hx. intros [= <-].
      destruct (Ho r x Hx). split; simpl; auto; destruct ok; try lia; done.
    + rewrite list_lookup_alter_ne by done. apply Ho.
  - intros pid p Hpid. destruct (Hp pid p Hpid) as (y & Hy & Hsy & Hok).
    exists y. rewrite list_lookup_alter_ne; [done|].
    intros E. by apply (Hq pid p).
  - intros c Hin. destruct (Hc c Hin) as (y & Hy & Hsy).
    destruct (decide (r = c_task c)) as [<- | Hne].
    + rewrite list_lookup_alter_eq, Hx. eexists; split; [done|]. done.
    + rewrite list_lookup_alter_ne by done. eauto.
Qed.

Lemma proc_ok_stop p x : proc_ok p x -> proc_ok p (stop x).
Proof. intros []. by split. Qed.

Lemma Inv_stop s r :
  Inv s -> Inv (update r stop s).
Proof.
  intros [Ho Hp Hu Hc]. split; simpl; auto.
  - intros r' x'. destruct (decide (r = r')) as [<- | Hne].
    + rewrite list_lookup_alter_eq.
      destruct (heap s !! r) as [x|] eqn:Hx; [|done]. intros [= <-].
      apply obj_ok_stop. eauto.
    + rewrite list_lookup_alter_ne by done. apply Ho.
  - intros pid p Hpid. destruct (Hp pid p Hpid) as (y & Hy & Hsy & Hok).
    destruct (decide (r = p_task p)) as [-> | Hne].
    + rewrite list_lookup_alter_eq, Hy. eexists. split; [done|].
      split; [by vm_compute | by apply proc_ok_stop].
    + rewrite list_lookup_alter_ne by done. eauto.
  - intros c Hin. destruct (Hc c Hin) as (y & Hy & Hsy).
    destruct (decide (r = c_task c)) as [-> | Hne].
    + rewrite list_lookup_alter_eq, Hy. eexists; split; [done|].
      by vm_compute.
    + rewrite list_lookup_alter_ne by done. eauto.
Qed.

Lemma Inv_alloc s task :
  Inv s -> obj_ok task -> Inv (set_heap (heap s ++ [task]) s).
Proof.
  intros [Ho Hp Hu Hc] Hok. split; simpl; auto.
  - intros r x [Hx | [_ Hx]]%lookup_app_Some; [by eapply Ho|].
    by apply list_lookup_singleton_Some in Hx as [_ <-].
  - intros pid p Hpid. destruct (Hp pid p Hpid) as (y & Hy & Hsy & Hpo).
    exists y. split; [|done]. apply lookup_app_Some. by left.
  - intros c Hin. destruct (Hc c Hin) as (y & Hy & Hsy).
    exists y. split; [|done]. apply lookup_app_Some. by left.
Qed.

Lemma processTask_Inv clk ptq taskId s r x :
  (forall s, footprint None s (ptq s)) -> (forall s, Inv s -> Inv (ptq s)) ->
  Inv s -> tasks_get taskId s = Some (r, x) ->
  Task.status x = queued -> Task.isStopped x = false ->
  Inv (processTask clk ptq taskId s).
Proof.
  intros Hfp Hinv HI Hget Hq Hs. unfold processTask. rewrite Hget.
  apply tasks_get_Some in Hget as [Ht Hx].
  pose proof (inv_obj _ HI r x Hx) as Hok.
  set (x0 := Task.set_status running x).
  assert (working r x0 (update r (Task.set_status running) s)) as W.
  { split; [|split].
    - eapply Inv_restatus; eauto using Inv_quiet_queued.
      listed.
    - apply (quiet_same _ s); [done | by eapply Inv_quiet_queued].
    - exists running. split; [by vm_compute|]. simpl.
      by rewrite list_lookup_alter_eq, Hx. }
  unfold processTask_enter. cbv zeta.
  set (s1 := addLog _ _ _ _ _).
  assert (working r x0 s1) as W1.
  { subst s1.
    apply (working_same _ _ (update r (Task.set_status running) s)); done. }
  assert (settled_ok true r x0 (batches_from clk ptq taskId r 0 s1)) as Hres.
  { apply batches_from_ok; [done | done | done|]. right.
    split; [done|]. destruct Hok. simpl. split; [lia|].
    unfold later, per_batch in *. simpl. rewrite ok_queued0 by done.
    rewrite ok_total0. ring. }
  destruct (batches_from clk ptq taskId r 0 s1) as [s2 [p|]];
    destruct Hres as (HI2 & Hq2 & v & Hv & Hx2 & Hp); [|done].
  cbn [fst snd] in *. destruct Hp as [Hr Hpo].
  eapply Inv_spawn; eauto. by apply proc_ok_restatus.
Qed.

Lemma processTaskQueue_loop_Inv clk n s :
  Inv s -> Inv (processTaskQueue_loop clk n s).
Proof.
  revert s; induction n as [|n IH]; intros s HI; [done|].
  cbn [processTaskQueue_loop].
  destruct (activeTasks s <? MAX_CONCURRENT_TASKS); [|done].
  destruct (taskQueue s) as [|taskId rest]; [done|].
  set (s1 := set_taskQueue rest s).
  assert (Inv s1) as HI1 by (by apply (Inv_same s)).
  apply IH.
  destruct (tasks_get taskId s1) as [[r x]|] eqn:Hget; [|done].
  destruct (bool_decide (Task.status x = queued)) eqn:Hq; [|done].
  destruct (Task.isStopped x) eqn:Hs; [done|].
  apply bool_decide_eq_true in Hq. cbn [andb negb].
  eapply processTask_Inv; eauto using processTaskQueue_loop_footprint.
Qed.

Lemma processTaskQueue_Inv clk s : Inv s -> Inv (processTaskQueue clk s).
Proof. apply processTaskQueue_loop_Inv. Qed.

(** ** The invariant along the event loop *)

Lemma foldl_addLog_same clk taskId agentLog s :
  let s' := foldl (fun s l => addLog clk taskId l.1 l.2 s) s agentLog in
  heap s' = heap s /\ procs s' = procs s /\ calls s' = calls s
  /\ tasks s' = tasks s.
Proof.
  revert s; induction agentLog as [|l agentLog IH]; intros s; [done|].
  cbn [foldl]. by destruct (IH (addLog clk taskId l.1 l.2 s)) as (-> & -> & -> & ->).
Qed.

Lemma proc_ok_room p x :
  proc_ok p x -> p_await p = AwaitSend -> Task.completed x < Task.total x.
Proof.
  intros [Hb Hp _] Ha. unfold pending, ahead, later, per_batch in Hp.
  rewrite Ha in Hp. nia.
Qed.

Lemma resume_ok clk p sig s x res :
  Inv s -> quiet (p_task p) s -> heap s !! p_task p = Some x ->
  Task.status x <> queued -> proc_ok p x ->
  resume clk (processTaskQueue clk) p sig s = Some res ->
  settled_ok (normal sig) (p_task p) (counted p sig x) res.
Proof.
  intros HI Hq Hx Hs Hok.
  assert (working (p_task p) x s) as W.
  { split; [done|]. split; [done|]. exists (Task.status x).
    by rewrite set_status_same. }
  pose proof processTaskQueue_footprint clk as Hfp.
  pose proof processTaskQueue_Inv clk as Hinv.
  unfold resume, counted.
  destruct sig as [ok agentLog | | message], (p_await p) eqn:Ha;
    try discriminate; cbv zeta; cbn [normal];
    try (intros [= <-]; by apply catch_ok).
  - set (s1 := settled _ _ _ _ _ _).
    set (x0 := Task.count ok x).
    assert (working (p_task p) x0 s1) as W1.
    { subst s1. unfold settled.
      destruct (foldl_addLog_same clk (p_taskId p) agentLog s)
        as (Eh & Ep & Ec & Et).
      set (s0 := foldl _ s agentLog) in *.
      assert (Inv s0) as HI0 by (by apply (Inv_same s)).
      assert (quiet (p_task p) s0) as Hq0 by (by apply (quiet_same _ s)).
      assert (heap s0 !! p_task p = Some x) as Hx0 by (by rewrite Eh).
      apply (working_same _ _ (update (p_task p) (Task.count ok) s0));
        [done..|].
      split; [|split; [done|]].
      - eapply Inv_count; eauto using proc_ok_room.
      - exists (Task.status x). split; [done|]. cbn [update heap set_heap].
        rewrite list_lookup_alter_eq, Hx0. subst x0. by destruct x. }
    pose proof W1 as (_ & _ & v & _ & Hx1).
    rewrite (isStopped_at_working _ _ _ W1).
    unfold field. rewrite Hx1.
    cbn [Task.completed Task.total Task.set_status].
    destruct Hok as [Hb Hp Hm]. unfold pending in Hp. rewrite Ha in Hp.
    destruct ((Task.completed x0 <? Task.total x0)
              && negb (Task.isStopped x0)); intros [= <-].
    + destruct W1 as (HI1 & Hq1 & v1 & Hv1 & Hy1).
      split; [done|]. split; [done|]. exists v1. split; [done|].
      split; [done|]. cbn [snd]. split; [done|].
      split; cbn [p_batch p_await p_msgs p_convs pending]; [done | | done].
      subst x0. simpl. unfold ahead, later, per_batch in *. simpl. lia.
    + apply for_messages_ok; [| done |].
      * intros s' W' Hd'. by apply after_batch_ok.
      * right. split; [done|]. subst x0. simpl.
        unfold ahead, later, per_batch in *. simpl. lia.
  - intros [= <-]. destruct Hok as [Hb Hp Hm]. unfold pending in Hp.
    rewrite Ha in Hp.
    apply for_messages_ok; [| done |].
    + intros s' W' Hd'. by apply after_batch_ok.
    + right. split; [done | lia].
  - intros [= <-]. destruct Hok as [Hb Hp Hm]. unfold pending in Hp.
    rewrite Ha in Hp. specialize (Hm Ha).
    apply batches_from_ok; [done | done | done |]. right.
    split; [done|]. split; [lia|].
    by replace (p_batch p + 1 - 1) with (p_batch p) by lia.
Qed.

Lemma wake_Inv clk pid sig s s' : Inv s -> wake clk pid sig s = Some s' -> Inv s'.
Proof.
  intros HI. unfold wake.
  destruct (procs s !! pid) as [[p|]|] eqn:Hpid; try discriminate.
  destruct (Inv_unpark s pid p HI Hpid) as [HI0 Hq0].
  destruct (inv_proc _ HI pid p Hpid) as (x & Hx & Hs & Hok).
  destruct (resume _ _ _ _ _) as [[s1 nx]|] eqn:Hres; [|discriminate].
  eapply resume_ok in Hres; eauto.
  destruct Hres as (HI1 & Hq1 & v & Hv & Hx1 & Hnx). cbn [fst snd] in *.
  destruct nx as [p'|]; intros [= <-]; [|done].
  destruct Hnx as [Hr Hpo].
  eapply Inv_park; eauto. by apply proc_ok_restatus.
Qed.

Lemma stop_task_Inv clk taskId s : Inv s -> Inv (stop_task clk taskId s).1.
Proof.
  intros HI. unfold stop_task.
  destruct (tasks_get taskId s) as [[r x]|]; [|done]. cbn [fst].
  apply (Inv_same (update r stop s)); [done..|]. by apply Inv_stop.
Qed.

Lemma stop_all_entry_Inv clk acc e :
  Inv acc.1 -> Inv (stop_all_entry clk acc e).1.
Proof.
  destruct acc as [s n]. intros HI. unfold stop_all_entry.
  destruct (heap s !! e.2) as [x|]; [|done].
  destruct (_ || _); [|done]. cbn [fst].
  apply (Inv_same (update e.2 stop s)); [done..|]. by apply Inv_stop.
Qed.

Lemma stop_all_tasks_Inv clk s : Inv s -> Inv (stop_all_tasks clk s).1.
Proof.
  intros HI. unfold stop_all_tasks.
  assert (forall l acc, Inv acc.1 -> Inv (foldl (stop_all_entry clk) acc l).1)
    as Hfold.
  { induction l as [|e l IH]; intros acc Ha; [done|].
    cbn [foldl]. by apply IH, stop_all_entry_Inv. }
  specialize (Hfold (map_to_list (tasks s)) (s, 0) HI).
  destruct (foldl _ _ _) as [s' n]. cbn [fst] in *.
  by apply (Inv_same s').
Qed.

Lemma cleanup_Inv clk s : Inv s -> Inv (cleanup clk s).
Proof.
  unfold cleanup. generalize (map_to_list (tasks s)) as l.
  intros l; revert s; induction l as [|e l IH]; intros s HI; [done|].
  cbn [foldl]. apply IH. unfold cleanup_entry.
  destruct (heap s !! e.2) as [x|]; [|done].
  destruct (_ && _); [|done]. by apply (Inv_same s).
Qed.

Lemma clamp_range parsed fallback hi : 1 <= hi -> 1 <= clamp parsed fallback hi <= hi.
Proof. intros H. unfold clamp. lia. Qed.

Lemma new_task_ok clk body taskId :
  nonEmptyLines (Body.messages body) <> [] ->
  nonEmptyLines (Body.conversation_id body) <> [] ->
  obj_ok (new_task clk body taskId).
Proof.
  intros Hm Hc. unfold new_task. split; cbn; try done.
  - pose proof (clamp_range (Body.batch_count body) 1 100). nia.
  - unfold per_batch. cbn. ring.
  - apply clamp_range. lia.
  - listed.
Qed.

Lemma enqueue_task_Inv clk task s :
  Inv s -> obj_ok task -> Inv (enqueue_task clk task s).
Proof.
  intros HI Hok. unfold enqueue_task. cbv zeta.
  apply processTaskQueue_Inv.
  apply (Inv_same (set_heap (heap s ++ [task]) s)); [done..|].
  by apply Inv_alloc.
Qed.

(** The three ways [/api/start-task] ends: a rejection before the
    identifier is drawn, a rejection after it, or a new task. *)
Lemma start_task_cases clk body s :
  let taskId := (generateTaskId (random s)).1 in
  let s1 := set_random (generateTaskId (random s)).2 s in
  (exists code message, start_task clk body s = (s, Failure code message))
  \/ (exists code message, start_task clk body s = (s1, Failure code message))
  \/ (parseCookies (Body.cookies body) <> []
      /\ nonEmptyLines (Body.messages body) <> []
      /\ nonEmptyLines (Body.conversation_id body) <> []
      /\ exists position,
           start_task clk body s
           = (enqueue_task clk (new_task clk body taskId) s1,
              TaskQueued taskId
                (Task.total (new_task clk body taskId))
                (Task.batch_count (new_task clk body taskId))
                (Task.batch_delay (new_task clk body taskId))
                (Task.time_delay (new_task clk body taskId)) position)).
Proof.
  intros taskId s1. unfold start_task.
  destruct (_ || _); [left; eauto|].
  destruct (_ || _); [left; eauto|].
  destruct (_ || _); [left; eauto|].
  destruct (_ <=? _); [left; eauto|].
  subst taskId s1. destruct (generateTaskId (random s)) as [taskId g].
  cbv zeta. cbn [fst snd].
  destruct (bool_decide (parseCookies _ = [])) eqn:E1; [right; left; eauto|].
  destruct (bool_decide (nonEmptyLines (Body.messages body) = [])) eqn:E2;
    [right; left; eauto|].
  destruct (bool_decide (nonEmptyLines (Body.conversation_id body) = []))
    eqn:E3; [right; left; eauto|].
  apply bool_decide_eq_false in E1, E2, E3.
  right; right. repeat split; try done. eauto.
Qed.

Lemma start_task_Inv clk body s : Inv s -> Inv (start_task clk body s).1.
Proof.
  intros HI.
  destruct (start_task_cases clk body s)
    as [(c & m & ->) | [(c & m & ->) | (_ & Hm & Hc & pos & ->)]]; cbn [fst].
  - done.
  - by apply (Inv_same s).
  - apply enqueue_task_Inv; [by apply (Inv_same s)|]. by apply new_task_ok.
Qed.

Lemma step_Inv clk e s s' : Inv s -> step clk e s = Some s' -> Inv s'.
Proof.
  intros HI. destruct e; cbn [step]; try (intros [= <-]).
  - by apply start_task_Inv.
  - done.
  - done.
  - by apply stop_task_Inv.
  - by apply stop_all_tasks_Inv.
  - by apply wake_Inv.
  - by apply cleanup_Inv.
Qed.

Lemma run_Inv evs s s' : Inv s -> run evs s = Some s' -> Inv s'.
Proof.
  revert s; induction evs as [|[clk e] evs IH]; intros s HI; cbn [run].
  - by intros [= <-].
  - destruct (step clk e s) as [s1|] eqn:E; [|discriminate].
    apply IH. by eapply step_Inv.
Qed.

Lemma initial_Inv g : Inv (initial g).
Proof.
  split; simpl.
  - intros r x. by rewrite lookup_nil.
  - intros pid p. by rewrite lookup_nil.
  - intros pid1 pid2 p1 p2. by rewrite lookup_nil.
  - by intros c ?%elem_of_nil.
Qed.

Lemma reachable_Inv s : reachable s -> Inv s.
Proof. intros (g & evs & H). eapply run_Inv; [apply initial_Inv | done]. Qed.

(** ** Footprints of the handlers *)

Lemma stop_stop x : stop (stop x) = stop x.
Proof. done. Qed.

Lemma stop_started x : Task.status (stop x) <> queued.
Proof. by vm_compute. Qed.

Lemma handled_refl s : handled s s.
Proof.
  split.
  - intros r x Hx. exists x. split; [done|]. split; [apply evolves_refl | auto].
  - exists []. split; [by rewrite app_nil_r | by intros p ?%elem_of_nil].
  - auto.
Qed.

Lemma started_at_forth s s' r :
  handled s s' -> started_at r s -> started_at r s'.
Proof.
  intros H (x & Hx & Hs).
  destruct (hd_heap _ _ H r x Hx) as (x' & Hx' & He & _).
  exists x'. split; [done|]. by apply (ev_started _ _ He).
Qed.

Lemma handled_trans s1 s2 s3 : handled s1 s2 -> handled s2 s3 -> handled s1 s3.
Proof.
  intros F G. split.
  - intros r x Hx.
    destruct (hd_heap _ _ F r x Hx) as (y & Hy & Exy & Hxy).
    destruct (hd_heap _ _ G r y Hy) as (z & Hz & Eyz & Hyz).
    exists z. split; [done|]. split; [by eapply evolves_trans|].
    intros Hs. pose proof (ev_started _ _ Exy Hs) as Hsy.
    destruct (Hxy Hs) as [-> | ->], (Hyz Hsy) as [-> | ->]; auto.
  - destruct (hd_procs _ _ F) as (k1 & E1 & H1).
    destruct (hd_procs _ _ G) as (k2 & E2 & H2).
    exists (k1 ++ k2). split; [by rewrite E2, E1, app_assoc|].
    intros p [Hp | Hp]%elem_of_app; [by apply H1|].
    intros Hst. apply (H2 p Hp). by eapply started_at_forth.
  - intros c Hc. destruct (hd_calls _ _ G c Hc) as [Hc' | Hn].
    + apply (hd_calls _ _ F c Hc').
    + right. intros Hst. apply Hn. by eapply started_at_forth.
Qed.

Lemma handled_same s s' :
  heap s' = heap s -> procs s' = procs s -> calls s' = calls s -> handled s s'.
Proof.
  intros Hh Hp Hc. split.
  - intros r x Hx. exists x. rewrite Hh. split; [done|].
    split; [apply evolves_refl | auto].
  - exists []. rewrite Hp, app_nil_r. split; [done | by intros p ?%elem_of_nil].
  - intros c. rewrite Hc. auto.
Qed.

Lemma handled_stop r s : handled s (update r stop s).
Proof.
  split; simpl.
  - intros r' x Hx. destruct (decide (r = r')) as [<- | Hne].
    + rewrite list_lookup_alter_eq, Hx. eexists. split; [done|].
      split; [apply evolves_stop | auto].
    + rewrite list_lookup_alter_ne by done. exists x. split; [done|].
      split; [apply evolves_refl | auto].
  - exists []. rewrite app_nil_r. split; [done | by intros p ?%elem_of_nil].
  - auto.
Qed.

Lemma handled_alloc task s : handled s (set_heap (heap s ++ [task]) s).
Proof.
  split; simpl.
  - intros r x Hx. exists x. split; [apply lookup_app_Some; by left|].
    split; [apply evolves_refl | auto].
  - exists []. rewrite app_nil_r. split; [done | by intros p ?%elem_of_nil].
  - auto.
Qed.

Lemma handled_footprint s s' : footprint None s s' -> handled s s'.
Proof.
  intros F. split.
  - intros r x Hx. destruct (fp_heap _ _ _ F r x Hx) as (x' & Hx' & Hr).
    exists x'. split; [done|]. split; [by apply restatus_evolves|].
    intros Hs. left.
    pose proof (fp_frame _ _ _ F r x Hx Hs) as E.
    rewrite E in Hx'; [congruence | done].
  - destruct (fp_procs _ _ _ F) as (k & E & Hk). exists k. split; [done|].
    intros p Hp (x & Hx & Hs). destruct (Hk p Hp) as (y & Hy & Hq). congruence.
  - intros c Hc. destruct (fp_calls _ _ _ F c Hc) as [? | [(? & ?) | Hq]];
      [by left | done |].
    right. intros (x & Hx & Hs). destruct Hq as (y & Hy & Hq). congruence.
Qed.

Lemma stop_task_handled clk taskId s : handled s (stop_task clk taskId s).1.
Proof.
  unfold stop_task.
  destruct (tasks_get taskId s) as [[r x]|]; [|apply handled_refl]. cbn [fst].
  eapply handled_trans; [apply (handled_stop r)|]. by apply handled_same.
Qed.

Lemma stop_all_tasks_handled clk s : handled s (stop_all_tasks clk s).1.
Proof.
  unfold stop_all_tasks.
  assert (forall l acc, handled acc.1 (foldl (stop_all_entry clk) acc l).1)
    as Hfold.
  { induction l as [|e l IH]; intros acc; [apply handled_refl|].
    cbn [foldl]. eapply handled_trans; [|apply IH].
    destruct acc as [s0 n]. unfold stop_all_entry.
    destruct (heap s0 !! e.2) as [x|]; [|apply handled_refl].
    destruct (_ || _); [|apply handled_refl]. cbn [fst].
    eapply handled_trans; [apply (handled_stop e.2)|]. by apply handled_same. }
  specialize (Hfold (map_to_list (tasks s)) (s, 0)).
  destruct (foldl _ _ _) as [s' n]. cbn [fst] in *.
  eapply handled_trans; [exact Hfold|]. by apply handled_same.
Qed.

Lemma cleanup_handled clk s : handled s (cleanup clk s).
Proof.
  unfold cleanup. generalize (map_to_list (tasks s)) as l.
  intros l; revert s; induction l as [|e l IH]; intros s; [apply handled_refl|].
  cbn [foldl]. eapply handled_trans; [|apply IH]. unfold cleanup_entry.
  destruct (heap s !! e.2) as [x|]; [|apply handled_refl].
  destruct (_ && _); [|apply handled_refl]. by apply handled_same.
Qed.

Lemma enqueue_task_handled clk task s : handled s (enqueue_task clk task s).
Proof.
  unfold enqueue_task. cbv zeta.
  eapply handled_trans; [|apply handled_footprint, processTaskQueue_footprint].
  eapply handled_trans; [apply (handled_alloc task)|]. by apply handled_same.
Qed.

Lemma start_task_handled clk body s : handled s (start_task clk body s).1.
Proof.
  destruct (start_task_cases clk body s)
    as [(c & m & ->) | [(c & m & ->) | (_ & Hm & Hc & pos & ->)]]; cbn [fst].
  - apply handled_refl.
  - by apply handled_same.
  - eapply handled_trans; [|apply enqueue_task_handled]. by apply handled_same.
Qed.

(** ** Every turn of the event loop *)

Lemma handled_drift s s' : handled s s' -> drift s s'.
Proof.
  intros H. split.
  - intros r x Hx. destruct (hd_heap _ _ H r x Hx) as (x' & Hx' & He & _).
    eauto.
  - intros r x Hx Hs Hq.
    destruct (hd_heap _ _ H r x Hx) as (x' & Hx' & He & Hd).
    exists x'. split; [done|]. split; [by apply Hd|]. split.
    + intros pid p Hpid Hr. destruct (hd_procs _ _ H) as (k & E & Hk).
      rewrite E in Hpid. apply lookup_app_Some in Hpid as [Hpid | [_ Hpid]].
      * by apply (Hq pid p).
      * apply (Hk p); [apply list_elem_of_lookup; eauto|].
        rewrite Hr. by exists x.
    + intros c Hc Hr. destruct (hd_calls _ _ H c Hc) as [? | Hn]; [done|].
      exfalso. apply Hn. rewrite Hr. by exists x.
Qed.

Lemma drift_refl s : drift s s.
Proof. apply handled_drift, handled_refl. Qed.

Lemma drift_trans s1 s2 s3 : drift s1 s2 -> drift s2 s3 -> drift s1 s3.
Proof.
  intros F G. split.
  - intros r x Hx.
    destruct (dr_heap _ _ F r x Hx) as (y & Hy & Exy).
    destruct (dr_heap _ _ G r y Hy) as (z & Hz & Eyz).
    exists z. split; [done | by eapply evolves_trans].
  - intros r x Hx Hs Hq.
    destruct (dr_idle _ _ F r x Hx Hs Hq) as (y & Hy & Hxy & Hqy & Hcy).
    assert (Task.status y <> queued) as Hsy.
    { destruct Hxy as [-> | ->]; [done | apply stop_started]. }
    destruct (dr_idle _ _ G r y Hy Hsy Hqy) as (z & Hz & Hyz & Hqz & Hcz).
    exists z. split; [done|]. split.
    { destruct Hxy as [-> | ->], Hyz as [-> | ->]; auto. }
    split; [done|]. intros c Hc Hr. by apply Hcy; [apply Hcz|].
Qed.

Lemma settled_facts clk taskId r ok agentLog s :
  let s' := settled clk taskId r ok agentLog s in
  procs s' = procs s /\ calls s' = calls s
  /\ heap s' = alter (Task.count ok) r (heap s).
Proof.
  unfold settled. cbv zeta.
  destruct (foldl_addLog_same clk taskId agentLog s) as (Eh & Ep & Ec & Et).
  cbn [procs calls heap tasks_set update set_tasks set_heap].
  by rewrite Eh, Ep, Ec.
Qed.

Lemma arrival_facts clk p sig s :
  let s' := arrival clk p sig s in
  procs s' = procs s /\ calls s' = calls s
  /\ (forall r, r <> p_task p -> heap s' !! r = heap s !! r)
  /\ (forall x, heap s !! p_task p = Some x ->
                heap s' !! p_task p = Some (counted p sig x)).
Proof.
  unfold arrival, counted.
  destruct sig as [ok agentLog | | message], (p_await p); try done.
  destruct (settled_facts clk (p_taskId p) (p_task p) ok agentLog s)
    as (Ep & Ec & Eh).
  cbv zeta. rewrite Ep, Ec, Eh. split; [done|]. split; [done|]. split.
  - intros r Hr. by rewrite list_lookup_alter_ne.
  - intros x Hx. by rewrite list_lookup_alter_eq, Hx.
Qed.

Lemma evolves_counted p sig x : evolves x (counted p sig x).
Proof.
  unfold counted. destruct sig, (p_await p);
    auto using evolves_refl, evolves_count.
Qed.

Lemma quiet_unpark r pid s :
  quiet r s -> quiet r (set_procs (<[pid := None]> (procs s)) s).
Proof.
  intros Hq pid' p' H. simpl in H. apply (Hq pid' p').
  destruct (decide (pid = pid')) as [<- | Hne].
  - destruct (decide (pid < length (procs s))%nat).
    + by rewrite list_lookup_insert_eq in H.
    + by rewrite list_insert_ge in H by lia.
  - by rewrite list_lookup_insert_ne in H.
Qed.

Lemma quiet_park r pid p s :
  quiet r s -> p_task p <> r ->
  quiet r (set_procs (<[pid := Some p]> (procs s)) s).
Proof.
  intros Hq Hr pid' p' H. simpl in H.
  destruct (decide (pid = pid')) as [<- | Hne].
  - destruct (decide (pid < length (procs s))%nat).
    + rewrite list_lookup_insert_eq in H by done. congruence.
    + rewrite list_insert_ge in H by lia. by apply (Hq pid p').
  - rewrite list_lookup_insert_ne in H by done. by apply (Hq pid' p').
Qed.

Lemma wake_drift clk pid sig s s' : wake clk pid sig s = Some s' -> drift s s'.
Proof.
  unfold wake.
  destruct (procs s !! pid) as [[p|]|] eqn:Hpid; try discriminate.
  set (s0 := set_procs _ s).
  destruct (resume _ _ _ _ _) as [[s1 nx]|] eqn:Hres; [|discriminate].
  apply resume_stretch in Hres as [F Ho];
    [|apply processTaskQueue_footprint].
  destruct (arrival_facts clk p sig s0) as (Ep & Ec & Eo & Er).
  set (sa := arrival clk p sig s0) in *. cbn [fst snd] in *.
  intros Hs'.
  assert (heap s' = heap s1 /\ calls s' = calls s1) as [Eh' Ec'].
  { destruct nx; by injection Hs' as <-. }
  split.
  - intros r x Hx.
    assert (exists y, heap sa !! r = Some y /\ evolves x y) as (y & Hy & Exy).
    { destruct (decide (r = p_task p)) as [-> | Hne].
      - eexists. split; [by apply Er | apply evolves_counted].
      - exists x. rewrite Eo by done. split; [done | apply evolves_refl]. }
    destruct (fp_heap _ _ _ F r y Hy) as (z & Hz & Hyz).
    exists z. rewrite Eh'. split; [done|].
    eapply evolves_trans; [done | by apply restatus_evolves].
  - intros r x Hx Hs Hq.
    assert (r <> p_task p) as Hne.
    { intros ->. by apply (Hq pid p). }
    assert (heap sa !! r = Some x) as Hxa by (by rewrite Eo).
    assert (heap s1 !! r = Some x) as Hx1.
    { apply (fp_frame _ _ _ F r x Hxa Hs). intros tid [= _ E]. done. }
    assert (quiet r s1) as Hq1.
    { eapply footprint_quiet; [exact F | exact Hxa | done |].
      apply (quiet_same _ s0); [done|]. by apply quiet_unpark. }
    exists x. rewrite Eh'. split; [done|]. split; [by left|]. split.
    + destruct nx as [p'|]; injection Hs' as <-; [|done].
      apply quiet_park; [done|]. destruct Ho as [_ ->]. auto.
    + intros c. rewrite Ec'. intros Hc Hr.
      destruct (fp_calls _ _ _ F c Hc) as [Hin | [(tid & [= _ E]) | Hqd]].
      * by rewrite Ec in Hin.
      * congruence.
      * destruct Hqd as (y & Hy & Hqy). rewrite Hr in Hy. congruence.
Qed.

Lemma step_drift clk e s s' : step clk e s = Some s' -> drift s s'.
Proof.
  destruct e; cbn [step]; try (intros [= <-]).
  - apply handled_drift, start_task_handled.
  - apply drift_refl.
  - apply drift_refl.
  - apply handled_drift, stop_task_handled.
  - apply handled_drift, stop_all_tasks_handled.
  - apply wake_drift.
  - apply handled_drift, cleanup_handled.
Qed.

Lemma run_drift evs s s' : run evs s = Some s' -> drift s s'.
Proof.
  revert s; induction evs as [|[clk e] evs IH]; intros s; cbn [run].
  - intros [= <-]. apply drift_refl.
  - destruct (step clk e s) as [s1|] eqn:E; [|discriminate].
    intros H. eapply drift_trans; [by eapply step_drift | by apply IH].
Qed.

Lemma run_app evs1 evs2 s :
  run (evs1 ++ evs2) s
  = match run evs1 s with Some s1 => run evs2 s1 | None => None end.
Proof.
  revert s; induction evs1 as [|[clk e] evs1 IH]; intros s; [done|].
  cbn [run app]. destruct (step clk e s); [apply IH | done].
Qed.

Lemma reachable_run evs s s' : reachable s -> run evs s = Some s' -> reachable s'.
Proof.
  intros (g & evs0 & H0) H. exists g, (evs0 ++ evs). by rewrite run_app, H0.
Qed.

(** What a woken call leaves alone: the objects of the other calls that
    had left the queue, and the places of the other calls. *)
Lemma wake_others clk pid sig s s' p :
  procs s !! pid = Some (Some p) -> wake clk pid sig s = Some s' ->
  (forall r x, r <> p_task p -> heap s !! r = Some x ->
               Task.status x <> queued -> heap s' !! r = Some x)
  /\ (forall pid' o, pid' <> pid -> procs s !! pid' = Some o ->
                     procs s' !! pid' = Some o).
Proof.
  intros Hpid. unfold wake. rewrite Hpid.
  set (s0 := set_procs _ s).
  destruct (resume _ _ _ _ _) as [[s1 nx]|] eqn:Hres; [|discriminate].
  apply resume_stretch in Hres as [F Ho];
    [|apply processTaskQueue_footprint].
  destruct (arrival_facts clk p sig s0) as (Ep & Ec & Eo & Er).
  set (sa := arrival clk p sig s0) in *. cbn [fst snd] in *.
  intros Hs'. split.
  - intros r x Hne Hx Hs.
    assert (heap s' = heap s1) as -> by (destruct nx; by injection Hs' as <-).
    apply (fp_frame _ _ _ F r x); [by rewrite Eo | done |].
    intros tid [= _ E]. done.
  - intros pid' o Hne Ho'.
    assert (procs s1 !! pid' = Some o) as H1.
    { destruct (fp_procs _ _ _ F) as (k & -> & _). rewrite Ep.
      apply lookup_app_Some. left. subst s0. simpl.
      by rewrite list_lookup_insert_ne. }
    destruct nx as [p'|]; injection Hs' as <-; [|done]. simpl.
    by rewrite list_lookup_insert_ne.
Qed.

Lemma handled_slots s s' pid o :
  handled s s' -> procs s !! pid = Some o -> procs s' !! pid = Some o.
Proof.
  intros H Ho. destruct (hd_procs _ _ H) as (k & -> & _).
  apply lookup_app_Some. by left.
Qed.

Lemma step_slots clk e s s' pid o :
  step clk e s = Some s' -> procs s !! pid = Some o ->
  (forall sig, e <> Wake pid sig) -> procs s' !! pid = Some o.
Proof.
  intros Hstep Ho Hne. destruct e; cbn [step] in Hstep;
    try (injection Hstep as <-).
  - eapply handled_slots; [apply start_task_handled | done].
  - done.
  - done.
  - eapply handled_slots; [apply stop_task_handled | done].
  - eapply handled_slots; [apply stop_all_tasks_handled | done].
  - unfold wake in Hstep.
    destruct (procs s !! pid0) as [[p|]|] eqn:Hp; try discriminate.
    eapply (wake_others clk pid0 sig s s' p); eauto.
    + unfold wake. by rewrite Hp.
    + intros ->. by apply (Hne sig).
  - eapply handled_slots; [apply cleanup_handled | done].
Qed.

(** ** A task all of whose deliveries fail *)

Lemma step_handled clk e s s' :
  (forall pid sig, e <> Wake pid sig) -> step clk e s = Some s' -> handled s s'.
Proof.
  intros Hne. destruct e; cbn [step]; try (intros [= <-]).
  - apply start_task_handled.
  - apply handled_refl.
  - apply handled_refl.
  - apply stop_task_handled.
  - apply stop_all_tasks_handled.
  - by destruct (Hne pid sig).
  - apply cleanup_handled.
Qed.

Lemma event_cases e pid :
  (exists sig, e = Wake pid sig)
  \/ (exists pid' sig, pid' <> pid /\ e = Wake pid' sig)
  \/ (forall pid' sig, e <> Wake pid' sig).
Proof.
  destruct e as [| | | | | pid' sig |]; try (by right; right).
  destruct (decide (pid' = pid)) as [-> | Hne]; [left; eauto|].
  right; left. eauto.
Qed.

Lemma success_counted p sig x :
  sig = Elapsed \/ (exists agentLog, sig = Settled false agentLog) ->
  Task.success (counted p sig x) = Task.success x
  /\ Task.isStopped (counted p sig x) = Task.isStopped x
  /\ normal sig = true.
Proof.
  unfold counted. intros [-> | [l ->]]; [done|]. by destruct (p_await p).
Qed.

(** The wake of a call, taken apart. *)
Lemma wake_inversion clk pid sig s s' p x :
  Inv s -> procs s !! pid = Some (Some p) -> heap s !! p_task p = Some x ->
  wake clk pid sig s = Some s' ->
  Inv s'
  /\ exists v, v <> queued
     /\ heap s' !! p_task p = Some (Task.set_status v (counted p sig x))
     /\ ((exists p' s1, procs s' !! pid = Some (Some p') /\ p_task p' = p_task p
                     /\ proc_ok p' (counted p sig x)
                     /\ resume clk (processTaskQueue clk) p sig
                          (set_procs (<[pid := None]> (procs s)) s)
                        = Some (s1, Suspend p'))
         \/ (procs s' !! pid = Some None /\ quiet (p_task p) s'
             /\ (normal sig = true ->
                 Task.isStopped (counted p sig x) = true
                 \/ (v = completed
                     /\ Task.completed (counted p sig x)
                        = Task.total (counted p sig x))))).
Proof.
  intros HI Hpid Hx Hwake. split; [by eapply wake_Inv|].
  unfold wake in Hwake. rewrite Hpid in Hwake.
  destruct (Inv_unpark s pid p HI Hpid) as [HI0 Hq0].
  destruct (inv_proc _ HI pid p Hpid) as (y & Hy & Hs & Hok).
  assert (y = x) as -> by congruence.
  set (s0 := set_procs _ s) in *.
  destruct (resume _ _ _ _ _) as [[s1 nx]|] eqn:Hres; [|discriminate].
  pose proof Hres as [F _]%resume_stretch;
    [|apply processTaskQueue_footprint].
  pose proof Hres as Hres'.
  eapply resume_ok in Hres; eauto.
  destruct Hres as (HI1 & Hq1 & v & Hv & Hx1 & Hnx). cbn [fst snd] in *.
  assert (procs s1 !! pid = Some None) as Hslot.
  { destruct (fp_procs _ _ _ F) as (k & -> & _).
    destruct (arrival_facts clk p sig s0) as (-> & _).
    apply lookup_app_Some. left. subst s0. simpl.
    apply list_lookup_insert_eq. by eapply lookup_lt_Some. }
  exists v. split; [done|].
  destruct nx as [p'|]; injection Hwake as <-.
  - split; [done|]. left. exists p', s1. destruct Hnx as [Hr Hpo].
    split; [|done]. simpl. apply list_lookup_insert_eq.
    by eapply lookup_lt_Some.
  - split; [done|]. right. done.
Qed.

Lemma step_on_course clk e s s' pid r :
  Inv s -> on_course pid r s -> step clk e s = Some s' ->
  (forall sig, e = Wake pid sig ->
     sig = Elapsed \/ exists agentLog, sig = Settled false agentLog) ->
  on_course pid r s'.
Proof.
  intros HI (x & Hx & Hc) Hstep Hsig.
  destruct Hc as [Hstop | [Hsucc [(p & Hpid & Hr) | (Hpid & Hq & Hs & Hfull)]]].
  - destruct (dr_heap _ _ (step_drift _ _ _ _ Hstep) r x Hx) as (x' & Hx' & He).
    exists x'. split; [done|]. left. by apply (ev_isStopped _ _ He).
  - destruct (inv_proc _ HI pid p Hpid) as (y & Hy & Hsy & Hok).
    rewrite Hr in Hy. assert (y = x) as -> by congruence.
    destruct (event_cases e pid)
      as [[sig ->] | [(pid' & sig & Hpne & ->) | Hne']].
    + cbn [step] in Hstep. rewrite <- Hr in Hx.
      destruct (wake_inversion clk pid sig s s' p x HI Hpid Hx Hstep)
        as (_ & v & Hv & Hx' & Hend).
      destruct (success_counted p sig x (Hsig sig eq_refl)) as (Es & Ei & En).
      rewrite Hr in Hx'. eexists. split; [exact Hx'|].
      cbn [Task.isStopped Task.success Task.set_status]. rewrite Es, Ei.
      destruct Hend as [(p' & s1 & Hp' & Hr' & _) | (Hnone & Hq' & Hn)].
      * right. split; [done|]. left. exists p'. split; [done | congruence].
      * destruct (Hn En) as [Hst | [-> Hfull]]; [rewrite <- Ei; by left|].
        right. split; [done|]. right. rewrite Hr in Hq'.
        split; [done|]. split; [done|]. split; [done|]. exact Hfull.
    + cbn [step] in Hstep. pose proof Hstep as Hwake. unfold wake in Hwake.
      destruct (procs s !! pid') as [[p'|]|] eqn:Hp'; try discriminate.
      clear Hwake.
      destruct (wake_others clk pid' sig s s' p' Hp' Hstep) as [Ho Hsl].
      exists x. split.
      * apply Ho; [|done..]. intros E. apply Hpne.
        apply (inv_uniq _ HI pid' pid p' p); congruence.
      * right. split; [done|]. left. exists p. split; [|done].
        by apply Hsl.
    + assert (handled s s') as H.
      { by eapply step_handled. }
      destruct (hd_heap _ _ H r x Hx) as (x' & Hx' & _ & Hd).
      exists x'. split; [done|].
      destruct (Hd Hsy) as [-> | ->]; [|by left].
      right. split; [done|]. left. exists p. split; [|done].
      by eapply handled_slots.
  - assert (Task.status x <> queued) as Hsq by (rewrite Hs; by vm_compute).
    destruct (dr_idle _ _ (step_drift _ _ _ _ Hstep) r x Hx Hsq Hq)
      as (x' & Hx' & Hd & Hq' & _).
    exists x'. split; [done|]. destruct Hd as [-> | ->]; [|by left].
    right. split; [done|]. right. split; [|done].
    eapply step_slots; [done | done |]. intros sig ->.
    cbn [step] in Hstep. unfold wake in Hstep. by rewrite Hpid in Hstep.
Qed.

Lemma run_on_course evs s s' pid r :
  Inv s -> on_course pid r s -> run evs s = Some s' -> fails_only pid evs ->
  on_course pid r s'.
Proof.
  revert s; induction evs as [|[clk e] evs IH]; intros s HI Hc; cbn [run].
  - by intros [= <-].
  - destruct (step clk e s) as [s1|] eqn:E; [|discriminate].
    intros Hrun Hf. apply (IH s1); [by eapply step_Inv | | done |].
    + eapply step_on_course; eauto. intros sig ->. apply (Hf clk).
      apply elem_of_cons. by left.
    + intros clk' sig Hin. apply (Hf clk'). apply elem_of_cons. by right.
Qed.

(** *** The call comes to its end *)

Lemma finalize_returns clk ptq taskId r s :
  (finalize clk ptq taskId r s).2 = Return.
Proof. unfold finalize, finally. by destruct (negb _). Qed.

Lemma send_shape clk taskId r batch conversation convs message msgs s :
  (send clk taskId r batch conversation convs message msgs s).2
  = Suspend (mkProc taskId r batch conversation convs msgs AwaitSend).
Proof. unfold send. by destruct (enhanceMessage _ _). Qed.

Section shapes.

Variable clk : Clock.
Variable ptq : State -> State.
Variable taskId : jsstring.
Variable r : nat.
Variable x0 : Task.t.
Hypothesis Hgo : Task.isStopped x0 = false.
Hypothesis Hmsgs : Task.messages x0 <> [].
Hypothesis Hconvs : Task.conversations x0 <> [].

Lemma for_conversations_shape batch after conversation convs s :
  working r x0 s ->
  exists message msgs,
    for_conversations clk taskId r batch after (conversation :: convs) s
    = send clk taskId r batch conversation convs message msgs s.
Proof.
  intros W. cbn [for_conversations].
  rewrite (isStopped_at_working _ _ _ W), Hgo.
  destruct W as (_ & _ & v & _ & Hx). unfold field. rewrite Hx.
  cbn [Task.messages Task.set_status].
  destruct (Task.messages x0) as [|message msgs]; [done|]. eauto.
Qed.

Lemma batches_from_shape batch s :
  working r x0 s ->
  match (batches_from clk ptq taskId r batch s).2 with
  | Suspend p => p_await p = AwaitSend
  | Return => True
  end.
Proof.
  intros W. unfold batches_from.
  destruct (turns_left r batch s) as [|n]; cbn [for_batches].
  { by rewrite finalize_returns. }
  rewrite (isStopped_at_working _ _ _ W), Hgo. cbv zeta.
  set (s1 := addLog _ _ _ _ _).
  assert (working r x0 s1) as W1 by (subst s1; working_steps).
  pose proof W1 as (_ & _ & v & _ & Hx). unfold field. rewrite Hx.
  cbn [Task.conversations Task.set_status].
  destruct (Task.conversations x0) as [|c cs]; [done|].
  destruct (for_conversations_shape batch
              (batch_end clk taskId r batch
                 (for_batches clk ptq taskId r n (batch + 1))) c cs s1 W1)
    as (m & ms & ->).
  by rewrite send_shape.
Qed.

Lemma for_messages_shape batch conversation convs msgs s :
  working r x0 s ->
  match (for_messages clk taskId r batch (after_batch clk ptq taskId r batch)
           conversation convs msgs s).2 with
  | Suspend p => p_await p <> AwaitDelay
  | Return => True
  end.
Proof.
  intros W. unfold for_messages. destruct msgs as [|m ms].
  - destruct convs as [|c cs].
    + cbn [for_conversations]. unfold after_batch, batch_end.
      destruct (_ && _); [done|].
      pose proof (batches_from_shape (batch + 1) s W) as H.
      destruct (batches_from _ _ _ _ _ _) as [s1 [p|]]; [|done].
      cbn [snd] in *. by rewrite H.
    + destruct (for_conversations_shape batch
                  (after_batch clk ptq taskId r batch) c cs s W)
        as (m & ms & ->).
      by rewrite send_shape.
  - rewrite (isStopped_at_working _ _ _ W), Hgo. by rewrite send_shape.
Qed.

End shapes.

Lemma pending_restatus p v x : pending p (Task.set_status v x) = pending p x.
Proof. done. Qed.

Lemma pending_nonneg p x : proc_ok p x -> 0 <= pending p x.
Proof.
  intros [Hb _ _]. unfold pending, ahead, later, per_batch.
  destruct (p_await p); nia.
Qed.

(** A suspended call whose task is not stopped can be woken by a failure
    or a timer, and it returns or suspends with less left to do. *)
Lemma wake_progress clk s pid p x :
  Inv s -> procs s !! pid = Some (Some p) -> heap s !! p_task p = Some x ->
  Task.isStopped x = false ->
  exists s' x',
    wake clk pid (failure p) s = Some s'
    /\ heap s' !! p_task p = Some x' /\ Task.isStopped x' = false
    /\ (procs s' !! pid = Some None
        \/ exists p', procs s' !! pid = Some (Some p')
                      /\ p_task p' = p_task p
                      /\ (effort p' x' < effort p x)%nat).
Proof.
  intros HI Hpid Hx Hgo.
  assert (exists s', wake clk pid (failure p) s = Some s') as [s' Hwake].
  { unfold wake. rewrite Hpid.
    assert (is_Some (resume clk (processTaskQueue clk) p (failure p)
                       (set_procs (<[pid:=None]> (procs s)) s)))
      as [[s1 nx] ->].
    { unfold resume, failure. destruct (p_await p); [|done..].
      cbv zeta. by destruct (_ && _). }
    destruct nx; eauto. }
  destruct (wake_inversion clk pid (failure p) s s' p x HI Hpid Hx Hwake)
    as (_ & v & Hv & Hx' & Hend).
  destruct (success_counted p (failure p) x) as (_ & Ei & _).
  { unfold failure. destruct (p_await p); eauto. }
  exists s', (Task.set_status v (counted p (failure p) x)).
  split; [done|]. split; [done|]. split; [by rewrite <- Hgo, <- Ei|].
  destruct Hend as [(p' & s1 & Hslot & Hr' & Hok' & Hres) | (Hnone & _)];
    [right | by left].
  exists p'. split; [done|]. split; [done|].
  destruct (inv_proc _ HI pid p Hpid) as (y & Hy & Hsy & Hok).
  assert (y = x) as -> by congruence.
  pose proof (inv_obj _ HI _ x Hx) as Hobj.
  pose proof (pending_nonneg _ _ Hok) as Hn.
  pose proof (pending_nonneg _ _ Hok') as Hn'.
  destruct Hok as [Hb Hp Hm], Hok' as [Hb' Hp' _].
  unfold effort. rewrite pending_restatus.
  destruct (Inv_unpark s pid p HI Hpid) as [HI0 Hq0].
  assert (working (p_task p) x (set_procs (<[pid:=None]> (procs s)) s)) as W.
  { split; [done|]. split; [done|]. exists (Task.status x).
    by rewrite set_status_same. }
  unfold resume, failure, counted in *.
  destruct (p_await p) eqn:Ha.
  - cbn [Task.completed Task.total Task.count] in Hp'.
    assert (pending p' (Task.count false x) = pending p x - 1) as E by lia.
    rewrite E. cbn [rank]. destruct (p_await p'); cbn [rank]; lia.
  - injection Hres as Hres.
    pose proof (for_messages_shape clk (processTaskQueue clk) (p_taskId p)
                  (p_task p) x Hgo (ok_messages _ Hobj)
                  (ok_conversations _ Hobj) (p_batch p) (p_conversation p)
                  (p_convs p) (p_msgs p) _ W) as Hshape.
    rewrite Hres in Hshape. cbn [snd] in Hshape.
    assert (pending p' x = pending p x) as -> by lia.
    cbn [rank]. destruct (p_await p'); cbn [rank]; [lia | done | lia].
  - injection Hres as Hres.
    pose proof (batches_from_shape clk (processTaskQueue clk) (p_taskId p)
                  (p_task p) x Hgo (ok_messages _ Hobj)
                  (ok_conversations _ Hobj) (p_batch p + 1) _ W) as Hshape.
    rewrite Hres in Hshape. cbn [snd] in Hshape.
    assert (pending p' x = pending p x) as -> by lia.
    rewrite Hshape. cbn [rank]. lia.
Qed.

Lemma wakes_only_fails clk pid evs : wakes_only clk pid evs -> fails_only pid evs.
Proof.
  intros H clk' sig Hin. destruct (H _ Hin) as (sig' & [= -> ->] & [-> | ->]);
    eauto.
Qed.

Lemma drive_to_end clk n : forall s pid p x,
  (effort p x <= n)%nat ->
  Inv s -> procs s !! pid = Some (Some p) -> heap s !! p_task p = Some x ->
  Task.isStopped x = false ->
  exists evs s' x',
    wakes_only clk pid evs /\ run evs s = Some s'
    /\ procs s' !! pid = Some None
    /\ heap s' !! p_task p = Some x' /\ Task.isStopped x' = false.
Proof.
  induction n as [|n IH]; intros s pid p x Hn HI Hpid Hx Hgo;
    destruct (wake_progress clk s pid p x HI Hpid Hx Hgo)
      as (s1 & x1 & Hwake & Hx1 & Hgo1 & [Hend | (p' & Hp' & Hr & Hlt)]).
  1, 3: exists [(clk, Wake pid (failure p))], s1, x1;
    (split; [|split; [by cbn [run step]; rewrite Hwake | done]]);
    intros ce ->%list_elem_of_singleton; exists (failure p);
    (split; [done|]); unfold failure; destruct (p_await p); auto.
  - lia.
  - rewrite <- Hr in Hx1.
    destruct (IH s1 pid p' x1) as (evs & s' & x' & Hw & Hrun & Hend & Hx' & Hgo');
      [lia | by eapply wake_Inv | done | done | done |].
    exists ((clk, Wake pid (failure p)) :: evs), s', x'.
    split; [|split; [by cbn [run step]; rewrite Hwake|by rewrite <- Hr]].
    intros ce [-> | Hin]%elem_of_cons; [|by apply Hw].
    exists (failure p). split; [done|].
    unfold failure; destruct (p_await p); auto.
Qed.

(** ** The admission bound, when nothing resets the counter *)

Lemma known_same s s' :
  heap s' = heap s -> procs s' = procs s -> tasks s' = tasks s ->
  known s -> known s'.
Proof. intros Hh Hp Ht []. split; rewrite ?Hh, ?Hp, ?Ht; auto. Qed.

Lemma counted_with_same taskId r s s' :
  heap s' = heap s -> procs s' = procs s -> tasks s' = tasks s ->
  activeTasks s' = activeTasks s ->
  counted_with taskId r s -> counted_with taskId r s'.
Proof.
  intros Hh Hp Ht Ha []. split; rewrite ?Hh, ?Hp, ?Ha; auto.
  by apply (known_same s).
Qed.

Lemma counted_in_same s s' :
  heap s' = heap s -> procs s' = procs s -> tasks s' = tasks s ->
  activeTasks s' = activeTasks s ->
  counted_in s -> counted_in s'.
Proof.
  intros Hh Hp Ht Ha []. split; rewrite ?Hh, ?Hp, ?Ha; auto.
  by apply (known_same s).
Qed.

(** An update that keeps the identifier of the object. *)
Lemma known_update r f s :
  (forall x, Task.id (f x) = Task.id x) -> known s -> known (update r f s).
Proof.
  intros Hf [Hr Hp]. split; simpl.
  - intros taskId r' Ht. destruct (Hr taskId r' Ht) as (x & Hx & Hid).
    destruct (decide (r = r')) as [<- | Hne].
    + rewrite list_lookup_alter_eq, Hx. eexists. split; [done|].
      by rewrite Hf.
    + rewrite list_lookup_alter_ne by done. eauto.
  - intros pid p Hpid. destruct (Hp pid p Hpid) as (x & Hx & Hid).
    destruct (decide (r = p_task p)) as [-> | Hne].
    + rewrite list_lookup_alter_eq, Hx. eexists. split; [done|].
      by rewrite Hf.
    + rewrite list_lookup_alter_ne by done. eauto.
Qed.

Lemma known_tasks_set taskId r s x :
  heap s !! r = Some x -> Task.id x = taskId -> known s ->
  known (tasks_set taskId r s).
Proof.
  intros Hx Hid [Hr Hp]. split; simpl; [|done].
  intros k r'. destruct (decide (taskId = k)) as [<- | Hne].
  - rewrite lookup_insert_eq. intros [= <-]. eauto.
  - rewrite lookup_insert_ne by done. apply Hr.
Qed.

(** A status other than [running] written to the object at work. *)
Lemma counted_with_restatus taskId r v s :
  counted_with taskId r s ->
  counted_with taskId r (update r (Task.set_status v) s)
  /\ (v <> running ->
      forall r' x, heap (update r (Task.set_status v) s) !! r' = Some x ->
                   Task.status x = running -> r' ∈ workers (procs s)).
Proof.
  intros [Hk (x0 & Hx0 & Hid) Ha Hc Hr]. split; [split|]; simpl; auto.
  - by apply known_update.
  - rewrite list_lookup_alter_eq, Hx0. eexists. split; done.
  - intros r' x. destruct (decide (r = r')) as [<- | Hne]; [auto|].
    rewrite list_lookup_alter_ne by done. apply Hr.
  - intros Hv r' x. destruct (decide (r = r')) as [<- | Hne].
    + rewrite list_lookup_alter_eq, Hx0. intros [= <-]. done.
    + rewrite list_lookup_alter_ne by done. intros Hx Hs.
      by destruct (Hr r' x Hx Hs).
Qed.

Ltac counted_steps :=
  lazymatch goal with
  | H : counted_with ?t ?r ?s |- counted_with ?t ?r ?s => exact H
  | |- counted_with _ _ (addLog _ _ _ _ ?e) =>
      apply (counted_with_same _ _ e); [done | done | done | done | counted_steps]
  | |- counted_with _ _ (set_random _ ?e) =>
      apply (counted_with_same _ _ e); [done | done | done | done | counted_steps]
  | |- counted_with _ _ (set_calls _ ?e) =>
      apply (counted_with_same _ _ e); [done | done | done | done | counted_steps]
  end.

Section admission.

Variable clk : Clock.
Variable ptq : State -> State.
Hypothesis Hptq : forall s, counted_in s -> counted_in (ptq s).
Variable taskId : jsstring.
Variable r : nat.

Lemma finally_counted s :
  counted_with taskId r s ->
  (forall r' x, heap s !! r' = Some x -> Task.status x = running ->
                r' ∈ workers (procs s)) ->
  counted_after taskId r (finally ptq taskId r s).
Proof.
  intros [Hk (x0 & Hx0 & Hid) Ha Hc Hr] Hrun.
  unfold counted_after, finally. cbn [fst snd]. apply Hptq.
  split; simpl; [|lia | lia | done].
  eapply known_tasks_set; [exact Hx0 | done |].
  by apply (known_same s).
Qed.

Lemma finalize_counted s :
  counted_with taskId r s ->
  counted_after taskId r (finalize clk ptq taskId r s).
Proof.
  intros W. unfold finalize. destruct (negb (isStopped_at r s)); cbv zeta.
  - destruct (counted_with_restatus taskId r completed s W) as [W1 Hrun].
    apply finally_counted; [counted_steps|]. by apply Hrun.
  - destruct (counted_with_restatus taskId r stopped s W) as [W1 Hrun].
    apply finally_counted; [counted_steps|]. by apply Hrun.
Qed.

Lemma catch_counted message s :
  counted_with taskId r s ->
  counted_after taskId r (catch clk ptq taskId r message s).
Proof.
  intros W. unfold catch. cbv zeta.
  destruct (counted_with_restatus taskId r error s W) as [W1 Hrun].
  apply finally_counted; [counted_steps|]. by apply Hrun.
Qed.

Lemma send_counted batch conversation convs message msgs s :
  counted_with taskId r s ->
  counted_after taskId r
    (send clk taskId r batch conversation convs message msgs s).
Proof.
  intros W. unfold send.
  destruct (enhanceMessage message (random s)) as [e g]. cbv zeta.
  unfold counted_after. cbn [fst snd]. split; [counted_steps | done].
Qed.

Lemma for_conversations_counted batch after convs :
  (forall s, counted_with taskId r s -> counted_after taskId r (after s)) ->
  forall s, counted_with taskId r s ->
            counted_after taskId r
              (for_conversations clk taskId r batch after convs s).
Proof.
  intros Hafter. induction convs as [|c convs IH]; intros s W;
    cbn [for_conversations]; [by apply Hafter|].
  destruct (isStopped_at r s); [by apply Hafter|].
  destruct (field Task.messages [] r s); [by apply IH|].
  by apply send_counted.
Qed.

Lemma for_messages_counted batch after conversation convs msgs :
  (forall s, counted_with taskId r s -> counted_after taskId r (after s)) ->
  forall s, counted_with taskId r s ->
            counted_after taskId r
              (for_messages clk taskId r batch after conversation convs msgs s).
Proof.
  intros Hafter s W. unfold for_messages. destruct msgs.
  - by apply for_conversations_counted.
  - destruct (isStopped_at r s);
      [by apply for_conversations_counted | by apply send_counted].
Qed.

Lemma batch_end_counted batch next :
  (forall s, counted_with taskId r s -> counted_after taskId r (next s)) ->
  forall s, counted_with taskId r s ->
            counted_after taskId r (batch_end clk taskId r batch next s).
Proof.
  intros Hnext s W. unfold batch_end.
  destruct (_ && _); [|by apply Hnext].
  unfold counted_after. cbn [fst snd]. split; [counted_steps | done].
Qed.

Lemma for_batches_counted n :
  forall batch s, counted_with taskId r s ->
    counted_after taskId r (for_batches clk ptq taskId r n batch s).
Proof.
  induction n as [|n IH]; intros batch s W; cbn [for_batches].
  - by apply finalize_counted.
  - destruct (isStopped_at r s); [by apply finalize_counted|]. cbv zeta.
    apply for_conversations_counted; [|counted_steps].
    intros s' W'. apply batch_end_counted; [|done].
    intros s'' W''. by apply IH.
Qed.

Lemma after_batch_counted batch s :
  counted_with taskId r s ->
  counted_after taskId r (after_batch clk ptq taskId r batch s).
Proof.
  intros W. unfold after_batch. apply batch_end_counted; [|done].
  intros s' W'. by apply for_batches_counted.
Qed.

End admission.

Lemma workers_app l k : workers (l ++ k) = workers l ++ workers k.
Proof. unfold workers. by rewrite omap_app, fmap_app. Qed.

Lemma workers_unpark l pid p :
  l !! pid = Some (Some p) ->
  workers l ≡ₚ p_task p :: workers (<[pid := None]> l).
Proof.
  revert pid; induction l as [|o l IH]; intros [|pid] H; try done.
  - by injection H as ->.
  - simpl in H. apply IH in H. destruct o as [q|]; [|done].
    change (workers (Some q :: l)) with (p_task q :: workers l).
    change (workers (<[S pid:=None]> (Some q :: l)))
      with (p_task q :: workers (<[pid:=None]> l)).
    rewrite H. apply Permutation_swap.
Qed.

Lemma workers_park l pid p :
  l !! pid = Some None ->
  workers (<[pid := Some p]> l) ≡ₚ p_task p :: workers l.
Proof.
  revert pid; induction l as [|o l IH]; intros [|pid] H; try done.
  - by injection H as ->.
  - simpl in H. apply IH in H. destruct o as [q|]; [|done].
    change (workers (Some q :: l)) with (p_task q :: workers l).
    change (workers (<[S pid:=Some p]> (Some q :: l)))
      with (p_task q :: workers (<[pid:=Some p]> l)).
    rewrite H. apply Permutation_swap.
Qed.

Lemma known_unpark pid s :
  known s -> known (set_procs (<[pid := None]> (procs s)) s).
Proof.
  intros [Hr Hp]. split; [done|]. simpl. intros pid' p' H.
  apply (Hp pid'). destruct (decide (pid = pid')) as [<- | Hne].
  - destruct (decide (pid < length (procs s))%nat).
    + by rewrite list_lookup_insert_eq in H.
    + by rewrite list_insert_ge in H by lia.
  - by rewrite list_lookup_insert_ne in H.
Qed.

Lemma counted_with_count taskId r ok s :
  counted_with taskId r s -> counted_with taskId r (update r (Task.count ok) s).
Proof.
  intros [Hk (x0 & Hx0 & Hid) Ha Hc Hr]. split; simpl; auto.
  - by apply known_update.
  - rewrite list_lookup_alter_eq, Hx0. eexists. split; done.
  - intros r' x. destruct (decide (r = r')) as [<- | Hne]; [auto|].
    rewrite list_lookup_alter_ne by done. apply Hr.
Qed.

Lemma counted_with_tasks_set taskId r s :
  counted_with taskId r s -> counted_with taskId r (tasks_set taskId r s).
Proof.
  intros [Hk (x0 & Hx0 & Hid) Ha Hc Hr]. split; simpl; eauto.
  by eapply known_tasks_set.
Qed.

(** A call is started: the counter grows with it. *)
Lemma processTask_enter_counted clk ptq taskId r x s :
  (forall s, counted_in s -> counted_in (ptq s)) ->
  counted_in s -> activeTasks s < MAX_CONCURRENT_TASKS ->
  tasks_get taskId s = Some (r, x) ->
  counted_after taskId r (processTask_enter clk ptq taskId r s).
Proof.
  intros Hptq [Hk Ha Hc Hr] Hlt [Ht Hx]%tasks_get_Some.
  destruct (kn_registry _ Hk taskId r Ht) as (y & Hy & Hid).
  assert (y = x) as -> by congruence.
  unfold processTask_enter. cbv zeta.
  apply for_batches_counted; [done|].
  apply (counted_with_same _ _
           (tasks_set taskId r
              (set_activeTasks (activeTasks s + 1)
                 (update r (Task.set_status running) s)))); [done..|].
  apply counted_with_tasks_set.
  split; simpl.
  - apply (known_same (update r (Task.set_status running) s)); [done..|].
    by apply known_update.
  - rewrite list_lookup_alter_eq, Hx. eexists. split; done.
  - lia.
  - lia.
  - intros r' x'. destruct (decide (r = r')) as [<- | Hne]; [auto|].
    rewrite list_lookup_alter_ne by done. intros Hx' Hs. left. eauto.
Qed.

Lemma counted_in_spawn taskId r p s :
  counted_with taskId r s -> p_taskId p = taskId -> p_task p = r ->
  counted_in (set_procs (procs s ++ [Some p]) s).
Proof.
  intros [[Hreg Hp] (x0 & Hx0 & Hid) Ha Hc Hr] Ht Hpr.
  split; [split|..]; simpl; auto.
  - intros pid p' [H | [_ H]]%lookup_app_Some; [by apply (Hp pid)|].
    apply list_lookup_singleton_Some in H as [_ [= <-]].
    rewrite Hpr, Ht. eauto.
  - rewrite workers_app, length_app. simpl. lia.
  - intros r' x Hx Hs. rewrite workers_app. apply elem_of_app.
    destruct (Hr r' x Hx Hs) as [? | ->]; [by left | right].
    rewrite <- Hpr. apply list_elem_of_here.
Qed.

Lemma processTask_counted clk ptq taskId r x s :
  (forall s, counted_in s -> counted_in (ptq s)) ->
  counted_in s -> activeTasks s < MAX_CONCURRENT_TASKS ->
  tasks_get taskId s = Some (r, x) ->
  counted_in (processTask clk ptq taskId s).
Proof.
  intros Hptq HC Hlt Hget. unfold processTask. rewrite Hget.
  pose proof (processTask_enter_counted clk ptq taskId r x s Hptq HC Hlt Hget)
    as H.
  destruct (processTask_enter clk ptq taskId r s) as [s1 [p|]]; [|done].
  destruct H as (W & Ht & Hr). by eapply counted_in_spawn.
Qed.

Lemma processTaskQueue_loop_counted clk n s :
  counted_in s -> counted_in (processTaskQueue_loop clk n s).
Proof.
  revert s; induction n as [|n IH]; intros s HC; [done|].
  cbn [processTaskQueue_loop].
  destruct (activeTasks s <? MAX_CONCURRENT_TASKS) eqn:Hlt; [|done].
  apply Z.ltb_lt in Hlt.
  destruct (taskQueue s) as [|taskId rest]; [done|].
  set (s1 := set_taskQueue rest s).
  assert (counted_in s1) as HC1 by (by apply (counted_in_same s)).
  apply IH.
  destruct (tasks_get taskId s1) as [[r x]|] eqn:Hget; [|done].
  destruct (_ && _); [|done].
  by eapply processTask_counted.
Qed.

Lemma processTaskQueue_counted clk s :
  counted_in s -> counted_in (processTaskQueue clk s).
Proof. apply processTaskQueue_loop_counted. Qed.

Lemma resume_counted clk p sig pid s res :
  counted_in s -> procs s !! pid = Some (Some p) ->
  resume clk (processTaskQueue clk) p sig
    (set_procs (<[pid := None]> (procs s)) s) = Some res ->
  counted_after (p_taskId p) (p_task p) res.
Proof.
  intros [Hk Ha Hc Hr] Hpid.
  pose proof (workers_unpark _ _ _ Hpid) as Hperm.
  set (s0 := set_procs _ s).
  assert (counted_with (p_taskId p) (p_task p) s0) as W.
  { split; simpl.
    - by apply known_unpark.
    - by apply (kn_procs _ Hk pid).
    - rewrite Ha, Hperm. simpl. lia.
    - done.
    - intros r' x Hx Hs. specialize (Hr r' x Hx Hs). rewrite Hperm in Hr.
      apply elem_of_cons in Hr as [-> | ?]; auto. }
  pose proof (processTaskQueue_counted clk) as Hptq.
  unfold resume.
  destruct sig as [ok agentLog | | message], (p_await p);
    try discriminate; cbv zeta;
    try (intros [= <-];
         first [ by apply catch_counted
               | by apply for_batches_counted
               | apply for_messages_counted; [|done]; intros s' W';
                 by apply after_batch_counted ]).
  set (s1 := settled _ _ _ _ _ _).
  assert (counted_with (p_taskId p) (p_task p) s1) as W1.
  { subst s1. unfold settled.
    apply counted_with_tasks_set, counted_with_count.
    destruct (foldl_addLog_same clk (p_taskId p) agentLog s0)
      as (Eh & Ep & Ec & Et).
    apply (counted_with_same _ _ s0); try done.
    clear. induction agentLog as [|l agentLog IH] using rev_ind; [done|].
    by rewrite foldl_app. }
  destruct (_ && _); intros [= <-].
  - split; [done|]. done.
  - apply for_messages_counted; [|done]. intros s' W'.
    by apply after_batch_counted.
Qed.

Lemma wake_counted clk pid sig s s' :
  counted_in s -> wake clk pid sig s = Some s' -> counted_in s'.
Proof.
  intros HC. unfold wake.
  destruct (procs s !! pid) as [[p|]|] eqn:Hpid; try discriminate.
  destruct (resume _ _ _ _ _) as [[s1 nx]|] eqn:Hres; [|discriminate].
  pose proof Hres as [F _]%resume_stretch;
    [|apply processTaskQueue_footprint].
  cbn [fst] in F.
  assert (procs s1 !! pid = Some None) as Hslot.
  { destruct (fp_procs _ _ _ F) as (k & -> & _).
    destruct (arrival_facts clk p sig
                (set_procs (<[pid:=None]> (procs s)) s)) as (-> & _).
    apply lookup_app_Some. left. simpl.
    apply list_lookup_insert_eq. by eapply lookup_lt_Some. }
  eapply resume_counted in Hres; [|done..].
  destruct nx as [p'|]; intros [= <-]; [|done].
  destruct Hres as ([[Hreg Hp] (x0 & Hx0 & Hid) Ha Hc Hr] & Ht & Hpr).
  cbn [fst snd] in *.
  pose proof (workers_park _ _ p' Hslot) as Hperm.
  split; [split|..]; simpl; auto.
  - intros pid' q H. destruct (decide (pid = pid')) as [<- | Hne].
    + rewrite list_lookup_insert_eq in H by (by eapply lookup_lt_Some).
      injection H as <-. rewrite Hpr, Ht. eauto.
    + rewrite list_lookup_insert_ne in H by done. by apply (Hp pid').
  - rewrite Hperm. simpl. lia.
  - intros r' x Hx Hs. rewrite Hperm. apply elem_of_cons.
    destruct (Hr r' x Hx Hs) as [? | ->]; [by right | left; done].
Qed.

Lemma enqueue_task_counted clk task s :
  Task.status task = queued ->
  counted_in s -> counted_in (enqueue_task clk task s).
Proof.
  intros Hq [[Hreg Hp] Ha Hc Hr]. unfold enqueue_task. cbv zeta.
  apply processTaskQueue_counted.
  set (s1 := tasks_set (Task.id task) (length (heap s))
               (set_heap (heap s ++ [task]) s)).
  apply (counted_in_same s1); [done..|].
  split; [split|..]; simpl; auto.
  - intros taskId r. destruct (decide (Task.id task = taskId)) as [<- | Hne].
    + rewrite lookup_insert_eq. intros [= <-]. exists task. split; [|done].
      apply lookup_app_Some. right. split; [lia|]. by rewrite Nat.sub_diag.
    + rewrite lookup_insert_ne by done. intros Ht.
      destruct (Hreg taskId r Ht) as (x & Hx & Hid). exists x.
      split; [|done]. apply lookup_app_Some. by left.
  - intros pid p Hpid. destruct (Hp pid p Hpid) as (x & Hx & Hid).
    exists x. split; [|done]. apply lookup_app_Some. by left.
  - intros r x [Hx | [_ Hx]]%lookup_app_Some; [by apply Hr|].
    apply list_lookup_singleton_Some in Hx as [_ <-].
    rewrite Hq. intros H. by vm_compute in H.
Qed.

Lemma start_task_counted clk body s :
  counted_in s -> counted_in (start_task clk body s).1.
Proof.
  intros HC.
  destruct (start_task_cases clk body s)
    as [(c & m & ->) | [(c & m & ->) | (_ & Hm & Hc & pos & ->)]]; cbn [fst].
  - done.
  - by apply (counted_in_same s).
  - apply enqueue_task_counted; [done|]. by apply (counted_in_same s).
Qed.

Lemma stop_task_counted clk taskId s :
  counted_in s -> counted_in (stop_task clk taskId s).1.
Proof.
  intros [Hk Ha Hc Hr]. unfold stop_task.
  destruct (tasks_get taskId s) as [[r x]|] eqn:Hget; [|done]. cbn [fst].
  apply tasks_get_Some in Hget as [Ht Hx].
  destruct (kn_registry _ Hk taskId r Ht) as (y & Hy & Hid).
  apply (counted_in_same (tasks_set taskId r (update r stop s))); [done..|].
  split; simpl; auto.
  - apply (known_tasks_set _ _ _ (stop y)); [| exact Hid | by apply known_update].
    simpl. by rewrite list_lookup_alter_eq, Hy.
  - intros r' x'. destruct (decide (r = r')) as [<- | Hne].
    + rewrite list_lookup_alter_eq, Hy. intros [= <-] H. by vm_compute in H.
    + rewrite list_lookup_alter_ne by done. apply Hr.
Qed.

Lemma cleanup_counted clk s : counted_in s -> counted_in (cleanup clk s).
Proof.
  unfold cleanup. generalize (map_to_list (tasks s)) as l.
  intros l; revert s; induction l as [|e l IH]; intros s HC; [done|].
  cbn [foldl]. apply IH. unfold cleanup_entry.
  destruct (heap s !! e.2) as [x|]; [|done].
  destruct (_ && _); [|done].
  destruct HC as [[Hreg Hp] Ha Hc Hr]. split; [split|..]; simpl; auto.
  intros taskId r [_ Ht]%lookup_delete_Some. by apply Hreg.
Qed.

Lemma step_counted clk e s s' :
  is_stop_all e = false -> counted_in s -> step clk e s = Some s' ->
  counted_in s'.
Proof.
  intros He HC. destruct e; try discriminate; cbn [step];
    try (intros [= <-]).
  - by apply start_task_counted.
  - done.
  - done.
  - by apply stop_task_counted.
  - by apply wake_counted.
  - by apply cleanup_counted.
Qed.

Lemma run_counted evs s s' :
  Forall (fun ce => is_stop_all ce.2 = false) evs ->
  counted_in s -> run evs s = Some s' -> counted_in s'.
Proof.
  revert s; induction evs as [|[clk e] evs IH]; intros s Hall HC; cbn [run].
  - by intros [= <-].
  - apply Forall_cons in Hall as [He Hall].
    destruct (step clk e s) as [s1|] eqn:E; [|discriminate].
    apply IH; [done|]. by eapply step_counted.
Qed.

Lemma initial_counted g : counted_in (initial g).
Proof.
  split; [split|..]; simpl.
  - intros taskId r. by rewrite lookup_empty.
  - intros pid p. by rewrite lookup_nil.
  - done.
  - by vm_compute.
  - intros r x. by rewrite lookup_nil.
Qed.

(** The tasks the registry shows as running are no more than the
    suspended calls. *)
Lemma runningTasks_bound s :
  counted_in s -> (runningTasks s <= length (workers (procs s)))%nat.
Proof.
  intros [[Hreg _] _ _ Hr]. unfold runningTasks, registered.
  pose proof (NoDup_fst_map_to_list (tasks s)) as Hnd.
  assert (forall e, e ∈ map_to_list (tasks s) ->
            exists x, heap s !! e.2 = Some x /\ Task.id x = e.1) as Hval.
  { intros [k r] He%elem_of_map_to_list. by apply Hreg. }
  set (E := map_to_list (tasks s)) in *. clearbody E.
  set (f := fun r => match heap s !! r with
                     | Some x => Task.id x | None => [] end).
  assert (NoDup E.*2) as Hnd2.
  { apply (NoDup_fmap_1 f).
    replace (f <$> E.*2) with E.*1; [done|].
    clear Hnd. induction E as [|e E IH]; [done|]. cbn [fmap list_fmap].
    rewrite <- IH.
    - f_equal. destruct (Hval e) as (x & Hx & Hid); [apply list_elem_of_here|].
      subst f. cbn beta. by rewrite Hx.
    - intros e' He'. apply Hval. by apply list_elem_of_further. }
  transitivity (length (filter (fun r => running_atb s r = true) E.*2)).
  - clear Hnd Hnd2. induction E as [|e E IH]; [done|].
    assert (forall e', e' ∈ E ->
              exists x, heap s !! e'.2 = Some x /\ Task.id x = e'.1) as Hval'.
    { intros e' He'. apply Hval. by apply list_elem_of_further. }
    specialize (IH Hval').
    destruct (Hval e) as (x & Hx & _); [apply list_elem_of_here|].
    cbn [omap list_omap fmap list_fmap]. rewrite Hx.
    assert (running_atb s e.2 = bool_decide (Task.status x = running)) as Hb
      by (unfold running_atb; by rewrite Hx).
    rewrite !filter_cons.
    destruct (decide (Task.status x = running)) as [Hs | Hs].
    + rewrite decide_True
        by (rewrite Hb; by apply bool_decide_eq_true_2).
      cbn [length]. lia.
    + rewrite decide_False; [exact IH|].
      rewrite Hb. by intros ?%bool_decide_eq_true.
  - apply submseteq_length, NoDup_submseteq; [by apply NoDup_filter|].
    intros r [Hb _]%list_elem_of_filter. unfold running_atb in Hb.
    destruct (heap s !! r) as [x|] eqn:Hx; [|done].
    apply bool_decide_eq_true in Hb. by eapply Hr.
Qed.

(** X23: as long as [/api/stop-all-tasks] is not called, the tasks of
    the registry with status [running] never outnumber the ceiling of 40,
    whatever else is asked of the server. *)
Theorem ceiling_without_stop_all g evs s :
  Forall (fun ce => is_stop_all ce.2 = false) evs ->
  run evs (initial g) = Some s ->
  Z.of_nat (runningTasks s) <= MAX_CONCURRENT_TASKS.
Proof.
  intros Hall Hrun.
  pose proof (run_counted _ _ _ Hall (initial_counted g) Hrun) as HC.
  pose proof (runningTasks_bound s HC). destruct HC. lia.
Qed.

Lemma ceiling_without_stop_all_witness :
  Forall (fun ce => is_stop_all ce.2 = false) crowd
  /\ Z.of_nat (runningTasks crowded) <= MAX_CONCURRENT_TASKS.
Proof.
  assert (Forall (fun ce => is_stop_all ce.2 = false) crowd) as Hall.
  { unfold crowd. apply Forall_fmap, Forall_forall. by intros. }
  split; [exact Hall|].
  apply (ceiling_without_stop_all spread crowd crowded Hall).
  vm_compute; reflexivity.
Defined.

(** * The claims *)

(** ** Submission *)

Lemma enqueue_task_new clk task s :
  tasks (enqueue_task clk task s)
  = <[Task.id task := length (heap s)]> (tasks s)
  /\ exists x, heap (enqueue_task clk task s) !! length (heap s) = Some x
               /\ restatus task x.
Proof.
  unfold enqueue_task. cbv zeta.
  set (s0 := set_taskQueue _ _).
  pose proof (processTaskQueue_footprint clk s0) as F. split.
  - apply map_eq. intros taskId.
    destruct (fp_tasks _ _ _ F taskId) as [-> | (r & ? & _)]; done.
  - apply (fp_heap _ _ _ F). subst s0. simpl.
    apply lookup_app_Some. right. split; [lia|].
    by rewrite Nat.sub_diag.
Qed.

Lemma restatus_fields x y :
  restatus x y ->
  Task.id y = Task.id x /\ Task.total y = Task.total x
  /\ Task.batch_count y = Task.batch_count x
  /\ Task.messages y = Task.messages x
  /\ Task.conversations y = Task.conversations x
  /\ Task.cookies y = Task.cookies x.
Proof. by intros [-> | (v & _ & ->)]. Qed.



(** The identifier is [h4rsh_] followed by a number of four digits, as
    long as the draw lies in the unit interval. *)
Lemma generateTaskId_range g :
  (0 <= stream g (drawn g))%Q -> (stream g (drawn g) < 1)%Q ->
  exists n, (generateTaskId g).1 = js "h4rsh_" ++ decimal n
            /\ 1000 <= n <= 9999.
Proof.
  intros H0 H1. unfold generateTaskId, bindR, Math_random, retR. cbn [fst].
  set (q := (inject_Z 1000 + stream g (drawn g) * inject_Z 9000)%Q).
  exists (Qfloor q). split; [done|].
  assert (inject_Z 1000 <= q)%Q as Hlo.
  { subst q. unfold inject_Z. lra. }
  assert (q < inject_Z 10000)%Q as Hhi.
  { subst q. unfold inject_Z. lra. }
  split.
  - apply Qfloor_resp_le in Hlo. by rewrite Qfloor_Z in Hlo.
  - assert (inject_Z (Qfloor q) < inject_Z 10000)%Q as H.
    { eapply Qle_lt_trans; [apply Qfloor_le | done]. }
    rewrite <- Zlt_Qlt in H. lia.
Qed.

(** C9, as stated, fails: the identifier is one of 9000 numbers drawn
    at random and nothing checks that it is free. Two jobs that draw the
    same number get the same identifier, and the entry of the first is
    overwritten by the second. *)
Lemma identifiers_collide :
  let first := start_task noon (job 0) (initial stuck) in
  let second := start_task noon (job 1) first.1 in
  first.2 = TaskQueued (js "h4rsh_5500") 1 1 5 10 0
  /\ second.2 = TaskQueued (js "h4rsh_5500") 1 1 5 10 0
  /\ tasks first.1 !! js "h4rsh_5500" = Some 0%nat
  /\ tasks second.1 !! js "h4rsh_5500" = Some 1%nat
  /\ size (tasks second.1) = 1%nat.
Proof. by vm_compute. Qed.

(** C9 (amended): [/api/start-task] gives the new task the identifier
    [h4rsh_] followed by the number drawn, and binds it in the registry
    to the new object; the entries under all other identifiers are left
    as they were. So when the identifier drawn is not yet in the
    registry, it differs from the identifier of every task there and no
    entry is overwritten. *)
Theorem start_task_registers clk body s s' taskId total b bd td pos :
  start_task clk body s = (s', TaskQueued taskId total b bd td pos) ->
  taskId = (generateTaskId (random s)).1
  /\ ((0 <= stream (random s) (drawn (random s)) < 1)%Q ->
      exists n, taskId = js "h4rsh_" ++ decimal n /\ 1000 <= n <= 9999)
  /\ tasks s' !! taskId = Some (length (heap s))
  /\ (forall other, other <> taskId -> tasks s' !! other = tasks s !! other)
  /\ (tasks s !! taskId = None ->
      forall other r, tasks s !! other = Some r ->
                      other <> taskId /\ tasks s' !! other = Some r).
Proof.
  intros H.
  destruct (start_task_cases clk body s)
    as [(c & m & E) | [(c & m & E) | (_ & Hm & Hc & pos' & E)]];
    rewrite E in H; try discriminate.
  set (task := new_task clk body _) in *.
  destruct (enqueue_task_new clk task
              (set_random (generateTaskId (random s)).2 s)) as (Et & _).
  assert (Task.id task = (generateTaskId (random s)).1) as Hid by done.
  set (s1 := enqueue_task clk task _) in *.
  change (heap (set_random (generateTaskId (random s)).2 s))
    with (heap s) in *.
  change (tasks (set_random (generateTaskId (random s)).2 s))
    with (tasks s) in *.
  rewrite <- Hid in H |- *. clearbody task s1.
  injection H as <- <- _ _ _ _ _.
  assert (forall other, other <> Task.id task ->
                        tasks s1 !! other = tasks s !! other) as Hother.
  { intros other Hne. rewrite Et. by apply lookup_insert_ne. }
  split; [done|]. split.
  { intros [H0 H1]. rewrite Hid. by apply generateTaskId_range. }
  split; [rewrite Et; apply lookup_insert_eq|].
  split; [done|]. intros Hfresh other r Ho.
  assert (other <> Task.id task) as Hne by (intros ->; congruence).
  split; [done|]. by rewrite Hother.
Qed.

Lemma start_task_registers_witness :
  exists s',
    start_task noon (job 0) (initial stuck)
    = (s', TaskQueued (js "h4rsh_5500") 1 1 5 10 0)
    /\ tasks s' !! js "h4rsh_5500" = Some 0%nat.
Proof.
  assert (start_task noon (job 0) (initial stuck)
          = ((start_task noon (job 0) (initial stuck)).1,
             TaskQueued (js "h4rsh_5500") 1 1 5 10 0)) as H
    by (vm_compute; reflexivity).
  destruct (start_task_registers _ _ _ _ _ _ _ _ _ _ H) as (_ & _ & Ht & _).
  exists (start_task noon (job 0) (initial stuck)).1.
  split; [exact H | exact Ht].
Defined.

(** ** Stopping *)

Lemma stop_task_overwrites clk taskId s r x :
  tasks_get taskId s = Some (r, x) ->
  tasks_get taskId (stop_task clk taskId s).1 = Some (r, stop x)
  /\ success (stop_task clk taskId s).2 = true.
Proof.
  intros H. unfold stop_task. rewrite H.
  apply tasks_get_Some in H as [Ht Hx]. cbn [fst snd success]. split; [|done].
  apply tasks_get_Some. simpl. rewrite lookup_insert_eq. split; [done|].
  by rewrite list_lookup_alter_eq, Hx.
Qed.

(** Stopping twice leaves the task as stopping once does. *)
Lemma stop_task_twice clk clk' taskId s :
  let s1 := (stop_task clk taskId s).1 in
  heap (stop_task clk' taskId s1).1 = heap s1.
Proof.
  cbv zeta. destruct (tasks_get taskId s) as [[r x]|] eqn:H.
  - destruct (stop_task_overwrites clk taskId s r x H) as [H1 _].
    unfold stop_task at 1. rewrite H1. cbn [fst heap addLog set_logs
      set_taskQueue tasks_set set_tasks update set_heap].
    apply tasks_get_Some in H1 as [_ H1].
    apply list_eq. intros i. destruct (decide (r = i)) as [<- | Hne].
    + by rewrite list_lookup_alter_eq, H1.
    + by rewrite list_lookup_alter_ne.
  - unfold stop_task. rewrite H. cbn [fst]. by rewrite H.
Qed.

(** C3, where the code departs from it: a task that has completed is
    not left alone by [/api/stop-task]. The handler answers with
    success, but the status it finds, [completed], is overwritten with
    [stopped] and the stop flag is raised. *)
Theorem stop_task_on_completed :
  match run finished (initial spread) with
  | Some s =>
      status_of (js "h4rsh_1000") s = Some completed
      /\ success (stop_task noon (js "h4rsh_1000") s).2 = true
      /\ status_of (js "h4rsh_1000") (stop_task noon (js "h4rsh_1000") s).1
         = Some stopped
      /\ (stop_task noon (js "h4rsh_1000") s).1 <> s
  | None => False
  end.
Proof.
  vm_compute. repeat split; try reflexivity. intros H. discriminate H.
Qed.

(** ** Admission *)

(** C2, where the code departs from it: [/api/stop-all-tasks] sets
    [activeTasks] to 0 while a call of [processTask] is still under way;
    when that call returns it takes the counter to -1, and
    [processTaskQueue] then lets forty-one tasks in. *)
Theorem more_than_forty_running :
  match run overload (initial spread) with
  | Some s =>
      runningTasks s = 41%nat
      /\ MAX_CONCURRENT_TASKS < Z.of_nat (runningTasks s)
      /\ activeTasks s = 40
  | None => False
  end.
Proof. by vm_compute. Qed.

(** ** Statuses *)

Lemma get_task_view taskId s v :
  get_task taskId s = TaskInfo v ->
  exists r x, tasks_get taskId s = Some (r, x) /\ v = view x.
Proof.
  unfold get_task. destruct (tasks_get taskId s) as [[r x]|]; [|done].
  intros [= <-]. eauto.
Qed.

Lemma catch_status clk taskId r message s x :
  heap s !! r = Some x ->
  heap (catch clk (processTaskQueue clk) taskId r message s).1 !! r
  = Some (Task.set_status error x).
Proof.
  intros Hx. unfold catch, finally. cbv zeta. cbn [fst].
  set (s1 := tasks_set _ _ _).
  apply (fp_frame _ _ _ (processTaskQueue_footprint clk s1)).
  - subst s1. simpl. by rewrite list_lookup_alter_eq, Hx.
  - by vm_compute.
  - done.
Qed.

(** C6, as stated, fails: the status an exception leaves is [error],
    which is none of the five values of the claim. *)
Lemma status_after_exception :
  match run crashed (initial spread) with
  | Some s =>
      status_of (js "h4rsh_1000") s = Some error
      /\ error ∉ [queued; running; completed; stopped; js "failed"]
  | None => False
  end.
Proof.
  assert (error ∉ [queued; running; completed; stopped; js "failed"]) as Hn.
  { rewrite !elem_of_cons, elem_of_nil.
    intros [H | [H | [H | [H | [H | []]]]]]; by vm_compute in H. }
  vm_compute. split; [reflexivity | exact Hn].
Qed.

(** C6 (amended): in every reachable state the status of every task is
    one of [queued], [running], [completed], [stopped], [error]; an
    exception that reaches the [catch] block of [processTask] sets it to
    [error]. *)
Theorem status_values s :
  reachable s ->
  (forall r x, heap s !! r = Some x -> Task.status x ∈ statuses)
  /\ (forall taskId v, get_task taskId s = TaskInfo v -> v_status v ∈ statuses)
  /\ (forall clk pid p message,
        procs s !! pid = Some (Some p) ->
        exists s' x, wake clk pid (Thrown message) s = Some s'
                     /\ heap s' !! p_task p = Some x
                     /\ Task.status x = error).
Proof.
  intros HI%reachable_Inv. split; [|split].
  - intros r x Hx. by destruct (inv_obj _ HI r x Hx).
  - intros taskId v (r & x & Hget & ->)%get_task_view.
    apply tasks_get_Some in Hget as [_ Hx].
    by destruct (inv_obj _ HI r x Hx).
  - intros clk pid p message Hpid.
    destruct (inv_proc _ HI pid p Hpid) as (x & Hx & _).
    unfold wake. rewrite Hpid.
    assert (resume clk (processTaskQueue clk) p (Thrown message)
              (set_procs (<[pid:=None]> (procs s)) s)
            = Some (catch clk (processTaskQueue clk) (p_taskId p) (p_task p)
                      message (set_procs (<[pid:=None]> (procs s)) s))) as ->.
    { unfold resume. by destruct (p_await p). }
    pose proof (catch_status clk (p_taskId p) (p_task p) message
                  (set_procs (<[pid:=None]> (procs s)) s) x Hx) as Hc.
    unfold catch, finally in *. cbv zeta in *. cbn [fst] in Hc.
    eexists _, _. split; [reflexivity|]. split; [exact Hc | done].
Qed.

Lemma status_values_witness :
  match run crashed (initial spread) with
  | Some s => forall r x, heap s !! r = Some x -> Task.status x ∈ statuses
  | None => False
  end.
Proof.
  destruct (run crashed (initial spread)) as [s|] eqn:E;
    [|by vm_compute in E].
  apply (status_values s). by exists spread, crashed.
Defined.

(** ** Counters *)

(** C4: in every reachable state the counters of every task satisfy
    [completed = success + failed] and [0 <= completed <= total], also
    as [/api/task/:taskId] shows them; and no turn of the event loop
    lowers any of the three. *)
Theorem counters_consistent s :
  reachable s ->
  (forall r x, heap s !! r = Some x ->
     Task.completed x = Task.success x + Task.failed x
     /\ 0 <= Task.completed x <= Task.total x)
  /\ (forall taskId v, get_task taskId s = TaskInfo v ->
        v_completed v = v_success v + v_failed v
        /\ 0 <= v_completed v <= v_total v)
  /\ (forall clk e s' r x,
        step clk e s = Some s' -> heap s !! r = Some x ->
        exists x', heap s' !! r = Some x'
                   /\ Task.completed x <= Task.completed x'
                   /\ Task.success x <= Task.success x'
                   /\ Task.failed x <= Task.failed x').
Proof.
  intros HI%reachable_Inv.
  assert (forall r x, heap s !! r = Some x ->
            Task.completed x = Task.success x + Task.failed x
            /\ 0 <= Task.completed x <= Task.total x) as Hobj.
  { intros r x Hx. destruct (inv_obj _ HI r x Hx). lia. }
  split; [done|]. split.
  - intros taskId v (r & x & Hget & ->)%get_task_view.
    apply tasks_get_Some in Hget as [_ Hx]. by apply (Hobj r).
  - intros clk e s' r x Hstep Hx.
    destruct (dr_heap _ _ (step_drift _ _ _ _ Hstep) r x Hx) as (x' & Hx' & []).
    by exists x'.
Qed.

Lemma counters_consistent_witness :
  match run finished (initial spread) with
  | Some s =>
      forall r x, heap s !! r = Some x ->
        Task.completed x = Task.success x + Task.failed x
        /\ 0 <= Task.completed x <= Task.total x
  | None => False
  end.
Proof.
  destruct (run finished (initial spread)) as [s|] eqn:E;
    [|by vm_compute in E].
  apply (counters_consistent s). by exists spread, finished.
Defined.

(** ** Deliveries that fail *)

(** X26: take a task on which [processTask] has been started, with no
    success so far and not stopped. However the events of the server
    interleave, as long as every delivery of the task fails and no
    exception occurs, a task that is not stopped has no success, and
    once its call of [processTask] has returned its status is
    [completed] and [failed] equals [total]. And the call does return:
    woken by its failures and its timers alone, it comes to its end. *)
Theorem failures_do_not_abort s pid p x :
  reachable s ->
  procs s !! pid = Some (Some p) -> heap s !! p_task p = Some x ->
  Task.success x = 0 -> Task.isStopped x = false ->
  (forall evs s' x',
     run evs s = Some s' -> fails_only pid evs ->
     heap s' !! p_task p = Some x' -> Task.isStopped x' = false ->
     Task.success x' = 0
     /\ (procs s' !! pid = Some None ->
         Task.status x' = completed /\ Task.failed x' = Task.total x'))
  /\ (forall clk, exists evs s' x',
        wakes_only clk pid evs /\ run evs s = Some s'
        /\ procs s' !! pid = Some None
        /\ heap s' !! p_task p = Some x'
        /\ Task.status x' = completed
        /\ Task.success x' = 0 /\ Task.failed x' = Task.total x').
Proof.
  intros HI%reachable_Inv Hpid Hx Hsucc Hgo.
  assert (forall evs s' x',
     run evs s = Some s' -> fails_only pid evs ->
     heap s' !! p_task p = Some x' -> Task.isStopped x' = false ->
     Task.success x' = 0
     /\ (procs s' !! pid = Some None ->
         Task.status x' = completed /\ Task.failed x' = Task.total x'))
    as Hsafe.
  { intros evs s' x' Hrun Hf Hx' Hgo'.
    assert (on_course pid (p_task p) s) as Hc.
    { exists x. split; [done|]. right. split; [done|]. left. eauto. }
    pose proof (run_Inv _ _ _ HI Hrun) as HI'.
    destruct (run_on_course _ _ _ _ _ HI Hc Hrun Hf) as (y & Hy & Hcase).
    assert (y = x') as -> by congruence.
    destruct Hcase as [? | [Hs [(p' & Hp' & _) | (_ & _ & Hst & Hfull)]]];
      [congruence | |].
    - split; [done|]. intros Hnone. congruence.
    - split; [done|]. intros _. split; [done|].
      destruct (inv_obj _ HI' _ x' Hx'). lia. }
  split; [done|]. intros clk.
  destruct (drive_to_end clk (effort p x) s pid p x (le_n _) HI Hpid Hx Hgo)
    as (evs & s' & x' & Hw & Hrun & Hend & Hx' & Hgo').
  destruct (Hsafe evs s' x' Hrun (wakes_only_fails _ _ _ Hw) Hx' Hgo')
    as [Hs Hdone].
  destruct (Hdone Hend) as [Hst Hfail].
  by exists evs, s', x'.
Qed.

Lemma failures_do_not_abort_witness :
  exists evs s' x',
    wakes_only noon 0 evs /\ run evs underway = Some s'
    /\ heap s' !! 0%nat = Some x'
    /\ Task.status x' = completed
    /\ Task.success x' = 0 /\ Task.failed x' = Task.total x'.
Proof.
  assert (reachable underway) as Hreach.
  { exists spread, [(noon, StartTask (job 0))]. vm_compute. reflexivity. }
  assert (exists p x, procs underway !! 0%nat = Some (Some p)
                      /\ p_task p = 0%nat
                      /\ heap underway !! p_task p = Some x
                      /\ Task.success x = 0 /\ Task.isStopped x = false)
    as (p & x & Hpid & Hr & Hx & Hs & Hgo).
  { vm_compute. eexists _, _. repeat split; reflexivity. }
  destruct (failures_do_not_abort underway 0 p x Hreach Hpid Hx Hs Hgo)
    as [_ Hlive].
  destruct (Hlive noon) as (evs & s' & x' & Hw & Hrun & _ & Hx' & Hrest).
  rewrite Hr in Hx'. by exists evs, s', x'.
Defined.
(** * Further properties

    Properties of the code beyond the ten above: the helpers on strings
    and cookies, the handlers, and the scheduler. *)

(** ** White space *)

Lemma trimStart_blank s : Forall (fun c => isWhiteSpace c = true) s -> trimStart s = [].
Proof.
  induction 1 as [|c s Hc _ IH]; [done|]. simpl. by rewrite Hc.
Qed.

Lemma trimStart_suffix s : exists l, s = l ++ trimStart s
  /\ Forall (fun c => isWhiteSpace c = true) l.
Proof.
  induction s as [|c s (l & Hl & Hws)]; [by exists []|].
  simpl. destruct (isWhiteSpace c) eqn:Hc.
  - exists (c :: l). split; [by rewrite Hl at 1 | by constructor].
  - by exists [].
Qed.

Lemma trimStart_head s :
  match trimStart s with c :: _ => isWhiteSpace c = false | [] => True end.
Proof.
  induction s as [|c s IH]; [done|]. simpl.
  destruct (isWhiteSpace c) eqn:Hc; [done|]. by simpl.
Qed.

Lemma trimStart_fixed s :
  match s with c :: _ => isWhiteSpace c = false | [] => True end ->
  trimStart s = s.
Proof. destruct s as [|c s]; [done|]. simpl. by intros ->. Qed.

Lemma trimStart_nil s :
  trimStart s = [] <-> Forall (fun c => isWhiteSpace c = true) s.
Proof.
  split; [|apply trimStart_blank].
  destruct (trimStart_suffix s) as (l & Hl & Hws). intros E.
  rewrite E, app_nil_r in Hl. by subst.
Qed.

Lemma trim_nil s : trim s = [] <-> Forall (fun c => isWhiteSpace c = true) s.
Proof.
  unfold trim, trimEnd. split.
  - intros E. apply (f_equal (@rev N)) in E. rewrite rev_involutive in E.
    simpl in E. apply trimStart_nil in E.
    apply Forall_rev in E. rewrite rev_involutive in E.
    destruct (trimStart_suffix s) as (l & Hl & Hws). rewrite Hl.
    by apply Forall_app.
  - intros H. by rewrite (trimStart_blank s H).
Qed.

(** The shape of [trim]: white space, the trimmed text, white space. *)
Lemma trim_shape s : exists l r, s = l ++ trim s ++ r
  /\ Forall (fun c => isWhiteSpace c = true) l
  /\ Forall (fun c => isWhiteSpace c = true) r.
Proof.
  destruct (trimStart_suffix s) as (l & Hl & Hws).
  destruct (trimStart_suffix (rev (trimStart s))) as (r & Hr & Hwr).
  exists l, (rev r). unfold trim, trimEnd. split; [|split].
  - rewrite Hl at 1. f_equal.
    rewrite <- (rev_involutive (trimStart s)) at 1. rewrite Hr at 1.
    by rewrite rev_app_distr.
  - done.
  - by apply Forall_rev.
Qed.

Lemma trim_ends s :
  match trim s with c :: _ => isWhiteSpace c = false | [] => True end
  /\ match rev (trim s) with c :: _ => isWhiteSpace c = false | [] => True end.
Proof.
  unfold trim, trimEnd. rewrite rev_involutive. split; [|apply trimStart_head].
  pose proof (trimStart_head s) as Hh.
  pose proof (trimStart_head (rev (trimStart s))) as Ht.
  destruct (trimStart s) as [|c t] eqn:E; [done|].
  destruct (trimStart (rev (c :: t))) as [|d u] eqn:E2; [done|].
  destruct (trimStart_suffix (rev (c :: t))) as (l & Hl & Hws).
  rewrite E2 in Hl. apply (f_equal (@rev N)) in Hl.
  rewrite rev_involutive, rev_app_distr in Hl.
  destruct (rev (d :: u)) as [|e v] eqn:E3.
  { apply (f_equal (@rev N)) in E3. rewrite rev_involutive in E3.
    simpl in E3. discriminate. }
  simpl in Hl. by injection Hl as <- _.
Qed.

Lemma trim_fixed s :
  match s with c :: _ => isWhiteSpace c = false | [] => True end ->
  match rev s with c :: _ => isWhiteSpace c = false | [] => True end ->
  trim s = s.
Proof.
  intros H1 H2. unfold trim, trimEnd.
  rewrite (trimStart_fixed s H1), (trimStart_fixed _ H2).
  apply rev_involutive.
Qed.

Lemma trim_idemp s : trim (trim s) = trim s.
Proof. destruct (trim_ends s). by apply trim_fixed. Qed.

Lemma trim_elem c s : c ∈ trim s -> c ∈ s.
Proof.
  destruct (trim_shape s) as (l & r & Hs & _). intros H.
  rewrite Hs, !elem_of_app. auto.
Qed.
(** ** Splitting *)

Lemma split_on_nonempty sep s : split_on sep s <> [].
Proof.
  destruct s as [|c s]; simpl; [done|].
  destruct (c =? sep)%N; [done|]. by destruct (split_on sep s).
Qed.

Lemma split_on_absent sep s : sep ∉ s -> split_on sep s = [s].
Proof.
  induction s as [|c s IH]; [done|]. intros H.
  apply not_elem_of_cons in H as [Hc Hs]. simpl.
  destruct (N.eqb_spec c sep) as [-> | _]; [done|]. by rewrite IH.
Qed.

Lemma split_on_app_sep sep a b :
  split_on sep (a ++ sep :: b) = split_on sep a ++ split_on sep b.
Proof.
  induction a as [|c a IH]; simpl.
  - by rewrite N.eqb_refl.
  - destruct (c =? sep)%N; rewrite IH; [done|].
    pose proof (split_on_nonempty sep a).
    by destruct (split_on sep a).
Qed.

Lemma split_on_head sep a b :
  sep ∉ a -> split_on sep (a ++ sep :: b) = a :: split_on sep b.
Proof. intros H. by rewrite split_on_app_sep, (split_on_absent _ _ H). Qed.

Lemma split_on_elem sep s w c :
  w ∈ split_on sep s -> c ∈ w -> c ∈ s /\ c <> sep.
Proof.
  revert w; induction s as [|d s IH]; intros w; simpl.
  - intros ->%list_elem_of_singleton ?%elem_of_nil. done.
  - destruct (N.eqb_spec d sep) as [-> | Hd].
    + intros [-> | Hw]%elem_of_cons Hc; [by apply elem_of_nil in Hc|].
      destruct (IH w Hw Hc). split; [by right | done].
    + pose proof (split_on_nonempty sep s).
      destruct (split_on sep s) as [|w0 ws]; [done|].
      intros [-> | Hw]%elem_of_cons Hc.
      * apply elem_of_cons in Hc as [-> | Hc]; [split; [by left | done]|].
        destruct (IH w0) as [? ?]; [by left | done |]. split; [by right | done].
      * destruct (IH w) as [? ?]; [by right | done |]. split; [by right | done].
Qed.

Lemma split_on_cover sep s c :
  c ∈ s -> c = sep \/ exists w, w ∈ split_on sep s /\ c ∈ w.
Proof.
  induction s as [|d s IH]; [by intros ?%elem_of_nil|].
  intros Hc. simpl. destruct (N.eqb_spec d sep) as [-> | Hd].
  - apply elem_of_cons in Hc as [-> | Hc]; [by left|].
    destruct (IH Hc) as [-> | (w & Hw & Hcw)]; [by left|].
    right. exists w. split; [by right | done].
  - pose proof (split_on_nonempty sep s).
    destruct (split_on sep s) as [|w0 ws]; [done|].
    apply elem_of_cons in Hc as [-> | Hc].
    + right. exists (d :: w0). split; by left.
    + destruct (IH Hc) as [-> | (w & Hw & Hcw)]; [by left|].
      right. apply elem_of_cons in Hw as [-> | Hw].
      * exists (d :: w0). split; [by left | by right].
      * exists w. split; [by right | done].
Qed.

(** ** Lines *)

Lemma newline_is_space : isWhiteSpace 10%N = true.
Proof. reflexivity. Qed.

Lemma nonEmptyLines_elem text l :
  l ∈ nonEmptyLines text <->
  l <> [] /\ exists line, line ∈ split_on 10%N text /\ l = trim line.
Proof.
  unfold nonEmptyLines. rewrite list_elem_of_filter, list_elem_of_fmap.
  split.
  - intros [Hne (line & -> & Hline)]. split; [done|]. by exists line.
  - intros [Hne (line & Hline & ->)]. split; [done|]. by exists line.
Qed.

Lemma nonEmptyLines_nil text : nonEmptyLines text = [] <-> trim text = [].
Proof.
  rewrite trim_nil. split.
  - intros E. apply Forall_forall. intros c Hc.
    destruct (split_on_cover 10%N text c Hc) as [-> | (w & Hw & Hcw)];
      [done|].
    destruct (decide (trim w = [])) as [Hb | Hb].
    + apply trim_nil in Hb. by eapply Forall_forall in Hb.
    + assert (trim w ∈ nonEmptyLines text) as Hin
        by (apply nonEmptyLines_elem; eauto).
      rewrite E in Hin. by apply elem_of_nil in Hin.
  - intros Hall. destruct (nonEmptyLines text) as [|l ls] eqn:E; [done|].
    assert (l ∈ nonEmptyLines text) as Hin by (rewrite E; by left).
    apply nonEmptyLines_elem in Hin as (Hne & line & Hline & ->).
    destruct Hne. apply trim_nil, Forall_forall. intros c Hc.
    destruct (split_on_elem _ _ _ _ Hline Hc) as [Hct _].
    by eapply Forall_forall in Hall.
Qed.

(** X1: the lines [/api/start-task] keeps of the messages and of the
    conversation identifiers are not empty, carry no white space at
    either end and no line break; and no line is kept exactly when the
    text is blank. *)
Theorem nonEmptyLines_lines text :
  Forall (fun l => l <> [] /\ trim l = l /\ 10%N ∉ l) (nonEmptyLines text)
  /\ (nonEmptyLines text = [] <-> trim text = []).
Proof.
  split; [|apply nonEmptyLines_nil].
  apply Forall_forall. intros l (Hne & line & Hline & ->)%nonEmptyLines_elem.
  split; [done|]. split; [apply trim_idemp|].
  intros H%trim_elem. by destruct (split_on_elem _ _ _ _ Hline H).
Qed.

(** ** Cookies *)

Lemma removeDuplicates_elem seen l c :
  c ∈ removeDuplicates seen l <->
  (name c ∉ seen) /\ first_of_name l c.
Proof.
  revert seen; induction l as [|d l IH]; intros seen; simpl.
  - split; [by intros ?%elem_of_nil|].
    intros [_ (l1 & l2 & E & _)]. by destruct l1.
  - case_bool_decide as Hd.
    + rewrite IH. split.
      * intros [Hc (l1 & l2 & -> & Hfresh)]. split; [done|].
        exists (d :: l1), l2. split; [done|].
        rewrite fmap_cons, not_elem_of_cons. split; [|done].
        intros E. by rewrite E in Hc.
      * intros [Hc (l1 & l2 & E & Hfresh)]. split; [done|].
        destruct l1 as [|d' l1]; simplify_eq/=; [done|].
        apply not_elem_of_cons in Hfresh as [_ ?]. by exists l1, l2.
    + rewrite elem_of_cons, IH. split.
      * intros [-> | [Hc (l1 & l2 & -> & Hfresh)]].
        -- split; [done|]. exists [], l. split; [done|]. apply not_elem_of_nil.
        -- apply not_elem_of_cons in Hc as [Hne Hc]. split; [done|].
           exists (d :: l1), l2. split; [done|].
           rewrite fmap_cons, not_elem_of_cons. done.
      * intros [Hc (l1 & l2 & E & Hfresh)].
        destruct l1 as [|d' l1]; simplify_eq/=; [by left|].
        apply not_elem_of_cons in Hfresh as [Hne Hfresh]. right.
        split; [|by exists l1, l2].
        rewrite not_elem_of_cons. done.
Qed.

Lemma removeDuplicates_NoDup seen l :
  NoDup (name <$> removeDuplicates seen l).
Proof.
  revert seen; induction l as [|d l IH]; intros seen; simpl;
    [apply NoDup_nil_2|].
  case_bool_decide; [apply IH|]. rewrite fmap_cons. apply NoDup_cons_2; [|apply IH].
  intros (c & Hn & Hc)%list_elem_of_fmap.
  apply removeDuplicates_elem in Hc as [Hc _]. rewrite <- Hn in Hc.
  apply Hc. by left.
Qed.

Lemma collected_blank cookieString :
  trim cookieString = [] -> collected cookieString = [].
Proof.
  intros Hb%trim_nil. unfold collected.
  assert (Forall (fun line => parseCookieLine line = [])
            (split_on 10%N cookieString)) as H.
  { apply Forall_forall. intros line Hline. unfold parseCookieLine.
    assert (trim line = []) as ->; [|done].
    apply trim_nil, Forall_forall. intros c Hc.
    destruct (split_on_elem _ _ _ _ Hline Hc) as [Hct _].
    by eapply Forall_forall in Hb. }
  induction H as [|line ls E _ IH]; [done|].
  rewrite fmap_cons. cbn [concat]. by rewrite E, IH.
Qed.

Lemma parseCookies_collected cookieString :
  parseCookies cookieString = removeDuplicates [] (collected cookieString).
Proof.
  unfold parseCookies.
  destruct (negb (truthy cookieString) || negb (truthy (trim cookieString)))
    eqn:E; [|done].
  rewrite collected_blank; [done|].
  apply orb_true_iff in E as [E | E].
  - by destruct cookieString.
  - by destruct (trim cookieString).
Qed.

(** X2: no two cookies [parseCookies] returns bear the same name. *)
Theorem parseCookies_names_distinct cookieString :
  NoDup (name <$> parseCookies cookieString).
Proof. rewrite parseCookies_collected. apply removeDuplicates_NoDup. Qed.

(** X3: of the cookies written on the lines of the text, [parseCookies]
    returns those that are the first of their name, and no others: a
    later line never replaces the cookie of an earlier one. *)
Theorem parseCookies_first_wins cookieString c :
  c ∈ parseCookies cookieString <-> first_of_name (collected cookieString) c.
Proof.
  rewrite parseCookies_collected, removeDuplicates_elem. split; [by intros []|].
  intros H. split; [apply not_elem_of_nil | done].
Qed.

Lemma includes_false s c : includes s c = false <-> c ∉ s.
Proof.
  unfold includes. induction s as [|d s IH]; simpl.
  - split; [intros _; apply not_elem_of_nil | done].
  - rewrite not_elem_of_cons, orb_false_iff, IH, N.eqb_neq.
    split; intros [? ?]; split; congruence.
Qed.

Lemma join_elem sep parts c :
  c ∈ join sep parts -> c ∈ sep \/ exists w, w ∈ parts /\ c ∈ w.
Proof.
  induction parts as [|w ws IH]; [by intros ?%elem_of_nil|].
  destruct ws as [|w' ws].
  - intros H. right. exists w. split; [by left | done].
  - change (join sep (w :: w' :: ws)) with (w ++ sep ++ join sep (w' :: ws)).
    rewrite !elem_of_app. intros [H | [H | H]].
    + right. exists w. split; [by left | done].
    + by left.
    + destruct (IH H) as [? | (v & Hv & Hc)]; [by left|].
      right. exists v. split; [by right | done].
Qed.

Lemma parseCookieLine_elem line c :
  c ∈ parseCookieLine line ->
  exists n valueParts,
    split_on 61%N (trim line) = n :: valueParts
    /\ trim n <> []
    /\ c = cookie_of (trim n)
             (trim (hd [] (split_on 59%N (join (js "=") valueParts)))).
Proof.
  unfold parseCookieLine. cbv zeta.
  destruct (_ || _ || _); [by intros ?%elem_of_nil|].
  destruct (includes _ _); [|by intros ?%elem_of_nil].
  destruct (split_on 61%N (trim line)) as [|n valueParts];
    [by intros ?%elem_of_nil|].
  destruct (truthy (trim n)) eqn:Hn,
    (truthy (trim (join (js "=") valueParts)));
    cbn [andb]; try (by intros ?%elem_of_nil).
  intros ->%list_elem_of_singleton. exists n, valueParts.
  split; [done|]. split; [by destruct (trim n) | done].
Qed.

Lemma concat_elem {A} (ls : list (list A)) (x : A) :
  x ∈ concat ls <-> exists l, l ∈ ls /\ x ∈ l.
Proof.
  induction ls as [|l ls IH]; cbn [concat].
  - split; [by intros ?%elem_of_nil | by intros (l & ?%elem_of_nil & _)].
  - rewrite elem_of_app, IH. split.
    + intros [H | (l' & Hl' & H)]; [exists l | exists l'];
        (split; [|done]); [by left | by right].
    + intros (l' & [-> | Hl']%elem_of_cons & H); [by left|].
      right. by exists l'.
Qed.

Lemma collected_elem cookieString c :
  c ∈ collected cookieString ->
  exists line, line ∈ split_on 10%N cookieString /\ c ∈ parseCookieLine line.
Proof.
  unfold collected. intros (l & Hl & Hc)%concat_elem.
  apply list_elem_of_fmap in Hl as (line & -> & Hline). by exists line.
Qed.

(** X4: every cookie [parseCookies] returns has a name that is not
    empty, with no white space around it and no [=] in it; its value has
    no white space around it and no [;] in it; neither holds a line
    break; and the other fields are the fixed ones, [httpOnly] being set
    for the names [c_user], [xs], [fr] and [datr] only. *)
Theorem parseCookies_fields cookieString c :
  c ∈ parseCookies cookieString ->
  truthy (name c) = true /\ trim (name c) = name c
  /\ includes (name c) 61%N = false /\ includes (name c) 10%N = false
  /\ trim (value c) = value c
  /\ includes (value c) 59%N = false /\ includes (value c) 10%N = false
  /\ c = cookie_of (name c) (value c).
Proof.
  rewrite parseCookies_collected, removeDuplicates_elem.
  intros [_ (l1 & l2 & E & _)].
  assert (c ∈ collected cookieString) as Hc
    by (rewrite E, elem_of_app; right; by left).
  apply collected_elem in Hc as (line & Hline & Hc).
  apply parseCookieLine_elem in Hc as (n & valueParts & Hsplit & Hn & ->).
  cbn [name value cookie_of].
  assert (forall w d, w ∈ n :: valueParts -> d ∈ w ->
            d <> 61%N /\ d <> 10%N) as Hparts.
  { intros w d Hw Hd. rewrite <- Hsplit in Hw.
    destruct (split_on_elem _ _ _ _ Hw Hd) as [Hd' ?]. split; [done|].
    apply trim_elem in Hd'. by destruct (split_on_elem _ _ _ _ Hline Hd'). }
  split; [by destruct (trim n)|]. split; [apply trim_idemp|].
  split; [|split]; [| |split; [apply trim_idemp|]; split; [|split; [|done]]];
    apply includes_false.
  - intros H%trim_elem. destruct (Hparts n 61%N); [by left | done | done].
  - intros H%trim_elem. destruct (Hparts n 10%N); [by left | done | done].
  - intros H%trim_elem.
    pose proof (split_on_nonempty 59%N (join (js "=") valueParts)) as Hne.
    destruct (split_on 59%N (join (js "=") valueParts)) as [|v vs] eqn:Ev;
      [done|].
    assert (v ∈ split_on 59%N (join (js "=") valueParts)) as Hv
      by (rewrite Ev; by left).
    by destruct (split_on_elem _ _ _ _ Hv H).
  - intros H%trim_elem.
    pose proof (split_on_nonempty 59%N (join (js "=") valueParts)) as Hne.
    destruct (split_on 59%N (join (js "=") valueParts)) as [|v vs] eqn:Ev;
      [done|].
    assert (v ∈ split_on 59%N (join (js "=") valueParts)) as Hv
      by (rewrite Ev; by left).
    destruct (split_on_elem _ _ _ _ Hv H) as [Hj _].
    apply join_elem in Hj as [Hj | (w & Hw & Hd)].
    + apply list_elem_of_singleton in Hj. discriminate.
    + destruct (Hparts w 10%N); [by right | done | done].
Qed.

Lemma parseCookies_fields_witness :
  cookie_of (js "xs") (js "2") ∈ parseCookies (js "xs = 2; path=/")
  /\ trim (js "xs") = js "xs".
Proof.
  assert (cookie_of (js "xs") (js "2") ∈ parseCookies (js "xs = 2; path=/"))
    as H.
  { replace (parseCookies (js "xs = 2; path=/"))
      with [cookie_of (js "xs") (js "2")] by (vm_compute; reflexivity).
    by left. }
  split; [done|].
  exact (proj1 (proj2 (parseCookies_fields _ _ H))).
Defined.

Lemma startsWith_before a c b p :
  c ∉ p -> startsWith (a ++ c :: b) p = startsWith a p.
Proof.
  revert a; induction p as [|x p IH]; intros a Hc; [by destruct a|].
  apply not_elem_of_cons in Hc as [Hx Hp].
  destruct a as [|d a]; simpl.
  - destruct (N.eqb_spec x c); [congruence | done].
  - by rewrite IH.
Qed.

(** X5: a line [name=value] comes back as the cookie of that name and
    value, when the name is not empty, has no white space around it, no
    [=] and no line break in it and does not open a comment, and the
    value is not empty, has no white space around it and no [;] and no
    line break in it. The value may hold [=]. *)
Theorem parseCookies_line n v :
  truthy n = true -> trim n = n ->
  includes n 61%N = false -> includes n 10%N = false ->
  startsWith n (js "#") = false -> startsWith n (js "//") = false ->
  truthy v = true -> trim v = v ->
  includes v 59%N = false -> includes v 10%N = false ->
  parseCookies (n ++ js "=" ++ v) = [cookie_of n v].
Proof.
  intros Hn Hnt Hn61%includes_false Hn10%includes_false Hhash Hslash
    Hv Hvt Hv59%includes_false Hv10%includes_false.
  change (js "=") with [61%N]. cbn [app].
  set (line := n ++ 61%N :: v).
  assert (trim line = line) as Hline.
  { pose proof (trim_ends n) as [Hn1 _]. pose proof (trim_ends v) as [_ Hv2].
    rewrite Hnt in Hn1. rewrite Hvt in Hv2. apply trim_fixed.
    - subst line. by destruct n.
    - subst line. rewrite rev_app_distr. cbn [rev].
      destruct (rev v) as [|d u] eqn:E; [|done].
      apply (f_equal (@rev N)) in E. rewrite rev_involutive in E.
      subst v. done. }
  rewrite parseCookies_collected. unfold collected.
  rewrite split_on_absent.
  2:{ subst line. rewrite elem_of_app, elem_of_cons. intros [? | [? | ?]]; done. }
  cbn [fmap list_fmap concat]. rewrite app_nil_r.
  unfold parseCookieLine. cbv zeta. rewrite Hline.
  assert (truthy line = true) as -> by (subst line; by destruct n).
  subst line.
  rewrite !startsWith_before, Hhash, Hslash
    by (apply includes_false; reflexivity).
  cbn [negb orb].
  assert (includes (n ++ 61%N :: v) 61%N = true) as ->.
  { unfold includes. rewrite existsb_app. simpl. apply orb_true_r. }
  rewrite split_on_head by done.
  change (js "=") with [61%N]. rewrite join_split_on.
  rewrite Hnt, Hvt, Hn, Hv. cbn [andb].
  rewrite split_on_absent by done. cbn [hd]. rewrite Hvt.
  cbn [removeDuplicates]. rewrite bool_decide_eq_false_2; [done|].
  apply not_elem_of_nil.
Qed.

Lemma parseCookies_line_witness :
  parseCookies (js "c_user" ++ js "=" ++ js "a=b")
  = [cookie_of (js "c_user") (js "a=b")].
Proof. by apply parseCookies_line. Defined.

(** ** Emoji *)

Lemma fromCodePoint_length cp :
  (1 <= length (fromCodePoint cp) <= 2)%nat.
Proof. unfold fromCodePoint. destruct (cp <? 65536); simpl; lia. Qed.

Lemma Qfloor_scaled (x : Q) (n : Z) :
  (0 <= x)%Q -> (x < 1)%Q -> 0 < n -> 0 <= Qfloor (x * inject_Z n) < n.
Proof.
  intros H0 H1 Hn.
  assert (inject_Z 0 < inject_Z n)%Q as Hq by (by rewrite <- Zlt_Qlt).
  change (inject_Z 0) with 0%Q in Hq.
  split.
  - change 0 with (Qfloor (inject_Z 0)). apply Qfloor_resp_le.
    change (inject_Z 0) with 0%Q. nra.
  - assert (inject_Z (Qfloor (x * inject_Z n)) < inject_Z n)%Q as H.
    { eapply Qle_lt_trans; [apply Qfloor_le|]. nra. }
    by rewrite <- Zlt_Qlt in H.
Qed.

(** X6: with draws in [0, 1), [getRandomEmoji] makes two draws and
    returns the string of one code point of one of the ranges of
    [EMOJI_RANGES]: one or two code units, never the empty string. *)
Theorem getRandomEmoji_range g :
  (0 <= stream g (drawn g))%Q -> (stream g (drawn g) < 1)%Q ->
  (0 <= stream g (S (drawn g)))%Q -> (stream g (S (drawn g)) < 1)%Q ->
  exists lo hi cp,
    (lo, hi) ∈ EMOJI_RANGES /\ lo <= cp <= hi
    /\ (getRandomEmoji g).1 = fromCodePoint cp
    /\ (1 <= length (getRandomEmoji g).1 <= 2)%nat
    /\ drawn (getRandomEmoji g).2 = S (S (drawn g)).
Proof.
  intros Ha0 Ha1 Hb0 Hb1.
  unfold getRandomEmoji, bindR, Math_random, retR. cbn [fst snd drawn stream].
  set (i := Qfloor (stream g (drawn g) * inject_Z (Z.of_nat (length EMOJI_RANGES)))).
  assert (0 <= i < 10) as Hi by (apply Qfloor_scaled; done).
  set (range := nth (Z.to_nat i) EMOJI_RANGES (0, 0)).
  assert ((range.1, range.2) ∈ EMOJI_RANGES /\ range.1 <= range.2) as [Hin Hle].
  { subst range. destruct (Z.to_nat i) as [|[|[|[|[|[|[|[|[|[|n]]]]]]]]]] eqn:E;
      try lia; (split; [cbn; listed | cbn; lia]). }
  set (cp := Qfloor (stream g (S (drawn g)) * inject_Z (range.2 - range.1 + 1))
             + range.1).
  exists range.1, range.2, cp. split; [done|].
  pose proof (Qfloor_scaled (stream g (S (drawn g))) (range.2 - range.1 + 1)
                Hb0 Hb1 ltac:(lia)).
  split; [subst cp; lia|]. split; [done|]. split; [|done].
  apply fromCodePoint_length.
Qed.

Lemma getRandomEmoji_range_witness :
  exists lo hi cp,
    (lo, hi) ∈ EMOJI_RANGES /\ lo <= cp <= hi
    /\ (getRandomEmoji stuck).1 = fromCodePoint cp
    /\ (1 <= length (getRandomEmoji stuck).1 <= 2)%nat
    /\ drawn (getRandomEmoji stuck).2 = S (S (drawn stuck)).
Proof. apply getRandomEmoji_range; by vm_compute. Defined.

(** ** enhanceMessage *)

Lemma join_split_ws_le skip s :
  (length (join (js " ") (split_ws skip s)) <= length s)%nat.
Proof.
  revert skip; induction s as [|c s IH]; intros skip; [done|].
  cbn [split_ws]. destruct (isWhiteSpace c).
  - destruct skip.
    + specialize (IH true). cbn [length]. lia.
    + specialize (IH true). pose proof (split_ws_nonempty true s).
      destruct (split_ws true s) as [|w ws]; [done|].
      rewrite join_length in *. change (length (js " ")) with 1%nat in *.
      cbn [length total_length foldr] in *. lia.
  - specialize (IH false). pose proof (split_ws_nonempty false s).
    destruct (split_ws false s) as [|w ws]; [done|].
    rewrite join_length in *. change (length (js " ")) with 1%nat in *.
    cbn [length total_length foldr] in *. lia.
Qed.

Lemma trim_length s : (length (trim s) <= length s)%nat.
Proof.
  destruct (trim_shape s) as (l & r & Hs & _).
  rewrite Hs at 2. rewrite !length_app. lia.
Qed.

(** What [enhanceMessage] pushes besides the words. *)
Lemma getRandomEmoji_length g : (1 <= length (getRandomEmoji g).1 <= 2)%nat.
Proof.
  unfold getRandomEmoji, bindR, Math_random, retR. cbn [fst].
  apply fromCodePoint_length.
Qed.

Lemma maybe_emoji_shape threshold g l g' :
  maybe_emoji threshold g = (l, g') ->
  l = [] \/ exists e, l = [e] /\ (1 <= length e <= 2)%nat.
Proof.
  unfold maybe_emoji, bindR, Math_random. cbv beta iota.
  set (g1 := mkRNG (stream g) (S (drawn g))).
  destruct (Qltb (stream g (drawn g)) threshold).
  - pose proof (getRandomEmoji_length g1) as H.
    destruct (getRandomEmoji g1) as [e g2]. cbn [fst] in H.
    intros [= <- _]. right. by exists e.
  - intros [= <- _]. by left.
Qed.

Lemma enhance_words_shape words g l g' :
  enhance_words words g = (l, g') ->
  sublist words l
  /\ (words <> [] -> length l + 1 <= 2 * length words)%nat
  /\ (words = [] -> l = [])
  /\ Forall (fun p => p ∈ words \/ (1 <= length p <= 2)%nat) l
  /\ (total_length l + 2 * length words
      <= total_length words + 2 * length l)%nat.
Proof.
  revert g l g'; induction words as [|w rest IH]; intros g l g' H.
  { injection H as <- _. repeat split; try done. }
  cbn [enhance_words] in H. unfold bindR at 1 in H.
  destruct (Math_random g) as [x g1].
  unfold bindR at 1 in H.
  set (b := Qltb x (1 # 4) && negb (bool_decide (rest = []))) in H.
  assert (exists e g2,
            (if b then let* e := getRandomEmoji in retR [e] else retR []) g1
            = (e, g2)
            /\ (e = [] \/ (rest <> [] /\ exists e0, e = [e0]
                                     /\ (1 <= length e0 <= 2)%nat)))
    as (e & g2 & Ee & He).
  { destruct b eqn:Eb.
    - unfold bindR, retR. pose proof (getRandomEmoji_length g1) as H0.
      destruct (getRandomEmoji g1) as [e0 g2]. cbn [fst] in H0.
      exists [e0], g2.
      split; [done|]. right. split; [|by exists e0].
      subst b. apply andb_true_iff in Eb as [_ Eb].
      apply negb_true_iff in Eb. by apply bool_decide_eq_false in Eb.
    - exists [], g1. split; [done | by left]. }
  rewrite Ee in H. unfold bindR, retR in H.
  destruct (enhance_words rest g2) as [tl g3] eqn:E.
  apply IH in E as (Hsub & Hlen & Hnil & Hall & Htot). injection H as <- _.
  split; [|split; [|split; [done|split]]].
  - apply sublist_skip. destruct He as [-> | (_ & e0 & -> & _)]; [done|].
    by apply sublist_cons.
  - intros _. cbn [length]. rewrite length_app.
    destruct He as [-> | (Hne & e0 & -> & _)].
    + destruct rest as [|w' rest']; [by rewrite Hnil|].
      cbn [length] in *. specialize (Hlen ltac:(done)). lia.
    + specialize (Hlen Hne). cbn [length] in *. lia.
  - constructor; [left; by left|]. apply Forall_app. split.
    + destruct He as [-> | (_ & e0 & -> & Hl)]; [done|].
      constructor; [by right | done].
    + eapply Forall_impl; [exact Hall|]. intros p [Hp | Hp]; [|by right].
      left. by right.
  - change (total_length (w :: e ++ tl))
      with (length w + total_length (e ++ tl))%nat.
    change (total_length (w :: rest)) with (length w + total_length rest)%nat.
    rewrite total_length_app. cbn [length]. rewrite length_app.
    destruct He as [-> | (_ & e0 & -> & Hl)];
      cbn [length total_length foldr]; lia.
Qed.



(** * Further properties: the handlers *)

(** ** Submissions *)

Lemma truthy_trim_lines text :
  truthy (trim text) = true -> nonEmptyLines text <> [].
Proof.
  intros H E. apply nonEmptyLines_nil in E. by rewrite E in H.
Qed.

(** What [/api/start-task] answers to a body of three strings that it
    turns down. *)
Lemma start_task_turned_down clk body s s' code message :
  start_task clk body s = (s', Failure code message) ->
  same_store s s' /\ (code, message) ∈ rejections.
Proof.
  unfold start_task.
  destruct (negb (truthy (Body.cookies body)) || _) eqn:Ec.
  { intros [= <- <- <-]. split; [by repeat split | listed]. }
  destruct (negb (truthy (Body.messages body)) || _) eqn:Em.
  { intros [= <- <- <-]. split; [by repeat split | listed]. }
  destruct (negb (truthy (Body.conversation_id body)) || _) eqn:Ei.
  { intros [= <- <- <-]. split; [by repeat split | listed]. }
  cbv zeta. destruct (MAX_TASKS_PER_USER <=? _).
  { intros [= <- <- <-]. split; [by repeat split | listed]. }
  destruct (generateTaskId (random s)) as [taskId g].
  case_bool_decide.
  { intros [= <- <- <-]. split; [by repeat split | listed]. }
  apply orb_false_iff in Em as [_ Em%negb_false_iff].
  apply orb_false_iff in Ei as [_ Ei%negb_false_iff].
  rewrite bool_decide_eq_false_2 by by apply truthy_trim_lines.
  rewrite bool_decide_eq_false_2 by by apply truthy_trim_lines.
  discriminate.
Qed.

Lemma same_store_refl s : same_store s s.
Proof. by repeat split. Qed.



(** What an accepted job has gone through. *)
Lemma start_task_accepted clk body s s' taskId total b bd td pos :
  start_task clk body s = (s', TaskQueued taskId total b bd td pos) ->
  taskId = (generateTaskId (random s)).1
  /\ s' = enqueue_task clk (new_task clk body taskId)
            (set_random (generateTaskId (random s)).2 s)
  /\ pos = Z.of_nat (length (taskQueue s'))
  /\ parseCookies (Body.cookies body) <> []
  /\ nonEmptyLines (Body.messages body) <> []
  /\ nonEmptyLines (Body.conversation_id body) <> [].
Proof.
  unfold start_task.
  destruct (_ || _); [done|]. destruct (_ || _); [done|].
  destruct (_ || _); [done|]. destruct (_ <=? _); [done|].
  destruct (generateTaskId (random s)) as [taskId' g]. cbv zeta. cbn [fst snd].
  repeat (case_bool_decide; [done|]).
  intros [= <- <- _ _ _ _ <-]. done.
Qed.

(** The state in which [/api/start-task] calls [processTaskQueue]. *)
Lemma enqueue_task_eq clk task s :
  exists s1,
    enqueue_task clk task s = processTaskQueue clk s1
    /\ heap s1 = heap s ++ [task]
    /\ tasks s1 = <[Task.id task := length (heap s)]> (tasks s)
    /\ taskQueue s1 = taskQueue s ++ [Task.id task]
    /\ activeTasks s1 = activeTasks s /\ procs s1 = procs s
    /\ calls s1 = calls s /\ random s1 = random s.
Proof. unfold enqueue_task. cbv zeta. eexists. split; [done|]. by repeat split. Qed.

(** X9: a job accepted while [activeTasks] is at the ceiling is left in
    the registry with status [queued], at the end of the queue; the
    answer gives its position there; no call of [processTask] is started
    and nothing is sent. *)
Theorem start_task_waits clk body s s' taskId total b bd td pos :
  start_task clk body s = (s', TaskQueued taskId total b bd td pos) ->
  MAX_CONCURRENT_TASKS <= activeTasks s ->
  heap s' = heap s ++ [new_task clk body taskId]
  /\ tasks s' = <[taskId := length (heap s)]> (tasks s)
  /\ Task.status (new_task clk body taskId) = queued
  /\ taskQueue s' = taskQueue s ++ [taskId]
  /\ pos = Z.of_nat (length (taskQueue s)) + 1
  /\ activeTasks s' = activeTasks s
  /\ procs s' = procs s /\ calls s' = calls s.
Proof.
  intros (_ & -> & -> & _)%start_task_accepted Hfull.
  set (task := new_task clk body taskId).
  destruct (enqueue_task_eq clk task
              (set_random (generateTaskId (random s)).2 s))
    as (s1 & -> & Hh & Ht & Hq & Ha & Hp & Hc & _).
  assert (processTaskQueue clk s1 = s1) as ->.
  { unfold processTaskQueue. rewrite Hq, length_app, Nat.add_comm.
    cbn [length Nat.add processTaskQueue_loop].
    destruct (Z.ltb_spec (activeTasks s1) MAX_CONCURRENT_TASKS) as [Hlt|];
      [|done].
    rewrite Ha in Hlt. cbn [activeTasks set_random] in Hlt. exfalso. lia. }
  rewrite Hh, Ht, Hq, Ha, Hp, Hc, length_app.
  cbn [length heap tasks taskQueue activeTasks procs calls set_random].
  repeat split; try done. lia.
Qed.

Lemma start_task_waits_witness :
  taskQueue (start_task noon (job 40) full).1 = taskQueue full ++ [js "h4rsh_1320"]
  /\ procs (start_task noon (job 40) full).1 = procs full.
Proof.
  assert (start_task noon (job 40) full
          = ((start_task noon (job 40) full).1,
             TaskQueued (js "h4rsh_1320") 1 1 5 10 1)) as H
    by (vm_compute; reflexivity).
  assert (MAX_CONCURRENT_TASKS <= activeTasks full) as Hfull
    by (vm_compute; discriminate).
  pose proof (start_task_waits _ _ _ _ _ _ _ _ _ _ H Hfull)
    as (_ & _ & _ & Hq & _ & _ & Hp & _).
  split; [exact Hq | exact Hp].
Defined.

Lemma heap_addLog clk taskId message type s :
  heap (addLog clk taskId message type s) = heap s.
Proof. reflexivity. Qed.

(** The first stretch of a call of [processTask] on a task that is not
    stopped and has a conversation and a message: up to the first
    delivery. *)
Lemma processTask_enter_sends clk ptq taskId r x c cs m ms s :
  heap s !! r = Some x -> Task.isStopped x = false ->
  1 <= Task.batch_count x ->
  Task.conversations x = c :: cs -> Task.messages x = m :: ms ->
  processTask_enter clk ptq taskId r s
  = send clk taskId r 0 c cs m ms
      (addLog clk taskId
         (js "Batch " ++ decimal 1 ++ js "/" ++ decimal (Task.batch_count x))
         (js "info")
         (addLog clk taskId (js "Task started processing") (js "info")
            (tasks_set taskId r
               (set_activeTasks (activeTasks s + 1)
                  (update r (Task.set_status running) s))))).
Proof.
  intros Hx Hstop Hb Hc Hm. unfold processTask_enter. cbv zeta.
  set (s1 := addLog _ _ _ _ _).
  assert (heap s1 !! r = Some (Task.set_status running x)) as H1.
  { subst s1. cbn. by rewrite list_lookup_alter_eq, Hx. }
  unfold batches_from, turns_left, field. rewrite H1.
  cbn [Task.batch_count Task.set_status]. rewrite Z.sub_0_r.
  destruct (Z.to_nat (Task.batch_count x)) as [|n] eqn:En; [lia|].
  cbn [for_batches]. unfold isStopped_at at 1. rewrite H1.
  cbn [Task.isStopped Task.set_status]. rewrite Hstop.
  unfold field. rewrite heap_addLog, !H1.
  cbn [Task.batch_count Task.conversations Task.set_status].
  change (0 + 1) with 1. set (s2 := addLog _ _ _ _ s1).
  assert (heap s2 !! r = Some (Task.set_status running x)) as H2 by exact H1.
  rewrite Hc. cbn [for_conversations]. unfold isStopped_at, field. rewrite H2.
  cbn [Task.isStopped Task.messages Task.set_status]. by rewrite Hstop, Hm.
Qed.

Lemma send_eq clk taskId r batch conversation convs message msgs s :
  send clk taskId r batch conversation convs message msgs s
  = (addLog clk taskId (js "Launching browser for " ++ conversation)
       (js "info")
       (set_calls
          (calls s ++ [mkCall r conversation (enhanceMessage message (random s)).1])
          (set_random (enhanceMessage message (random s)).2 s)),
     Suspend (mkProc taskId r batch conversation convs msgs AwaitSend)).
Proof. unfold send. by destruct (enhanceMessage message (random s)). Qed.

(** X10: a job accepted while [activeTasks] is below the ceiling and the
    queue is empty is started before the answer is sent: its status is
    [running], the counter has grown by one, the queue is empty again
    and the answer gives position 0; [sendFacebookMessage] has been
    called once, for the first conversation with the first message
    enhanced, and [processTask] is suspended on that call. *)
Theorem start_task_at_once clk body s s' taskId total b bd td pos :
  start_task clk body s = (s', TaskQueued taskId total b bd td pos) ->
  activeTasks s < MAX_CONCURRENT_TASKS -> taskQueue s = [] ->
  exists c cs m ms,
    nonEmptyLines (Body.conversation_id body) = c :: cs
    /\ nonEmptyLines (Body.messages body) = m :: ms
    /\ heap s' = heap s ++ [Task.set_status running (new_task clk body taskId)]
    /\ tasks s' = <[taskId := length (heap s)]> (tasks s)
    /\ taskQueue s' = [] /\ pos = 0
    /\ activeTasks s' = activeTasks s + 1
    /\ procs s'
       = procs s ++ [Some (mkProc taskId (length (heap s)) 0 c cs ms AwaitSend)]
    /\ calls s'
       = calls s
         ++ [mkCall (length (heap s)) c
               (enhanceMessage m (generateTaskId (random s)).2).1].
Proof.
  intros (_ & -> & -> & _ & Hm & Hc)%start_task_accepted Hlt Hq0.
  set (g := (generateTaskId (random s)).2).
  set (task := new_task clk body taskId).
  destruct (nonEmptyLines (Body.conversation_id body)) as [|c cs] eqn:Ec;
    [done|].
  destruct (nonEmptyLines (Body.messages body)) as [|m ms] eqn:Em; [done|].
  exists c, cs, m, ms. split; [done|]. split; [done|].
  set (r := length (heap s)).
  destruct (enqueue_task_eq clk task (set_random g s))
    as (s1 & -> & Hh & Ht & Hq & Ha & Hp & Hcl & Hr).
  cbn [heap tasks taskQueue activeTasks procs calls random set_random]
    in Hh, Ht, Hq, Ha, Hp, Hcl, Hr.
  rewrite Hq0 in Hq. cbn [app] in Hq. change (Task.id task) with taskId in *.
  fold r in Ht.
  assert (heap s1 !! r = Some task) as Hx.
  { rewrite Hh. apply lookup_app_Some. right. split; [done|].
    subst r. by rewrite Nat.sub_diag. }
  set (s2 := set_taskQueue [] s1).
  assert (tasks_get taskId s2 = Some (r, task)) as Hget.
  { apply tasks_get_Some. subst s2. cbn [tasks heap set_taskQueue].
    by rewrite Ht, lookup_insert_eq. }
  assert (1 <= Task.batch_count task) as Hb.
  { subst task. unfold new_task. cbn [Task.batch_count].
    apply clamp_range. lia. }
  assert (processTaskQueue clk s1
          = processTask clk (fun s => s) taskId s2) as ->.
  { unfold processTaskQueue. rewrite Hq. cbn [length processTaskQueue_loop].
    rewrite Ha, Hq. fold s2.
    destruct (Z.ltb_spec (activeTasks s) MAX_CONCURRENT_TASKS); [|lia].
    rewrite Hget. change (Task.status task) with queued.
    change (Task.isStopped task) with false.
    by rewrite bool_decide_eq_true_2 by done. }
  unfold processTask. rewrite Hget.
  rewrite (processTask_enter_sends clk _ taskId r task c cs m ms s2 Hx
             eq_refl Hb Ec Em).
  rewrite send_eq. cbv beta iota.
  cbn [heap tasks taskQueue activeTasks procs calls random
       set_procs set_calls set_random addLog set_logs tasks_set
       set_tasks set_activeTasks update set_heap set_taskQueue].
  subst s2.
  cbn [heap tasks taskQueue activeTasks procs calls random set_taskQueue].
  rewrite Hh, Ht, Ha, Hp, Hcl, Hr. repeat split; try done.
  - subst r. rewrite alter_app_r_alt by done. by rewrite Nat.sub_diag.
  - by rewrite insert_insert_eq.
Qed.

Lemma start_task_at_once_witness :
  exists c cs m ms,
    nonEmptyLines (Body.conversation_id (job 0)) = c :: cs
    /\ nonEmptyLines (Body.messages (job 0)) = m :: ms
    /\ heap underway
       = heap (initial spread)
         ++ [Task.set_status running (new_task noon (job 0) (js "h4rsh_1000"))]
    /\ tasks underway
       = <[js "h4rsh_1000" := length (heap (initial spread))]>
           (tasks (initial spread))
    /\ taskQueue underway = [] /\ 0 = 0
    /\ activeTasks underway = activeTasks (initial spread) + 1
    /\ procs underway
       = procs (initial spread)
         ++ [Some (mkProc (js "h4rsh_1000") (length (heap (initial spread)))
                     0 c cs ms AwaitSend)]
    /\ calls underway
       = calls (initial spread)
         ++ [mkCall (length (heap (initial spread))) c
               (enhanceMessage m (generateTaskId (random (initial spread))).2).1].
Proof.
  apply (start_task_at_once noon (job 0) (initial spread) underway
           (js "h4rsh_1000") 1 1 5 10 0).
  - vm_compute. reflexivity.
  - vm_compute. reflexivity.
  - reflexivity.
Defined.

(** ** The cleanup timer *)

Lemma cleanup_fold clk l s :
  NoDup l.*1 ->
  let s' := foldl (cleanup_entry clk) s l in
  heap s' = heap s /\ taskQueue s' = taskQueue s
  /\ activeTasks s' = activeTasks s /\ procs s' = procs s
  /\ calls s' = calls s /\ random s' = random s
  /\ forall k,
       tasks s' !! k
       = match (list_to_map l : gmap (list N) nat) !! k with
         | Some r => if expired clk s r then None else tasks s !! k
         | None => tasks s !! k
         end
       /\ logs s' !! k
          = match (list_to_map l : gmap (list N) nat) !! k with
            | Some r => if expired clk s r then None else logs s !! k
            | None => logs s !! k
            end.
Proof.
  revert s; induction l as [|[k0 r0] l IH]; intros s Hnd; cbn [foldl].
  { repeat split; done. }
  rewrite fmap_cons in Hnd. apply NoDup_cons in Hnd as [Hk0 Hnd].
  set (s1 := cleanup_entry clk s (k0, r0)).
  assert (heap s1 = heap s /\ taskQueue s1 = taskQueue s
          /\ activeTasks s1 = activeTasks s /\ procs s1 = procs s
          /\ calls s1 = calls s /\ random s1 = random s
          /\ tasks s1 = (if expired clk s r0 then delete k0 (tasks s)
                         else tasks s)
          /\ logs s1 = (if expired clk s r0 then delete k0 (logs s)
                        else logs s))
    as (Hh & Hq & Ha & Hp & Hc & Hr & Ht & Hl).
  { subst s1. unfold cleanup_entry, expired. cbn [fst snd].
    destruct (heap s !! r0) as [task|]; [|done].
    by destruct (_ && _). }
  destruct (IH s1 Hnd) as (Hh' & Hq' & Ha' & Hp' & Hc' & Hr' & Hk).
  rewrite Hh', Hq', Ha', Hp', Hc', Hr'. repeat split; try done.
  all: destruct (Hk k) as [Hkt Hkl]; cbn [list_to_map foldr fst snd].
  all: assert (forall r, expired clk s1 r = expired clk s r) as He
         by (intros r; unfold expired; by rewrite Hh).
  all: destruct (decide (k0 = k)) as [<- | Hne].
  - rewrite lookup_insert_eq, Hkt.
    rewrite (not_elem_of_list_to_map_1 _ _ Hk0), Ht.
    destruct (expired clk s r0); [by rewrite lookup_delete_eq | done].
  - rewrite lookup_insert_ne, Hkt by done.
    assert (tasks s1 !! k = tasks s !! k) as ->.
    { rewrite Ht. destruct (expired clk s r0); [|done].
      by rewrite lookup_delete_ne. }
    destruct ((list_to_map l : gmap (list N) nat) !! k);
      [by rewrite He | done].
  - rewrite lookup_insert_eq, Hkl.
    rewrite (not_elem_of_list_to_map_1 _ _ Hk0), Hl.
    destruct (expired clk s r0); [by rewrite lookup_delete_eq | done].
  - rewrite lookup_insert_ne, Hkl by done.
    assert (logs s1 !! k = logs s !! k) as ->.
    { rewrite Hl. destruct (expired clk s r0); [|done].
      by rewrite lookup_delete_ne. }
    destruct ((list_to_map l : gmap (list N) nat) !! k);
      [by rewrite He | done].
Qed.

(** X11: the cleanup timer drops from the registry the tasks that are
    more than a day old and not running, together with their logs, and
    nothing else: every other entry and log, the queue, the counter, the
    task objects and the calls under way are left as they were. *)
Theorem cleanup_drops_expired clk s :
  heap (cleanup clk s) = heap s /\ taskQueue (cleanup clk s) = taskQueue s
  /\ activeTasks (cleanup clk s) = activeTasks s
  /\ procs (cleanup clk s) = procs s /\ calls (cleanup clk s) = calls s
  /\ forall k,
       tasks (cleanup clk s) !! k
       = match tasks s !! k with
         | Some r => if expired clk s r then None else Some r
         | None => None
         end
       /\ logs (cleanup clk s) !! k
          = match tasks s !! k with
            | Some r => if expired clk s r then None else logs s !! k
            | None => logs s !! k
            end.
Proof.
  unfold cleanup.
  destruct (cleanup_fold clk (map_to_list (tasks s)) s
              (NoDup_fst_map_to_list _)) as (Hh & Hq & Ha & Hp & Hc & _ & Hk).
  repeat split; try done.
  all: destruct (Hk k) as [Hkt Hkl]; rewrite list_to_map_to_list in *.
  - rewrite Hkt. destruct (tasks s !! k) as [r|] eqn:E; [|done].
    by destruct (expired clk s r).
  - done.
Qed.

(** ** Stopping everything *)

Lemma filter_ext_in {A} (P Q : A -> Prop) `{!forall x, Decision (P x)}
    `{!forall x, Decision (Q x)} (l : list A) :
  (forall x, x ∈ l -> P x <-> Q x) -> filter P l = filter Q l.
Proof.
  induction l as [|x l IH]; intros Hl; [done|].
  rewrite !filter_cons, IH by (intros y Hy; apply Hl; by right).
  assert (P x <-> Q x) as Hx by (apply Hl; by left).
  destruct (decide (P x)) as [Hp | Hp], (decide (Q x)) as [Hq | Hq];
    try done; exfalso; tauto.
Qed.

Lemma live_stop x : live (stop x) = false.
Proof. reflexivity. Qed.

Lemma stop_all_entry_eq clk s n k r :
  stop_all_entry clk (s, n) (k, r)
  = if live_at s r
    then (addLog clk k (js "Task stopped via stop-all") (js "warning")
            (tasks_set k r (update r stop s)), n + 1)
    else (s, n).
Proof.
  unfold stop_all_entry, live_at, live. cbn [fst snd].
  destruct (heap s !! r) as [task|]; [|done]. by destruct (_ || _).
Qed.

Lemma stop_all_fold clk l s n :
  (forall k r, (k, r) ∈ l -> tasks s !! k = Some r) ->
  let res := foldl (stop_all_entry clk) (s, n) l in
  tasks res.1 = tasks s /\ taskQueue res.1 = taskQueue s
  /\ activeTasks res.1 = activeTasks s /\ procs res.1 = procs s
  /\ calls res.1 = calls s
  /\ (forall r,
        heap res.1 !! r
        = (fun x => if bool_decide (r ∈ l.*2) && live x then stop x else x)
            <$> heap s !! r)
  /\ (NoDup l.*2 ->
      res.2 = n + Z.of_nat (length (filter (fun r => live_at s r = true) l.*2))).
Proof.
  revert s n; induction l as [|[k0 r0] l IH]; intros s n Hl; cbn [foldl].
  { repeat split; try done.
    - intros r. cbn. by destruct (heap s !! r).
    - intros _. cbn. lia. }
  rewrite stop_all_entry_eq.
  assert (tasks s !! k0 = Some r0) as Hk0 by (apply Hl; by left).
  set (s1 := addLog _ _ _ _ _).
  assert (tasks s1 = tasks s) as Ht1.
  { subst s1. cbn. by apply insert_id. }
  assert (forall r, r <> r0 -> heap s1 !! r = heap s !! r) as Hne.
  { intros r Hr. subst s1. cbn. by rewrite list_lookup_alter_ne. }
  assert (forall k r, (k, r) ∈ l -> tasks s !! k = Some r) as Hl'
    by (intros k r H; apply Hl; by right).
  destruct (live_at s r0) eqn:Hlive.
  - destruct (IH s1 (n + 1)) as (Ht & Hq & Ha & Hp & Hc & Hh & Hn).
    { intros k r H. rewrite Ht1. by apply Hl'. }
    rewrite Ht, Hq, Ha, Hp, Hc. repeat split; try done.
    + intros r. rewrite Hh. rewrite fmap_cons. cbn [snd].
      destruct (decide (r = r0)) as [-> | Hr].
      * unfold live_at in Hlive. subst s1. cbn.
        rewrite list_lookup_alter_eq.
        destruct (heap s !! r0) as [x|]; [|done]. cbn.
        rewrite live_stop, andb_false_r, Hlive, andb_true_r.
        rewrite bool_decide_eq_true_2; [done | by left].
      * rewrite (Hne r Hr). destruct (heap s !! r) as [x|]; [|done]. cbn.
        destruct (live x); [|by rewrite !andb_false_r].
        rewrite !andb_true_r. f_equal.
        rewrite (bool_decide_ext (r ∈ r0 :: l.*2) (r ∈ l.*2)); [done|].
        rewrite elem_of_cons. split; [by intros [? | ?] | by right].
    + rewrite fmap_cons. cbn [snd]. intros [Hr0 Hnd]%NoDup_cons.
      rewrite (Hn Hnd), filter_cons, decide_True by done. cbn [length].
      assert (filter (fun r => live_at s1 r = true) l.*2
              = filter (fun r => live_at s r = true) l.*2) as ->; [|lia].
      apply filter_ext_in. intros r Hr.
      unfold live_at. rewrite Hne; [done|]. by intros ->.
  - destruct (IH s n Hl') as (Ht & Hq & Ha & Hp & Hc & Hh & Hn).
    repeat split; try done.
    + intros r. rewrite Hh. rewrite fmap_cons. cbn [snd].
      destruct (heap s !! r) as [x|] eqn:Hx; [|done]. cbn.
      destruct (decide (r = r0)) as [-> | Hr].
      * unfold live_at in Hlive. rewrite Hx in Hlive.
        by rewrite Hlive, !andb_false_r.
      * destruct (live x); [|by rewrite !andb_false_r].
        rewrite !andb_true_r. f_equal.
        rewrite (bool_decide_ext (r ∈ r0 :: l.*2) (r ∈ l.*2)); [done|].
        rewrite elem_of_cons. split; [by intros [? | ?] | by right].
    + rewrite fmap_cons. cbn [snd]. intros [Hr0 Hnd]%NoDup_cons.
      rewrite (Hn Hnd), filter_cons, decide_False; [done|]. by rewrite Hlive.
Qed.

Lemma stop_all_tasks_eq clk s :
  let res := foldl (stop_all_entry clk) (s, 0) (map_to_list (tasks s)) in
  stop_all_tasks clk s
  = (set_activeTasks 0 (set_taskQueue [] res.1), AllStopped res.2).
Proof. unfold stop_all_tasks. by destruct (foldl _ _ _). Qed.

Lemma registered_elem s x :
  x ∈ registered s <->
  exists k r, tasks s !! k = Some r /\ heap s !! r = Some x.
Proof.
  unfold registered. rewrite list_elem_of_omap. split.
  - intros ([k r] & Hin%elem_of_map_to_list & Hx). by exists k, r.
  - intros (k & r & Hk & Hx). exists (k, r).
    split; [by apply elem_of_map_to_list | done].
Qed.

(** X12: [/api/stop-all-tasks] stops every task of the registry that is
    running or queued, sets its flag, and leaves every other task as it
    is; afterwards no task of the registry is running or queued, the
    queue is empty and [activeTasks] is 0, whatever calls of
    [processTask] are still under way. *)
Theorem stop_all_tasks_stops clk s :
  taskQueue (stop_all_tasks clk s).1 = []
  /\ activeTasks (stop_all_tasks clk s).1 = 0
  /\ tasks (stop_all_tasks clk s).1 = tasks s
  /\ procs (stop_all_tasks clk s).1 = procs s
  /\ calls (stop_all_tasks clk s).1 = calls s
  /\ (forall r, heap (stop_all_tasks clk s).1 !! r
                = stopped_by_all s r <$> heap s !! r)
  /\ Forall (fun x => live x = false) (registered (stop_all_tasks clk s).1).
Proof.
  rewrite stop_all_tasks_eq. cbv zeta. cbn [fst].
  destruct (stop_all_fold clk (map_to_list (tasks s)) s 0)
    as (Ht & Hq & Ha & Hp & Hc & Hh & _).
  { intros k r H. by apply elem_of_map_to_list. }
  cbn [taskQueue activeTasks tasks procs calls heap set_activeTasks
       set_taskQueue].
  repeat split; try done.
  apply Forall_forall. intros x (k & r & Hk & Hx)%registered_elem.
  cbn [taskQueue activeTasks tasks procs calls heap set_activeTasks
       set_taskQueue] in Hk, Hx.
  rewrite Ht in Hk. rewrite Hh in Hx.
  destruct (heap s !! r) as [y|]; [|done]. cbn in Hx. injection Hx as <-.
  rewrite bool_decide_eq_true_2.
  - cbn [andb]. destruct (live y) eqn:E; [apply live_stop | done].
  - apply list_elem_of_fmap. exists (k, r).
    split; [done | by apply elem_of_map_to_list].
Qed.

Lemma length_filter_registered s :
  length (filter (fun x => live x = true) (registered s))
  = length (filter (fun r => live_at s r = true) (refs s)).
Proof.
  unfold registered, refs. induction (map_to_list (tasks s)) as [|e l IH];
    [done|].
  rewrite fmap_cons, filter_cons. cbn [omap list_omap].
  assert (live_at s e.2
          = match heap s !! e.2 with Some x => live x | None => false end)
    as Hl by done.
  destruct (heap s !! e.2) as [x|].
  - rewrite filter_cons.
    destruct (decide (live x = true)) as [Hx | Hx].
    + rewrite decide_True by by rewrite Hl. cbn [length]. by rewrite IH.
    + rewrite decide_False by by rewrite Hl. done.
  - rewrite decide_False by by rewrite Hl. done.
Qed.

(** The number [/api/stop-all-tasks] reports, when no two entries of the
    registry hold the same task. *)
Lemma stop_all_tasks_count clk s :
  NoDup (refs s) ->
  (stop_all_tasks clk s).2
  = AllStopped
      (Z.of_nat (length (filter (fun x => live x = true) (registered s)))).
Proof.
  intros Hnd. rewrite stop_all_tasks_eq. cbv zeta. cbn [snd].
  destruct (stop_all_fold clk (map_to_list (tasks s)) s 0)
    as (_ & _ & _ & _ & _ & _ & Hn).
  { intros k r H. by apply elem_of_map_to_list. }
  by rewrite (Hn Hnd), length_filter_registered.
Qed.

(** * Further properties: the scheduler *)

(** ** A rule for the loops of processTask

    Whatever [P] the lines logged by the loops keep and the places where
    a stretch of [processTask] ends establish [Q] from, every stretch
    that starts inside the loops ends in [Q]. The places are three: the
    statements after the loops, the call of [sendFacebookMessage], and
    the delay between two batches. *)

Section rule.

Variable clk : Clock.
Variable ptq : State -> State.
Variable taskId : jsstring.
Variable r : nat.
Variable P : State -> Prop.
Variable Q : State * Next -> Prop.

Hypothesis P_log : forall message s,
  P s -> P (addLog clk taskId message (js "info") s).
Hypothesis Q_finalize : forall s, P s -> Q (finalize clk ptq taskId r s).
Hypothesis Q_send : forall batch conversation convs message msgs s,
  P s -> isStopped_at r s = false ->
  Q (send clk taskId r batch conversation convs message msgs s).
Hypothesis Q_wait : forall batch message s,
  P s -> isStopped_at r s = false ->
  Q (addLog clk taskId message (js "info") s,
     Suspend (mkProc taskId r batch [] [] [] AwaitBatch)).

Lemma for_conversations_rule batch after convs :
  (forall s, P s -> Q (after s)) ->
  forall s, P s -> Q (for_conversations clk taskId r batch after convs s).
Proof.
  intros Hafter. induction convs as [|c convs IH]; intros s Hs;
    cbn [for_conversations]; [by apply Hafter|].
  destruct (isStopped_at r s) eqn:E; [by apply Hafter|].
  destruct (field Task.messages [] r s); [by apply IH|].
  by apply Q_send.
Qed.

Lemma for_messages_rule batch after conversation convs msgs :
  (forall s, P s -> Q (after s)) ->
  forall s, P s ->
    Q (for_messages clk taskId r batch after conversation convs msgs s).
Proof.
  intros Hafter s Hs. unfold for_messages. destruct msgs.
  - by apply for_conversations_rule.
  - destruct (isStopped_at r s) eqn:E;
      [by apply for_conversations_rule | by apply Q_send].
Qed.

Lemma batch_end_rule batch next :
  (forall s, P s -> Q (next s)) ->
  forall s, P s -> Q (batch_end clk taskId r batch next s).
Proof.
  intros Hnext s Hs. unfold batch_end.
  destruct (_ && _) eqn:E; [|by apply Hnext].
  apply andb_true_iff in E as [_ E%negb_true_iff]. by apply Q_wait.
Qed.

Lemma for_batches_rule n :
  forall batch s, P s -> Q (for_batches clk ptq taskId r n batch s).
Proof.
  induction n as [|n IH]; intros batch s Hs; cbn [for_batches].
  - by apply Q_finalize.
  - destruct (isStopped_at r s); [by apply Q_finalize|]. cbv zeta.
    apply for_conversations_rule; [|by apply P_log].
    intros s' Hs'. apply batch_end_rule; [|done].
    intros s'' Hs''. by apply IH.
Qed.

Lemma batches_from_rule batch s :
  P s -> Q (batches_from clk ptq taskId r batch s).
Proof. apply for_batches_rule. Qed.

Lemma after_batch_rule batch s :
  P s -> Q (after_batch clk ptq taskId r batch s).
Proof.
  intros Hs. unfold after_batch. apply batch_end_rule; [|done].
  intros s' Hs'. by apply batches_from_rule.
Qed.

(** A call that is woken, from the state in which the delivery it
    waited for has been counted. *)
Lemma resume_rule p sig s res :
  p_taskId p = taskId -> p_task p = r ->
  (forall message s, sig = Thrown message -> P s ->
     Q (catch clk ptq taskId r message s)) ->
  (forall s, P s -> isStopped_at r s = false ->
     Q (s, Suspend (mkProc taskId r (p_batch p) (p_conversation p)
                      (p_convs p) (p_msgs p) AwaitDelay))) ->
  P (arrival clk p sig s) ->
  resume clk ptq p sig s = Some res -> Q res.
Proof.
  intros Ht Hr Hcatch Hdelay.
  destruct p as [t r' b c cs ms a]. cbn [p_taskId p_task] in Ht, Hr.
  subst t r'. unfold resume, arrival.
  cbn [p_taskId p_task p_batch p_conversation p_convs p_msgs p_await] in *.
  destruct sig as [ok agentLog| |message], a;
    intros Hs Hres; try discriminate.
  - cbv zeta in Hres. destruct (_ && _) eqn:E in Hres; injection Hres as <-.
    + apply andb_true_iff in E as [_ E%negb_true_iff]. by apply Hdelay.
    + by apply for_messages_rule; [apply after_batch_rule | done].
  - injection Hres as <-.
    by apply for_messages_rule; [apply after_batch_rule | done].
  - injection Hres as <-. by apply batches_from_rule.
  - injection Hres as <-. by apply Hcatch.
  - injection Hres as <-. by apply Hcatch.
  - injection Hres as <-. by apply Hcatch.
Qed.

End rule.

(** ** The shape of a stretch of processTask *)

Lemma core_addLog clk taskId message type s :
  core (addLog clk taskId message type s) = core s.
Proof. reflexivity. Qed.

Lemma k_stopped_core r s : k_stopped r (core s) = isStopped_at r s.
Proof. reflexivity. Qed.

Lemma core_settled clk taskId r ok agentLog s :
  core (settled clk taskId r ok agentLog s) = count_in taskId r ok (core s).
Proof.
  unfold settled. cbv zeta.
  assert (forall s0, core (foldl (fun s l => addLog clk taskId l.1 l.2 s) s0 agentLog)
                     = core s0) as H.
  { induction agentLog as [|l ls IH]; intros s0; [done|].
    cbn [foldl]. by rewrite IH. }
  unfold count_in, core at 1. cbn. specialize (H s).
  injection H as -> -> -> -> -> ->. done.
Qed.

Lemma core_arrival clk p sig s :
  core (arrival clk p sig s) = arrived p sig (core s).
Proof.
  unfold arrival, arrived. destruct sig; try done.
  destruct (p_await p); try done. apply core_settled.
Qed.

Lemma k_stopped_arrived p sig k :
  k_stopped (p_task p) (arrived p sig k) = k_stopped (p_task p) k.
Proof.
  unfold arrived. destruct sig as [ok ?| |]; try done.
  destruct (p_await p); try done.
  unfold k_stopped, count_in. cbn [k_heap].
  rewrite list_lookup_alter_eq. by destruct (k_heap k !! p_task p).
Qed.

Section shape.

Variable exc : bool.
Variable clk : Clock.
Variable ptq : State -> State.
Variable taskId : jsstring.
Variable r : nat.
Variable k : Core.

Lemma finalize_outcome s :
  core s = k -> outcome exc ptq taskId r k (finalize clk ptq taskId r s).
Proof.
  intros <-. unfold finalize, outcome. rewrite k_stopped_core.
  destruct (isStopped_at r s); cbn [negb snd fst finally];
    eexists _, _; (split; [done|]); split; try done; by right.
Qed.

Lemma catch_outcome message s :
  exc = true -> core s = k ->
  outcome exc ptq taskId r k (catch clk ptq taskId r message s).
Proof.
  intros He <-. unfold catch, outcome. cbn [snd fst finally].
  eexists _, _. split; [done|]. split; [done | by left].
Qed.

Lemma send_outcome batch conversation convs message msgs s :
  core s = k -> isStopped_at r s = false ->
  outcome exc ptq taskId r k
    (send clk taskId r batch conversation convs message msgs s).
Proof.
  intros <- Hs. unfold send.
  destruct (enhanceMessage message (random s)) as [text g].
  unfold outcome. cbn [snd fst p_taskId p_task p_await p_conversation].
  repeat split; try done. by exists text.
Qed.

Lemma suspend_outcome p s :
  core s = k -> isStopped_at r s = false ->
  p_taskId p = taskId -> p_task p = r -> p_await p <> AwaitSend ->
  outcome exc ptq taskId r k (s, Suspend p).
Proof.
  intros <- Hs Ht Hr Ha. unfold outcome. cbn [snd fst].
  repeat split; try done. by destruct (p_await p).
Qed.

Lemma resume_outcome p sig s res :
  p_taskId p = taskId -> p_task p = r -> exc = is_thrown sig ->
  core (arrival clk p sig s) = k ->
  resume clk ptq p sig s = Some res -> outcome exc ptq taskId r k res.
Proof.
  intros Ht Hr He Hk Hres.
  eapply (resume_rule clk ptq taskId r (fun s' => core s' = k));
    [..| exact Hres]; try done.
  all: try (intros; by apply finalize_outcome).
  all: try (intros; by apply send_outcome).
  all: try (intros; apply catch_outcome; by subst).
  all: intros; apply suspend_outcome; by rewrite ?core_addLog.
Qed.

End shape.

(** ** Every turn of the event loop is a sequence of changes *)

Lemma sendable_new_task clk body taskId :
  nonEmptyLines (Body.messages body) <> [] ->
  nonEmptyLines (Body.conversation_id body) <> [] ->
  sendable (new_task clk body taskId).
Proof.
  intros Hm Hc. unfold sendable, new_task. cbn. repeat split; try done.
  apply clamp_range. lia.
Qed.

Lemma Forall_sendable_alter f r h :
  (forall x, Task.conversations (f x) = Task.conversations x
             /\ Task.messages (f x) = Task.messages x
             /\ Task.batch_count (f x) = Task.batch_count x) ->
  Forall sendable h -> Forall sendable (alter f r h).
Proof.
  intros Hf Hh. apply Forall_alter; [done|].
  intros x _ (Hc & Hm & Hb). destruct (Hf x) as (Ec & Em & Eb).
  unfold sendable. by rewrite Ec, Em, Eb.
Qed.

Lemma core_eq s k :
  heap s = k_heap k -> tasks s = k_tasks k -> taskQueue s = k_queue k ->
  activeTasks s = k_active k -> procs s = k_procs k -> calls s = k_calls k ->
  core s = k.
Proof. destruct k. unfold core. cbn. by intros -> -> -> -> -> ->. Qed.

Lemma loop_ticks exc clk n : forall s,
  Forall sendable (heap s) ->
  rtc (tick exc) (core s) (core (processTaskQueue_loop clk n s)).
Proof.
  induction n as [|n IH]; intros s Hsend; [done|].
  cbn [processTaskQueue_loop].
  destruct (Z.ltb_spec (activeTasks s) MAX_CONCURRENT_TASKS) as [Hlt|];
    [|done].
  destruct (taskQueue s) as [|taskId rest] eqn:Hq; [done|].
  set (s1 := set_taskQueue rest s).
  assert (forall s2, core s2 = core s1 -> Forall sendable (heap s2) ->
            (forall r x, ~ startable (core s) taskId r x) ->
            rtc (tick exc) (core s) (core (processTaskQueue_loop clk n s2)))
    as Hskip.
  { intros s2 E Hs2 Hno. eapply rtc_l; [|by apply IH].
    rewrite E. by apply (tick_skip exc (core s) taskId rest). }
  destruct (tasks_get taskId s1) as [[r x]|] eqn:Hget.
  2:{ apply Hskip; try done. intros r x (Ht & Hx & _).
      assert (tasks_get taskId s1 = Some (r, x)) by by apply tasks_get_Some.
      congruence. }
  pose proof Hget as [Ht Hx]%tasks_get_Some.
  destruct (bool_decide (Task.status x = queued) && negb (Task.isStopped x))
    eqn:Hgo.
  2:{ apply Hskip; try done. intros r' x' (Ht' & Hx' & Hs' & Hst').
      cbn in Ht', Hx'. cbn in Ht, Hx.
      assert (r' = r) as -> by congruence.
      assert (x' = x) as -> by congruence.
      rewrite bool_decide_eq_true_2, Hst' in Hgo by done. done. }
  apply andb_true_iff in Hgo as [Hs%bool_decide_eq_true Hst%negb_true_iff].
  assert (sendable x) as (Hc & Hm & Hb).
  { eapply Forall_lookup_1 in Hsend; [done|]. exact Hx. }
  destruct (Task.conversations x) as [|c cs] eqn:Ec; [done|].
  destruct (Task.messages x) as [|m ms] eqn:Em; [done|].
  unfold processTask. rewrite Hget.
  rewrite (processTask_enter_sends clk _ taskId r x c cs m ms s1 Hx Hst Hb
             Ec Em), send_eq.
  set (s2 := set_procs _ _).
  eapply rtc_l; [|apply IH].
  - replace (core s2) with
      (mkCore (alter (Task.set_status running) r (k_heap (core s)))
         (<[taskId := r]> (k_tasks (core s))) rest (k_active (core s) + 1)
         (k_procs (core s) ++ [Some (mkProc taskId r 0 c cs ms AwaitSend)])
         (k_calls (core s) ++ [mkCall r c
            (enhanceMessage m
               (random (addLog clk taskId
                  (js "Batch " ++ decimal 1 ++ js "/"
                   ++ decimal (Task.batch_count x)) (js "info")
                  (addLog clk taskId (js "Task started processing")
                     (js "info")
                     (tasks_set taskId r
                        (set_activeTasks (activeTasks s1 + 1)
                           (update r (Task.set_status running) s1))))))).1]))
      by done.
    eapply (tick_admit exc (core s) taskId rest r x c cs m ms); try done.
  - subst s2. cbn [heap set_procs addLog set_logs set_calls set_random
                   tasks_set set_tasks set_activeTasks update set_heap
                   set_taskQueue].
    subst s1. cbn [heap set_taskQueue]. by apply Forall_sendable_alter.
Qed.

Lemma processTaskQueue_ticks exc clk s :
  Forall sendable (heap s) ->
  rtc (tick exc) (core s) (core (processTaskQueue clk s)).
Proof. apply loop_ticks. Qed.

Lemma arrived_counted p sig k x :
  k_heap k !! p_task p = Some x ->
  k_heap (arrived p sig k) !! p_task p = Some (counted p sig x).
Proof.
  intros Hx. unfold arrived, counted. destruct sig as [ok ?| |]; try done.
  destruct (p_await p); try done. cbn [count_in k_heap].
  by rewrite list_lookup_alter_eq, Hx.
Qed.

Lemma isStopped_counted p sig x :
  Task.isStopped (counted p sig x) = Task.isStopped x.
Proof.
  unfold counted. destruct sig; try done. by destruct (p_await p).
Qed.

Lemma arrived_with_procs l p sig k :
  arrived p sig (with_procs l k) = with_procs l (arrived p sig k).
Proof.
  unfold arrived. destruct sig; try done. by destruct (p_await p).
Qed.

Lemma k_heap_arrived p sig k :
  k_heap (arrived p sig k) = k_heap k
  \/ exists ok, k_heap (arrived p sig k)
                = alter (Task.count ok) (p_task p) (k_heap k).
Proof.
  unfold arrived. destruct sig as [ok ?| |]; try (by left).
  destruct (p_await p); try (by left). right. by exists ok.
Qed.

Lemma Forall_sendable_arrived p sig k :
  Forall sendable (k_heap k) -> Forall sendable (k_heap (arrived p sig k)).
Proof.
  intros H. destruct (k_heap_arrived p sig k) as [-> | (ok & ->)]; [done|].
  by apply Forall_sendable_alter.
Qed.

(** The signals a suspended call can be woken by. *)
Lemma resume_signal clk ptq p sig s res :
  resume clk ptq p sig s = Some res ->
  is_thrown sig = true
  \/ (p_await p = AwaitSend <-> exists ok agentLog, sig = Settled ok agentLog).
Proof.
  unfold resume. destruct sig as [ok agentLog| |message]; [| |by left];
    destruct (p_await p); try done; intros _; right; split; try done;
    try (by intros (? & ? & ?)); by eauto.
Qed.

Lemma core_suspended pid p' s1 k :
  core s1 = with_procs (<[pid := None]> (k_procs k)) k ->
  core (set_procs (<[pid := Some p']> (procs s1)) s1)
  = with_procs (<[pid := Some p']> (k_procs k)) k.
Proof.
  intros Hk. unfold core at 1.
  cbn [heap tasks taskQueue activeTasks procs calls set_procs].
  apply (f_equal k_heap) in Hk as Hh. apply (f_equal k_tasks) in Hk as Htk.
  apply (f_equal k_queue) in Hk as Hq. apply (f_equal k_active) in Hk as Hac.
  apply (f_equal k_procs) in Hk as Hp. apply (f_equal k_calls) in Hk as Hc.
  cbn in Hh, Htk, Hq, Hac, Hp, Hc.
  by rewrite Hh, Htk, Hq, Hac, Hp, Hc, list_insert_insert_eq.
Qed.

Lemma k_procs_arrived p sig k : k_procs (arrived p sig k) = k_procs k.
Proof.
  unfold arrived. destruct sig; try done. by destruct (p_await p).
Qed.

Lemma wake_ticks clk pid sig s s' :
  Inv s -> Forall sendable (heap s) -> wake clk pid sig s = Some s' ->
  rtc (tick (is_thrown sig)) (core s) (core s').
Proof.
  intros HI Hsend. unfold wake.
  destruct (procs s !! pid) as [[p|]|] eqn:Hpid; try done.
  set (su := set_procs (<[pid := None]> (procs s)) s).
  destruct (is_thrown sig) eqn:Hth.
  { (* an exception: the catch block *)
    destruct sig as [| |message]; try done.
    assert (resume clk (processTaskQueue clk) p (Thrown message) su
            = Some (catch clk (processTaskQueue clk) (p_taskId p) (p_task p)
                      message su)) as -> by (unfold resume; by destruct (p_await p)).
    unfold catch, finally. cbv zeta. intros [= <-].
    eapply rtc_l; [|apply processTaskQueue_ticks].
    - by apply (tick_catch _ (core s) pid p).
    - cbn. by apply Forall_sendable_alter. }
  destruct (resume clk (processTaskQueue clk) p sig su) as [res|] eqn:Hres;
    [|done].
  destruct (resume_signal _ _ _ _ _ _ Hres) as [Hthrown | Hsig]; [congruence|].
  pose proof (resume_outcome false clk (processTaskQueue clk)
                (p_taskId p) (p_task p) _ p sig su res eq_refl eq_refl
                (eq_sym Hth) eq_refl Hres) as Hout.
  rewrite core_arrival in Hout.
  change (core su) with (with_procs (<[pid := None]> (procs s)) (core s))
    in Hout.
  rewrite arrived_with_procs in Hout.
  set (ka := arrived p sig (core s)) in *.
  assert (k_procs ka = procs s) as Hpa by apply k_procs_arrived.
  destruct res as [s1 [p'|]]; unfold outcome in Hout; cbn [fst snd] in Hout.
  - intros [= <-]. destruct Hout as (Ht & Hr & Hst & Hk).
    assert (k_stopped (p_task p) (core s) = false) as Hst'.
    { rewrite <- (k_stopped_arrived p sig (core s)). exact Hst. }
    apply rtc_once. destruct (p_await p') eqn:Ha.
    + destruct Hk as (text & Hk).
      rewrite (core_suspended pid p' s1
                 (with_call (mkCall (p_task p) (p_conversation p') text) ka)).
      * change (k_procs (with_call _ ka)) with (k_procs ka). rewrite Hpa.
        by apply (tick_send _ (core s) pid p sig p' text).
      * rewrite Hk. change (k_procs (with_call _ ka)) with (k_procs ka).
        by rewrite Hpa.
    + rewrite (core_suspended pid p' s1 ka) by (by rewrite Hk, Hpa).
      rewrite Hpa.
      apply (tick_park _ (core s) pid p sig p'); try done. by rewrite Ha.
    + rewrite (core_suspended pid p' s1 ka) by (by rewrite Hk, Hpa).
      rewrite Hpa.
      apply (tick_park _ (core s) pid p sig p'); try done. by rewrite Ha.
  - intros [= <-]. destruct Hout as (s2 & v & -> & Hk & Hv).
    destruct Hv as [[? _] | ->]; [done|].
    eapply rtc_l; [|apply processTaskQueue_ticks].
    + rewrite Hk.
      change (k_stopped (p_task p) (with_procs (<[pid:=None]> (procs s)) ka))
        with (k_stopped (p_task p) ka).
      subst ka. rewrite k_stopped_arrived.
      apply (tick_finish _ (core s) pid p sig); try done.
      * intros Hns x Hx.
        destruct (Inv_unpark s pid p HI Hpid) as [HI0 Hq0].
        destruct (inv_proc _ HI pid p Hpid) as (x0 & Hx0 & Hs0 & Hok).
        destruct (resume_ok clk p sig su x0 _ HI0 Hq0 Hx0 Hs0 Hok Hres)
          as (_ & _ & v' & _ & _ & Hret).
        cbn [snd] in Hret.
        rewrite (arrived_counted p sig (core s) x0 Hx0) in Hx.
        injection Hx as <-.
        assert (normal sig = true) as Hn by (by destruct sig).
        destruct (Hret Hn) as [Hstop | [_ Hdone]]; [|done].
        unfold k_stopped in Hns. cbn [core k_heap] in Hns.
        rewrite Hx0 in Hns. rewrite isStopped_counted in Hstop. congruence.
      * intros pid' p' Hp' E. by apply (inv_uniq _ HI pid' pid p' p).
    + apply (f_equal k_heap) in Hk. cbn in Hk. rewrite Hk.
      apply Forall_sendable_alter; [done|].
      by apply Forall_sendable_arrived.
Qed.

Lemma tick_to exc k k' s' : tick exc k k' -> core s' = k' -> tick exc k (core s').
Proof. by intros H <-. Qed.

Lemma start_task_ticks exc clk body s :
  Forall sendable (heap s) ->
  rtc (tick exc) (core s) (core (start_task clk body s).1).
Proof.
  intros Hsend.
  destruct (start_task_cases clk body s)
    as [(c & m & ->) | [(c & m & ->) | (_ & Hm & Hc & pos & ->)]];
    cbn [fst]; try done.
  set (task := new_task clk body (generateTaskId (random s)).1).
  destruct (enqueue_task_eq clk task
              (set_random (generateTaskId (random s)).2 s))
    as (s1 & -> & Hh & Ht & Hq & Ha & Hp & Hcl & _).
  assert (sendable task) as Htask by by apply sendable_new_task.
  eapply rtc_l; [|apply processTaskQueue_ticks].
  - eapply tick_to; [by apply (tick_submit exc (core s) task)|].
    by apply core_eq.
  - rewrite Hh. apply Forall_app. split; [done|]. by constructor.
Qed.

Lemma stop_task_ticks exc clk taskId s :
  rtc (tick exc) (core s) (core (stop_task clk taskId s).1).
Proof.
  unfold stop_task.
  destruct (tasks_get taskId s) as [[r x]|] eqn:Hget; [|done]. cbn [fst].
  apply tasks_get_Some in Hget as [Ht Hx]. apply rtc_once.
  eapply tick_to; [by apply (tick_stop exc (core s) taskId r x)|].
  apply core_eq; try done. cbn. by apply insert_id.
Qed.

Lemma stop_all_tasks_ticks exc clk s :
  rtc (tick exc) (core s) (core (stop_all_tasks clk s).1).
Proof.
  rewrite stop_all_tasks_eq. cbv zeta. cbn [fst].
  destruct (stop_all_fold clk (map_to_list (tasks s)) s 0)
    as (Ht & Hq & Ha & Hp & Hc & Hh & _).
  { intros k r H. by apply elem_of_map_to_list. }
  apply rtc_once.
  eapply tick_to; [by apply (tick_stop_all exc (core s) _ Hh)|].
  by apply core_eq.
Qed.

Lemma cleanup_ticks exc clk s :
  rtc (tick exc) (core s) (core (cleanup clk s)).
Proof.
  unfold cleanup.
  destruct (cleanup_fold clk (map_to_list (tasks s)) s
              (NoDup_fst_map_to_list _)) as (Hh & Hq & Ha & Hp & Hc & _ & Hk).
  apply rtc_once.
  eapply tick_to;
    [apply (tick_cleanup exc (core s)
              (tasks (foldl (cleanup_entry clk) s (map_to_list (tasks s)))))
    | by apply core_eq].
  apply map_subseteq_spec. intros k r.
  destruct (Hk k) as [-> _]. rewrite list_to_map_to_list. cbn.
  destruct (tasks s !! k) as [r'|]; [|done]. by destruct (expired clk s r').
Qed.

Lemma tick_weaken exc k k' : tick false k k' -> tick exc k k'.
Proof. intros H. destruct H; by econstructor. Qed.

(** Every turn of the event loop is a sequence of changes, without an
    exception unless the event is one. *)
Lemma step_ticks clk e s s' :
  Inv s -> Forall sendable (heap s) -> step clk e s = Some s' ->
  rtc (tick (throws e)) (core s) (core s').
Proof.
  intros HI Hsend. destruct e; cbn [step throws]; try (intros [= <-]).
  - by apply start_task_ticks.
  - done.
  - done.
  - apply stop_task_ticks.
  - apply stop_all_tasks_ticks.
  - by apply wake_ticks.
  - apply cleanup_ticks.
Qed.

Lemma tick_sendable exc k k' :
  tick exc k k' -> Forall sendable (k_heap k) -> Forall sendable (k_heap k').
Proof.
  intros H Hs. destruct H; cbn [k_heap with_procs with_call returned]; try done.
  - apply Forall_app. split; [done|]. by constructor.
  - by apply Forall_sendable_alter.
  - by apply Forall_sendable_alter.
  - apply Forall_lookup. intros r x' Hx'. rewrite H in Hx'.
    destruct (k_heap k !! r) as [x|] eqn:Hx; [|done]. cbn in Hx'.
    injection Hx' as <-.
    eapply Forall_lookup_1 in Hs; [|exact Hx]. by destruct (_ && _).
  - by apply Forall_sendable_arrived.
  - by apply Forall_sendable_arrived.
  - apply Forall_sendable_alter; [done|]. by apply Forall_sendable_arrived.
  - by apply Forall_sendable_alter.
Qed.

Lemma ticks_sendable exc k k' :
  rtc (tick exc) k k' -> Forall sendable (k_heap k) ->
  Forall sendable (k_heap k').
Proof. induction 1; eauto using tick_sendable. Qed.

Lemma run_ticks evs : forall s s',
  Inv s -> Forall sendable (heap s) -> run evs s = Some s' ->
  rtc (tick (existsb (fun ce => throws ce.2) evs)) (core s) (core s').
Proof.
  induction evs as [|[clk e] evs IH]; intros s s' HI Hsend; cbn [run existsb].
  - by intros [= <-].
  - destruct (step clk e s) as [s1|] eqn:E; [|done]. intros Hrun.
    pose proof (step_ticks clk e s s1 HI Hsend E) as H1.
    assert (Forall sendable (heap s1)) as Hs1
      by exact (ticks_sendable _ _ _ H1 Hsend).
    specialize (IH s1 s' (step_Inv _ _ _ _ HI E) Hs1 Hrun). cbn [snd].
    etrans.
    + eapply rtc_subrel; [|exact H1]. intros k k' Hk.
      destruct (throws e); [done | by apply tick_weaken].
    + eapply rtc_subrel; [|exact IH]. intros k k' Hk.
      destruct (existsb _ evs); [by rewrite orb_true_r|].
      by apply tick_weaken.
Qed.

(** The states the server reaches, as sequences of changes. *)
Lemma reachable_ticks s :
  reachable s -> exists g, rtc (tick true) (core (initial g)) (core s).
Proof.
  intros (g & evs & Hrun). exists g.
  eapply rtc_subrel;
    [|by eapply (run_ticks evs (initial g) s (initial_Inv g))].
  intros k k' Hk. destruct (existsb _ evs); [done | by apply tick_weaken].
Qed.

(** ** The registry names the tasks by their identifiers *)

Lemma k_known_count_in k p ok :
  k_known k -> (exists pid, k_procs k !! pid = Some (Some p)) ->
  k_known (count_in (p_taskId p) (p_task p) ok k).
Proof.
  intros [Hr Hp] (pid & Hpid). destruct (Hp pid p Hpid) as (x0 & Hx0 & Hid0).
  split; unfold count_in; cbn [k_heap k_tasks k_procs].
  - intros taskId r. destruct (decide (p_taskId p = taskId)) as [<- | Hne].
    + rewrite lookup_insert_eq. intros [= <-].
      rewrite list_lookup_alter_eq, Hx0. by eexists.
    + rewrite lookup_insert_ne by done. intros Ht.
      destruct (Hr taskId r Ht) as (x & Hx & Hid).
      destruct (decide (p_task p = r)) as [-> | Hnr].
      * rewrite list_lookup_alter_eq, Hx. by eexists.
      * rewrite list_lookup_alter_ne by done. eauto.
  - intros pid' p' Hpid'. destruct (Hp pid' p' Hpid') as (x & Hx & Hid).
    destruct (decide (p_task p = p_task p')) as [E | Hnr].
    + rewrite E, list_lookup_alter_eq, Hx. by eexists.
    + rewrite list_lookup_alter_ne by done. eauto.
Qed.

Lemma k_known_arrived k p sig :
  k_known k -> (exists pid, k_procs k !! pid = Some (Some p)) ->
  k_known (arrived p sig k).
Proof.
  intros Hk Hp. unfold arrived. destruct sig; try done.
  destruct (p_await p); try done. by apply k_known_count_in.
Qed.

Lemma k_known_alter f r k :
  (forall x, Task.id (f x) = Task.id x) -> k_known k ->
  k_known (mkCore (alter f r (k_heap k)) (k_tasks k) (k_queue k) (k_active k)
             (k_procs k) (k_calls k)).
Proof.
  intros Hf [Hr Hp]. split; cbn [k_heap k_tasks k_procs].
  - intros taskId r' Ht. destruct (Hr taskId r' Ht) as (x & Hx & Hid).
    destruct (decide (r = r')) as [<- | Hne].
    + rewrite list_lookup_alter_eq, Hx. eexists. split; [done|]. by rewrite Hf.
    + rewrite list_lookup_alter_ne by done. eauto.
  - intros pid p Hpid. destruct (Hp pid p Hpid) as (x & Hx & Hid).
    destruct (decide (r = p_task p)) as [-> | Hne].
    + rewrite list_lookup_alter_eq, Hx. eexists. split; [done|]. by rewrite Hf.
    + rewrite list_lookup_alter_ne by done. eauto.
Qed.

Lemma k_known_same k k' :
  k_heap k' = k_heap k -> k_tasks k' = k_tasks k -> k_procs k' = k_procs k ->
  k_known k -> k_known k'.
Proof. intros Hh Ht Hp []. split; rewrite ?Hh, ?Ht, ?Hp; auto. Qed.

Lemma k_known_slot pid o k :
  k_known k ->
  (forall p, o = Some p ->
     exists x, k_heap k !! p_task p = Some x /\ Task.id x = p_taskId p) ->
  k_known (with_procs (<[pid := o]> (k_procs k)) k).
Proof.
  intros [Hr Hp] Ho. split; cbn [k_heap k_tasks k_procs with_procs]; [done|].
  intros pid' p' H. destruct (decide (pid = pid')) as [<- | Hne].
  - destruct (decide (pid < length (k_procs k))%nat).
    + rewrite list_lookup_insert_eq in H by done. injection H as ->.
      by apply Ho.
    + rewrite list_insert_ge in H by lia. by apply (Hp pid).
  - rewrite list_lookup_insert_ne in H by done. by apply (Hp pid').
Qed.

Lemma k_known_registered taskId r k :
  k_known k ->
  (exists x, k_heap k !! r = Some x /\ Task.id x = taskId) ->
  k_known (mkCore (k_heap k) (<[taskId := r]> (k_tasks k)) (k_queue k)
             (k_active k) (k_procs k) (k_calls k)).
Proof.
  intros [Hr Hp] Hx. split; cbn [k_heap k_tasks k_procs]; [|done].
  intros id r'. destruct (decide (taskId = id)) as [<- | Hne].
  - rewrite lookup_insert_eq. by intros [= <-].
  - rewrite lookup_insert_ne by done. apply Hr.
Qed.

Lemma tick_known exc k k' : tick exc k k' -> k_known k -> k_known k'.
Proof.
  intros H Hk. destruct H.
  - (* submit *)
    destruct Hk as [Hr Hp]. split; cbn [k_heap k_tasks k_procs].
    + intros id r. destruct (decide (Task.id task = id)) as [<- | Hne].
      * rewrite lookup_insert_eq. intros [= <-]. exists task.
        split; [|done]. apply lookup_app_Some. right.
        split; [done|]. by rewrite Nat.sub_diag.
      * rewrite lookup_insert_ne by done. intros Ht.
        destruct (Hr id r Ht) as (x & Hx & Hid). exists x.
        split; [|done]. apply lookup_app_Some. by left.
    + intros pid p Hpid. destruct (Hp pid p Hpid) as (x & Hx & Hid).
      exists x. split; [|done]. apply lookup_app_Some. by left.
  - (* admit *)
    destruct H1 as (Ht & Hx & _).
    destruct (kk_registry _ Hk taskId r Ht) as (y & Hy & Hid).
    assert (k_known (mkCore (alter (Task.set_status running) r (k_heap k))
                       (k_tasks k) (k_queue k) (k_active k) (k_procs k)
                       (k_calls k))) as [Hr' Hp'] by by apply k_known_alter.
    cbn [k_heap k_tasks k_procs] in Hr', Hp'.
    split; cbn [k_heap k_tasks k_procs].
    + intros id r'. destruct (decide (taskId = id)) as [<- | Hne].
      * rewrite lookup_insert_eq. intros [= <-]. by apply Hr'.
      * rewrite lookup_insert_ne by done. apply Hr'.
    + intros pid p [Hpid | [_ Hpid]]%lookup_app_Some; [by apply (Hp' pid)|].
      apply list_lookup_singleton_Some in Hpid as [_ [= <-]].
      cbn [p_task p_taskId]. by apply Hr'.
  - (* skip *) by apply (k_known_same k).
  - (* stop *)
    eapply k_known_same; [..|by apply (k_known_alter stop r k)]; done.
  - (* stop-all *)
    destruct Hk as [Hr Hp]. split; cbn [k_heap k_tasks k_procs].
    + intros id r Ht. destruct (Hr id r Ht) as (x & Hx & Hid).
      rewrite H, Hx. eexists. split; [done|]. by destruct (_ && _).
    + intros pid p Hpid. destruct (Hp pid p Hpid) as (x & Hx & Hid).
      rewrite H, Hx. eexists. split; [done|]. by destruct (_ && _).
  - (* cleanup *)
    destruct Hk as [Hr Hp]. split; cbn [k_heap k_tasks k_procs]; [|done].
    intros id r Ht. apply Hr. by eapply lookup_weaken.
  - (* park *)
    assert (k_known (arrived p sig k)) as Ha by (apply k_known_arrived; eauto).
    pose proof (k_known_slot pid (Some p') _ Ha) as Hs.
    rewrite k_procs_arrived in Hs. apply Hs. intros p0 [= <-].
    rewrite H1, H2. apply (kk_procs _ Ha pid). by rewrite k_procs_arrived.
  - (* send *)
    assert (k_known (arrived p sig k)) as Ha by (apply k_known_arrived; eauto).
    pose proof (k_known_slot pid (Some p') _ Ha) as Hs.
    rewrite k_procs_arrived in Hs.
    eapply k_known_same; [..|apply Hs]; try done. intros p0 [= <-].
    rewrite H1, H2. apply (kk_procs _ Ha pid). by rewrite k_procs_arrived.
  - (* finish *)
    clear H1 H2.
    assert (k_known (arrived p sig k)) as Ha by (apply k_known_arrived; eauto).
    destruct (kk_procs _ Ha pid p) as (x & Hx & Hid);
      [by rewrite k_procs_arrived|].
    set (v := if k_stopped _ _ then stopped else completed).
    pose proof (k_known_alter (Task.set_status v) (p_task p) _
                  ltac:(done) Ha) as H1.
    pose proof (k_known_registered (p_taskId p) (p_task p) _ H1) as H2.
    cbn [k_heap k_tasks k_procs k_queue k_active k_calls] in H2.
    pose proof (k_known_slot pid None _ (H2 ltac:(
      rewrite list_lookup_alter_eq, Hx; by eexists))) as H3.
    cbn [k_procs] in H3. rewrite k_procs_arrived in H3.
    eapply k_known_same; [..|apply H3]; done.
  - (* catch *)
    destruct (kk_procs _ Hk pid p H0) as (x & Hx & Hid).
    pose proof (k_known_alter (Task.set_status error) (p_task p) _
                  ltac:(done) Hk) as H1.
    pose proof (k_known_registered (p_taskId p) (p_task p) _ H1) as H2.
    cbn [k_heap k_tasks k_procs k_queue k_active k_calls] in H2.
    pose proof (k_known_slot pid None _ (H2 ltac:(
      rewrite list_lookup_alter_eq, Hx; by eexists))) as H3.
    cbn [k_procs] in H3.
    eapply k_known_same; [..|apply H3]; done.
Qed.

Lemma ticks_known exc k k' : rtc (tick exc) k k' -> k_known k -> k_known k'.
Proof. induction 1; eauto using tick_known. Qed.

Lemma reachable_known s : reachable s -> k_known (core s).
Proof.
  intros (g & Ht)%reachable_ticks. eapply ticks_known; [exact Ht|].
  split; cbn; intros ? ?; by rewrite ?lookup_empty, ?lookup_nil.
Qed.

Lemma reachable_registry s taskId r :
  reachable s -> tasks s !! taskId = Some r ->
  exists x, heap s !! r = Some x /\ Task.id x = taskId.
Proof. intros Hs. apply (kk_registry _ (reachable_known s Hs)). Qed.

(** X13: [GET /api/task/:taskId] answers with the task that bears the
    identifier asked for. *)
Theorem get_task_same_id s taskId v :
  reachable s -> get_task taskId s = TaskInfo v -> v_id v = taskId.
Proof.
  intros Hs (r & x & [Ht Hx]%tasks_get_Some & ->)%get_task_view.
  destruct (reachable_registry s taskId r Hs Ht) as (y & Hy & Hid).
  cbn. congruence.
Qed.

Lemma get_task_same_id_witness :
  exists v, get_task (js "h4rsh_1000") underway = TaskInfo v
            /\ v_id v = js "h4rsh_1000".
Proof.
  assert (reachable underway) as Hs
    by (exists spread, [(noon, StartTask (job 0))]; reflexivity).
  destruct (get_task (js "h4rsh_1000") underway) as [| |v| | |] eqn:E;
    try (by vm_compute in E).
  exists v. split; [done|]. exact (get_task_same_id underway _ v Hs E).
Defined.

Lemma reachable_refs s : reachable s -> NoDup (refs s).
Proof.
  intros Hs. unfold refs. apply NoDup_fmap_2_strong.
  - intros [k1 r1] [k2 r2] H1%elem_of_map_to_list H2%elem_of_map_to_list E.
    cbn in E. subst r2.
    destruct (reachable_registry s k1 r1 Hs H1) as (x & Hx & <-).
    destruct (reachable_registry s k2 r1 Hs H2) as (y & Hy & <-).
    congruence.
  - apply NoDup_map_to_list.
Qed.

(** X14: the number [/api/stop-all-tasks] reports is the number of
    tasks of the registry that were running or queued. *)
Theorem stop_all_tasks_reports clk s :
  reachable s ->
  (stop_all_tasks clk s).2
  = AllStopped
      (Z.of_nat (length (filter (fun x => live x = true) (registered s)))).
Proof. intros Hs. by apply stop_all_tasks_count, reachable_refs. Qed.

Lemma stop_all_tasks_reports_witness :
  (stop_all_tasks noon underway).2
  = AllStopped
      (Z.of_nat (length (filter (fun x => live x = true) (registered underway)))).
Proof.
  apply stop_all_tasks_reports.
  exists spread, [(noon, StartTask (job 0))]. reflexivity.
Defined.

Lemma registered_all s :
  (forall taskId r, tasks s !! taskId = Some r -> is_Some (heap s !! r)) ->
  length (registered s) = size (tasks s).
Proof.
  intros H. unfold registered. rewrite <- length_map_to_list.
  assert (Forall (fun e => is_Some (heap s !! e.2)) (map_to_list (tasks s)))
    as Hall.
  { apply Forall_forall. intros [k r] Hin%elem_of_map_to_list. by eapply H. }
  induction Hall as [|e l [x Hx] _ IH]; [done|].
  cbn [omap list_omap length]. rewrite Hx. cbn [length]. by rewrite IH.
Qed.

Lemma filter_view_length l :
  length (filter (fun t => v_status t = running) (view <$> l))
  = length (filter (fun t => Task.status t = running) l).
Proof.
  induction l as [|x l IH]; [done|]. rewrite fmap_cons, !filter_cons.
  change (v_status (view x)) with (Task.status x).
  destruct (decide (Task.status x = running)); cbn [length]; by rewrite IH.
Qed.

(** X15: [GET /api/all-tasks] and [GET /api/status] give the same
    numbers of tasks, of running tasks, of queued tasks and of active
    calls; the list of [/api/all-tasks] holds one entry for each key of
    the registry, no two with the same identifier, and its entries are
    the answers [GET /api/task/:taskId] gives. *)
Theorem endpoints_agree clk s :
  reachable s ->
  tl_total (all_tasks s) = sv_totalTasks (get_status clk s)
  /\ tl_running (all_tasks s) = sv_runningTasks (get_status clk s)
  /\ tl_queued (all_tasks s) = sv_queuedTasks (get_status clk s)
  /\ tl_active (all_tasks s) = sv_activeTasks (get_status clk s)
  /\ tl_running (all_tasks s) <= tl_total (all_tasks s)
  /\ NoDup (v_id <$> tl_tasks (all_tasks s))
  /\ forall v, v ∈ tl_tasks (all_tasks s)
               <-> exists taskId, get_task taskId s = TaskInfo v.
Proof.
  intros Hs. unfold all_tasks, get_status. cbv zeta.
  cbn [tl_total tl_running tl_queued tl_active tl_tasks sv_totalTasks
       sv_runningTasks sv_queuedTasks sv_activeTasks].
  rewrite length_fmap, filter_view_length.
  split; [|split; [done|split; [done|split; [done|split; [|split]]]]].
  - f_equal. apply registered_all. intros taskId r Ht.
    destruct (reachable_registry s taskId r Hs Ht) as (x & -> & _). by eexists.
  - apply inj_le, length_filter.
  - rewrite <- list_fmap_compose. unfold registered.
    pose proof (NoDup_fst_map_to_list (tasks s)) as Hnd.
    assert (Forall (fun e => exists x, heap s !! e.2 = Some x
                                       /\ Task.id x = e.1)
              (map_to_list (tasks s))) as Hall.
    { apply Forall_forall. intros [k r] Hin%elem_of_map_to_list.
      by apply reachable_registry. }
    induction Hall as [|e l (x & Hx & Hid) Hrest IH]; [apply NoDup_nil_2|].
    rewrite fmap_cons in Hnd. apply NoDup_cons in Hnd as [He Hnd].
    cbn [omap list_omap]. rewrite Hx. rewrite fmap_cons.
    apply NoDup_cons. split; [|by apply IH].
    cbn. rewrite Hid. intros (y & Hy & Hin)%list_elem_of_fmap.
    apply list_elem_of_omap in Hin as (e' & He' & Hy').
    apply He. apply list_elem_of_fmap. exists e'. split; [|done].
    rewrite Hy. cbn.
    assert (exists x', heap s !! e'.2 = Some x' /\ Task.id x' = e'.1)
      as (x' & Hx' & <-).
    { by eapply Forall_forall in Hrest. }
    congruence.
  - intros v. rewrite list_elem_of_fmap. split.
    + intros (x & -> & (k & r & Hk & Hx)%registered_elem). exists k.
      unfold get_task.
      assert (tasks_get k s = Some (r, x)) as -> by by apply tasks_get_Some.
      done.
    + intros (taskId & (r & x & [Ht Hx]%tasks_get_Some & ->)%get_task_view).
      exists x. split; [done|]. apply registered_elem. eauto.
Qed.

Lemma endpoints_agree_witness :
  tl_total (all_tasks underway) = sv_totalTasks (get_status noon underway)
  /\ tl_running (all_tasks underway) = 1.
Proof.
  assert (reachable underway) as Hs
    by (exists spread, [(noon, StartTask (job 0))]; reflexivity).
  split; [exact (proj1 (endpoints_agree noon underway Hs))|].
  vm_compute. reflexivity.
Defined.

(** ** The accounting of deliveries *)

Lemma under_way_app r l1 l2 :
  under_way r (l1 ++ l2) = (under_way r l1 + under_way r l2)%nat.
Proof. unfold under_way. apply sum_list_with_app. Qed.

Lemma under_way_single r o : under_way r [o] = awaits r o.
Proof. unfold under_way. simpl. lia. Qed.

Lemma under_way_insert r l pid o o' :
  l !! pid = Some o ->
  (under_way r (<[pid := o']> l) + awaits r o
   = under_way r l + awaits r o')%nat.
Proof.
  revert pid; induction l as [|a l IH]; intros [|pid] H; try done.
  - injection H as ->. unfold under_way. simpl. lia.
  - simpl in H. specialize (IH pid H). unfold under_way in *. simpl. lia.
Qed.

Lemma under_way_none r l :
  (forall pid p, l !! pid = Some (Some p) -> p_task p <> r) ->
  under_way r l = 0%nat.
Proof.
  induction l as [|o l IH]; intros H; [done|].
  unfold under_way in *. simpl. rewrite IH.
  - destruct o as [p|]; [|done]. simpl.
    rewrite bool_decide_eq_false_2; [done|]. by apply (H 0%nat).
  - intros pid p Hp. by apply (H (S pid)).
Qed.

Lemma sent_to_app r l c :
  length (sent_to r (l ++ [c]))
  = (length (sent_to r l) + if bool_decide (c_task c = r) then 1 else 0)%nat.
Proof.
  unfold sent_to. rewrite filter_app, length_app. f_equal.
  rewrite filter_cons, filter_nil. case_bool_decide.
  - by rewrite decide_True.
  - by rewrite decide_False.
Qed.

Lemma sent_to_none r l :
  (forall c, c ∈ l -> c_task c <> r) -> sent_to r l = [].
Proof.
  intros H. unfold sent_to. induction l as [|c l IH]; [done|].
  rewrite filter_cons, decide_False by (apply H; by left).
  apply IH. intros c' Hc'. apply H. by right.
Qed.

Lemma awaits_other r p : p_task p <> r -> awaits r (Some p) = 0%nat.
Proof. intros H. cbn. by rewrite bool_decide_eq_false_2. Qed.

Lemma awaits_self p :
  awaits (p_task p) (Some p) = if is_send (p_await p) then 1%nat else 0%nat.
Proof. cbn. by rewrite bool_decide_eq_true_2. Qed.

Lemma is_send_spec a : is_send a = true <-> a = AwaitSend.
Proof. by destruct a. Qed.

(** The heap a woken call starts from. *)
Lemma arrived_heap p sig k r x' :
  (p_await p = AwaitSend <-> exists ok agentLog, sig = Settled ok agentLog) ->
  k_heap (arrived p sig k) !! r = Some x' ->
  exists x, k_heap k !! r = Some x
    /\ Task.completed x'
       = Task.completed x
         + (if bool_decide (p_task p = r) && is_send (p_await p) then 1 else 0)
    /\ Task.status x' = Task.status x
    /\ Task.isStopped x' = Task.isStopped x.
Proof.
  intros Hsig. unfold arrived.
  destruct (p_await p) eqn:Ha; cbn [is_send]; rewrite ?andb_false_r.
  - destruct (proj1 Hsig eq_refl) as (ok & agentLog & ->).
    unfold count_in. cbn [k_heap]. rewrite andb_true_r.
    case_bool_decide as Hr.
    + subst r. rewrite list_lookup_alter_eq.
      destruct (k_heap k !! p_task p) as [x|]; [|done].
      intros [= <-]. exists x. by cbn.
    + rewrite list_lookup_alter_ne by done. intros Hx. exists x'.
      repeat split; [done | lia].
  - destruct sig as [ok agentLog| |];
      [pose proof (proj2 Hsig ltac:(eauto)); congruence| |];
      intros Hx; exists x'; repeat split; try done; lia.
  - destruct sig as [ok agentLog| |];
      [pose proof (proj2 Hsig ltac:(eauto)); congruence| |];
      intros Hx; exists x'; repeat split; try done; lia.
Qed.

Lemma lookup_fmap_length {A} (f : nat -> A -> A) (h h' : list A) :
  (forall r, h' !! r = f r <$> h !! r) -> length h' = length h.
Proof.
  intros H. apply Nat.le_antisymm.
  - destruct (decide (length h' <= length h)%nat); [done|].
    assert (is_Some (h' !! length h)) as [x Hx]
      by (apply lookup_lt_is_Some; lia).
    rewrite H, lookup_ge_None_2 in Hx by done. done.
  - destruct (decide (length h <= length h')%nat); [done|].
    assert (is_Some (h !! length h')) as [x Hx]
      by (apply lookup_lt_is_Some; lia).
    specialize (H (length h')). rewrite Hx, lookup_ge_None_2 in H by done.
    done.
Qed.

Lemma arrived_length p sig k :
  length (k_heap (arrived p sig k)) = length (k_heap k).
Proof.
  destruct (k_heap_arrived p sig k) as [-> | (ok & ->)]; [done|].
  apply length_alter.
Qed.

Lemma k_calls_arrived p sig k : k_calls (arrived p sig k) = k_calls k.
Proof.
  unfold arrived. destruct sig; try done. by destruct (p_await p).
Qed.

Lemma k_valid_into k k' :
  k_valid k -> length (k_heap k') = length (k_heap k) ->
  (forall c, c ∈ k_calls k' ->
     c ∈ k_calls k \/ (c_task c < length (k_heap k))%nat) ->
  (forall pid p, k_procs k' !! pid = Some (Some p) ->
     exists pid0 p0, k_procs k !! pid0 = Some (Some p0)
                     /\ p_task p = p_task p0) ->
  k_valid k'.
Proof.
  intros [Hc Hp] Hl Hc' Hp'. split; rewrite Hl.
  - intros c [Hin | Hlt]%Hc'; auto.
  - intros pid p (pid0 & p0 & H0 & ->)%Hp'. by eapply Hp.
Qed.

Lemma lookup_slot (pid : nat) (o : option Proc) (l : list (option Proc))
    (pid' : nat) (p : Proc) :
  <[pid := o]> l !! pid' = Some (Some p) ->
  o = Some p \/ l !! pid' = Some (Some p).
Proof.
  intros H. destruct (decide (pid = pid')) as [<- | Hne].
  - destruct (decide (pid < length l)%nat).
    + rewrite list_lookup_insert_eq in H by done. left. congruence.
    + rewrite list_insert_ge in H by lia. by right.
  - rewrite list_lookup_insert_ne in H by done. by right.
Qed.

Lemma tick_valid exc k k' : tick exc k k' -> k_valid k -> k_valid k'.
Proof.
  intros H Hv. pose proof Hv as [Hc Hp]. destruct H.
  - split; cbn [k_heap k_calls k_procs]; rewrite length_app; cbn [length].
    + intros c Hin. specialize (Hc c Hin). lia.
    + intros pid p Hpid. specialize (Hp pid p Hpid). lia.
  - destruct H1 as (_ & Hx & _). apply lookup_lt_Some in Hx.
    split; cbn [k_heap k_calls k_procs]; rewrite length_alter.
    + intros c' [Hin | ->%list_elem_of_singleton]%elem_of_app; [auto|done].
    + intros pid p [Hpid | [_ Hpid]]%lookup_app_Some; [by eapply Hp|].
      by apply list_lookup_singleton_Some in Hpid as [_ [= <-]].
  - done.
  - split; cbn [k_heap k_calls k_procs]; rewrite length_alter; done.
  - assert (length h' = length (k_heap k)) as Hl
      by (eapply (lookup_fmap_length
                    (fun r x => if bool_decide (r ∈ (map_to_list (k_tasks k)).*2)
                                   && live x then stop x else x)); done).
    split; cbn [k_heap k_calls k_procs]; rewrite Hl; done.
  - done.
  - apply (k_valid_into k); [done|..]; cbn [with_procs k_heap k_calls k_procs].
    + apply arrived_length.
    + rewrite k_calls_arrived. auto.
    + intros pid' p0 [[= <-] | Hl]%lookup_slot; [exists pid, p | exists pid', p0];
        done.
  - apply (k_valid_into k); [done|..];
      cbn [with_procs with_call k_heap k_calls k_procs].
    + apply arrived_length.
    + rewrite k_calls_arrived.
      intros c' [Hin | ->%list_elem_of_singleton]%elem_of_app; [auto|].
      right. cbn. by eapply Hp.
    + intros pid' p0 [[= <-] | Hl]%lookup_slot; [exists pid, p | exists pid', p0];
        done.
  - apply (k_valid_into k); [done|..];
      cbn [with_procs returned k_heap k_calls k_procs].
    + by rewrite length_alter, arrived_length.
    + rewrite k_calls_arrived. auto.
    + intros pid' p0 [[=] | Hl]%lookup_slot. by exists pid', p0.
  - apply (k_valid_into k); [done|..];
      cbn [with_procs returned k_heap k_calls k_procs].
    + by rewrite length_alter.
    + auto.
    + intros pid' p0 [[=] | Hl]%lookup_slot. by exists pid', p0.
Qed.

(** What a change does to the accounting of the task behind [r]: a new
    task has no call to account for; for a task that was there, the
    calls not accounted for stay as many, or, after an exception, grow
    by the delivery that was under way. *)
Lemma tick_slack exc k k' r x' :
  tick exc k k' -> k_valid k -> k_heap k' !! r = Some x' ->
  (k_heap k !! r = None /\ slack r k' x' = 0)
  \/ (exists x, k_heap k !! r = Some x
        /\ slack r k x <= slack r k' x'
        /\ (exc = false -> slack r k' x' = slack r k x)).
Proof.
  intros H [Hc Hp]. destruct H; cbn [k_heap]; intros Hx'.
  - (* submit *)
    apply lookup_app_Some in Hx' as [Hx | [Hge Hx]].
    + right. exists x'. by repeat split.
    + left. apply list_lookup_singleton_Some in Hx as [Hr <-].
      assert (r = length (k_heap k)) as -> by lia.
      split; [by apply lookup_ge_None_2|].
      unfold slack. cbn [k_calls k_procs]. rewrite H1.
      rewrite sent_to_none, under_way_none; [done|..].
      * intros pid p Hpid E. specialize (Hp pid p Hpid). lia.
      * intros c Hin E. specialize (Hc c Hin). lia.
  - (* admit *)
    right. destruct H1 as (_ & Hx & _).
    unfold slack. cbn [k_calls k_procs].
    rewrite sent_to_app, under_way_app, under_way_single.
    cbn [c_task awaits p_task p_await is_send]. rewrite andb_true_r.
    destruct (decide (r0 = r)) as [-> | Hne].
    + rewrite list_lookup_alter_eq, Hx in Hx'. injection Hx' as <-.
      exists x. rewrite !bool_decide_eq_true_2 by done.
      change (Task.completed (Task.set_status running x))
        with (Task.completed x).
      split; [done|]. split; [lia|]. intros _. lia.
    + rewrite list_lookup_alter_ne in Hx' by done. exists x'.
      rewrite !bool_decide_eq_false_2 by done.
      split; [done|]. split; [lia|]. intros _. lia.
  - (* skip *) right. exists x'. by repeat split.
  - (* stop *)
    right. destruct (decide (r0 = r)) as [-> | Hne].
    + rewrite list_lookup_alter_eq, H0 in Hx'. injection Hx' as <-.
      exists x. by repeat split.
    + rewrite list_lookup_alter_ne in Hx' by done. exists x'. by repeat split.
  - (* stop-all *)
    right. rewrite H in Hx'. destruct (k_heap k !! r) as [x|]; [|done].
    injection Hx' as <-. exists x. split; [done|].
    assert (slack r
              (mkCore h' (k_tasks k) [] 0 (k_procs k) (k_calls k))
              (if bool_decide (r ∈ (map_to_list (k_tasks k)).*2) && live x
               then stop x else x)
            = slack r k x) as ->; [|by split].
    unfold slack. cbn [k_calls k_procs]. by destruct (_ && _).
  - (* cleanup *) right. exists x'. by repeat split.
  - (* park *)
    right. cbn [with_procs k_heap] in Hx'.
    destruct (arrived_heap p sig k r x' H0 Hx') as (x & Hx & Hcomp & _).
    exists x. split; [done|].
    unfold slack. cbn [with_procs k_calls k_procs]. rewrite k_calls_arrived.
    pose proof (under_way_insert r (k_procs k) pid (Some p) (Some p') H) as Hu.
    cbn [awaits] in Hu. rewrite H2 in Hu. rewrite Hcomp.
    assert (is_send (p_await p') = false) as Hs' by by destruct (p_await p').
    rewrite Hs', andb_false_r in Hu. revert Hu.
    destruct (bool_decide (p_task p = r) && is_send (p_await p));
      cbv beta iota; intros Hu; (split; [lia | intros _; lia]).
  - (* send *)
    right. cbn [with_procs with_call k_heap] in Hx'.
    destruct (arrived_heap p sig k r x' H0 Hx') as (x & Hx & Hcomp & _).
    exists x. split; [done|].
    unfold slack. cbn [with_procs with_call k_calls k_procs].
    rewrite k_calls_arrived, sent_to_app. cbn [c_task].
    pose proof (under_way_insert r (k_procs k) pid (Some p) (Some p') H) as Hu.
    cbn [awaits] in Hu. rewrite H2, H4 in Hu. rewrite Hcomp.
    cbn [is_send] in Hu. rewrite andb_true_r in Hu. revert Hu.
    destruct (bool_decide (p_task p = r)); cbn [andb];
      destruct (is_send (p_await p)); cbv beta iota; intros Hu; (split; [lia | intros _; lia]).
  - (* finish *)
    right. cbn [with_procs returned k_heap] in Hx'.
    assert (exists y, k_heap (arrived p sig k) !! r = Some y
                      /\ Task.completed x' = Task.completed y)
      as (y & Hy & Hcy).
    { destruct (decide (p_task p = r)) as [<- | Hne].
      - rewrite list_lookup_alter_eq in Hx'.
        destruct (k_heap (arrived p sig k) !! p_task p) as [y|]; [|done].
        injection Hx' as <-. by exists y.
      - rewrite list_lookup_alter_ne in Hx' by done. by exists x'. }
    destruct (arrived_heap p sig k r y H0 Hy) as (x & Hx & Hcomp & _).
    exists x. split; [done|].
    unfold slack. cbn [with_procs returned k_calls k_procs].
    rewrite k_calls_arrived.
    pose proof (under_way_insert r (k_procs k) pid (Some p) None H) as Hu.
    cbn [awaits] in Hu. rewrite Hcy, Hcomp. revert Hu.
    destruct (bool_decide (p_task p = r) && is_send (p_await p));
      cbv beta iota; intros Hu; (split; [lia | intros _; lia]).
  - (* catch *)
    right. cbn [with_procs returned k_heap] in Hx'.
    assert (exists x, k_heap k !! r = Some x
                      /\ Task.completed x' = Task.completed x)
      as (x & Hx & Hcx).
    { destruct (decide (p_task p = r)) as [<- | Hne].
      - rewrite list_lookup_alter_eq in Hx'.
        destruct (k_heap k !! p_task p) as [y|]; [|done].
        injection Hx' as <-. by exists y.
      - rewrite list_lookup_alter_ne in Hx' by done. by exists x'. }
    exists x. split; [done|].
    unfold slack. cbn [with_procs returned k_calls k_procs].
    pose proof (under_way_insert r (k_procs k) pid (Some p) None H0) as Hu.
    cbn [awaits] in Hu. rewrite Hcx.
    split; [|by subst exc]. revert Hu.
    destruct (bool_decide (p_task p = r) && is_send (p_await p));
      cbv beta iota; intros Hu; lia.
Qed.

Lemma ticks_valid exc k k' : rtc (tick exc) k k' -> k_valid k -> k_valid k'.
Proof. induction 1; eauto using tick_valid. Qed.

Lemma ticks_account exc k k' :
  rtc (tick exc) k k' -> k_valid k ->
  (forall r x, k_heap k !! r = Some x ->
     0 <= slack r k x /\ (exc = false -> slack r k x = 0)) ->
  forall r x', k_heap k' !! r = Some x' ->
    0 <= slack r k' x' /\ (exc = false -> slack r k' x' = 0).
Proof.
  induction 1 as [k | k k1 k' Ht _ IH]; intros Hv Hk; [done|].
  apply IH; [by eapply tick_valid|].
  intros r x1 Hx1.
  destruct (tick_slack exc k k1 r x1 Ht Hv Hx1)
    as [[_ ->] | (x & Hx & Hle & Heq)]; [done|].
  destruct (Hk r x Hx) as [H0 He]. split; [lia|].
  intros E. rewrite (Heq E). by apply He.
Qed.

Lemma under_way_le_1 r l :
  (forall i j p q, l !! i = Some (Some p) -> l !! j = Some (Some q) ->
     p_task p = p_task q -> i = j) ->
  (under_way r l <= 1)%nat.
Proof.
  induction l as [|o l IH]; intros H; [unfold under_way; simpl; lia|].
  assert (under_way r (o :: l) = (awaits r o + under_way r l)%nat) as ->
    by done.
  destruct o as [p|]; [|simpl; apply IH; intros i j p q Hi Hj E;
                        by injection (H (S i) (S j) p q Hi Hj E)].
  destruct (decide (p_task p = r)) as [Hr | Hr].
  - rewrite under_way_none.
    + cbn. destruct (_ && _); lia.
    + intros pid q Hq E. rewrite <- Hr in E.
      by specialize (H 0%nat (S pid) p q eq_refl Hq (eq_sym E)).
  - rewrite awaits_other by done. simpl. apply IH.
    intros i j p' q Hi Hj E. by injection (H (S i) (S j) p' q Hi Hj E).
Qed.

Lemma initial_account exc g :
  k_valid (core (initial g))
  /\ forall r x, k_heap (core (initial g)) !! r = Some x ->
       0 <= slack r (core (initial g)) x
       /\ (exc = false -> slack r (core (initial g)) x = 0).
Proof.
  split; [split|]; cbn.
  - by intros c ?%elem_of_nil.
  - intros pid p. by rewrite lookup_nil.
  - intros r x. by rewrite lookup_nil.
Qed.

(** X16: for every task, the operations it has counted and the delivery
    it waits for, if any, are never more than the calls of
    [sendFacebookMessage] made for it; they are exactly as many unless
    an exception has reached the catch block of [processTask]; and a
    task waits for one delivery at most. *)
Theorem deliveries_accounted evs g s r x :
  run evs (initial g) = Some s -> heap s !! r = Some x ->
  Task.completed x + Z.of_nat (under_way r (procs s))
  <= Z.of_nat (length (sent_to r (calls s)))
  /\ (existsb (fun ce => throws ce.2) evs = false ->
      Z.of_nat (length (sent_to r (calls s)))
      = Task.completed x + Z.of_nat (under_way r (procs s)))
  /\ (under_way r (procs s) <= 1)%nat.
Proof.
  intros Hrun Hx.
  pose proof (run_ticks evs (initial g) s (initial_Inv g) (Forall_nil_2 _)
                Hrun) as Ht.
  destruct (initial_account (existsb (fun ce => throws ce.2) evs) g)
    as [Hv H0].
  destruct (ticks_account _ _ _ Ht Hv H0 r x Hx) as [Hle Heq].
  unfold slack in Hle, Heq. cbn [core k_calls k_procs] in Hle, Heq.
  split; [lia|]. split.
  - intros E. specialize (Heq E). lia.
  - apply under_way_le_1.
    assert (Inv s) as HI by (apply reachable_Inv; by exists g, evs).
    apply (inv_uniq _ HI).
Qed.

Lemma deliveries_accounted_witness :
  exists s x,
    run finished (initial spread) = Some s /\ heap s !! 0%nat = Some x
    /\ Z.of_nat (length (sent_to 0 (calls s)))
       = Task.completed x + Z.of_nat (under_way 0 (procs s)).
Proof.
  eexists _, _. split; [vm_compute; reflexivity|].
  split; [vm_compute; reflexivity|].
  apply (deliveries_accounted finished spread); reflexivity.
Defined.
(** * Further properties: waiting and stopping *)

(** ** The tasks that wait *)

Lemma elem_of_remove_first_ne taskId id q :
  id <> taskId -> id ∈ q -> id ∈ remove_first taskId q.
Proof.
  intros Hne. induction q as [|a q IH]; [done|].
  intros [-> | Hin]%elem_of_cons; cbn.
  - rewrite bool_decide_eq_false_2 by done. by left.
  - case_bool_decide; [done|]. right. by apply IH.
Qed.

(** The status and the flag of a task after a delivery has been counted
    are those before. *)
Lemma arrived_object p sig k r :
  (p_await p = AwaitSend <-> exists ok agentLog, sig = Settled ok agentLog) ->
  forall x', k_heap (arrived p sig k) !! r = Some x' ->
  exists x, k_heap k !! r = Some x /\ Task.status x' = Task.status x
            /\ Task.isStopped x' = Task.isStopped x.
Proof.
  intros Hsig x' Hx'.
  destruct (arrived_heap p sig k r x' Hsig Hx') as (x & Hx & _ & Hs & Hst).
  by exists x.
Qed.

Lemma arrived_tasks p sig k taskId r :
  k_tasks (arrived p sig k) !! taskId = Some r ->
  k_tasks k !! taskId = Some r \/ (taskId = p_taskId p /\ r = p_task p).
Proof.
  unfold arrived. destruct sig as [ok ?| |]; try (by left).
  destruct (p_await p); try (by left). cbn.
  destruct (decide (p_taskId p = taskId)) as [<- | Hne].
  - rewrite lookup_insert_eq. intros [= <-]. by right.
  - rewrite lookup_insert_ne by done. by left.
Qed.

Lemma k_queue_arrived p sig k : k_queue (arrived p sig k) = k_queue k.
Proof.
  unfold arrived. destruct sig; try done. by destruct (p_await p).
Qed.

Lemma k_waiting_arrived p sig pid k :
  (p_await p = AwaitSend <-> exists ok agentLog, sig = Settled ok agentLog) ->
  k_procs k !! pid = Some (Some p) ->
  k_waiting k -> k_waiting (arrived p sig k).
Proof.
  intros Hsig Hpid [Hs Hp Hq]. split.
  - intros r x' Hx'.
    destruct (arrived_object p sig k r Hsig x' Hx') as (x & Hx & -> & ->).
    by apply (Hs r).
  - rewrite k_procs_arrived. intros pid' p' Hp'.
    destruct (Hp pid' p' Hp') as (x & Hx & Hst).
    destruct (k_heap_arrived p sig k) as [E | (ok & E)]; rewrite E.
    + by exists x.
    + destruct (decide (p_task p = p_task p')) as [Er | Hne].
      * rewrite Er, list_lookup_alter_eq, Hx. by eexists.
      * rewrite list_lookup_alter_ne by done. by exists x.
  - rewrite k_queue_arrived. intros taskId r x' Ht Hx' Hst.
    destruct (arrived_object p sig k r Hsig x' Hx') as (x & Hx & Es & _).
    rewrite Es in Hst.
    apply arrived_tasks in Ht as [Ht | [-> ->]]; [by eapply Hq|].
    destruct (Hp pid p Hpid) as (y & Hy & Hny). congruence.
Qed.

(** A status other than [queued] is written to a task, under its
    identifier, and a slot of the calls is given up or taken by a call
    on a task that has left the queue. *)
Lemma k_waiting_restatus v taskId r pid o k :
  v <> queued -> k_waiting k ->
  (forall p, o = Some p ->
     exists x, k_heap k !! p_task p = Some x /\ Task.status x <> queued) ->
  k_waiting
    (mkCore (alter (Task.set_status v) r (k_heap k))
       (<[taskId := r]> (k_tasks k)) (k_queue k) (k_active k - 1)
       (<[pid := o]> (k_procs k)) (k_calls k)).
Proof.
  intros Hv [Hs Hp Hq] Ho.
  assert (forall r' x', alter (Task.set_status v) r (k_heap k) !! r' = Some x' ->
            exists x, k_heap k !! r' = Some x
                      /\ Task.isStopped x' = Task.isStopped x
                      /\ ((r' = r /\ Task.status x' = v)
                          \/ (r' <> r /\ x' = x))) as Hobj.
  { intros r' x'. destruct (decide (r = r')) as [<- | Hne].
    - rewrite list_lookup_alter_eq.
      destruct (k_heap k !! r) as [x|]; [|done]. intros [= <-].
      exists x. split; [done|]. split; [done|]. by left.
    - rewrite list_lookup_alter_ne by done. intros Hx. exists x'.
      split; [done|]. split; [done|]. right. by split. }
  assert (forall r' x, k_heap k !! r' = Some x -> Task.status x <> queued ->
            exists x', alter (Task.set_status v) r (k_heap k) !! r' = Some x'
                       /\ Task.status x' <> queued) as Hkeep.
  { intros r' x Hx Hst. destruct (decide (r = r')) as [<- | Hne].
    - rewrite list_lookup_alter_eq, Hx. by eexists.
    - rewrite list_lookup_alter_ne by done. by exists x. }
  split; cbn [k_heap k_tasks k_queue k_procs].
  - intros r' x' Hx' Hst.
    destruct (Hobj r' x' Hx') as (x & Hx & Est & [[-> ->] | [_ ->]]); [done|].
    by apply (Hs r').
  - intros pid' p' [-> | Hl]%lookup_slot.
    + destruct (Ho p' eq_refl) as (x & Hx & Hst). by eapply Hkeep.
    + destruct (Hp pid' p' Hl) as (x & Hx & Hst). by eapply Hkeep.
  - intros id r' x' Ht Hx' Hst.
    destruct (Hobj r' x' Hx') as (x & Hx & _ & [[-> E] | [Hne ->]]);
      [congruence|].
    destruct (decide (taskId = id)) as [<- | Hid].
    + rewrite lookup_insert_eq in Ht. congruence.
    + rewrite lookup_insert_ne in Ht by done. by eapply Hq.
Qed.

Lemma tick_waiting exc k k' :
  tick exc k k' -> k_known k -> k_waiting k -> k_waiting k'.
Proof.
  intros H Hk Hw. pose proof Hw as [Hs Hp Hq]. destruct H.
  - (* submit *)
    split; cbn [k_heap k_tasks k_queue k_procs].
    + intros r x [Hx | [_ Hx]]%lookup_app_Some; [by apply (Hs r)|].
      apply list_lookup_singleton_Some in Hx as [_ <-]. congruence.
    + intros pid p Hpid. destruct (Hp pid p Hpid) as (x & Hx & Hst).
      exists x. split; [|done]. apply lookup_app_Some. by left.
    + intros id r x Ht Hx Hst. apply elem_of_app.
      destruct (decide (Task.id task = id)) as [<- | Hid];
        [right; by left|].
      rewrite lookup_insert_ne in Ht by done. left.
      destruct (kk_registry _ Hk id r Ht) as (y & Hy & _).
      assert (x = y) as ->.
      { apply lookup_app_Some in Hx as [Hx | [Hge _]]; [congruence|].
        apply lookup_lt_Some in Hy. lia. }
      by eapply Hq.
  - (* admit *)
    destruct H1 as (Ht & Hx & Hst & Hns).
    assert (forall r' x', alter (Task.set_status running) r (k_heap k) !! r'
                          = Some x' ->
              (r' = r /\ Task.status x' = running)
              \/ (r' <> r /\ k_heap k !! r' = Some x')) as Hobj.
    { intros r' x'. destruct (decide (r = r')) as [<- | Hne].
      - rewrite list_lookup_alter_eq, Hx. intros [= <-]. by left.
      - rewrite list_lookup_alter_ne by done. by right. }
    assert (forall r' y, k_heap k !! r' = Some y -> Task.status y <> queued ->
              exists x', alter (Task.set_status running) r (k_heap k) !! r'
                         = Some x' /\ Task.status x' <> queued) as Hkeep.
    { intros r' y Hy Hny. destruct (decide (r = r')) as [<- | Hne].
      - rewrite list_lookup_alter_eq, Hy. by eexists.
      - rewrite list_lookup_alter_ne by done. by exists y. }
    split; cbn [k_heap k_tasks k_queue k_procs].
    + intros r' x' [[-> E] | [_ Hx']]%Hobj Hstop; [by rewrite E|].
      by apply (Hs r').
    + intros pid p [Hpid | [_ Hpid]]%lookup_app_Some.
      * destruct (Hp pid p Hpid) as (y & Hy & Hny). by eapply Hkeep.
      * apply list_lookup_singleton_Some in Hpid as [_ [= <-]].
        cbn [p_task]. rewrite list_lookup_alter_eq, Hx. by eexists.
    + intros id r' x' Hid [[-> E] | [Hne Hx']]%Hobj Hq';
        [by rewrite E in Hq'|].
      destruct (decide (taskId = id)) as [<- | Hnid].
      * rewrite lookup_insert_eq in Hid. congruence.
      * rewrite lookup_insert_ne in Hid by done.
        pose proof (Hq id r' x' Hid Hx' Hq') as Hin.
        rewrite H in Hin. by apply elem_of_cons in Hin as [-> | Hin].
  - (* skip *)
    split; cbn [k_heap k_tasks k_queue k_procs]; [done | done |].
    intros id r x Hid Hx Hst.
    pose proof (Hq id r x Hid Hx Hst) as Hin. rewrite H in Hin.
    apply elem_of_cons in Hin as [-> | Hin]; [|done].
    destruct (H1 r x). repeat split; try done.
    destruct (Task.isStopped x) eqn:E; [|done]. by destruct (Hs r x Hx E).
  - (* stop *)
    assert (forall r' x', alter stop r (k_heap k) !! r' = Some x' ->
              (r' = r /\ Task.status x' = stopped)
              \/ (r' <> r /\ k_heap k !! r' = Some x')) as Hobj.
    { intros r' x'. destruct (decide (r = r')) as [<- | Hne].
      - rewrite list_lookup_alter_eq, H0. intros [= <-]. by left.
      - rewrite list_lookup_alter_ne by done. by right. }
    split; cbn [k_heap k_tasks k_queue k_procs].
    + intros r' x' [[-> E] | [_ Hx']]%Hobj Hstop; [by rewrite E|].
      by apply (Hs r').
    + intros pid p Hpid. destruct (Hp pid p Hpid) as (y & Hy & Hny).
      destruct (decide (r = p_task p)) as [-> | Hne].
      * rewrite list_lookup_alter_eq, Hy. by eexists.
      * rewrite list_lookup_alter_ne by done. by exists y.
    + intros id r' x' Hid [[-> E] | [Hne Hx']]%Hobj Hq';
        [by rewrite E in Hq'|].
      apply elem_of_remove_first_ne; [congruence | by eapply Hq].
  - (* stop-all *)
    assert (forall r x', h' !! r = Some x' ->
              exists x, k_heap k !! r = Some x
                /\ (x' = x \/ (x' = stop x /\ live x = true))
                /\ (r ∈ (map_to_list (k_tasks k)).*2 -> live x' = false))
      as Hobj.
    { intros r x'. rewrite H. destruct (k_heap k !! r) as [x|]; [|done].
      intros [= <-]. exists x. split; [done|].
      case_bool_decide as Hin; cbn [andb].
      - destruct (live x) eqn:E; (split; [|done]); [right | left]; done.
      - split; [by left | done]. }
    split; cbn [k_heap k_tasks k_queue k_procs].
    + intros r x' (x & Hx & [-> | [-> _]] & _)%Hobj; [by apply (Hs r) | done].
    + intros pid p Hpid. destruct (Hp pid p Hpid) as (y & Hy & Hny).
      rewrite H, Hy. eexists. split; [done|]. by destruct (_ && _).
    + intros id r x' Hid (x & Hx & _ & Hlive)%Hobj Hq'. exfalso.
      assert (live x' = false) as E.
      { apply Hlive, list_elem_of_fmap. exists (id, r).
        split; [done | by apply elem_of_map_to_list]. }
      unfold live in E. rewrite Hq' in E.
      by rewrite (bool_decide_eq_true_2 (queued = queued)), orb_true_r in E.
  - (* cleanup *)
    split; cbn [k_heap k_tasks k_queue k_procs]; [done | done |].
    intros id r x Hid. apply Hq. by eapply lookup_weaken.
  - (* park *)
    pose proof (k_waiting_arrived p sig pid k H0 H Hw) as [Hs' Hp' Hq'].
    split; cbn [with_procs k_heap k_tasks k_queue k_procs]; [done | | done].
    intros pid' p0 [[= <-] | Hl]%lookup_slot.
    + rewrite H2. apply (Hp' pid). by rewrite k_procs_arrived.
    + apply (Hp' pid'). by rewrite k_procs_arrived.
  - (* send *)
    pose proof (k_waiting_arrived p sig pid k H0 H Hw) as [Hs' Hp' Hq'].
    split; cbn [with_procs with_call k_heap k_tasks k_queue k_procs];
      [done | | done].
    intros pid' p0 [[= <-] | Hl]%lookup_slot.
    + rewrite H2. apply (Hp' pid). by rewrite k_procs_arrived.
    + apply (Hp' pid'). by rewrite k_procs_arrived.
  - (* finish *)
    pose proof (k_waiting_arrived p sig pid k H0 H Hw) as Hw'.
    pose proof (k_waiting_restatus
                  (if k_stopped (p_task p) k then stopped else completed)
                  (p_taskId p) (p_task p) pid None _
                  ltac:(by destruct (k_stopped _ _)) Hw' ltac:(done)) as Hr.
    rewrite k_procs_arrived in Hr. exact Hr.
  - (* catch *)
    exact (k_waiting_restatus error (p_taskId p) (p_task p) pid None k
             ltac:(done) Hw ltac:(done)).
Qed.

Lemma ticks_waiting exc k k' :
  rtc (tick exc) k k' -> k_known k -> k_waiting k -> k_waiting k'.
Proof.
  induction 1 as [|k k1 k' Ht _ IH]; [done|]. intros Hk Hw.
  apply IH; [by eapply tick_known | by eapply tick_waiting].
Qed.

Lemma reachable_waiting s : reachable s -> k_waiting (core s).
Proof.
  intros (g & Ht)%reachable_ticks. eapply ticks_waiting; [exact Ht|..].
  - split; cbn; intros ? ?; by rewrite ?lookup_empty, ?lookup_nil.
  - split; cbn.
    + intros r x. by rewrite lookup_nil.
    + intros pid p. by rewrite lookup_nil.
    + intros id r x. by rewrite lookup_empty.
Qed.

(** ** No task waits while a call could be started *)

Lemma loop_idle clk n : forall s,
  Forall sendable (heap s) -> (length (taskQueue s) <= n)%nat ->
  idle (processTaskQueue_loop clk n s).
Proof.
  induction n as [|n IH]; intros s Hsend Hlen.
  { left. cbn. destruct (taskQueue s); [done | cbn in Hlen; lia]. }
  cbn [processTaskQueue_loop].
  destruct (Z.ltb_spec (activeTasks s) MAX_CONCURRENT_TASKS) as [Hlt|Hge];
    [|by right].
  destruct (taskQueue s) as [|taskId rest] eqn:Hq; [by left|].
  cbn [length] in Hlen.
  set (s1 := set_taskQueue rest s).
  assert (idle (processTaskQueue_loop clk n s1)) as Hskip
    by (apply IH; [done | cbn; lia]).
  destruct (tasks_get taskId s1) as [[r x]|] eqn:Hget; [|done].
  pose proof Hget as [Ht Hx]%tasks_get_Some.
  destruct (bool_decide (Task.status x = queued) && negb (Task.isStopped x))
    eqn:Hgo; [|done].
  apply andb_true_iff in Hgo as [Hs%bool_decide_eq_true Hst%negb_true_iff].
  assert (sendable x) as (Hc & Hm & Hb).
  { eapply Forall_lookup_1 in Hsend; [done|]. exact Hx. }
  destruct (Task.conversations x) as [|c cs] eqn:Ec; [done|].
  destruct (Task.messages x) as [|m ms] eqn:Em; [done|].
  unfold processTask. rewrite Hget.
  rewrite (processTask_enter_sends clk _ taskId r x c cs m ms s1 Hx Hst Hb
             Ec Em), send_eq.
  apply IH.
  - cbn. by apply Forall_sendable_alter.
  - cbn. lia.
Qed.

Lemma processTaskQueue_idle clk s :
  Forall sendable (heap s) -> idle (processTaskQueue clk s).
Proof. intros Hs. by apply loop_idle. Qed.

Lemma idle_core s s' :
  k_queue (core s') = k_queue (core s) ->
  k_active (core s') = k_active (core s) -> idle s -> idle s'.
Proof. unfold idle. cbn. by intros -> ->. Qed.

Lemma wake_idle clk pid sig s s' :
  Forall sendable (heap s) -> wake clk pid sig s = Some s' ->
  idle s -> idle s'.
Proof.
  intros Hsend. unfold wake.
  destruct (procs s !! pid) as [[p|]|] eqn:Hpid; try done.
  set (su := set_procs (<[pid := None]> (procs s)) s).
  destruct (resume clk (processTaskQueue clk) p sig su) as [res|] eqn:Hres;
    [|done].
  pose proof (resume_outcome (is_thrown sig) clk (processTaskQueue clk)
                (p_taskId p) (p_task p) _ p sig su res eq_refl eq_refl
                eq_refl eq_refl Hres) as Hout.
  rewrite core_arrival in Hout.
  change (core su) with (with_procs (<[pid := None]> (procs s)) (core s))
    in Hout.
  rewrite arrived_with_procs in Hout.
  set (ka := arrived p sig (core s)) in *.
  assert (k_queue ka = taskQueue s) as Hqa by apply k_queue_arrived.
  assert (k_active ka = activeTasks s) as Haa.
  { subst ka. unfold arrived. destruct sig; try done. by destruct (p_await p). }
  destruct res as [s1 [p'|]]; unfold outcome in Hout; cbn [fst snd] in Hout.
  - intros [= <-]. destruct Hout as (_ & _ & _ & Hk).
    assert (k_queue (core s1) = k_queue ka
            /\ k_active (core s1) = k_active ka) as [Eq Ea].
    { destruct (p_await p'); [destruct Hk as (text & Hk)|..];
        by rewrite Hk. }
    apply idle_core; cbn; [by rewrite <- Hqa | by rewrite <- Haa].
  - intros [= <-] _. destruct Hout as (s2 & v & -> & Hk & _).
    apply processTaskQueue_idle.
    apply (f_equal k_heap) in Hk. cbn in Hk. rewrite Hk.
    apply Forall_sendable_alter; [done|].
    by apply Forall_sendable_arrived.
Qed.

Lemma remove_first_nil taskId q : q = [] -> remove_first taskId q = [].
Proof. by intros ->. Qed.

Lemma step_idle clk e s s' :
  Forall sendable (heap s) -> step clk e s = Some s' -> idle s -> idle s'.
Proof.
  intros Hsend. destruct e as [body|taskId|taskId|taskId| |pid sig|];
    cbn [step].
  - intros [= <-].
    destruct (start_task_cases clk body s)
      as [(c & m & ->) | [(c & m & ->) | (_ & Hm & Hc & pos & ->)]];
      cbn [fst]; try done.
    intros _.
    destruct (enqueue_task_eq clk
                (new_task clk body (generateTaskId (random s)).1)
                (set_random (generateTaskId (random s)).2 s))
      as (s1 & -> & Hh & _).
    apply processTaskQueue_idle. rewrite Hh. apply Forall_app. split; [done|].
    apply Forall_singleton. by apply sendable_new_task.
  - by intros [= <-].
  - by intros [= <-].
  - intros [= <-]. unfold stop_task.
    destruct (tasks_get taskId s) as [[r x]|]; [|done]. cbn.
    intros [Hq | Ha]; [left | by right]. cbn. by rewrite Hq.
  - intros [= <-] _. rewrite stop_all_tasks_eq. by left.
  - by apply wake_idle.
  - intros [= <-].
    destruct (cleanup_fold clk (map_to_list (tasks s)) s
                (NoDup_fst_map_to_list _)) as (_ & Hq & Ha & _).
    apply idle_core; cbn; done.
Qed.

(** ** A stopped task stays stopped *)

(** What one change makes of a task object: its flag and its status. *)
Lemma tick_object exc k k' r x' :
  tick exc k k' -> k_heap k' !! r = Some x' ->
  (k_heap k !! r = None /\ Task.isStopped x' = false)
  \/ exists x, k_heap k !! r = Some x
       /\ ((Task.isStopped x' = true /\ Task.status x' = stopped)
           \/ (Task.isStopped x' = Task.isStopped x
               /\ (Task.status x' = Task.status x
                   \/ (Task.isStopped x = false)
                   \/ Task.status x' = stopped
                   \/ (exc = true /\ Task.status x' = error)))).
Proof.
  assert (forall (f : Task.t -> Task.t) r0 (h : list Task.t) z,
            alter f r0 h !! r = Some z ->
            exists x, h !! r = Some x /\ ((r0 = r /\ z = f x) \/ z = x))
    as Halter.
  { intros f r0 h z. destruct (decide (r0 = r)) as [-> | Hne].
    - rewrite list_lookup_alter_eq. destruct (h !! r) as [x|]; [|done].
      intros [= <-]. exists x. split; [done|]. left. by split.
    - rewrite list_lookup_alter_ne by done. intros Hx. exists z.
      split; [done|]. by right. }
  assert (forall p sig z,
            (p_await p = AwaitSend
             <-> exists ok agentLog, sig = Settled ok agentLog) ->
            k_heap (arrived p sig k) !! r = Some z ->
            exists x, k_heap k !! r = Some x
              /\ Task.isStopped z = Task.isStopped x
              /\ Task.status z = Task.status x) as Harr.
  { intros p sig z Hsig Hz.
    destruct (arrived_heap p sig k r z Hsig Hz) as (x & Hx & _ & Hs & Hst).
    by exists x. }
  intros H Hx'. destruct H; cbn [with_procs with_call returned k_heap] in Hx'.
  - apply lookup_app_Some in Hx' as [Hx' | [Hge Hx']].
    + right. exists x'. split; [done|]. right. split; [done|]. by left.
    + left. apply list_lookup_singleton_Some in Hx' as [_ <-].
      split; [|done]. apply lookup_ge_None. lia.
  - destruct H1 as (_ & Hx & _ & Hst).
    apply Halter in Hx' as (y & Hy & [[-> ->] | ->]); right; exists y;
      (split; [done|]); right; (split; [done|]).
    + right. left. congruence.
    + by left.
  - right. exists x'. split; [done|]. right. split; [done|]. by left.
  - apply Halter in Hx' as (y & Hy & [[-> ->] | ->]); right; exists y;
      (split; [done|]).
    + by left.
    + right. split; [done|]. by left.
  - rewrite H in Hx'. destruct (k_heap k !! r) as [y|]; [|done].
    injection Hx' as <-. right. exists y. split; [done|].
    destruct (_ && _); [by left|]. right. split; [done|]. by left.
  - right. exists x'. split; [done|]. right. split; [done|]. by left.
  - apply (Harr p sig _ H0) in Hx' as (y & Hy & E1 & E2). right. exists y.
    split; [done|]. right. split; [done|]. by left.
  - apply (Harr p sig _ H0) in Hx' as (y & Hy & E1 & E2). right. exists y.
    split; [done|]. right. split; [done|]. by left.
  - apply Halter in Hx' as (y' & Hy' & Hcase).
    apply (Harr p sig _ H0) in Hy' as (y & Hy & E1 & E2). right. exists y.
    split; [done|]. right.
    destruct Hcase as [[-> ->] | ->]; (split; [done|]); [|by left].
    cbn [Task.status Task.set_status]. unfold k_stopped. rewrite Hy.
    destruct (Task.isStopped y); [|by right; left]. right. right. by left.
  - apply Halter in Hx' as (y & Hy & [[_ ->] | ->]); right; exists y;
      (split; [done|]); right; (split; [done|]).
    + right. right. right. by split.
    + by left.
Qed.

(** No call of [sendFacebookMessage] is made for a task that is
    stopped. *)
Lemma tick_calls exc k k' r x :
  tick exc k k' -> k_heap k !! r = Some x -> Task.isStopped x = true ->
  sent_to r (k_calls k') = sent_to r (k_calls k).
Proof.
  assert (forall c l, c_task c <> r -> sent_to r (l ++ [c]) = sent_to r l)
    as Hother.
  { intros c l Hne. unfold sent_to.
    rewrite filter_app, filter_cons, filter_nil, decide_False by done.
    apply app_nil_r. }
  intros H Hx Hst. destruct H;
    cbn [with_procs with_call returned k_calls]; rewrite ?k_calls_arrived;
    try done.
  - destruct H1 as (_ & Hx0 & _ & Hst0). apply Hother. cbn.
    intros ->. congruence.
  - apply Hother. cbn. intros E. unfold k_stopped in H3.
    rewrite E, Hx in H3. congruence.
Qed.

Lemma ticks_halted exc k k' :
  rtc (tick exc) k k' ->
  (forall r x, k_heap k !! r = Some x -> Task.isStopped x = true ->
     Task.status x = stopped \/ (exc = true /\ Task.status x = error)) ->
  forall r x, k_heap k' !! r = Some x -> Task.isStopped x = true ->
    Task.status x = stopped \/ (exc = true /\ Task.status x = error).
Proof.
  induction 1 as [k | k k1 k' Ht _ IH]; intros Hk; [done|].
  apply IH. intros r x1 Hx1 Hst1.
  destruct (tick_object exc k k1 r x1 Ht Hx1)
    as [[_ E] | (x & Hx & [[_ E] | [E1 [E2 | [E2 | [E2 | E2]]]]])];
    try congruence; try (by left); try (by right).
  rewrite E2. apply (Hk r x Hx). congruence.
Qed.

Lemma tick_keeps exc k k' r x :
  tick exc k k' -> k_heap k !! r = Some x -> is_Some (k_heap k' !! r).
Proof.
  intros H Hx. pose proof (lookup_lt_Some _ _ _ Hx) as Hlt.
  destruct H; cbn [with_procs with_call returned k_heap];
    try (by rewrite H, Hx);
    apply lookup_lt_is_Some;
    rewrite ?length_alter, ?arrived_length, ?length_app; try done; lia.
Qed.

Lemma ticks_stopped exc k k' :
  rtc (tick exc) k k' ->
  forall r x, k_heap k !! r = Some x -> Task.isStopped x = true ->
    exists x', k_heap k' !! r = Some x' /\ Task.isStopped x' = true
               /\ sent_to r (k_calls k') = sent_to r (k_calls k).
Proof.
  induction 1 as [k | k k1 k' Ht _ IH]; intros r x Hx Hst; [by exists x|].
  assert (exists x1, k_heap k1 !! r = Some x1) as [x1 Hx1].
  { by eapply tick_keeps. }
  assert (Task.isStopped x1 = true) as Hst1.
  { destruct (tick_object exc k k1 r x1 Ht Hx1)
      as [[E _] | (y & Hy & [[E _] | [E _]])]; congruence. }
  destruct (IH r x1 Hx1 Hst1) as (x' & Hx' & Hst' & Hc).
  exists x'. split; [done|]. split; [done|].
  rewrite Hc. by eapply tick_calls.
Qed.

(** X17: in every state the server reaches, a task of the registry that
    is still [queued] has its identifier in [taskQueue], and it waits
    there only because [activeTasks] is at the ceiling. *)
Theorem queued_waits_for_slot evs g s taskId r x :
  run evs (initial g) = Some s ->
  tasks s !! taskId = Some r -> heap s !! r = Some x ->
  Task.status x = queued ->
  taskId ∈ taskQueue s /\ MAX_CONCURRENT_TASKS <= activeTasks s.
Proof.
  intros Hrun Ht Hx Hst.
  assert (reachable s) as Hreach by (by exists g, evs).
  pose proof (kw_queue _ (reachable_waiting s Hreach) taskId r x Ht Hx Hst)
    as Hin.
  cbn [core k_queue] in Hin. split; [exact Hin|].
  assert (idle s) as [Hq | Ha]; [|by rewrite Hq in Hin; apply elem_of_nil in Hin|done].
  clear -Hrun. revert Hrun.
  assert (Forall sendable (heap (initial g))) as Hsend by apply Forall_nil_2.
  assert (idle (initial g)) as Hidle by by left.
  pose proof (initial_Inv g) as HI.
  revert HI Hsend Hidle. generalize (initial g) as s0.
  induction evs as [|[clk e] evs IH]; intros s0 HI Hsend Hidle; cbn [run].
  - by intros [= <-].
  - destruct (step clk e s0) as [s1|] eqn:Hstep; [|done].
    apply IH.
    + by eapply step_Inv.
    + pose proof (step_ticks clk e s0 s1 HI Hsend Hstep) as Ht.
      exact (ticks_sendable _ _ _ Ht Hsend).
    + by eapply step_idle.
Qed.

Lemma queued_waits_for_slot_witness :
  js "h4rsh_1320" ∈ taskQueue crowded
  /\ MAX_CONCURRENT_TASKS <= activeTasks crowded.
Proof.
  assert (exists x, heap crowded !! 40%nat = Some x /\ Task.status x = queued)
    as (x & Hx & Hst) by (eexists; split; vm_compute; reflexivity).
  apply (queued_waits_for_slot crowd spread crowded (js "h4rsh_1320") 40 x);
    [vm_compute; reflexivity | vm_compute; reflexivity | exact Hx | exact Hst].
Defined.

(** X18: once the stop flag of a task is set it stays set, whatever
    happens next: the status of the task is [stopped] from then on
    ([error] if an exception reaches the catch block of [processTask]),
    and no further call of [sendFacebookMessage] is made for it. *)
Theorem stopped_for_good evs g s evs' s' r x :
  run evs (initial g) = Some s ->
  heap s !! r = Some x -> Task.isStopped x = true ->
  run evs' s = Some s' ->
  exists x', heap s' !! r = Some x' /\ Task.isStopped x' = true
    /\ (Task.status x' = stopped \/ Task.status x' = error)
    /\ (existsb (fun ce => throws ce.2) (evs ++ evs') = false ->
        Task.status x' = stopped)
    /\ sent_to r (calls s') = sent_to r (calls s).
Proof.
  intros Hrun Hx Hst Hrun'.
  assert (run (evs ++ evs') (initial g) = Some s') as Hall
    by by rewrite run_app, Hrun.
  pose proof (run_ticks (evs ++ evs') (initial g) s' (initial_Inv g)
                (Forall_nil_2 _) Hall) as Hticks.
  pose proof (run_ticks evs (initial g) s (initial_Inv g) (Forall_nil_2 _)
                Hrun) as Hto.
  assert (Forall sendable (heap s)) as Hsend
    by exact (ticks_sendable _ _ _ Hto (Forall_nil_2 _)).
  assert (Inv s) as HI by (apply reachable_Inv; by exists g, evs).
  pose proof (run_ticks evs' s s' HI Hsend Hrun') as Hfrom.
  destruct (ticks_stopped _ _ _ Hfrom r x Hx Hst) as (x' & Hx' & Hst' & Hc).
  exists x'. split; [done|]. split; [done|].
  assert (forall r x, k_heap (core (initial g)) !! r = Some x ->
            Task.isStopped x = true ->
            Task.status x = stopped
            \/ (existsb (fun ce => throws ce.2) (evs ++ evs') = true
                /\ Task.status x = error)) as H0.
  { intros r0 x0. cbn. by rewrite lookup_nil. }
  pose proof (ticks_halted _ _ _ Hticks H0 r x' Hx' Hst') as Hh.
  split; [destruct Hh as [? | [_ ?]]; [by left | by right]|].
  split; [|done].
  intros E. destruct Hh as [? | [E' _]]; [done | congruence].
Qed.

Lemma stopped_for_good_witness :
  exists x', heap stopped_late !! 0%nat = Some x'
    /\ Task.status x' = stopped
    /\ sent_to 0 (calls stopped_late) = sent_to 0 (calls stopped_early).
Proof.
  assert (exists x, heap stopped_early !! 0%nat = Some x
                    /\ Task.isStopped x = true)
    as (x & Hx & Hst) by (eexists; split; vm_compute; reflexivity).
  destruct (stopped_for_good stopping spread stopped_early comes_back
              stopped_late 0 x)
    as (x' & Hx' & _ & _ & Hs & Hc);
    [vm_compute; reflexivity | exact Hx | exact Hst | vm_compute; reflexivity|].
  exists x'. split; [exact Hx'|]. split; [|exact Hc].
  apply Hs. reflexivity.
Defined.
(** * Further properties: the logs *)

(** ** The size of the logs *)

Lemma logs_bounded_same s s' :
  logs s' = logs s -> logs_bounded s -> logs_bounded s'.
Proof. unfold logs_bounded. by intros ->. Qed.

Lemma push_bounded (l0 : list jsstring) (line : jsstring) :
  (length l0 <= 500)%nat ->
  (length (if (500 <? Z.of_nat (length (l0 ++ [line])))%Z
           then tail (l0 ++ [line]) else l0 ++ [line]) <= 500)%nat.
Proof.
  intros Hlen.
  destruct (Z.ltb_spec 500 (Z.of_nat (length (l0 ++ [line])))) as [Hlt | Hge];
    [|lia].
  destruct l0 as [|a l0]; cbn [app tail length] in *;
    rewrite ?length_app; cbn [length] in *; lia.
Qed.

Lemma addLog_bounded clk taskId message type s :
  logs_bounded s -> logs_bounded (addLog clk taskId message type s).
Proof.
  intros H id l. unfold addLog. cbn [logs set_logs].
  destruct (decide (taskId = id)) as [<- | Hne];
    [|rewrite lookup_insert_ne by done; apply H].
  rewrite lookup_insert_eq. intros [= <-]. apply push_bounded.
  destruct (logs s !! taskId) as [l0|] eqn:E; cbn [default length];
    [by eapply H | lia].
Qed.

Lemma foldl_addLog_bounded clk taskId (agentLog : list (jsstring * jsstring)) :
  forall s, logs_bounded s ->
    logs_bounded (foldl (fun s l => addLog clk taskId l.1 l.2 s) s agentLog).
Proof.
  induction agentLog as [|l agentLog IH]; intros s Hs; [done|].
  cbn [foldl]. by apply IH, addLog_bounded.
Qed.

Lemma kept_addLog clk taskId message type s :
  kept s -> kept (addLog clk taskId message type s).
Proof. intros [H1 H2]. split; [by apply addLog_bounded | done]. Qed.

Lemma kept_update r f s :
  (forall x, Task.conversations (f x) = Task.conversations x) ->
  (forall x, Task.messages (f x) = Task.messages x) ->
  (forall x, Task.batch_count (f x) = Task.batch_count x) ->
  kept s -> kept (update r f s).
Proof.
  intros Hc Hm Hb [H1 H2]. split; [done|]. cbn.
  by apply Forall_sendable_alter.
Qed.

Lemma kept_same s s' :
  logs s' = logs s -> heap s' = heap s -> kept s -> kept s'.
Proof. unfold kept, logs_bounded. by intros -> ->. Qed.

Lemma loop_kept clk n : forall s,
  kept s -> kept (processTaskQueue_loop clk n s).
Proof.
  induction n as [|n IH]; intros s Hs; [done|].
  cbn [processTaskQueue_loop].
  destruct (activeTasks s <? MAX_CONCURRENT_TASKS); [|done].
  destruct (taskQueue s) as [|taskId rest] eqn:Hq; [done|].
  set (s1 := set_taskQueue rest s).
  assert (kept s1) as Hs1 by done.
  destruct (tasks_get taskId s1) as [[r x]|] eqn:Hget; [|by apply IH].
  pose proof Hget as [Ht Hx]%tasks_get_Some.
  destruct (bool_decide (Task.status x = queued) && negb (Task.isStopped x))
    eqn:Hgo; [|by apply IH].
  apply andb_true_iff in Hgo as [Hst%bool_decide_eq_true Hns%negb_true_iff].
  assert (sendable x) as (Hc & Hm & Hb).
  { destruct Hs as [_ Hsend]. eapply Forall_lookup_1 in Hsend; [done|].
    exact Hx. }
  destruct (Task.conversations x) as [|c cs] eqn:Ec; [done|].
  destruct (Task.messages x) as [|m ms] eqn:Em; [done|].
  unfold processTask. rewrite Hget.
  rewrite (processTask_enter_sends clk _ taskId r x c cs m ms s1 Hx Hns Hb
             Ec Em), send_eq.
  apply IH.
  eapply kept_same; [reflexivity | reflexivity |].
  do 3 apply kept_addLog.
  eapply kept_same; [reflexivity | reflexivity |].
  by apply (kept_update r (Task.set_status running)).
Qed.

Lemma processTaskQueue_kept clk s : kept s -> kept (processTaskQueue clk s).
Proof. apply loop_kept. Qed.

Lemma finally_kept clk taskId r s :
  kept s -> kept (finally (processTaskQueue clk) taskId r s).1.
Proof. intros Hs. unfold finally. cbn [fst]. by apply processTaskQueue_kept. Qed.

Lemma finalize_kept clk taskId r s :
  kept s -> kept (finalize clk (processTaskQueue clk) taskId r s).1.
Proof.
  intros Hs. unfold finalize.
  destruct (negb _); cbv zeta; apply finally_kept, kept_addLog;
    by apply kept_update.
Qed.

Lemma catch_kept clk taskId r message s :
  kept s -> kept (catch clk (processTaskQueue clk) taskId r message s).1.
Proof.
  intros Hs. unfold catch. cbv zeta.
  apply finally_kept, kept_addLog. by apply kept_update.
Qed.

Lemma send_kept clk taskId r batch conversation convs message msgs s :
  kept s -> kept (send clk taskId r batch conversation convs message msgs s).1.
Proof.
  intros Hs. unfold send. destruct (enhanceMessage _ _) as [text g].
  cbn [fst]. by apply kept_addLog.
Qed.

Lemma arrival_kept clk p sig s : kept s -> kept (arrival clk p sig s).
Proof.
  intros Hs. unfold arrival. destruct sig as [ok agentLog| |]; try done.
  destruct (p_await p); try done. unfold settled. cbv zeta.
  eapply kept_same; [reflexivity | reflexivity |].
  apply kept_update; try done.
  destruct Hs as [H1 H2]. split; [by apply foldl_addLog_bounded|].
  by rewrite (proj1 (foldl_addLog_same clk (p_taskId p) agentLog s)).
Qed.

Lemma wake_kept clk pid sig s s' :
  wake clk pid sig s = Some s' -> kept s -> kept s'.
Proof.
  unfold wake. destruct (procs s !! pid) as [[p|]|]; try done.
  set (su := set_procs _ s).
  destruct (resume clk (processTaskQueue clk) p sig su) as [res|] eqn:Hres;
    [|done].
  intros Hs' Hs.
  assert (kept res.1) as Hk.
  { apply (resume_rule clk (processTaskQueue clk) (p_taskId p) (p_task p)
             kept (fun res => kept res.1)) with (p := p) (sig := sig) (s := su)
      (res := res); try done.
    - intros. by apply kept_addLog.
    - intros. by apply finalize_kept.
    - intros. by apply send_kept.
    - intros. cbn [fst]. by apply kept_addLog.
    - intros. by apply catch_kept.
    - by apply arrival_kept. }
  destruct res as [s1 [p'|]]; injection Hs' as <-; done.
Qed.

Lemma foldl_kept {A} (f : State -> A -> State) (l : list A) :
  (forall s a, kept s -> kept (f s a)) ->
  forall s, kept s -> kept (foldl f s l).
Proof.
  intros Hf. induction l as [|a l IH]; intros s Hs; [done|].
  cbn [foldl]. by apply IH, Hf.
Qed.

Lemma stop_all_entry_kept clk acc e :
  kept acc.1 -> kept (stop_all_entry clk acc e).1.
Proof.
  destruct acc as [s n]. cbn [fst]. intros Hs. unfold stop_all_entry.
  destruct (heap s !! e.2) as [task|]; [|done].
  destruct (_ || _); [|done]. cbv zeta. cbn [fst].
  apply kept_addLog.
  eapply kept_same; [reflexivity | reflexivity |].
  by apply kept_update.
Qed.

Lemma cleanup_entry_kept clk s e : kept s -> kept (cleanup_entry clk s e).
Proof.
  intros [H1 H2]. unfold cleanup_entry.
  destruct (heap s !! e.2) as [task|]; [|done].
  destruct (_ && _); [|done]. split; [|done].
  intros id l. cbn [logs set_logs set_tasks].
  intros [_ Hl]%lookup_delete_Some. by eapply H1.
Qed.

Lemma enqueue_task_kept clk task s :
  sendable task -> kept s -> kept (enqueue_task clk task s).
Proof.
  intros Htask [H1 H2]. unfold enqueue_task. cbv zeta.
  apply processTaskQueue_kept.
  eapply kept_same; [reflexivity | reflexivity |].
  do 5 apply kept_addLog. split.
  - intros id l. cbn [logs set_logs tasks_set set_tasks set_heap].
    destruct (decide (Task.id task = id)) as [<- | Hne].
    + rewrite lookup_insert_eq. intros [= <-]. cbn. lia.
    + rewrite lookup_insert_ne by done. apply H1.
  - cbn. apply Forall_app. split; [done|]. by apply Forall_singleton.
Qed.

Lemma step_kept clk e s s' : step clk e s = Some s' -> kept s -> kept s'.
Proof.
  destruct e as [body|taskId|taskId|taskId| |pid sig|]; cbn [step].
  - intros [= <-] Hs.
    destruct (start_task_cases clk body s)
      as [(c & m & ->) | [(c & m & ->) | (_ & Hm & Hc & pos & ->)]];
      cbn [fst]; try done.
    apply enqueue_task_kept; [by apply sendable_new_task | done].
  - by intros [= <-].
  - by intros [= <-].
  - intros [= <-] Hs. unfold stop_task.
    destruct (tasks_get taskId s) as [[r x]|]; [|done]. cbv zeta. cbn [fst].
    apply kept_addLog.
    eapply kept_same; [reflexivity | reflexivity |].
    by apply kept_update.
  - intros [= <-] Hs. rewrite stop_all_tasks_eq. cbn [fst].
    eapply kept_same; [reflexivity | reflexivity |].
    assert (forall l acc, kept acc.1 ->
              kept (foldl (stop_all_entry clk) acc l).1) as Hfold.
    { induction l as [|a l IH]; intros acc Hacc; [done|].
      cbn [foldl]. by apply IH, stop_all_entry_kept. }
    by apply Hfold.
  - apply wake_kept.
  - intros [= <-] Hs. unfold cleanup. apply foldl_kept; [|done].
    intros. by apply cleanup_entry_kept.
Qed.

Lemma run_kept evs : forall s s', run evs s = Some s' -> kept s -> kept s'.
Proof.
  induction evs as [|[clk e] evs IH]; intros s s'; cbn [run].
  - by intros [= <-].
  - destruct (step clk e s) as [s1|] eqn:Hstep; [|done].
    intros Hrun Hs. eapply IH; [done|]. by eapply step_kept.
Qed.

(** X19: a task never has more than 500 lines of log, and
    [GET /api/logs/:taskId] answers with the last lines of the log of the
    task, 100 at most. *)
Theorem logs_capped evs g s taskId :
  run evs (initial g) = Some s ->
  (length (default [] (logs s !! taskId)) <= 500)%nat
  /\ exists older lines,
       get_logs taskId s = LogLines lines
       /\ default [] (logs s !! taskId) = older ++ lines
       /\ (length lines <= 100)%nat
       /\ (older = [] \/ length lines = 100%nat).
Proof.
  intros Hrun.
  assert (kept (initial g)) as H0.
  { split; [|apply Forall_nil_2]. intros id l. cbn. by rewrite lookup_empty. }
  destruct (run_kept evs _ _ Hrun H0) as [Hb _]. split.
  - destruct (logs s !! taskId) as [l|] eqn:E; cbn [default length];
      [by eapply Hb | lia].
  - unfold get_logs. cbv zeta.
    generalize (default [] (logs s !! taskId)). intros l.
    exists (take (length l - 100) l), (drop (length l - 100) l).
    split; [done|]. split; [by rewrite take_drop|].
    rewrite length_drop. split; [lia|].
    destruct (decide (length l <= 100)%nat) as [Hle | Hgt].
    + left. replace (length l - 100)%nat with 0%nat by lia. apply take_0.
    + right. lia.
Qed.

Lemma logs_capped_witness :
  exists s,
    run finished (initial spread) = Some s
    /\ (length (default [] (logs s !! js "h4rsh_1000")) <= 500)%nat.
Proof.
  eexists. split; [vm_compute; reflexivity|].
  eapply proj1, (logs_capped finished spread). vm_compute; reflexivity.
Defined.
(** * Further properties: completed tasks *)

(** ** What the status completed means *)

Lemma arrived_elsewhere p sig k r :
  p_task p <> r -> k_heap (arrived p sig k) !! r = k_heap k !! r.
Proof.
  intros Hne. unfold arrived. destruct sig as [ok ?| |]; try done.
  destruct (p_await p); try done. cbn [count_in k_heap].
  by rewrite list_lookup_alter_ne.
Qed.

Lemma k_done_arrived p sig pid k r x :
  (p_await p = AwaitSend <-> exists ok agentLog, sig = Settled ok agentLog) ->
  k_procs k !! pid = Some (Some p) -> k_done k ->
  k_heap (arrived p sig k) !! r = Some x -> Task.status x = completed ->
  p_task p <> r /\ k_heap k !! r = Some x.
Proof.
  intros Hsig Hpid Hd Hx Hst.
  destruct (arrived_heap p sig k r x Hsig Hx) as (y & Hy & _ & Es & _).
  rewrite Hst in Es.
  destruct (Hd r y Hy (eq_sym Es)) as [_ Hq].
  pose proof (Hq pid p Hpid) as Hne. split; [done|].
  by rewrite (arrived_elsewhere p sig k r Hne) in Hx.
Qed.

Lemma tick_done exc k k' : tick exc k k' -> k_done k -> k_done k'.
Proof.
  intros H Hd. destruct H; intros r' x' Hx' Hst';
    cbn [with_procs with_call returned k_heap k_procs] in *.
  - (* submit *)
    apply lookup_app_Some in Hx' as [Hx' | [_ Hx']]; [by apply (Hd r')|].
    apply list_lookup_singleton_Some in Hx' as [_ <-]. by rewrite H in Hst'.
  - (* admit *)
    destruct H1 as (_ & Hx & Hq & _).
    destruct (decide (r = r')) as [<- | Hne].
    + rewrite list_lookup_alter_eq, Hx in Hx'. by injection Hx' as <-.
    + rewrite list_lookup_alter_ne in Hx' by done.
      destruct (Hd r' x' Hx' Hst') as [Hc Hp]. split; [done|].
      intros pid p [Hpid | [_ Hpid]]%lookup_app_Some; [by eapply Hp|].
      by apply list_lookup_singleton_Some in Hpid as [_ [= <-]].
  - by apply (Hd r').
  - (* stop *)
    destruct (decide (r = r')) as [<- | Hne].
    + rewrite list_lookup_alter_eq, H0 in Hx'. by injection Hx' as <-.
    + rewrite list_lookup_alter_ne in Hx' by done. by apply (Hd r').
  - (* stop-all *)
    rewrite H in Hx'. destruct (k_heap k !! r') as [x|] eqn:Hx; [|done].
    injection Hx' as <-. destruct (_ && _); [done|]. by apply (Hd r').
  - by apply (Hd r').
  - (* park *)
    destruct (k_done_arrived p sig pid k r' x' H0 H Hd Hx' Hst') as [Hne Hx].
    destruct (Hd r' x' Hx Hst') as [Hc Hp]. split; [done|].
    intros pid' p0 [[= <-] | Hl]%lookup_slot; [by rewrite H2 | by eapply Hp].
  - (* send *)
    destruct (k_done_arrived p sig pid k r' x' H0 H Hd Hx' Hst') as [Hne Hx].
    destruct (Hd r' x' Hx Hst') as [Hc Hp]. split; [done|].
    intros pid' p0 [[= <-] | Hl]%lookup_slot; [by rewrite H2 | by eapply Hp].
  - (* finish *)
    destruct (decide (p_task p = r')) as [<- | Hne].
    + rewrite list_lookup_alter_eq in Hx'.
      destruct (k_heap (arrived p sig k) !! p_task p) as [y|] eqn:Hy; [|done].
      injection Hx' as <-. cbn [Task.status Task.set_status] in Hst'.
      destruct (k_stopped (p_task p) k) eqn:Hstop; [done|].
      split; [exact (H1 eq_refl y eq_refl)|].
      intros pid' p' Hl E.
      destruct (decide (pid = pid')) as [<- | Hpid].
      * rewrite list_lookup_insert_eq in Hl by (by eapply lookup_lt_Some).
        done.
      * rewrite list_lookup_insert_ne in Hl by done.
        by pose proof (H2 pid' p' Hl E).
    + rewrite list_lookup_alter_ne in Hx' by done.
      destruct (k_done_arrived p sig pid k r' x' H0 H Hd Hx' Hst')
        as [_ Hx].
      destruct (Hd r' x' Hx Hst') as [Hc Hp]. split; [done|].
      intros pid' p0 [[=] | Hl]%lookup_slot. by eapply Hp.
  - (* catch *)
    destruct (decide (p_task p = r')) as [<- | Hne].
    + rewrite list_lookup_alter_eq in Hx'.
      destruct (k_heap k !! p_task p) as [y|]; [|done].
      by injection Hx' as <-.
    + rewrite list_lookup_alter_ne in Hx' by done.
      destruct (Hd r' x' Hx' Hst') as [Hc Hp]. split; [done|].
      intros pid' p0 [[=] | Hl]%lookup_slot. by eapply Hp.
Qed.

Lemma ticks_done exc k k' : rtc (tick exc) k k' -> k_done k -> k_done k'.
Proof. induction 1; eauto using tick_done. Qed.

(** X20: in every state the server reaches, a task with status
    [completed] has counted all its operations, each of them as a
    success or as a failure, and no call of [processTask] is at work on
    it. *)
Theorem completed_is_done evs g s r x :
  run evs (initial g) = Some s -> heap s !! r = Some x ->
  Task.status x = completed ->
  Task.completed x = Task.total x
  /\ Task.success x + Task.failed x = Task.total x
  /\ quiet r s.
Proof.
  intros Hrun Hx Hst.
  assert (reachable s) as Hreach by (by exists g, evs).
  destruct (reachable_ticks s Hreach) as (g' & Ht).
  assert (k_done (core (initial g'))) as H0.
  { intros r0 x0. cbn. by rewrite lookup_nil. }
  destruct (ticks_done _ _ _ Ht H0 r x Hx Hst) as [Hc Hq].
  split; [done|]. split; [|exact Hq].
  pose proof (ok_sum _ (inv_obj _ (reachable_Inv s Hreach) r x Hx)). lia.
Qed.

Lemma completed_is_done_witness :
  exists s x,
    run finished (initial spread) = Some s /\ heap s !! 0%nat = Some x
    /\ Task.completed x = Task.total x.
Proof.
  eexists _, _. split; [vm_compute; reflexivity|].
  split; [vm_compute; reflexivity|].
  eapply proj1, (completed_is_done finished spread _ 0);
    vm_compute; reflexivity.
Defined.

(** * Further properties: what a job is made of *)

(** X21: a job that [/api/start-task] accepts has a batch count between
    1 and 100, a batch delay between 1 and 300 and a time delay between 1
    and 600, whatever the request asks for; a field that [parseInt]
    makes no number of, or zero, gives 1, 5 and 10; and the job has at
    least as many operations as batches. *)
Theorem start_task_limits clk body s s' taskId total b bd td pos :
  start_task clk body s = (s', TaskQueued taskId total b bd td pos) ->
  1 <= b <= 100 /\ 1 <= bd <= 300 /\ 1 <= td <= 600 /\ b <= total
  /\ (Body.batch_count body = None \/ Body.batch_count body = Some 0 -> b = 1)
  /\ (Body.batch_delay body = None \/ Body.batch_delay body = Some 0 -> bd = 5)
  /\ (Body.time_delay body = None \/ Body.time_delay body = Some 0 -> td = 10).
Proof.
  intros H.
  destruct (start_task_cases clk body s)
    as [(c & m & E) | [(c & m & E) | (_ & Hm & Hc & pos' & E)]];
    rewrite E in H; try discriminate.
  injection H as _ _ <- <- <- <- _.
  unfold new_task. cbv zeta.
  cbn [Task.total Task.batch_count Task.batch_delay Task.time_delay].
  assert (1 <= Z.of_nat (length (nonEmptyLines (Body.messages body)))).
  { destruct (nonEmptyLines (Body.messages body)); [done | cbn [length]; lia]. }
  assert (1 <= Z.of_nat (length (nonEmptyLines (Body.conversation_id body)))).
  { destruct (nonEmptyLines (Body.conversation_id body));
      [done | cbn [length]; lia]. }
  pose proof (clamp_range (Body.batch_count body) 1 100 ltac:(lia)).
  pose proof (clamp_range (Body.batch_delay body) 5 300 ltac:(lia)).
  pose proof (clamp_range (Body.time_delay body) 10 600 ltac:(lia)).
  split; [lia|]. split; [lia|]. split; [lia|]. split.
  { generalize dependent (clamp (Body.batch_count body) 1 100).
    generalize dependent
      (Z.of_nat (length (nonEmptyLines (Body.messages body)))).
    generalize dependent
      (Z.of_nat (length (nonEmptyLines (Body.conversation_id body)))).
    intros nc Hnc nm Hnm b Hb.
    assert (1 <= nm * nc) by nia. rewrite <- Z.mul_assoc. nia. }
  split; [|split]; by intros [-> | ->].
Qed.

Lemma start_task_limits_witness :
  exists s' taskId total b bd td pos,
    start_task noon (job 0) (initial spread)
    = (s', TaskQueued taskId total b bd td pos)
    /\ b = 1 /\ bd = 5 /\ td = 10.
Proof.
  eexists _, _, _, _, _, _, _. split; [vm_compute; reflexivity|].
  destruct (start_task_limits noon (job 0) (initial spread) _ _ _ _ _ _ _
              ltac:(vm_compute; reflexivity))
    as (_ & _ & _ & _ & Hb & Hbd & Htd).
  done.
Defined.



(** * Further properties: a stop takes effect at the next await *)

(** What [processTaskQueue] leaves of a call that has returned: its
    place stays empty and the status it wrote stays. *)
Lemma returned_stays clk pid l r v (h : list Task.t) z s1 :
  (pid < length l)%nat ->
  heap s1 = alter (Task.set_status v) r h -> h !! r = Some z ->
  procs s1 = <[pid := None]> l -> v <> queued ->
  procs (processTaskQueue clk s1) !! pid = Some None
  /\ heap (processTaskQueue clk s1) !! r = Some (Task.set_status v z).
Proof.
  intros Hlt Eh Hz Ep Hv.
  pose proof (processTaskQueue_footprint clk s1) as F.
  assert (heap s1 !! r = Some (Task.set_status v z)) as H1
    by (by rewrite Eh, list_lookup_alter_eq, Hz).
  split.
  - destruct (fp_procs _ _ _ F) as (k & -> & _).
    apply lookup_app_Some. left. rewrite Ep.
    by apply list_lookup_insert_eq.
  - apply (fp_frame _ _ _ F _ _ H1); [done|]. by intros taskId.
Qed.

(** X25: when a suspended call of [processTask] is woken and finds the
    stop flag of its task set, it returns at once: the delivery that has
    come back is counted, the status [stopped] is written ([error] after
    an exception), and the call is gone from the suspended ones. *)
Theorem wake_on_stopped clk pid sig s s' p x :
  procs s !! pid = Some (Some p) -> heap s !! p_task p = Some x ->
  Task.isStopped x = true -> wake clk pid sig s = Some s' ->
  procs s' !! pid = Some None
  /\ heap s' !! p_task p
     = Some (if is_thrown sig then Task.set_status error x
             else Task.set_status stopped (counted p sig x)).
Proof.
  intros Hpid Hx Hst. unfold wake. rewrite Hpid.
  pose proof (lookup_lt_Some _ _ _ Hpid) as Hlt.
  set (su := set_procs (<[pid := None]> (procs s)) s).
  destruct (is_thrown sig) eqn:Hth.
  { destruct sig as [| |message]; try done.
    assert (resume clk (processTaskQueue clk) p (Thrown message) su
            = Some (catch clk (processTaskQueue clk) (p_taskId p) (p_task p)
                      message su)) as -> by (unfold resume; by destruct (p_await p)).
    unfold catch, finally. cbv zeta. intros [= <-].
    by apply (returned_stays clk pid (procs s) (p_task p) error (heap s) x). }
  destruct (resume clk (processTaskQueue clk) p sig su) as [res|] eqn:Hres;
    [|done].
  pose proof (resume_outcome false clk (processTaskQueue clk)
                (p_taskId p) (p_task p) _ p sig su res eq_refl eq_refl
                (eq_sym Hth) eq_refl Hres) as Hout.
  rewrite core_arrival in Hout.
  change (core su) with (with_procs (<[pid := None]> (procs s)) (core s))
    in Hout.
  rewrite arrived_with_procs in Hout.
  assert (k_stopped (p_task p) (arrived p sig (core s)) = true) as Hstop.
  { rewrite k_stopped_arrived. unfold k_stopped. cbn [core k_heap].
    by rewrite Hx. }
  destruct res as [s1 [p'|]]; unfold outcome in Hout; cbn [fst snd] in Hout.
  - destruct Hout as (_ & _ & Hns & _).
    change (k_stopped (p_task p) (with_procs (<[pid:=None]> (procs s))
                                    (arrived p sig (core s))))
      with (k_stopped (p_task p) (arrived p sig (core s))) in Hns.
    congruence.
  - intros [= <-]. destruct Hout as (s2 & v & -> & Hk & Hv).
    destruct Hv as [[? _] | ->]; [done|].
    change (k_stopped (p_task p) (with_procs (<[pid:=None]> (procs s))
                                    (arrived p sig (core s))))
      with (k_stopped (p_task p) (arrived p sig (core s))) in Hk.
    rewrite Hstop in Hk.
    apply (returned_stays clk pid (procs s) (p_task p) stopped
             (k_heap (arrived p sig (core s))) (counted p sig x));
      try done.
    + by apply (f_equal k_heap) in Hk.
    + by apply arrived_counted.
    + apply (f_equal k_procs) in Hk. cbn in Hk. exact Hk.
Qed.

Lemma wake_on_stopped_witness :
  procs stopped_late !! 0%nat = Some None
  /\ Task.status <$> heap stopped_late !! 0%nat = Some stopped
  /\ Task.completed <$> heap stopped_late !! 0%nat = Some 1.
Proof.
  assert (exists p x, procs stopped_early !! 0%nat = Some (Some p)
                      /\ heap stopped_early !! p_task p = Some x
                      /\ Task.isStopped x = true /\ p_task p = 0%nat
                      /\ p_await p = AwaitSend)
    as (p & x & Hp & Hx & Hst & Hr & Ha)
    by (eexists _, _; repeat split; vm_compute; reflexivity).
  destruct (wake_on_stopped noon 0 (Settled true []) stopped_early
              stopped_late p x Hp Hx Hst)
    as [H1 H2]; [vm_compute; reflexivity|].
  split; [exact H1|]. rewrite Hr in H2. rewrite H2. cbn [is_thrown fmap option_fmap option_map].
  unfold counted. rewrite Ha. split; [done|].
  cbn [Task.completed Task.set_status Task.count].
  rewrite Hr in Hx.
  assert (Task.completed <$> heap stopped_early !! 0%nat = Some 0) as Hc
    by (vm_compute; reflexivity).
  rewrite Hx in Hc. injection Hc as ->. done.
Defined.
(** * The claims, continued *)

(** ** Stopping a queued task *)

(** Every identifier of the queue is the identifier of a task of its
    own: the queue, as a multiset, is part of the identifiers of the
    tasks created so far. *)
Lemma ids_alter (f : Task.t -> Task.t) r (h : list Task.t) :
  (forall x, Task.id (f x) = Task.id x) ->
  Task.id <$> alter f r h = Task.id <$> h.
Proof.
  intros Hf. apply list_eq. intros i. rewrite !list_lookup_fmap.
  destruct (decide (r = i)) as [<- | Hne].
  - rewrite list_lookup_alter_eq. destruct (h !! r); cbn; [|done].
    by rewrite Hf.
  - by rewrite list_lookup_alter_ne.
Qed.

Lemma ids_arrived p sig k :
  Task.id <$> k_heap (arrived p sig k) = Task.id <$> k_heap k.
Proof.
  unfold arrived. destruct sig as [ok ?| |]; try done.
  destruct (p_await p); try done. by apply ids_alter.
Qed.

Lemma remove_first_sublist taskId q : sublist (remove_first taskId q) q.
Proof.
  induction q as [|a q IH]; [done|]. cbn.
  case_bool_decide; [by apply sublist_cons | by apply sublist_skip].
Qed.

Lemma tick_queue_ids exc k k' :
  tick exc k k' ->
  k_queue k ⊆+ Task.id <$> k_heap k -> k_queue k' ⊆+ Task.id <$> k_heap k'.
Proof.
  intros H Hq. destruct H;
    cbn [with_procs with_call returned k_heap k_queue];
    rewrite ?k_queue_arrived, ?ids_alter, ?ids_arrived by done; try done.
  - rewrite fmap_app. apply submseteq_app; [done|]. reflexivity.
  - rewrite H in Hq. etrans; [apply (submseteq_cons taskId); reflexivity | exact Hq].
  - rewrite H in Hq. etrans; [apply (submseteq_cons taskId); reflexivity | exact Hq].
  - etrans; [|done]. apply sublist_submseteq, remove_first_sublist.
  - apply submseteq_nil_l.
Qed.

Lemma reachable_queue_ids s :
  reachable s -> taskQueue s ⊆+ Task.id <$> heap s.
Proof.
  intros (g & Ht)%reachable_ticks.
  assert (forall k k', rtc (tick true) k k' ->
            k_queue k ⊆+ Task.id <$> k_heap k ->
            k_queue k' ⊆+ Task.id <$> k_heap k') as Hall.
  { induction 1; eauto using tick_queue_ids. }
  by apply (Hall _ _ Ht).
Qed.

(** [taskQueue.splice(taskQueue.indexOf(taskId), 1)] takes out the first
    occurrence of the identifier. *)
Lemma remove_first_split taskId q :
  taskId ∈ q ->
  exists q1 q2, q = q1 ++ taskId :: q2 /\ (taskId ∉ q1)
                /\ remove_first taskId q = q1 ++ q2.
Proof.
  induction q as [|a q IH]; [by intros ?%elem_of_nil|].
  intros Hin. cbn. case_bool_decide as Ha.
  - subst a. exists [], q. split; [done|]. split; [apply not_elem_of_nil|done].
  - apply elem_of_cons in Hin as [-> | Hin]; [done|].
    destruct (IH Hin) as (q1 & q2 & -> & Hq1 & ->).
    exists (a :: q1), q2. split; [done|]. split; [|done].
    intros [-> | ?]%elem_of_cons; done.
Qed.

Lemma submseteq_NoDup {A} (l k : list A) : l ⊆+ k -> NoDup k -> NoDup l.
Proof.
  intros (l' & Hsub & Hperm)%submseteq_sublist_l Hk.
  apply (sublist_NoDup l l'); [|done]. by rewrite Hperm.
Qed.


(** C7, as stated, fails: forty-two jobs have drawn the same identifier,
    forty are running and the identifier waits twice in the queue; the
    task it names is queued, and after [/api/stop-task] the identifier
    is still in the queue. *)
Lemma stop_leaves_identifier_queued :
  exists r x,
    run same_draws (initial stuck) = Some twice_queued
    /\ tasks_get (js "h4rsh_5500") twice_queued = Some (r, x)
    /\ Task.status x = queued
    /\ taskQueue twice_queued = [js "h4rsh_5500"; js "h4rsh_5500"]
    /\ js "h4rsh_5500"
       ∈ taskQueue (stop_task noon (js "h4rsh_5500") twice_queued).1.
Proof.
  eexists _, _. split; [vm_compute; reflexivity|].
  split; [vm_compute; reflexivity|]. split; [vm_compute; reflexivity|].
  split; [vm_compute; reflexivity|].
  assert (taskQueue (stop_task noon (js "h4rsh_5500") twice_queued).1
          = [js "h4rsh_5500"]) as -> by (vm_compute; reflexivity).
  by left.
Qed.

(** C7 (amended): when [/api/stop-task] finds the task queued, it
    answers with success, takes the first occurrence of the identifier
    out of the queue and leaves the rest of the queue as it was -- so the
    identifier is in the queue no more, unless two of the jobs accepted so
    far drew the same identifier -- and it leaves the task stopped; in
    every later state the task is still stopped, no call of
    [processTask] works on it and [sendFacebookMessage] has not been
    called for it. *)
Theorem stop_while_queued clk taskId s r x :
  reachable s ->
  tasks_get taskId s = Some (r, x) -> Task.status x = queued ->
  let s1 := (stop_task clk taskId s).1 in
  success (stop_task clk taskId s).2 = true
  /\ (exists q1 q2,
        taskQueue s = q1 ++ taskId :: q2 /\ (taskId ∉ q1)
        /\ taskQueue s1 = q1 ++ q2)
  /\ (NoDup (Task.id <$> heap s) -> taskId ∉ taskQueue s1)
  /\ heap s1 !! r = Some (stop x)
  /\ forall evs s', run evs s1 = Some s' ->
       heap s' !! r = Some (stop x)
       /\ Task.status (stop x) = stopped
       /\ quiet r s'
       /\ forall c, c ∈ calls s' -> c_task c <> r.
Proof.
  intros Hreach Hget Hq s1.
  pose proof (reachable_Inv s Hreach) as HI.
  destruct (stop_task_overwrites clk taskId s r x Hget) as [H1 Hs].
  pose proof Hget as [Ht Hx]%tasks_get_Some.
  apply tasks_get_Some in H1 as [_ H1]. fold s1 in H1.
  assert (procs s1 = procs s /\ calls s1 = calls s
          /\ taskQueue s1 = remove_first taskId (taskQueue s)) as (Ep & Ec & Eq).
  { subst s1. unfold stop_task. by rewrite Hget. }
  assert (taskId ∈ taskQueue s) as Hin
    by exact (kw_queue _ (reachable_waiting s Hreach) taskId r x Ht Hx Hq).
  destruct (remove_first_split taskId (taskQueue s) Hin)
    as (q1 & q2 & Es & Hq1 & Er).
  split; [done|]. split; [exists q1, q2; by rewrite Eq|]. split.
  { intros Hnd. rewrite Eq, Er.
    assert (NoDup (taskQueue s)) as Hndq
      by exact (submseteq_NoDup _ _ (reachable_queue_ids s Hreach) Hnd).
    rewrite Es in Hndq. apply NoDup_app in Hndq as (_ & _ & Hndq).
    apply NoDup_cons in Hndq as [Hq2 _].
    intros [?|?]%elem_of_app; done. }
  split; [done|].
  intros evs s' Hrun.
  assert (quiet r s1) as Hquiet.
  { apply (quiet_same _ s); [done|]. by eapply Inv_quiet_queued. }
  destruct (dr_idle _ _ (run_drift _ _ _ Hrun) r (stop x) H1
              (stop_started x) Hquiet) as (x' & Hx' & Hsame & Hq' & Hc').
  assert (x' = stop x) as -> by (by destruct Hsame).
  split; [done|]. split; [done|]. split; [done|].
  intros c Hc Hr. specialize (Hc' c Hc Hr). rewrite Ec in Hc'.
  destruct (inv_calls _ HI c Hc') as (y & Hy & Hsy).
  rewrite Hr in Hy. congruence.
Qed.

Lemma stop_while_queued_witness :
  exists r x,
    tasks_get (js "h4rsh_1320") crowded = Some (r, x)
    /\ Task.status x = queued
    /\ heap (stop_task noon (js "h4rsh_1320") crowded).1 !! r = Some (stop x)
    /\ js "h4rsh_1320" ∉ taskQueue (stop_task noon (js "h4rsh_1320") crowded).1.
Proof.
  assert (reachable crowded) as Hreach.
  { exists spread, crowd. vm_compute. reflexivity. }
  assert (exists r x, tasks_get (js "h4rsh_1320") crowded = Some (r, x)
                      /\ Task.status x = queued) as (r & x & Hget & Hq).
  { vm_compute. eexists _, _. split; reflexivity. }
  assert (NoDup (Task.id <$> heap crowded)) as Hnd.
  { apply (bool_decide_unpack _). vm_compute. exact I. }
  exists r, x. split; [exact Hget|]. split; [exact Hq|].
  destruct (stop_while_queued noon (js "h4rsh_1320") crowded r x Hreach Hget Hq)
    as (_ & _ & Hout & H & _).
  split; [exact H | exact (Hout Hnd)].
Defined.

(** ** A delivery that ends in an exception *)

(** C5, where the code departs from it: a delivery that fails with an
    exception that leaves [sendFacebookMessage] does abort the loop. A
    job of two operations is started and its first delivery ends so:
    [processTask] returns with the status [error], no operation is
    counted, as a failure or otherwise, and the second delivery is never
    made; the task is not stopped, and in no later state is it
    completed. *)
Theorem delivery_exception_aborts :
  exists x,
    run aborted (initial spread) = Some after_exception
    /\ heap after_exception !! 0%nat = Some x
    /\ Task.isStopped x = false /\ Task.total x = 2
    /\ Task.status x = error
    /\ Task.completed x = 0 /\ Task.failed x = 0
    /\ procs after_exception !! 0%nat = Some None
    /\ length (calls after_exception) = 1%nat
    /\ forall evs s', run evs after_exception = Some s' ->
         exists x', heap s' !! 0%nat = Some x'
           /\ Task.status x' <> completed
           /\ Task.completed x' = 0 /\ Task.failed x' = 0
           /\ quiet 0 s'
           /\ forall c, c ∈ calls s' -> c_task c = 0%nat ->
                        c ∈ calls after_exception.
Proof.
  assert (exists x, heap after_exception !! 0%nat = Some x
                    /\ Task.isStopped x = false /\ Task.total x = 2
                    /\ Task.status x = error
                    /\ Task.completed x = 0 /\ Task.failed x = 0)
    as (x & Hx & Hst & Ht & Hs & Hc & Hf)
    by (eexists; repeat split; vm_compute; reflexivity).
  exists x. split; [vm_compute; reflexivity|].
  split; [done|]. split; [done|]. split; [done|]. split; [done|].
  split; [done|]. split; [done|].
  split; [vm_compute; reflexivity|]. split; [vm_compute; reflexivity|].
  intros evs s' Hrun.
  assert (quiet 0 after_exception) as Hquiet.
  { intros pid p Hp. exfalso. revert Hp. vm_compute.
    destruct pid as [|[|pid]]; discriminate. }
  assert (Task.status x <> queued) as Hnq by (by rewrite Hs).
  destruct (dr_idle _ _ (run_drift _ _ _ Hrun) 0%nat x Hx Hnq Hquiet)
    as (x' & Hx' & Hsame & Hq' & Hc').
  exists x'. split; [done|].
  assert (Task.status x' <> completed /\ Task.completed x' = 0
          /\ Task.failed x' = 0) as (H1 & H2 & H3).
  { clear -Hsame Hs Hc Hf. destruct Hsame as [-> | ->];
      cbn [stop Task.status Task.set_status Task.set_isStopped
           Task.completed Task.failed]; rewrite ?Hs; done. }
  split; [exact H1|]. split; [exact H2|]. split; [exact H3|].
  split; [exact Hq' | exact Hc'].
Qed.
